(** * ECS Pac-Man: a shallow embedding of the simulation core

    The development follows the layout of the TypeScript sources:

    - [src/types/components.ts]              component records and enums
    - [src/logic/ecs/Entity.ts]              the entity registry ([EntityManager])
    - [src/logic/ecs/World.ts]               the world container
    - [src/events/index.ts]                  the event bus
    - [src/selectors/*.ts]                   read-only queries
    - [src/logic/systems/*.ts]               the six systems
    - [src/logic/GameController.ts]          the per-tick pipeline

    Conventions of the embedding.

    - JavaScript [number]s that only ever hold counters or grid indices
      (entity ids, score, lives, level, grid coordinates) are [nat] or [Z];
      those that hold pixel coordinates, speeds and millisecond timers are
      exact rationals [Q].  IEEE rounding, NaN and the 2^53 limit of
      [nextId++] are not modelled.
    - [Math.sqrt (dx*dx + dy*dy) < t] is modelled as [dx*dx + dy*dy < t*t]
      (both sides are non-negative).
    - A JavaScript [Set] iterates in insertion order: the live set is a
      duplicate-free list, new members are appended.
    - A component store that was never created behaves, for every registry
      operation, like an empty store; the model keeps one (possibly empty)
      finite map per component type.
    - Closures holding mutable locals (the systems, the controller) become
      records threaded through the [Game] state; [eventBus.dispatch] appends
      to a trace and runs the subscribed handlers synchronously. *)

From Stdlib Require Import ZArith QArith Qround Qabs Lqa Lia Sorted.
From stdpp Require Import base decidable option list gmap.

Open Scope Z_scope.

(* ================================================================== *)
(** * Component types ([src/types/components.ts]) *)
(* ================================================================== *)

Inductive Direction := Up | Down | Left | Right.
Inductive GhostType := blinky | pinky | inky | clyde.
Inductive GhostMode := Chase | Scatter | Frightened | Eaten.
Inductive GameState := Ready | Playing | Paused | Won | Lost | Dying.

Definition EntityId := nat.

Record Position := mkPosition {
  gridX : Z;
  gridY : Z;
  pixelX : Q;
  pixelY : Q
}.

Record Velocity := mkVelocity {
  direction : option Direction;
  speed : Q;
  nextDirection : option Direction
}.

Record GhostAI := mkGhostAI {
  type : GhostType;
  mode : GhostMode;
  scatterTarget : Z * Z
}.

Record Edible := mkEdible { points : Z }.
Record PowerUp := mkPowerUp { duration : Q }.
Record Vulnerable := mkVulnerable { remainingTime : Q; flashing : bool }.
Record Respawnable := mkRespawnable {
  spawnX : Z; spawnY : Z; delay : Q; timer : Q
}.
Inductive PlayerControlled := PlayerTag.
Record Collider := mkCollider { width : Q; height : Q }.

(** [keyof ComponentMap] *)
Inductive ComponentType :=
  | position | velocity | ghostAI | edible | powerUp | vulnerable
  | respawnable | playerControlled | collider.

(** [ComponentMap[T]] *)
Definition ComponentMap (t : ComponentType) : Type :=
  match t with
  | position => Position
  | velocity => Velocity
  | ghostAI => GhostAI
  | edible => Edible
  | powerUp => PowerUp
  | vulnerable => Vulnerable
  | respawnable => Respawnable
  | playerControlled => PlayerControlled
  | collider => Collider
  end.

#[global] Instance Direction_eq_dec : EqDecision Direction.
Proof. solve_decision. Defined.
#[global] Instance GhostType_eq_dec : EqDecision GhostType.
Proof. solve_decision. Defined.
#[global] Instance GhostMode_eq_dec : EqDecision GhostMode.
Proof. solve_decision. Defined.
#[global] Instance GameState_eq_dec : EqDecision GameState.
Proof. solve_decision. Defined.
#[global] Instance ComponentType_eq_dec : EqDecision ComponentType.
Proof. solve_decision. Defined.

(* ================================================================== *)
(** * Entity registry ([src/logic/ecs/Entity.ts]) *)
(* ================================================================== *)

(** [componentStores]: one map per component type. *)
Record ComponentStores := mkStores {
  s_position : gmap nat Position;
  s_velocity : gmap nat Velocity;
  s_ghostAI : gmap nat GhostAI;
  s_edible : gmap nat Edible;
  s_powerUp : gmap nat PowerUp;
  s_vulnerable : gmap nat Vulnerable;
  s_respawnable : gmap nat Respawnable;
  s_playerControlled : gmap nat PlayerControlled;
  s_collider : gmap nat Collider
}.

Definition emptyStores : ComponentStores :=
  mkStores ∅ ∅ ∅ ∅ ∅ ∅ ∅ ∅ ∅.

(** [componentStores.get(type)] *)
Definition getStore (cs : ComponentStores) (t : ComponentType)
  : gmap nat (ComponentMap t) :=
  match t with
  | position => s_position cs
  | velocity => s_velocity cs
  | ghostAI => s_ghostAI cs
  | edible => s_edible cs
  | powerUp => s_powerUp cs
  | vulnerable => s_vulnerable cs
  | respawnable => s_respawnable cs
  | playerControlled => s_playerControlled cs
  | collider => s_collider cs
  end.

(** Replacing the store of one type; the others are untouched. *)
Definition setStore (cs : ComponentStores) (t : ComponentType)
  : gmap nat (ComponentMap t) -> ComponentStores :=
  match t return gmap nat (ComponentMap t) -> ComponentStores with
  | position => fun m =>
      mkStores m (s_velocity cs) (s_ghostAI cs) (s_edible cs) (s_powerUp cs)
        (s_vulnerable cs) (s_respawnable cs) (s_playerControlled cs) (s_collider cs)
  | velocity => fun m =>
      mkStores (s_position cs) m (s_ghostAI cs) (s_edible cs) (s_powerUp cs)
        (s_vulnerable cs) (s_respawnable cs) (s_playerControlled cs) (s_collider cs)
  | ghostAI => fun m =>
      mkStores (s_position cs) (s_velocity cs) m (s_edible cs) (s_powerUp cs)
        (s_vulnerable cs) (s_respawnable cs) (s_playerControlled cs) (s_collider cs)
  | edible => fun m =>
      mkStores (s_position cs) (s_velocity cs) (s_ghostAI cs) m (s_powerUp cs)
        (s_vulnerable cs) (s_respawnable cs) (s_playerControlled cs) (s_collider cs)
  | powerUp => fun m =>
      mkStores (s_position cs) (s_velocity cs) (s_ghostAI cs) (s_edible cs) m
        (s_vulnerable cs) (s_respawnable cs) (s_playerControlled cs) (s_collider cs)
  | vulnerable => fun m =>
      mkStores (s_position cs) (s_velocity cs) (s_ghostAI cs) (s_edible cs)
        (s_powerUp cs) m (s_respawnable cs) (s_playerControlled cs) (s_collider cs)
  | respawnable => fun m =>
      mkStores (s_position cs) (s_velocity cs) (s_ghostAI cs) (s_edible cs)
        (s_powerUp cs) (s_vulnerable cs) m (s_playerControlled cs) (s_collider cs)
  | playerControlled => fun m =>
      mkStores (s_position cs) (s_velocity cs) (s_ghostAI cs) (s_edible cs)
        (s_powerUp cs) (s_vulnerable cs) (s_respawnable cs) m (s_collider cs)
  | collider => fun m =>
      mkStores (s_position cs) (s_velocity cs) (s_ghostAI cs) (s_edible cs)
        (s_powerUp cs) (s_vulnerable cs) (s_respawnable cs) (s_playerControlled cs) m
  end.

(** [for (const store of componentStores.values()) store.delete(id)] *)
Definition deleteFromAll (id : EntityId) (cs : ComponentStores) : ComponentStores :=
  mkStores (delete id (s_position cs)) (delete id (s_velocity cs))
    (delete id (s_ghostAI cs)) (delete id (s_edible cs))
    (delete id (s_powerUp cs)) (delete id (s_vulnerable cs))
    (delete id (s_respawnable cs)) (delete id (s_playerControlled cs))
    (delete id (s_collider cs)).

Record EntityManager := mkEM {
  nextId : EntityId;
  aliveEntities : list EntityId;
  componentStores : ComponentStores
}.

(** [Set.prototype.add]: a new member goes last, a present one stays put. *)
Definition set_add (id : EntityId) (s : list EntityId) : list EntityId :=
  if decide (id ∈ s) then s else s ++ [id].

(** [Set.prototype.delete] *)
Definition set_delete (id : EntityId) (s : list EntityId) : list EntityId :=
  filter (fun x => x ≠ id) s.

(** [Set.prototype.has] *)
Definition set_has (id : EntityId) (s : list EntityId) : bool :=
  bool_decide (id ∈ s).

Definition createEntityManager : EntityManager := mkEM 0%nat [] emptyStores.

Definition createEntity (em : EntityManager) : EntityId * EntityManager :=
  let id := nextId em in
  (id, mkEM (S (nextId em)) (set_add id (aliveEntities em)) (componentStores em)).

Definition isAlive (em : EntityManager) (id : EntityId) : bool :=
  set_has id (aliveEntities em).

Definition destroyEntity (em : EntityManager) (id : EntityId) : EntityManager :=
  if negb (set_has id (aliveEntities em)) then em
  else mkEM (nextId em) (set_delete id (aliveEntities em))
            (deleteFromAll id (componentStores em)).

Definition addComponent (em : EntityManager) (id : EntityId)
    (t : ComponentType) (c : ComponentMap t) : EntityManager :=
  if negb (set_has id (aliveEntities em)) then em
  else mkEM (nextId em) (aliveEntities em)
            (setStore (componentStores em) t
               (<[id := c]> (getStore (componentStores em) t))).

Definition getComponent (em : EntityManager) (id : EntityId)
    (t : ComponentType) : option (ComponentMap t) :=
  getStore (componentStores em) t !! id.

Definition removeComponent (em : EntityManager) (id : EntityId)
    (t : ComponentType) : EntityManager :=
  mkEM (nextId em) (aliveEntities em)
       (setStore (componentStores em) t
          (delete id (getStore (componentStores em) t))).

Definition hasComponent (em : EntityManager) (id : EntityId)
    (t : ComponentType) : bool :=
  match getStore (componentStores em) t !! id with
  | Some _ => true
  | None => false
  end.

Definition getEntitiesWithComponents (em : EntityManager)
    (types : list ComponentType) : list EntityId :=
  filter (fun id => forallb (hasComponent em id) types = true) (aliveEntities em).

Definition getAllEntities (em : EntityManager) : list EntityId :=
  aliveEntities em.

(** [clear]: the live set and every store are emptied; [nextId] stays. *)
Definition clear (em : EntityManager) : EntityManager :=
  mkEM (nextId em) [] emptyStores.

(* ================================================================== *)
(** * World container ([src/logic/ecs/World.ts]) *)
(* ================================================================== *)

Definition DEFAULT_LIVES : Z := 3.

Record World := mkWorld {
  entities : EntityManager;
  initialLives : Z;
  gameState : GameState;
  score : Z;
  lives : Z;
  level : Z;
  powerUpTime : Q;
  deltaTime : Q;
  ghostEatenStreak : nat
}.

Definition createWorld (initial : option Z) : World :=
  let initialLives := default DEFAULT_LIVES initial in
  mkWorld createEntityManager initialLives Ready 0 initialLives 1 0%Q 0%Q 0%nat.

Definition setEntities (w : World) (em : EntityManager) : World :=
  mkWorld em (initialLives w) (gameState w) (score w) (lives w) (level w)
    (powerUpTime w) (deltaTime w) (ghostEatenStreak w).

Definition getGameState (w : World) : GameState := gameState w.
Definition setGameState (w : World) (st : GameState) : World :=
  mkWorld (entities w) (initialLives w) st (score w) (lives w) (level w)
    (powerUpTime w) (deltaTime w) (ghostEatenStreak w).

Definition getScore (w : World) : Z := score w.
Definition addScore (w : World) (pts : Z) : World :=
  if 0 <? pts then
    mkWorld (entities w) (initialLives w) (gameState w) (score w + pts) (lives w)
      (level w) (powerUpTime w) (deltaTime w) (ghostEatenStreak w)
  else w.

Definition getLives (w : World) : Z := lives w.
Definition loseLife (w : World) : World :=
  if 0 <? lives w then
    mkWorld (entities w) (initialLives w) (gameState w) (score w) (lives w - 1)
      (level w) (powerUpTime w) (deltaTime w) (ghostEatenStreak w)
  else w.

Definition getLevel (w : World) : Z := level w.

Definition Qltb (x y : Q) : bool := negb (Qle_bool y x).
Definition Qmax (x y : Q) : Q := if Qle_bool x y then y else x.

Definition getPowerUpTimeRemaining (w : World) : Q := powerUpTime w.
Definition setPowerUpTime (w : World) (t : Q) : World :=
  mkWorld (entities w) (initialLives w) (gameState w) (score w) (lives w)
    (level w) t (deltaTime w) (ghostEatenStreak w).
Definition decreasePowerUpTime (w : World) (delta : Q) : World :=
  setPowerUpTime w (Qmax 0 (powerUpTime w - delta)).
Definition isPowerUpActive (w : World) : bool := Qltb 0 (powerUpTime w).

Definition getDeltaTime (w : World) : Q := deltaTime w.
Definition setDeltaTime (w : World) (dt : Q) : World :=
  mkWorld (entities w) (initialLives w) (gameState w) (score w) (lives w)
    (level w) (powerUpTime w) dt (ghostEatenStreak w).

Definition getGhostEatenStreak (w : World) : nat := ghostEatenStreak w.
Definition incrementGhostEatenStreak (w : World) : World :=
  mkWorld (entities w) (initialLives w) (gameState w) (score w) (lives w)
    (level w) (powerUpTime w) (deltaTime w) (S (ghostEatenStreak w)).
Definition resetGhostEatenStreak (w : World) : World :=
  mkWorld (entities w) (initialLives w) (gameState w) (score w) (lives w)
    (level w) (powerUpTime w) (deltaTime w) 0%nat.

(** [reset]: the registry instance is kept and cleared. *)
Definition reset (w : World) : World :=
  mkWorld (clear (entities w)) (initialLives w) Ready 0 (initialLives w) 1
    0%Q 0%Q 0%nat.

(** Registry calls made through [world.entities]. *)
Definition wAdd (w : World) (id : EntityId) (t : ComponentType)
    (c : ComponentMap t) : World :=
  setEntities w (addComponent (entities w) id t c).
Definition wRemove (w : World) (id : EntityId) (t : ComponentType) : World :=
  setEntities w (removeComponent (entities w) id t).
Definition wDestroy (w : World) (id : EntityId) : World :=
  setEntities w (destroyEntity (entities w) id).
Definition wGet (w : World) (id : EntityId) (t : ComponentType)
  : option (ComponentMap t) :=
  getComponent (entities w) id t.
Definition wHas (w : World) (id : EntityId) (t : ComponentType) : bool :=
  hasComponent (entities w) id t.
Definition wQuery (w : World) (types : list ComponentType) : list EntityId :=
  getEntitiesWithComponents (entities w) types.

Arguments wAdd : simpl never.
Arguments wRemove : simpl never.
Arguments wDestroy : simpl never.
Arguments wGet : simpl never.
Arguments wHas : simpl never.
Arguments wQuery : simpl never.

(* ================================================================== *)
(** * Constants ([src/utils/constants.ts]) *)
(* ================================================================== *)

Definition TILE_SIZE : Q := 20.
Definition MAZE_WIDTH : Z := 28.
Definition MAZE_HEIGHT : Z := 31.
Definition BASE_SPEED : Q := 2.
Definition GHOST_SPEED : Q := BASE_SPEED * (75 # 100).
Definition GHOST_FRIGHTENED_SPEED : Q := BASE_SPEED * (5 # 10).
Definition POWER_WARNING_TIME : Q := 2000.
Definition RESPAWN_DELAY : Q := 1500.

(* ================================================================== *)
(** * Events ([src/types/events.ts]) and the event bus
      ([src/events/index.ts]) *)
(* ================================================================== *)

(** The two values a [game:ghost:mode] payload may carry. *)
Inductive GlobalMode := GChase | GScatter.

Definition modeOfGlobal (m : GlobalMode) : GhostMode :=
  match m with GChase => Chase | GScatter => Scatter end.

(** An event type together with its payload.  A [position] read with the
    non-null assertion [!] is kept as an [option]. *)
Inductive GameEvent :=
  | INPUT_DIRECTION (d : Direction)
  | INPUT_PAUSE
  | INPUT_START
  | INPUT_RESTART
  | GAME_STARTED
  | GAME_PAUSED
  | GAME_RESUMED
  | GAME_OVER (finalScore lvl : Z)
  | GAME_RESTART
  | LEVEL_COMPLETE (lvl sc : Z)
  | PELLET_EATEN (entityId : EntityId) (pos : option Position) (pts : Z)
  | POWER_PELLET_EATEN (entityId : EntityId) (pos : option Position)
      (pts : Z) (dur : Q)
  | GHOST_EATEN (ghostId : EntityId) (ghostType : GhostType) (pts : Z)
      (streak : nat) (pos : option Position)
  | PLAYER_DIED (livesRemaining : Z)
  | PLAYER_RESPAWNED
  | POWER_UP_STARTED (timeRemaining : Q)
  | POWER_UP_WARNING (timeRemaining : Q)
  | POWER_UP_ENDED
  | GHOST_MODE_CHANGE (m : GlobalMode).

(** The closures the repository subscribes to the bus: four by
    [createInputSystem], four by [createGhostAISystem], two by
    [createGameController]. *)
Inductive Handler :=
  | onInputDirection | onInputStart | onInputPause | onInputRestart
  | onGhostModeChange | onPowerUpStarted | onPowerUpEnded | onGhostEaten
  | onGameRestart | onPlayerDied.

#[global] Instance Handler_eq_dec : EqDecision Handler.
Proof. solve_decision. Defined.

(** Closure state of [createInputSystem]. *)
Record InputState := mkInput {
  pendingDirection : option Direction;
  pendingStart : bool;
  pendingPause : bool;
  pendingRestart : bool
}.

(** Closure state of [createGhostAISystem]. *)
Record GhostAIState := mkAI {
  currentGlobalMode : GlobalMode;
  modeJustChanged : bool;
  frightenedActive : bool;
  eatenGhosts : list EntityId
}.

(** Closure state of [createPowerUpSystem]. *)
Record PowerUpState := mkPU {
  wasActive : bool;
  warningDispatched : bool
}.

(** The part of [createGameController]'s closure its two subscriptions write. *)
Record ControllerState := mkCtrl {
  needsReinit : bool;
  respawnTimer : Q
}.

(** Everything one tick can read or write.  [subscribers] lists the bus
    subscriptions in subscription order; [trace] records every [dispatch]
    call, oldest first.  [random k] is the index picked by the [k]-th call of
    [Math.floor (Math.random () * n)], taken modulo [n]. *)
Record Game := mkGame {
  world : World;
  inputSt : InputState;
  aiSt : GhostAIState;
  powerUpSt : PowerUpState;
  ctrlSt : ControllerState;
  subscribers : list Handler;
  trace : list GameEvent;
  random : nat -> nat;
  randomCalls : nat
}.

Definition setWorld (g : Game) (w : World) : Game :=
  mkGame w (inputSt g) (aiSt g) (powerUpSt g) (ctrlSt g) (subscribers g)
    (trace g) (random g) (randomCalls g).
Definition setInputSt (g : Game) (s : InputState) : Game :=
  mkGame (world g) s (aiSt g) (powerUpSt g) (ctrlSt g) (subscribers g)
    (trace g) (random g) (randomCalls g).
Definition setAiSt (g : Game) (s : GhostAIState) : Game :=
  mkGame (world g) (inputSt g) s (powerUpSt g) (ctrlSt g) (subscribers g)
    (trace g) (random g) (randomCalls g).
Definition setPowerUpSt (g : Game) (s : PowerUpState) : Game :=
  mkGame (world g) (inputSt g) (aiSt g) s (ctrlSt g) (subscribers g)
    (trace g) (random g) (randomCalls g).
Definition setCtrlSt (g : Game) (s : ControllerState) : Game :=
  mkGame (world g) (inputSt g) (aiSt g) (powerUpSt g) s (subscribers g)
    (trace g) (random g) (randomCalls g).
Definition logEvent (g : Game) (e : GameEvent) : Game :=
  mkGame (world g) (inputSt g) (aiSt g) (powerUpSt g) (ctrlSt g) (subscribers g)
    (trace g ++ [e]) (random g) (randomCalls g).
Definition tickRandom (g : Game) : Game :=
  mkGame (world g) (inputSt g) (aiSt g) (powerUpSt g) (ctrlSt g) (subscribers g)
    (trace g) (random g) (S (randomCalls g)).
Definition updWorld (f : World -> World) (g : Game) : Game :=
  setWorld g (f (world g)).

(** What a subscribed closure does when the bus calls it with [e]; a closure
    is only ever called with the event type it subscribed to. *)
Definition deliver (h : Handler) (e : GameEvent) (g : Game) : Game :=
  match h, e with
  | onInputDirection, INPUT_DIRECTION d =>
      setInputSt g (mkInput (Some d) (pendingStart (inputSt g))
                      (pendingPause (inputSt g)) (pendingRestart (inputSt g)))
  | onInputStart, INPUT_START =>
      setInputSt g (mkInput (pendingDirection (inputSt g)) true
                      (pendingPause (inputSt g)) (pendingRestart (inputSt g)))
  | onInputPause, INPUT_PAUSE =>
      setInputSt g (mkInput (pendingDirection (inputSt g))
                      (pendingStart (inputSt g)) true (pendingRestart (inputSt g)))
  | onInputRestart, INPUT_RESTART =>
      setInputSt g (mkInput (pendingDirection (inputSt g))
                      (pendingStart (inputSt g)) (pendingPause (inputSt g)) true)
  | onGhostModeChange, GHOST_MODE_CHANGE m =>
      setAiSt g (mkAI m true (frightenedActive (aiSt g)) (eatenGhosts (aiSt g)))
  | onPowerUpStarted, POWER_UP_STARTED _ =>
      setAiSt g (mkAI (currentGlobalMode (aiSt g)) true true (eatenGhosts (aiSt g)))
  | onPowerUpEnded, POWER_UP_ENDED =>
      setAiSt g (mkAI (currentGlobalMode (aiSt g)) true false (eatenGhosts (aiSt g)))
  | onGhostEaten, GHOST_EATEN ghostId _ _ _ _ =>
      setAiSt g (mkAI (currentGlobalMode (aiSt g)) (modeJustChanged (aiSt g))
                   (frightenedActive (aiSt g))
                   (set_add ghostId (eatenGhosts (aiSt g))))
  | onGameRestart, GAME_RESTART =>
      setCtrlSt g (mkCtrl true (respawnTimer (ctrlSt g)))
  | onPlayerDied, PLAYER_DIED livesRemaining =>
      if 0 <? livesRemaining then
        setCtrlSt (updWorld (fun w => setGameState w Dying) g)
          (mkCtrl (needsReinit (ctrlSt g)) RESPAWN_DELAY)
      else g
  | _, _ => g
  end.

(** [eventBus.dispatch]: every subscriber of the event type is called, in
    subscription order. *)
Definition dispatch (e : GameEvent) (g : Game) : Game :=
  fold_left (fun acc h => deliver h e acc) (subscribers g) (logEvent g e).

(* ================================================================== *)
(** * Selectors ([src/selectors]) and component factories
      ([src/logic/components/index.ts]) *)
(* ================================================================== *)

Definition getPlayerEntity (w : World) : option EntityId :=
  head (wQuery w [playerControlled]).

Definition getPlayerPosition (w : World) : option Position :=
  match getPlayerEntity w with
  | None => None
  | Some playerId => wGet w playerId position
  end.

Definition getPlayerDirection (w : World) : option Direction :=
  match getPlayerEntity w with
  | None => None
  | Some playerId =>
      match wGet w playerId velocity with
      | Some v => direction v
      | None => None
      end
  end.

Definition getGhostEntities (w : World) : list EntityId := wQuery w [ghostAI].

Definition getGhostMode (w : World) (ghostId : EntityId) : option GhostMode :=
  match wGet w ghostId ghostAI with
  | Some ai => Some (mode ai)
  | None => None
  end.

Definition getGhostType (w : World) (ghostId : EntityId) : option GhostType :=
  match wGet w ghostId ghostAI with
  | Some ai => Some (type ai)
  | None => None
  end.

Definition isGhostVulnerable (w : World) (ghostId : EntityId) : bool :=
  match wGet w ghostId vulnerable with
  | Some v => Qltb 0 (remainingTime v)
  | None => false
  end.

Definition getAllPellets (w : World) : list EntityId := wQuery w [edible; position].

Definition getRemainingPelletCount (w : World) : nat := length (getAllPellets w).

Definition createVulnerable (remaining : Q) : Vulnerable :=
  mkVulnerable remaining false.

Definition createPosition (gx gy : Z) : Position :=
  mkPosition gx gy (inject_Z gx * TILE_SIZE + TILE_SIZE / 2)
                   (inject_Z gy * TILE_SIZE + TILE_SIZE / 2).

(** Squared form of [Math.sqrt (dx * dx + dy * dy) < threshold]. *)
Definition closerThan (p1 p2 : Position) (threshold : Q) : bool :=
  let dx := (pixelX p1 - pixelX p2)%Q in
  let dy := (pixelY p1 - pixelY p2)%Q in
  Qltb (dx * dx + dy * dy) (threshold * threshold).

(* ================================================================== *)
(** * InputSystem ([src/logic/systems/InputSystem.ts]) *)
(* ================================================================== *)

Definition inputHandleStart (g : Game) : Game :=
  if pendingStart (inputSt g) then
    let g1 := if decide (getGameState (world g) = Ready)
              then updWorld (fun w => setGameState w Playing) g else g in
    setInputSt g1 (mkInput (pendingDirection (inputSt g1)) false
                     (pendingPause (inputSt g1)) (pendingRestart (inputSt g1)))
  else g.

Definition inputHandlePause (g : Game) : Game :=
  if pendingPause (inputSt g) then
    let st := getGameState (world g) in
    let g1 := if decide (st = Playing)
              then updWorld (fun w => setGameState w Paused) g
              else if decide (st = Paused)
                   then updWorld (fun w => setGameState w Playing) g
                   else g in
    setInputSt g1 (mkInput (pendingDirection (inputSt g1))
                     (pendingStart (inputSt g1)) false (pendingRestart (inputSt g1)))
  else g.

Definition inputHandleDirection (g : Game) : Game :=
  match pendingDirection (inputSt g) with
  | Some d =>
      let g1 :=
        match getPlayerEntity (world g) with
        | Some playerId =>
            match wGet (world g) playerId velocity with
            | Some v =>
                updWorld (fun w => wAdd w playerId velocity
                                     (mkVelocity (direction v) (speed v) (Some d))) g
            | None => g
            end
        | None => g
        end in
      setInputSt g1 (mkInput None (pendingStart (inputSt g1))
                       (pendingPause (inputSt g1)) (pendingRestart (inputSt g1)))
  | None => g
  end.

Definition inputUpdate (g : Game) : Game :=
  if pendingRestart (inputSt g) then
    dispatch GAME_RESTART (setInputSt g (mkInput None false false false))
  else
    inputHandleDirection (inputHandlePause (inputHandleStart g)).

(* ================================================================== *)
(** * CollisionSystem ([src/logic/systems/CollisionSystem.ts]) *)
(* ================================================================== *)

Definition COLLISION_THRESHOLD : Q := TILE_SIZE * (8 # 10).

Definition GHOST_POINTS : list Z := [200; 400; 800; 1600].

Definition areColliding (w : World) (entity1 entity2 : EntityId) : bool :=
  match wGet w entity1 position, wGet w entity2 position with
  | Some pos1, Some pos2 => closerThan pos1 pos2 COLLISION_THRESHOLD
  | _, _ => false
  end.

(** The first loop of [update]: ghosts not in eaten mode that touch the
    player, in query order. *)
Definition collidingGhosts (w : World) (playerId : EntityId) : list EntityId :=
  filter (fun ghostId =>
            (if decide (getGhostMode w ghostId = Some Eaten) then false
             else areColliding w playerId ghostId) = true)
         (getGhostEntities w).

(** [GHOST_POINTS[Math.min(streak - 1, GHOST_POINTS.length - 1)]], for the
    streak value read right after its increment. *)
Definition ghostPoints (streak : nat) : Z :=
  nth (Nat.min (streak - 1) (length GHOST_POINTS - 1)) GHOST_POINTS 0.

(** Body of the vulnerable branch. *)
Definition eatGhost (g : Game) (ghostId : EntityId) : Game :=
  let g1 := updWorld incrementGhostEatenStreak g in
  let streak := getGhostEatenStreak (world g1) in
  let pts := ghostPoints streak in
  let ghostType := default blinky (getGhostType (world g1) ghostId) in
  let g2 := updWorld (fun w => addScore w pts) g1 in
  let g3 := updWorld (fun w => wRemove w ghostId vulnerable) g2 in
  let g4 := match wGet (world g3) ghostId ghostAI with
            | Some ai =>
                updWorld (fun w => wAdd w ghostId ghostAI
                            (mkGhostAI (type ai) Eaten (scatterTarget ai))) g3
            | None => g3
            end in
  let ghostPos := wGet (world g4) ghostId position in
  dispatch (GHOST_EATEN ghostId ghostType pts streak ghostPos) g4.

(** Body of the non-vulnerable branch (the loop stops after it). *)
Definition killPlayer (g : Game) : Game :=
  let g1 := updWorld loseLife g in
  let livesRemaining := getLives (world g1) in
  let g2 := dispatch (PLAYER_DIED livesRemaining) g1 in
  if livesRemaining =? 0 then
    let g3 := updWorld (fun w => setGameState w Lost) g2 in
    dispatch (GAME_OVER (getScore (world g3)) (getLevel (world g3))) g3
  else g2.

(** The second loop of [update], with its [break]. *)
Fixpoint processCollisions (ghosts : list EntityId) (g : Game) : Game :=
  match ghosts with
  | [] => g
  | ghostId :: rest =>
      if isGhostVulnerable (world g) ghostId
      then processCollisions rest (eatGhost g ghostId)
      else killPlayer g
  end.

Definition collisionUpdate (g : Game) : Game :=
  if decide (getGameState (world g) = Playing) then
    match getPlayerEntity (world g) with
    | None => g
    | Some playerId =>
        processCollisions (collidingGhosts (world g) playerId) g
    end
  else g.

(* ================================================================== *)
(** * EatingSystem ([src/logic/systems/EatingSystem.ts]) *)
(* ================================================================== *)

Definition EATING_THRESHOLD : Q := TILE_SIZE * (8 # 10).

(** The first loop of [update]. *)
Definition eatenPellets (w : World) (playerPos : Position) : list EntityId :=
  filter (fun pelletId =>
            match wGet w pelletId position with
            | None => false
            | Some pelletPos => closerThan playerPos pelletPos EATING_THRESHOLD
            end = true)
         (getAllPellets w).

(** Body of the second loop. *)
Definition eatPellet (g : Game) (pelletId : EntityId) : Game :=
  let edibleC := wGet (world g) pelletId edible in
  let powerUpC := wGet (world g) pelletId powerUp in
  let pos := wGet (world g) pelletId position in
  let pts := match edibleC with Some e => points e | None => 10 end in
  let g1 := updWorld (fun w => addScore w pts) g in
  let g2 :=
    match powerUpC with
    | Some pu =>
        let dur := duration pu in
        let g' := updWorld (fun w => setPowerUpTime w dur) g1 in
        let g'' := updWorld resetGhostEatenStreak g' in
        dispatch (POWER_UP_STARTED dur)
          (dispatch (POWER_PELLET_EATEN pelletId pos pts dur) g'')
    | None => dispatch (PELLET_EATEN pelletId pos pts) g1
    end in
  updWorld (fun w => wDestroy w pelletId) g2.

Definition eatingUpdate (g : Game) : Game :=
  if decide (getGameState (world g) = Playing) then
    match getPlayerEntity (world g) with
    | None => g
    | Some _ =>
        match getPlayerPosition (world g) with
        | None => g
        | Some playerPos =>
            let eaten := eatenPellets (world g) playerPos in
            let g1 := fold_left eatPellet eaten g in
            if (0 <? length eaten)%nat then
              if (getRemainingPelletCount (world g1) =? 0)%nat then
                let g2 := updWorld (fun w => setGameState w Won) g1 in
                dispatch (LEVEL_COMPLETE (getLevel (world g2)) (getScore (world g2))) g2
              else g1
            else g1
        end
    end
  else g.

(* ================================================================== *)
(** * PowerUpSystem ([src/logic/systems/PowerUpSystem.ts]) *)
(* ================================================================== *)

(** "Power-up just started": every ghost lacking [vulnerable] gets one. *)
Definition makeGhostsVulnerable (t : Q) (w : World) : World :=
  fold_left (fun acc ghostId =>
               if negb (wHas acc ghostId vulnerable)
               then wAdd acc ghostId vulnerable (createVulnerable t)
               else acc)
            (getGhostEntities w) w.

(** "Update ghost vulnerable timers". *)
Definition refreshVulnerable (ghosts : list EntityId) (newTime : Q)
    (shouldFlash : bool) (w : World) : World :=
  fold_left (fun acc ghostId =>
               match wGet acc ghostId vulnerable with
               | Some _ => wAdd acc ghostId vulnerable (mkVulnerable newTime shouldFlash)
               | None => acc
               end)
            ghosts w.

(** "Remove vulnerability from all ghosts". *)
Definition clearVulnerable (ghosts : list EntityId) (w : World) : World :=
  fold_left (fun acc ghostId => wRemove acc ghostId vulnerable) ghosts w.

Definition powerUpStart (powerUpTime0 : Q) (isActive : bool) (g : Game) : Game :=
  if isActive && negb (wasActive (powerUpSt g)) then
    let g1 := updWorld (makeGhostsVulnerable powerUpTime0) g in
    setPowerUpSt g1 (mkPU (wasActive (powerUpSt g1)) false)
  else g.

Definition powerUpTick (dt : Q) (g : Game) : Game :=
  let g1 := updWorld (fun w => decreasePowerUpTime w dt) g in
  let newTime := getPowerUpTimeRemaining (world g1) in
  let ghosts := getGhostEntities (world g1) in
  let shouldFlash := Qle_bool newTime POWER_WARNING_TIME in
  let g2 := updWorld (refreshVulnerable ghosts newTime shouldFlash) g1 in
  let g3 := if shouldFlash && negb (warningDispatched (powerUpSt g2)) then
              let g' := dispatch (POWER_UP_WARNING newTime) g2 in
              setPowerUpSt g' (mkPU (wasActive (powerUpSt g')) true)
            else g2 in
  if Qeq_bool newTime 0 then
    let g4 := updWorld (clearVulnerable ghosts) g3 in
    let g5 := updWorld resetGhostEatenStreak g4 in
    dispatch POWER_UP_ENDED g5
  else g3.

Definition powerUpUpdate (g : Game) : Game :=
  if decide (getGameState (world g) = Playing) then
    let dt := getDeltaTime (world g) in
    let powerUpTime0 := getPowerUpTimeRemaining (world g) in
    let isActive := Qltb 0 powerUpTime0 in
    let g1 := powerUpStart powerUpTime0 isActive g in
    let g2 := if isActive then powerUpTick dt g1 else g1 in
    setPowerUpSt g2 (mkPU (Qltb 0 (getPowerUpTimeRemaining (world g2)))
                       (warningDispatched (powerUpSt g2)))
  else g.

(* ================================================================== *)
(** * Maze data ([src/data/originalMaze.ts]) *)
(* ================================================================== *)

Inductive MazeCellType := Wall | Path | Tunnel | GhostHouse | GhostDoor.

#[global] Instance MazeCellType_eq_dec : EqDecision MazeCellType.
Proof. solve_decision. Defined.

Definition ORIGINAL_MAZE_NUMERIC : list (list Z) :=
  [ [1;1;1;1;1;1;1;1;1;1;1;1;1;1;1;1;1;1;1;1;1;1;1;1;1;1;1;1];
    [1;0;0;0;0;0;0;0;0;0;0;0;0;1;1;0;0;0;0;0;0;0;0;0;0;0;0;1];
    [1;0;1;1;1;1;0;1;1;1;1;1;0;1;1;0;1;1;1;1;1;0;1;1;1;1;0;1];
    [1;3;1;1;1;1;0;1;1;1;1;1;0;1;1;0;1;1;1;1;1;0;1;1;1;1;3;1];
    [1;0;1;1;1;1;0;1;1;1;1;1;0;1;1;0;1;1;1;1;1;0;1;1;1;1;0;1];
    [1;0;0;0;0;0;0;0;0;0;0;0;0;0;0;0;0;0;0;0;0;0;0;0;0;0;0;1];
    [1;0;1;1;1;1;0;1;1;0;1;1;1;1;1;1;1;1;0;1;1;0;1;1;1;1;0;1];
    [1;0;1;1;1;1;0;1;1;0;1;1;1;1;1;1;1;1;0;1;1;0;1;1;1;1;0;1];
    [1;0;0;0;0;0;0;1;1;0;0;0;0;1;1;0;0;0;0;1;1;0;0;0;0;0;0;1];
    [1;1;1;1;1;1;0;1;1;1;1;1;0;1;1;0;1;1;1;1;1;0;1;1;1;1;1;1];
    [1;1;1;1;1;1;0;1;1;1;1;1;0;1;1;0;1;1;1;1;1;0;1;1;1;1;1;1];
    [1;1;1;1;1;1;0;1;1;0;0;0;0;0;0;0;0;0;0;1;1;0;1;1;1;1;1;1];
    [1;1;1;1;1;1;0;1;1;0;1;1;1;5;5;1;1;1;0;1;1;0;1;1;1;1;1;1];
    [1;1;1;1;1;1;0;1;1;0;1;2;2;2;2;2;2;1;0;1;1;0;1;1;1;1;1;1];
    [4;4;4;4;4;4;0;0;0;0;1;2;2;2;2;2;2;1;0;0;0;0;4;4;4;4;4;4];
    [1;1;1;1;1;1;0;1;1;0;1;2;2;2;2;2;2;1;0;1;1;0;1;1;1;1;1;1];
    [1;1;1;1;1;1;0;1;1;0;1;1;1;1;1;1;1;1;0;1;1;0;1;1;1;1;1;1];
    [1;1;1;1;1;1;0;1;1;0;0;0;0;0;0;0;0;0;0;1;1;0;1;1;1;1;1;1];
    [1;1;1;1;1;1;0;1;1;0;1;1;1;1;1;1;1;1;0;1;1;0;1;1;1;1;1;1];
    [1;0;0;0;0;0;0;0;0;0;0;0;0;1;1;0;0;0;0;0;0;0;0;0;0;0;0;1];
    [1;0;1;1;1;1;0;1;1;1;1;1;0;1;1;0;1;1;1;1;1;0;1;1;1;1;0;1];
    [1;0;1;1;1;1;0;1;1;1;1;1;0;1;1;0;1;1;1;1;1;0;1;1;1;1;0;1];
    [1;3;0;0;1;1;0;0;0;0;0;0;0;4;4;0;0;0;0;0;0;0;1;1;0;0;3;1];
    [1;1;1;0;1;1;0;1;1;0;1;1;1;1;1;1;1;1;0;1;1;0;1;1;0;1;1;1];
    [1;1;1;0;1;1;0;1;1;0;1;1;1;1;1;1;1;1;0;1;1;0;1;1;0;1;1;1];
    [1;0;0;0;0;0;0;1;1;0;0;0;0;1;1;0;0;0;0;1;1;0;0;0;0;0;0;1];
    [1;0;1;1;1;1;1;1;1;1;1;1;0;1;1;0;1;1;1;1;1;1;1;1;1;1;0;1];
    [1;0;1;1;1;1;1;1;1;1;1;1;0;1;1;0;1;1;1;1;1;1;1;1;1;1;0;1];
    [1;0;0;0;0;0;0;0;0;0;0;0;0;0;0;0;0;0;0;0;0;0;0;0;0;0;0;1];
    [1;1;1;1;1;1;1;1;1;1;1;1;1;1;1;1;1;1;1;1;1;1;1;1;1;1;1;1];
    [1;1;1;1;1;1;1;1;1;1;1;1;1;1;1;1;1;1;1;1;1;1;1;1;1;1;1;1] ].

Definition convertCell (value : Z) (x y : Z) : MazeCellType :=
  let isTunnelRow := y =? 14 in
  let isTunnelColumn := (x <=? 5) || (22 <=? x) in
  match value with
  | 1 => Wall
  | 2 => GhostHouse
  | 5 => GhostDoor
  | 0 | 3 => Path
  | 4 => if isTunnelRow && isTunnelColumn then Tunnel else Path
  | _ => Path
  end.

Definition ORIGINAL_MAZE : list (list MazeCellType) :=
  imap (fun y row => imap (fun x cell => convertCell cell (Z.of_nat x) (Z.of_nat y)) row)
       ORIGINAL_MAZE_NUMERIC.

(** [maze[y][x]] for in-range integer indices.  The mazes of the sources are
    rectangular; on a row shorter than the first the source would throw at
    [cell.type], which the model does not follow: it yields [None]. *)
Definition cellAt (maze : list (list MazeCellType)) (x y : Z) : option MazeCellType :=
  match maze !! Z.to_nat y with
  | Some row => row !! Z.to_nat x
  | None => None
  end.

Definition mazeHeight (maze : list (list MazeCellType)) : Z :=
  Z.of_nat (length maze).
Definition mazeRowWidth (maze : list (list MazeCellType)) : Z :=
  Z.of_nat (length (default [] (head maze))).

Definition rectangular (maze : list (list MazeCellType)) : bool :=
  forallb (fun row => Z.of_nat (length row) =? mazeRowWidth maze) maze.

(* ================================================================== *)
(** * GhostAISystem ([src/logic/systems/GhostAISystem.ts]) *)
(* ================================================================== *)

Definition SCATTER_TARGETS (t : GhostType) : Z * Z :=
  match t with
  | blinky => (25, 0)
  | pinky => (2, 0)
  | inky => (27, 30)
  | clyde => (0, 30)
  end.

Definition GHOST_HOUSE_TARGET : Z * Z := (13, 14).
Definition CLYDE_DISTANCE_THRESHOLD : Z := 8.
Definition PINKY_AHEAD_TILES : Z := 4.

Definition getOppositeDirection (dir : option Direction) : option Direction :=
  match dir with
  | None => None
  | Some Up => Some Down
  | Some Down => Some Up
  | Some Left => Some Right
  | Some Right => Some Left
  end.

Definition distanceSquared (x1 y1 x2 y2 : Z) : Z :=
  let dx := x2 - x1 in
  let dy := y2 - y1 in
  dx * dx + dy * dy.

Definition ALL_DIRECTIONS : list Direction := [Up; Down; Left; Right].

Definition isWalkableForGhost (x y : Z) : bool :=
  if (y <? 0) || (mazeHeight ORIGINAL_MAZE <=? y) || (x <? 0)
     || (mazeRowWidth ORIGINAL_MAZE <=? x)
  then false
  else match cellAt ORIGINAL_MAZE x y with
       | Some cell => negb (bool_decide (cell = Wall))
       | None => false
       end.

Definition getNextGridPos (x y : Z) (dir : Direction) : Z * Z :=
  match dir with
  | Up => (x, y - 1)
  | Down => (x, y + 1)
  | Left => (x - 1, y)
  | Right => (x + 1, y)
  end.

Definition floorDiv (a b : Q) : Z := Qfloor (a / b).

Definition isAlignedToGrid (px py threshold : Q) : bool :=
  let cellCenterX := (inject_Z (floorDiv px TILE_SIZE) * TILE_SIZE + TILE_SIZE / 2)%Q in
  let cellCenterY := (inject_Z (floorDiv py TILE_SIZE) * TILE_SIZE + TILE_SIZE / 2)%Q in
  Qle_bool (Qabs (px - cellCenterX)) threshold
  && Qle_bool (Qabs (py - cellCenterY)) threshold.

Definition getAvailableDirections (x y : Z) (currentDir : option Direction)
  : list Direction :=
  let opposite := getOppositeDirection currentDir in
  filter (fun dir =>
            (if decide (Some dir = opposite) then false
             else let next := getNextGridPos x y dir in
                  isWalkableForGhost next.1 next.2) = true)
         ALL_DIRECTIONS.

(** The loop over [priorityOrder]; [None] stands for [Infinity]. *)
Definition pickBest (x y targetX targetY : Z) (available : list Direction)
    (acc : Direction * option Z) (dir : Direction) : Direction * option Z :=
  if bool_decide (dir ∈ available) then
    let next := getNextGridPos x y dir in
    let dist := distanceSquared next.1 next.2 targetX targetY in
    match acc.2 with
    | Some bestDist => if dist <? bestDist then (dir, Some dist) else acc
    | None => (dir, Some dist)
    end
  else acc.

Definition chooseDirectionTowardTarget (x y targetX targetY : Z)
    (currentDir : option Direction) : option Direction :=
  let available := getAvailableDirections x y currentDir in
  match available with
  | [] =>
      match getOppositeDirection currentDir with
      | Some opposite =>
          let next := getNextGridPos x y opposite in
          if isWalkableForGhost next.1 next.2 then Some opposite else None
      | None => None
      end
  | [only] => Some only
  | first :: _ =>
      let priorityOrder := [Up; Left; Down; Right] in
      Some (fold_left (pickBest x y targetX targetY available)
                      priorityOrder (first, None)).1
  end.

(** [available[Math.floor(Math.random() * available.length)]]; the call of
    [Math.random] is the next one of the game's random source. *)
Definition chooseRandomDirection (g : Game) (x y : Z)
    (currentDir : option Direction) : option Direction * Game :=
  let available := getAvailableDirections x y currentDir in
  match available with
  | [] => (getOppositeDirection currentDir, g)
  | _ :: _ =>
      (available !! (random g (randomCalls g) mod length available)%nat,
       tickRandom g)
  end.

Definition getGhostByTypeInternal (w : World) (t : GhostType) : option EntityId :=
  head (filter (fun id => match wGet w id ghostAI with
                          | Some ai => bool_decide (type ai = t)
                          | None => false
                          end = true)
               (getGhostEntities w)).

Definition aheadOf (pos : Position) (dir : option Direction) (n : Z) : Z * Z :=
  match dir with
  | Some Up => (gridX pos, gridY pos - n)
  | Some Down => (gridX pos, gridY pos + n)
  | Some Left => (gridX pos - n, gridY pos)
  | Some Right => (gridX pos + n, gridY pos)
  | None => (gridX pos, gridY pos)
  end.

Definition getGhostTarget (w : World) (ghostId : EntityId) : option (Z * Z) :=
  match wGet w ghostId ghostAI with
  | None => None
  | Some ai =>
      let ghostType := type ai in
      match mode ai with
      | Eaten => Some GHOST_HOUSE_TARGET
      | Frightened => None
      | m =>
          if isGhostVulnerable w ghostId then None
          else if bool_decide (m = Scatter) then Some (SCATTER_TARGETS ghostType)
          else
            match getPlayerEntity w, getPlayerPosition w with
            | None, _ | _, None => Some (SCATTER_TARGETS ghostType)
            | Some _, Some playerPos =>
                match ghostType with
                | blinky => Some (gridX playerPos, gridY playerPos)
                | pinky =>
                    match getPlayerDirection w with
                    | Some Up =>
                        Some (gridX playerPos - PINKY_AHEAD_TILES,
                              gridY playerPos - PINKY_AHEAD_TILES)
                    | Some Down =>
                        Some (gridX playerPos, gridY playerPos + PINKY_AHEAD_TILES)
                    | Some Left =>
                        Some (gridX playerPos - PINKY_AHEAD_TILES, gridY playerPos)
                    | Some Right =>
                        Some (gridX playerPos + PINKY_AHEAD_TILES, gridY playerPos)
                    | None => Some (gridX playerPos, gridY playerPos)
                    end
                | inky =>
                    match getGhostByTypeInternal w blinky with
                    | None => Some (gridX playerPos, gridY playerPos)
                    | Some blinkyId =>
                        match wGet w blinkyId position with
                        | None => Some (gridX playerPos, gridY playerPos)
                        | Some blinkyPos =>
                            let i := aheadOf playerPos (getPlayerDirection w) 2 in
                            Some (i.1 + (i.1 - gridX blinkyPos),
                                  i.2 + (i.2 - gridY blinkyPos))
                        end
                    end
                | clyde =>
                    match wGet w ghostId position with
                    | None => Some (SCATTER_TARGETS clyde)
                    | Some ghostPos =>
                        (* Math.sqrt d > 8 on an integer d *)
                        if CLYDE_DISTANCE_THRESHOLD * CLYDE_DISTANCE_THRESHOLD
                           <? distanceSquared (gridX ghostPos) (gridY ghostPos)
                                (gridX playerPos) (gridY playerPos)
                        then Some (gridX playerPos, gridY playerPos)
                        else Some (SCATTER_TARGETS clyde)
                    end
                end
            end
      end
  end.

(** "Determine current mode": the new mode and the pending-eaten set. *)
Definition resolveMode (s : GhostAIState) (isVulnerable : bool)
    (ghostId : EntityId) (pos : Position) : GhostMode * list EntityId :=
  if set_has ghostId (eatenGhosts s) then
    if (13 <=? gridX pos) && (gridX pos <=? 14) && (gridY pos =? 14)
    then (modeOfGlobal (currentGlobalMode s), set_delete ghostId (eatenGhosts s))
    else (Eaten, eatenGhosts s)
  else if isVulnerable then (Frightened, eatenGhosts s)
  else if frightenedActive s then (Frightened, eatenGhosts s)
  else (modeOfGlobal (currentGlobalMode s), eatenGhosts s).

Definition Qneqb (x y : Q) : bool := negb (Qeq_bool x y).

(** The tail of [updateGhost], from "Check if ghost needs to pick a
    direction" on. *)
Definition pickDirection (g : Game) (ghostId : EntityId) (vel : Velocity)
    (pos : Position) (newMode : GhostMode) (newSpeed : Q) : Game :=
  let aligned := isAlignedToGrid (pixelX pos) (pixelY pos) 2 in
  let needsDirection := bool_decide (direction vel = None) || aligned in
  if needsDirection then
    let target := getGhostTarget (world g) ghostId in
    let '(newDirection, g1) :=
      if bool_decide (newMode = Frightened)
      then chooseRandomDirection g (gridX pos) (gridY pos) (direction vel)
      else match target with
           | Some t =>
               (chooseDirectionTowardTarget (gridX pos) (gridY pos) t.1 t.2
                  (direction vel), g)
           | None => chooseRandomDirection g (gridX pos) (gridY pos) (direction vel)
           end in
    if bool_decide (newDirection ≠ None)
       && bool_decide (newDirection ≠ direction vel)
    then updWorld (fun w => wAdd w ghostId velocity
                     (mkVelocity newDirection newSpeed (nextDirection vel))) g1
    else if Qneqb (speed vel) newSpeed
    then updWorld (fun w => wAdd w ghostId velocity
                     (mkVelocity (direction vel) newSpeed (nextDirection vel))) g1
    else g1
  else if Qneqb (speed vel) newSpeed
  then updWorld (fun w => wAdd w ghostId velocity
                   (mkVelocity (direction vel) newSpeed (nextDirection vel))) g
  else g.

Definition updateGhost (g : Game) (ghostId : EntityId) : Game :=
  match wGet (world g) ghostId ghostAI, wGet (world g) ghostId velocity,
        wGet (world g) ghostId position with
  | Some ai, Some vel, Some pos =>
      let isVulnerable := isGhostVulnerable (world g) ghostId in
      let '(newMode, pending) := resolveMode (aiSt g) isVulnerable ghostId pos in
      let g1 := setAiSt g (mkAI (currentGlobalMode (aiSt g)) (modeJustChanged (aiSt g))
                             (frightenedActive (aiSt g)) pending) in
      let g2 := if bool_decide (newMode ≠ mode ai)
                then updWorld (fun w => wAdd w ghostId ghostAI
                                 (mkGhostAI (type ai) newMode (scatterTarget ai))) g1
                else g1 in
      let newSpeed := if isVulnerable then GHOST_FRIGHTENED_SPEED else GHOST_SPEED in
      if modeJustChanged (aiSt g2) && bool_decide (direction vel ≠ None) then
        updWorld (fun w => wAdd w ghostId velocity
                    (mkVelocity (getOppositeDirection (direction vel)) newSpeed
                       (nextDirection vel))) g2
      else pickDirection g2 ghostId vel pos newMode newSpeed
  | _, _, _ => g
  end.

Definition ghostAIUpdate (g : Game) : Game :=
  if decide (getGameState (world g) = Playing) then
    let ghostIds := getGhostEntities (world g) in
    let g1 := fold_left updateGhost ghostIds g in
    setAiSt g1 (mkAI (currentGlobalMode (aiSt g1)) false
                  (frightenedActive (aiSt g1)) (eatenGhosts (aiSt g1)))
  else g.

(* ================================================================== *)
(** * MovementSystem ([src/logic/systems/MovementSystem.ts]) *)
(* ================================================================== *)

Definition TUNNEL_ROW : Z := 14.

(** Width of the maze in pixels, [MAZE_WIDTH * TILE_SIZE]. *)
Definition MAZE_PIXEL_WIDTH : Q := inject_Z MAZE_WIDTH * TILE_SIZE.

Definition isWalkable (maze : list (list MazeCellType)) (gx gy : Z)
    (isPlayer : bool) : bool :=
  if (gy <? 0) || (mazeHeight maze <=? gy) then false
  else if (gx <? 0) || (mazeRowWidth maze <=? gx) then gy =? TUNNEL_ROW
  else match cellAt maze gx gy with
       | Some cell =>
           if bool_decide (cell = Wall) then false
           else if isPlayer && (bool_decide (cell = GhostHouse)
                                || bool_decide (cell = GhostDoor))
           then false
           else true
       | None => false
       end.

Definition cellCenter (g : Z) : Q := (inject_Z g * TILE_SIZE + TILE_SIZE / 2)%Q.

Definition isReverse (cur : option Direction) (nxt : Direction) : bool :=
  match cur, nxt with
  | Some Left, Right | Some Right, Left | Some Up, Down | Some Down, Up => true
  | _, _ => false
  end.

(** The locals [pixelX], [pixelY], [currentDirection], [nextDirection]
    after "Check if we can apply the next direction". *)
Record Turned := mkTurned {
  t_pixelX : Q;
  t_pixelY : Q;
  t_current : option Direction;
  t_next : option Direction
}.

Definition applyNextDirection (maze : list (list MazeCellType)) (isPlayer : bool)
    (pos : Position) (vel : Velocity) : Turned :=
  let px := pixelX pos in
  let py := pixelY pos in
  let gx := floorDiv px TILE_SIZE in
  let gy := floorDiv py TILE_SIZE in
  let keep := mkTurned px py (direction vel) (nextDirection vel) in
  match nextDirection vel with
  | None => keep
  | Some nd =>
      if isReverse (direction vel) nd then mkTurned px py (Some nd) None
      else if isAlignedToGrid px py (TILE_SIZE / 4) then
        let nextPos := getNextGridPos gx gy nd in
        if isWalkable maze nextPos.1 nextPos.2 isPlayer
        then mkTurned (cellCenter gx) (cellCenter gy) (Some nd) None
        else keep
      else keep
  end.

(** [newPixelX], [newPixelY] after the [switch]. *)
Definition tentativeMove (dir : Direction) (px py step : Q) : Q * Q :=
  match dir with
  | Up => (px, (py - step)%Q)
  | Down => (px, (py + step)%Q)
  | Left => ((px - step)%Q, py)
  | Right => ((px + step)%Q, py)
  end.

(** "Handle tunnel wrap-around". *)
Definition tunnelWrap (gy : Z) (newPixelX : Q) : Q :=
  if gy =? TUNNEL_ROW then
    if Qltb newPixelX 0 then (MAZE_PIXEL_WIDTH + newPixelX)%Q
    else if Qle_bool MAZE_PIXEL_WIDTH newPixelX then (newPixelX - MAZE_PIXEL_WIDTH)%Q
    else newPixelX
  else newPixelX.

(** The cell the leading edge would enter. *)
Definition leadingCell (dir : Direction) (gx gy : Z) (newPixelX newPixelY : Q)
  : Z * Z :=
  match dir with
  | Right => (floorDiv (newPixelX + TILE_SIZE / 2 - 1) TILE_SIZE, gy)
  | Left => (floorDiv (newPixelX - TILE_SIZE / 2) TILE_SIZE, gy)
  | Down => (gx, floorDiv (newPixelY + TILE_SIZE / 2 - 1) TILE_SIZE)
  | Up => (gx, floorDiv (newPixelY - TILE_SIZE / 2) TILE_SIZE)
  end.

(** Where a blocked entity is put: flush against the wall. *)
Definition snapToWall (dir : Direction) (gx gy : Z) (px py : Q) : Q * Q :=
  match dir with
  | Right => ((inject_Z (gx + 1) * TILE_SIZE - TILE_SIZE / 2)%Q, py)
  | Left => ((inject_Z gx * TILE_SIZE + TILE_SIZE / 2)%Q, py)
  | Down => (px, (inject_Z (gy + 1) * TILE_SIZE - TILE_SIZE / 2)%Q)
  | Up => (px, (inject_Z gy * TILE_SIZE + TILE_SIZE / 2)%Q)
  end.

Definition clampZ (lo hi x : Z) : Z := Z.max lo (Z.min hi x).

(** One iteration of the loop of [update]; [None] is the [continue] taken
    when the entity has neither a direction nor a queued one. *)
Definition moveEntity (maze : list (list MazeCellType)) (isPlayer : bool)
    (dt : Q) (pos : Position) (vel : Velocity) : option (Position * Velocity) :=
  match direction vel, nextDirection vel with
  | None, None => None
  | _, _ =>
      let gx := floorDiv (pixelX pos) TILE_SIZE in
      let gy := floorDiv (pixelY pos) TILE_SIZE in
      let t := applyNextDirection maze isPlayer pos vel in
      let vel' := mkVelocity (t_current t) (speed vel) (t_next t) in
      match t_current t with
      | None => Some (mkPosition gx gy (t_pixelX t) (t_pixelY t), vel')
      | Some dir =>
          let step := (speed vel * (dt / (1667 # 100)))%Q in
          let raw := tentativeMove dir (t_pixelX t) (t_pixelY t) step in
          let newPixelX := tunnelWrap gy raw.1 in
          let newPixelY := raw.2 in
          let edge := leadingCell dir gx gy newPixelX newPixelY in
          if isWalkable maze edge.1 edge.2 isPlayer then
            Some (mkPosition
                    (clampZ 0 (MAZE_WIDTH - 1) (floorDiv newPixelX TILE_SIZE))
                    (clampZ 0 (mazeHeight maze - 1) (floorDiv newPixelY TILE_SIZE))
                    newPixelX newPixelY, vel')
          else
            let s := snapToWall dir gx gy (t_pixelX t) (t_pixelY t) in
            Some (mkPosition gx gy s.1 s.2, vel')
      end
  end.

Definition moveOne (maze : list (list MazeCellType)) (dt : Q) (w : World)
    (entityId : EntityId) : World :=
  match wGet w entityId position, wGet w entityId velocity with
  | Some pos, Some vel =>
      let isPlayer := wHas w entityId playerControlled in
      match moveEntity maze isPlayer dt pos vel with
      | None => w
      | Some (pos', vel') =>
          wAdd (wAdd w entityId position pos') entityId velocity vel'
      end
  | _, _ => w
  end.

Definition movementUpdate (maze : list (list MazeCellType)) (g : Game) : Game :=
  if decide (getGameState (world g) = Playing) then
    let dt := getDeltaTime (world g) in
    if Qeq_bool dt 0 then g
    else updWorld (fun w => fold_left (moveOne maze dt)
                              (wQuery w [position; velocity]) w) g
  else g.

(* ================================================================== *)
(** * The per-tick pipeline ([src/logic/GameController.ts], [update]) *)
(* ================================================================== *)

(** "Run all systems in order"; the movement system is the one created with
    [ORIGINAL_MAZE]. *)
Definition runSystems (g : Game) : Game :=
  let g1 := inputUpdate g in
  let g2 := ghostAIUpdate g1 in
  let g3 := movementUpdate ORIGINAL_MAZE g2 in
  let g4 := eatingUpdate g3 in
  let g5 := powerUpUpdate g4 in
  collisionUpdate g5.

(* ================================================================== *)
(** * Entity factories ([src/logic/components/entityFactories.ts]) *)
(* ================================================================== *)

Definition createPacmanEntity (w : World) (gx gy : Z) : EntityId * World :=
  let '(id, em) := createEntity (entities w) in
  let w1 := setEntities w em in
  let w2 := wAdd w1 id position (createPosition gx gy) in
  let w3 := wAdd w2 id velocity (mkVelocity None 2 None) in
  let w4 := wAdd w3 id playerControlled PlayerTag in
  (id, wAdd w4 id collider (mkCollider TILE_SIZE TILE_SIZE)).

Definition createGhostEntity (w : World) (t : GhostType) (gx gy : Z)
  : EntityId * World :=
  let '(id, em) := createEntity (entities w) in
  let w1 := setEntities w em in
  let w2 := wAdd w1 id position (createPosition gx gy) in
  let w3 := wAdd w2 id velocity (mkVelocity None (18 # 10) None) in
  let w4 := wAdd w3 id ghostAI (mkGhostAI t Scatter (SCATTER_TARGETS t)) in
  let w5 := wAdd w4 id collider (mkCollider TILE_SIZE TILE_SIZE) in
  (id, wAdd w5 id respawnable (mkRespawnable gx gy 3000 0)).

Definition createPelletEntity (w : World) (gx gy : Z) : EntityId * World :=
  let '(id, em) := createEntity (entities w) in
  let w1 := setEntities w em in
  let w2 := wAdd w1 id position (createPosition gx gy) in
  let w3 := wAdd w2 id edible (mkEdible 10) in
  (id, wAdd w3 id collider (mkCollider TILE_SIZE TILE_SIZE)).

Definition createPowerPelletEntity (w : World) (gx gy : Z) : EntityId * World :=
  let '(id, em) := createEntity (entities w) in
  let w1 := setEntities w em in
  let w2 := wAdd w1 id position (createPosition gx gy) in
  let w3 := wAdd w2 id edible (mkEdible 50) in
  let w4 := wAdd w3 id powerUp (mkPowerUp 6000) in
  (id, wAdd w4 id collider (mkCollider TILE_SIZE TILE_SIZE)).

(** A freshly composed game: systems just created, nothing dispatched yet.
    [subs] is the list of subscriptions on the bus. *)
Definition newGame (w : World) (subs : list Handler) (rnd : nat -> nat) : Game :=
  mkGame w (mkInput None false false false) (mkAI GScatter false false [])
    (mkPU false false) (mkCtrl false 0) subs [] rnd 0%nat.

(** Subscriptions made by the six system constructors
    ([createGameSystems] of the integration tests). *)
Definition systemSubscriptions : list Handler :=
  [onInputDirection; onInputStart; onInputPause; onInputRestart;
   onGhostModeChange; onPowerUpStarted; onPowerUpEnded; onGhostEaten].

(** Subscriptions after [createGameController]. *)
Definition controllerSubscriptions : list Handler :=
  systemSubscriptions ++ [onGameRestart; onPlayerDied].

(* ================================================================== *)
(** * Sequences of registry calls *)
(* ================================================================== *)

(** The calls a client can make on one world and its registry instance. *)
Inductive RegistryCall :=
  | CallCreateEntity
  | CallDestroyEntity (id : EntityId)
  | CallAddComponent (id : EntityId) (t : ComponentType) (c : ComponentMap t)
  | CallRemoveComponent (id : EntityId) (t : ComponentType)
  | CallClear
  | CallWorldReset.

(** One call: the new world and, for [createEntity], the id it returned. *)
Definition call (w : World) (c : RegistryCall) : World * option EntityId :=
  match c with
  | CallCreateEntity =>
      let '(id, em) := createEntity (entities w) in (setEntities w em, Some id)
  | CallDestroyEntity id => (wDestroy w id, None)
  | CallAddComponent id t c => (wAdd w id t c, None)
  | CallRemoveComponent id t => (wRemove w id t, None)
  | CallClear => (setEntities w (clear (entities w)), None)
  | CallWorldReset => (reset w, None)
  end.

(** A session: the final world and the ids [createEntity] returned, oldest
    first. *)
Fixpoint session (w : World) (calls : list RegistryCall) : World * list EntityId :=
  match calls with
  | [] => (w, [])
  | c :: rest =>
      let '(w1, r) := call w c in
      let '(w2, ids) := session w1 rest in
      (w2, match r with Some id => id :: ids | None => ids end)
  end.

(** Events arriving from the input translator between two updates. *)
Definition isInputEvent (e : GameEvent) : bool :=
  match e with
  | INPUT_DIRECTION _ | INPUT_PAUSE | INPUT_START | INPUT_RESTART => true
  | _ => false
  end.

Definition dispatchAll (evs : list GameEvent) (g : Game) : Game :=
  fold_left (fun acc e => dispatch e acc) evs g.

(** The [game:ghost:eaten] event of the [i]-th ghost (counting from 0) eaten
    in a tick entered in world [w] with a streak of [s]. *)
Definition ghostEatenEvent (w : World) (s i : nat) (ghostId : EntityId) : GameEvent :=
  GHOST_EATEN ghostId (default blinky (getGhostType w ghostId))
    (ghostPoints (s + S i)) (s + S i) (wGet w ghostId position).

(** The points carried by the [game:ghost:eaten] events of a trace, in order. *)
Definition ghostEatenPoints (evs : list GameEvent) : list Z :=
  omap (fun e => match e with GHOST_EATEN _ _ pts _ _ => Some pts | _ => None end) evs.

(** The ghosts named by the [game:ghost:eaten] events of a trace, in order. *)
Definition ghostEatenIds (evs : list GameEvent) : list EntityId :=
  omap (fun e => match e with GHOST_EATEN id _ _ _ _ => Some id | _ => None end) evs.

(** The number of [game:player:died] events of a trace. *)
Definition isPlayerDied (e : GameEvent) : bool :=
  match e with PLAYER_DIED _ => true | _ => false end.

Definition deaths (evs : list GameEvent) : nat :=
  length (filter (fun e => isPlayerDied e = true) evs).

(** The events dispatched during a step from [g] to [g']. *)
Definition newEvents (g g' : Game) : list GameEvent :=
  drop (length (trace g)) (trace g').

(* ================================================================== *)
(** * Frame conditions used in the proofs *)
(* ================================================================== *)

(** [w'] differs from [w] at most in its registry and its game state. *)
Definition sameScalars (w w' : World) : Prop :=
  w' = setGameState (setEntities w (entities w')) (gameState w').

(** [g'] differs from [g] at most in the registry contents, the game state
    and the closure state of the input and ghost-AI systems; no entity was
    created or destroyed and nothing was dispatched. *)
Definition sameShell (g g' : Game) : Prop :=
  sameScalars (world g) (world g')
  ∧ aliveEntities (entities (world g')) = aliveEntities (entities (world g))
  ∧ powerUpSt g' = powerUpSt g
  ∧ subscribers g' = subscribers g
  ∧ trace g' = trace g.

(** The events the eating system dispatches while pellets are consumed. *)
Definition isEatingEvent (e : GameEvent) : bool :=
  match e with
  | PELLET_EATEN _ _ _ | POWER_PELLET_EATEN _ _ _ _ | POWER_UP_STARTED _ => true
  | _ => false
  end.

(** Events that are neither a death nor a ghost eaten. *)
Definition isQuietEvent (e : GameEvent) : bool :=
  match e with
  | PLAYER_DIED _ | GHOST_EATEN _ _ _ _ _ => false
  | _ => true
  end.

(* ================================================================== *)
(** * Concrete scenarios *)
(* ================================================================== *)

(** A game in play with [subs] subscribed and nothing pending. *)
Definition playing (w : World) (dt : Q) (subs : list Handler) : Game :=
  newGame (setDeltaTime (setGameState w Playing) dt) subs (fun _ => 0%nat).

(** The scenario of the integration test "should make ghost vulnerable
    before collision when eating power pellet at same position": player,
    blinky and a power pellet on cell (14, 5), one more pellet on (1, 1),
    a 16 ms frame.  Entity ids: player 0, blinky 1, power pellet 2,
    pellet 3. *)
Definition powerPelletOnGhost : Game :=
  let '(_, w1) := createPacmanEntity (createWorld None) 14 5 in
  let '(_, w2) := createGhostEntity w1 blinky 14 5 in
  let '(_, w3) := createPowerPelletEntity w2 14 5 in
  let '(_, w4) := createPelletEntity w3 1 1 in
  playing w4 16 systemSubscriptions.

(** The same scenario without the extra pellet: the power pellet is the last
    edible of the level. *)
Definition lastPowerPelletOnGhost : Game :=
  let '(_, w1) := createPacmanEntity (createWorld None) 14 5 in
  let '(_, w2) := createGhostEntity w1 blinky 14 5 in
  let '(_, w3) := createPowerPelletEntity w2 14 5 in
  playing w3 16 systemSubscriptions.

(** The integration-test scenario with a power-up already running: 3000 ms
    are left of it and the power-up system has seen it active, while blinky
    (back from the ghost house, say) is not vulnerable. *)
Definition secondPowerPelletOnGhost : Game :=
  setPowerUpSt (updWorld (fun w => setPowerUpTime w 3000) powerPelletOnGhost)
    (mkPU true false).

(** The integration-test scenario with a frame as long as the power-up
    lasts, 6000 ms. *)
Definition longFrameOnGhost : Game :=
  updWorld (fun w => setDeltaTime w 6000) powerPelletOnGhost.

(** One ghost standing on cell (14, 14), the cell right of the ghost-house
    target, after it was reported eaten. *)
Definition ghostBesideTarget : Game :=
  let '(ghostId, w) := createGhostEntity (createWorld None) blinky 14 14 in
  setAiSt (playing w 16 systemSubscriptions) (mkAI GScatter false false [ghostId]).

(** The player and three ghosts on cell (14, 5), blinky alone being
    vulnerable.  Entity ids: player 0, blinky 1, pinky 2, inky 3. *)
Definition threeGhostsOnPlayer : Game :=
  let '(_, w1) := createPacmanEntity (createWorld None) 14 5 in
  let '(b, w2) := createGhostEntity w1 blinky 14 5 in
  let '(_, w3) := createGhostEntity w2 pinky 14 5 in
  let '(_, w4) := createGhostEntity w3 inky 14 5 in
  playing (wAdd w4 b vulnerable (createVulnerable 6000)) 16 controllerSubscriptions.

(** The player and the four ghosts on cell (14, 5), all of them vulnerable,
    on a fresh streak.  Entity ids: player 0, ghosts 1 to 4. *)
Definition fourVulnerableGhostsOnPlayer : Game :=
  let '(_, w1) := createPacmanEntity (createWorld None) 14 5 in
  let '(b, w2) := createGhostEntity w1 blinky 14 5 in
  let '(p, w3) := createGhostEntity w2 pinky 14 5 in
  let '(i, w4) := createGhostEntity w3 inky 14 5 in
  let '(c, w5) := createGhostEntity w4 clyde 14 5 in
  let w6 := fold_left (fun w z => wAdd w z vulnerable (createVulnerable 6000))
              [b; p; i; c] w5 in
  playing w6 16 controllerSubscriptions.

(** The player on cell (10, 10) heading up, and pinky (entity 1) chasing. *)
Definition pinkyChasingUp : World :=
  let '(p, w1) := createPacmanEntity (createWorld None) 10 10 in
  let '(k, w2) := createGhostEntity w1 pinky 14 14 in
  let w3 := wAdd w2 p velocity (mkVelocity (Some Up) 2 None) in
  wAdd w3 k ghostAI (mkGhostAI pinky Chase (SCATTER_TARGETS pinky)).

(** The player on cell (10, 10) heading up while the global mode is chase;
    pinky (entity 1), eaten during one power-up and made vulnerable again by
    the next, is still awaited at the ghost house and stands on its arrival
    cell (14, 14). *)
Definition pinkyArrivingVulnerable : Game :=
  let '(p, w1) := createPacmanEntity (createWorld None) 10 10 in
  let '(k, w2) := createGhostEntity w1 pinky 14 14 in
  let w3 := wAdd w2 p velocity (mkVelocity (Some Up) 2 None) in
  let w4 := wAdd w3 k ghostAI (mkGhostAI pinky Eaten (SCATTER_TARGETS pinky)) in
  let w5 := wAdd w4 k vulnerable (createVulnerable 3000) in
  setAiSt (playing w5 16 systemSubscriptions) (mkAI GChase false true [k]).

(** A registry with two entities: 0 holds a position, 1 a position and a
    ghostAI. *)
Definition twoEntities : EntityManager :=
  let '(a, em1) := createEntity createEntityManager in
  let '(b, em2) := createEntity em1 in
  let em3 := addComponent em2 a position (createPosition 1 1) in
  let em4 := addComponent em3 b position (createPosition 2 2) in
  addComponent em4 b ghostAI (mkGhostAI blinky Scatter (SCATTER_TARGETS blinky)).

(** Four inputs arriving between two updates, a restart among them. *)
Definition pendingInputs : list GameEvent :=
  [INPUT_DIRECTION Left; INPUT_PAUSE; INPUT_RESTART; INPUT_START].




(* ================================================================== *)
(** * World container: the remaining setters ([src/logic/ecs/World.ts]) *)
(* ================================================================== *)

Definition addLife (w : World) : World :=
  mkWorld (entities w) (initialLives w) (gameState w) (score w) (lives w + 1)
    (level w) (powerUpTime w) (deltaTime w) (ghostEatenStreak w).

(** The invariant of a registry: the live set has no duplicates, every live
    id was handed out by [createEntity], and only live ids hold components. *)
Definition wellFormed (em : EntityManager) : Prop :=
  NoDup (aliveEntities em)
  ∧ (∀ id, id ∈ aliveEntities em → (id < nextId em)%nat)
  ∧ (∀ id t, hasComponent em id t = true → isAlive em id = true).

(* ================================================================== *)
(** * Selectors: the remaining ones ([src/selectors]) *)
(* ================================================================== *)

(** [playerSelectors.ts] *)
Definition isPlayerAlive (w : World) : bool :=
  match getPlayerEntity w with
  | None => false
  | Some playerId => isAlive (entities w) playerId
  end.

(** [mazeSelectors.ts] *)
Definition getPowerPellets (w : World) : list EntityId :=
  wQuery w [edible; powerUp; position].

(** The loop of [getPelletAt]: the first pellet, in query order, whose
    position component is on the cell. *)
Definition getPelletAt (w : World) (gx gy : Z) : option EntityId :=
  head (filter (fun id => match wGet w id position with
                          | Some p => (gridX p =? gx) && (gridY p =? gy)
                          | None => false
                          end = true)
               (getAllPellets w)).

Definition isPelletAt (w : World) (gx gy : Z) : bool :=
  match getPelletAt w gx gy with Some _ => true | None => false end.

Definition isPowerPelletAt (w : World) (gx gy : Z) : bool :=
  match getPelletAt w gx gy with
  | None => false
  | Some pelletId => wHas w pelletId powerUp
  end.





Definition getGhostByType (w : World) (t : GhostType) : option EntityId :=
  head (filter (fun id => match wGet w id ghostAI with
                          | Some ai => bool_decide (type ai = t)
                          | None => false
                          end = true)
               (getGhostEntities w)).

(* ================================================================== *)
(** * Input events as the input system records them *)
(* ================================================================== *)

(** The subscription of [createInputSystem] an input event reaches. *)
Definition inputHandlerOf (e : GameEvent) : option Handler :=
  match e with
  | INPUT_DIRECTION _ => Some onInputDirection
  | INPUT_START => Some onInputStart
  | INPUT_PAUSE => Some onInputPause
  | INPUT_RESTART => Some onInputRestart
  | _ => None
  end.

(** The pending-input state once that subscription has run. *)
Definition recordInput (e : GameEvent) (s : InputState) : InputState :=
  match e with
  | INPUT_DIRECTION d =>
      mkInput (Some d) (pendingStart s) (pendingPause s) (pendingRestart s)
  | INPUT_START =>
      mkInput (pendingDirection s) true (pendingPause s) (pendingRestart s)
  | INPUT_PAUSE =>
      mkInput (pendingDirection s) (pendingStart s) true (pendingRestart s)
  | INPUT_RESTART =>
      mkInput (pendingDirection s) (pendingStart s) (pendingPause s) true
  | _ => s
  end.

(** No input pending. *)
Definition noInput : InputState := mkInput None false false false.

(** The game state a pause input leads to. *)
Definition togglePause (st : GameState) : GameState :=
  match st with
  | Playing => Paused
  | Paused => Playing
  | _ => st
  end.

(* ================================================================== *)
(** * Ghost steering: distances and the tie-break order *)
(* ================================================================== *)

(** The squared distance to the target from the cell next to (x, y) in
    direction [d], as computed in the loop of [chooseDirectionTowardTarget]. *)
Definition distanceVia (x y targetX targetY : Z) (d : Direction) : Z :=
  let next := getNextGridPos x y d in
  distanceSquared next.1 next.2 targetX targetY.

(** Whether the cell next to (x, y) in direction [d] is open to a ghost. *)
Definition walkableNeighbour (x y : Z) (d : Direction) : bool :=
  let next := getNextGridPos x y d in
  isWalkableForGhost next.1 next.2.

(** The rank of a direction in [priorityOrder]: up, left, down, right. *)
Definition directionPriority (d : Direction) : nat :=
  match d with Up => 0 | Left => 1 | Down => 2 | Right => 3 end.

(** A ghost on the junction (6, 5) of the original maze, heading right. *)
Definition junctionX : Z := 6.
Definition junctionY : Z := 5.

(** The player on cell (10, 10) heading up and the four ghosts on their
    start cells, all chasing.  Entity ids: player 0, blinky 1, pinky 2,
    inky 3, clyde 4. *)
Definition allChasing : World :=
  let '(p, w1) := createPacmanEntity (createWorld None) 10 10 in
  let '(b, w2) := createGhostEntity w1 blinky 14 11 in
  let '(k, w3) := createGhostEntity w2 pinky 14 14 in
  let '(i, w4) := createGhostEntity w3 inky 12 14 in
  let '(c, w5) := createGhostEntity w4 clyde 16 14 in
  let w6 := wAdd w5 p velocity (mkVelocity (Some Up) 2 None) in
  fold_left (fun w '(z, t) => wAdd w z ghostAI (mkGhostAI t Chase (SCATTER_TARGETS t)))
            [(b, blinky); (k, pinky); (i, inky); (c, clyde)] w6.

(* ================================================================== *)
(** * Events as the ghost AI system records them *)
(* ================================================================== *)

(** The subscription of [createGhostAISystem] an event reaches. *)
Definition aiHandlerOf (e : GameEvent) : option Handler :=
  match e with
  | GHOST_MODE_CHANGE _ => Some onGhostModeChange
  | POWER_UP_STARTED _ => Some onPowerUpStarted
  | POWER_UP_ENDED => Some onPowerUpEnded
  | GHOST_EATEN _ _ _ _ _ => Some onGhostEaten
  | _ => None
  end.

(** The closure state of the ghost AI once that subscription has run. *)
Definition recordGhostEvent (e : GameEvent) (s : GhostAIState) : GhostAIState :=
  match e with
  | GHOST_MODE_CHANGE m => mkAI m true (frightenedActive s) (eatenGhosts s)
  | POWER_UP_STARTED _ => mkAI (currentGlobalMode s) true true (eatenGhosts s)
  | POWER_UP_ENDED => mkAI (currentGlobalMode s) true false (eatenGhosts s)
  | GHOST_EATEN ghostId _ _ _ _ =>
      mkAI (currentGlobalMode s) (modeJustChanged s) (frightenedActive s)
        (set_add ghostId (eatenGhosts s))
  | _ => s
  end.

(** The speed [updateGhost] gives a ghost. *)
Definition ghostSpeedFor (isVulnerable : bool) : Q :=
  if isVulnerable then GHOST_FRIGHTENED_SPEED else GHOST_SPEED.

(** Blinky heading right on the junction (6, 5), in play, with the ghost AI
    subscribed.  Entity id 0. *)
Definition blinkyHeadingRight : Game :=
  let '(b, w1) := createGhostEntity (createWorld None) blinky 6 5 in
  let w2 := wAdd w1 b velocity (mkVelocity (Some Right) (18 # 10) None) in
  playing w2 16 systemSubscriptions.

(* ================================================================== *)
(** * Movement: when a queued turn can be made *)
(* ================================================================== *)

(** The test "aligned to the grid and the cell in the queued direction is
    walkable" of the movement loop, for an entity at [pos]. *)
Definition canTurn (maze : list (list MazeCellType)) (isPlayer : bool)
    (pos : Position) (nd : Direction) : bool :=
  let gx := floorDiv (pixelX pos) TILE_SIZE in
  let gy := floorDiv (pixelY pos) TILE_SIZE in
  let nextPos := getNextGridPos gx gy nd in
  isAlignedToGrid (pixelX pos) (pixelY pos) (TILE_SIZE / 4)
  && isWalkable maze nextPos.1 nextPos.2 isPlayer.

(** The player three pixels right of the centre of cell (6, 5), heading
    right towards the wall-free corridor, with a turn up queued. *)
Definition turningPlayer : Position * Velocity :=
  (mkPosition 6 5 133 110, mkVelocity (Some Right) 2 (Some Up)).

(** The player in the centre of cell (1, 1), heading left into the wall. *)
Definition playerAtWall : Position * Velocity :=
  (createPosition 1 1, mkVelocity (Some Left) 2 None).

(** A game in play, 16 ms frames, whose only entity (id 0) is the player,
    placed and moving as given. *)
Definition playerAlone (pv : Position * Velocity) : Game :=
  let '(p, w1) := createPacmanEntity (createWorld None) 1 1 in
  let w2 := wAdd w1 p position pv.1 in
  let w3 := wAdd w2 p velocity pv.2 in
  playing w3 16 systemSubscriptions.

(* ================================================================== *)
(** * Eating: what one pellet yields *)
(* ================================================================== *)

(** [edible?.points ?? 10] *)
Definition pelletPoints (w : World) (pelletId : EntityId) : Z :=
  match wGet w pelletId edible with Some e => points e | None => 10 end.

(** The events dispatched for one eaten pellet, as read in world [w]. *)
Definition pelletEvents (w : World) (pelletId : EntityId) : list GameEvent :=
  match wGet w pelletId powerUp with
  | Some pu =>
      [POWER_PELLET_EATEN pelletId (wGet w pelletId position)
         (pelletPoints w pelletId) (duration pu);
       POWER_UP_STARTED (duration pu)]
  | None =>
      [PELLET_EATEN pelletId (wGet w pelletId position) (pelletPoints w pelletId)]
  end.

(** The sum of a list of integers. *)
Definition sumZ (l : list Z) : Z := foldr Z.add 0 l.

(** The player on cell (1, 1) of a level whose two pellets, on (1, 1) and
    (1, 2), are both within reach (the threshold is 16 pixels, cell centres
    are 20 pixels apart: the second is moved 5 pixels up).  Entity ids:
    player 0, pellets 1 and 2. *)
Definition lastTwoPellets : Game :=
  let '(_, w1) := createPacmanEntity (createWorld None) 1 1 in
  let '(_, w2) := createPelletEntity w1 1 1 in
  let '(q, w3) := createPelletEntity w2 1 2 in
  playing (wAdd w3 q position (mkPosition 1 2 30 45)) 16 systemSubscriptions.

(* ================================================================== *)
(** * Power-up: a running power-up *)
(* ================================================================== *)

(** A game in play, 16 ms frames, with [t] ms of power-up left, a blinky
    (entity id 0) that is vulnerable for as long, and the power-up system
    in state [st]. *)
Definition poweredUp (t : Q) (st : PowerUpState) : Game :=
  let '(b, w1) := createGhostEntity (createWorld None) blinky 14 11 in
  let w2 := wAdd w1 b vulnerable (createVulnerable t) in
  setPowerUpSt (playing (setPowerUpTime w2 t) 16 systemSubscriptions) st.

(* ================================================================== *)
(** * Level data ([src/data/originalMaze.ts], [src/utils/constants.ts]) *)
(* ================================================================== *)

Definition SCATTER_DURATION : Q := 7000.
Definition CHASE_DURATION : Q := 20000.

Definition POWER_PELLET_POSITIONS : list (Z * Z) :=
  [(1, 3); (26, 3); (1, 22); (26, 22)].

Definition PACMAN_START : Z * Z := (14, 22).

Definition GHOST_START_POSITIONS (t : GhostType) : Z * Z :=
  match t with
  | blinky => (14, 11)
  | pinky => (14, 14)
  | inky => (12, 14)
  | clyde => (16, 14)
  end.

(** The cells of value 0 that are not power-pellet positions, row by row. *)
Definition PELLET_POSITIONS : list (Z * Z) :=
  concat
    (imap (fun y row =>
             omap (fun p => p)
               (imap (fun x cell =>
                        let pos := (Z.of_nat x, Z.of_nat y) in
                        if (cell =? 0) && negb (bool_decide (pos ∈ POWER_PELLET_POSITIONS))
                        then Some pos else None)
                     row))
          ORIGINAL_MAZE_NUMERIC).

(* ================================================================== *)
(** * GameController ([src/logic/GameController.ts]) *)
(* ================================================================== *)

(** [Map.prototype.set] and [Map.prototype.get] on the [ghostIds] map, kept
    in insertion order. *)
Fixpoint mapSet (m : list (GhostType * EntityId)) (k : GhostType) (v : EntityId)
  : list (GhostType * EntityId) :=
  match m with
  | [] => [(k, v)]
  | (k', v') :: rest => if decide (k' = k) then (k, v) :: rest
                        else (k', v') :: mapSet rest k v
  end.

Fixpoint mapGet (m : list (GhostType * EntityId)) (k : GhostType) : option EntityId :=
  match m with
  | [] => None
  | (k', v') :: rest => if decide (k' = k) then Some v' else mapGet rest k
  end.

(** The controller: the game its systems and subscriptions act on (which
    holds [needsReinit] and [respawnTimer]) and the rest of the closure. *)
Record Controller := mkController {
  game : Game;
  modeTimer : Q;
  isScatterMode : bool;
  ghostIds : list (GhostType * EntityId)
}.

Definition setGame (c : Controller) (g : Game) : Controller :=
  mkController g (modeTimer c) (isScatterMode c) (ghostIds c).

Definition createGameController (rnd : nat -> nat) : Controller :=
  mkController (newGame (createWorld None) controllerSubscriptions rnd) 0 true [].

Definition ALL_GHOST_TYPES : list GhostType := [blinky; pinky; inky; clyde].

(** Body of the loop of [resetPositions]. *)
Definition resetGhost (ids : list (GhostType * EntityId)) (w : World)
    (t : GhostType) : World :=
  match mapGet ids t with
  | Some ghostId =>
      let pos := GHOST_START_POSITIONS t in
      let w1 := wAdd w ghostId position (createPosition pos.1 pos.2) in
      let w2 := wAdd w1 ghostId velocity (mkVelocity None 0 None) in
      let w3 := match wGet w2 ghostId ghostAI with
                | Some ai => wAdd w2 ghostId ghostAI
                               (mkGhostAI (type ai) Scatter (scatterTarget ai))
                | None => w2
                end in
      wRemove w3 ghostId vulnerable
  | None => w
  end.

Definition resetPositions (c : Controller) : Controller :=
  let w := world (game c) in
  let w1 := match getPlayerEntity w with
            | Some playerId =>
                let w' := wAdd w playerId position
                            (createPosition PACMAN_START.1 PACMAN_START.2) in
                wAdd w' playerId velocity (mkVelocity None 0 None)
            | None => w
            end in
  let w2 := fold_left (resetGhost (ghostIds c)) ALL_GHOST_TYPES w1 in
  let w3 := resetGhostEatenStreak (setPowerUpTime w2 0) in
  mkController (setWorld (game c) w3) 0 true (ghostIds c).

(** Body of the ghost loop of [init]. *)
Definition initGhost (acc : World * list (GhostType * EntityId)) (t : GhostType)
  : World * list (GhostType * EntityId) :=
  let pos := GHOST_START_POSITIONS t in
  let '(ghostId, w') := createGhostEntity acc.1 t pos.1 pos.2 in
  (w', mapSet acc.2 t ghostId).

(** [init], for given lists of pellet and power-pellet positions. *)
Definition initWith (pellets powerPellets : list (Z * Z)) (c : Controller)
  : Controller :=
  let w0 := reset (world (game c)) in
  let w1 := (createPacmanEntity w0 PACMAN_START.1 PACMAN_START.2).2 in
  let '(w2, ids) := fold_left initGhost ALL_GHOST_TYPES (w1, []) in
  let w3 := fold_left (fun w pos => (createPelletEntity w pos.1 pos.2).2)
              pellets w2 in
  let w4 := fold_left (fun w pos => (createPowerPelletEntity w pos.1 pos.2).2)
              powerPellets w3 in
  mkController (setWorld (game c) (setGameState w4 Ready)) 0 true ids.

Definition init (c : Controller) : Controller :=
  initWith PELLET_POSITIONS POWER_PELLET_POSITIONS c.

(** The mode-switching timer of [update]. *)
Definition updateModeTimer (dt : Q) (c : Controller) : Controller :=
  if bool_decide (getGameState (world (game c)) = Playing)
     && negb (isPowerUpActive (world (game c))) then
    let t := (modeTimer c + dt)%Q in
    let currentDuration := if isScatterMode c then SCATTER_DURATION
                           else CHASE_DURATION in
    if Qle_bool currentDuration t then
      let scatter := negb (isScatterMode c) in
      mkController
        (dispatch (GHOST_MODE_CHANGE (if scatter then GScatter else GChase)) (game c))
        0 scatter (ghostIds c)
    else mkController (game c) t (isScatterMode c) (ghostIds c)
  else c.

Definition controllerUpdate (dt : Q) (c : Controller) : Controller :=
  if needsReinit (ctrlSt (game c)) then
    init (setGame c (setCtrlSt (game c) (mkCtrl false (respawnTimer (ctrlSt (game c))))))
  else
    let c1 := setGame c (updWorld (fun w => setDeltaTime w dt) (game c)) in
    if decide (getGameState (world (game c1)) = Dying) then
      let timer := (respawnTimer (ctrlSt (game c1)) - dt)%Q in
      let c2 := setGame c1 (setCtrlSt (game c1)
                              (mkCtrl (needsReinit (ctrlSt (game c1))) timer)) in
      if Qle_bool timer 0 then
        let c3 := resetPositions c2 in
        setGame c3 (updWorld (fun w => setGameState w Playing) (game c3))
      else c2
    else
      let c2 := updateModeTimer dt c1 in
      setGame c2 (runSystems (game c2)).

Definition start (c : Controller) : Controller :=
  if decide (getGameState (world (game c)) = Ready) then
    setGame c (dispatch GAME_STARTED
                 (updWorld (fun w => setGameState w Playing) (game c)))
  else c.

Definition pause (c : Controller) : Controller :=
  if decide (getGameState (world (game c)) = Playing) then
    setGame c (dispatch GAME_PAUSED
                 (updWorld (fun w => setGameState w Paused) (game c)))
  else c.

Definition resume (c : Controller) : Controller :=
  if decide (getGameState (world (game c)) = Paused) then
    setGame c (dispatch GAME_RESUMED
                 (updWorld (fun w => setGameState w Playing) (game c)))
  else c.

(* ================================================================== *)
(** * Spawning: what an entity factory leaves behind *)
(* ================================================================== *)

(** A table of components, one optional entry per type. *)
Definition Components : Type := ∀ t : ComponentType, option (ComponentMap t).

Definition noComps : Components := fun _ => None.

Definition withComp (cs : Components) (t : ComponentType) (c : ComponentMap t)
  : Components :=
  fun t' => match decide (t = t') with
            | left e => Some (eq_rect t ComponentMap c t' e)
            | right _ => cs t'
            end.

Definition hasAll (cs : Components) (ts : list ComponentType) : bool :=
  forallb (fun t => bool_decide (is_Some (cs t))) ts.

(** [w'] is [w] with one more entity, of the next free id, that carries
    exactly the components [cs]; nothing else differs. *)
Definition spawned (w w' : World) (cs : Components) : Prop :=
  let id := nextId (entities w) in
  wellFormed (entities w')
  ∧ sameScalars w w'
  ∧ gameState w' = gameState w
  ∧ nextId (entities w') = S id
  ∧ aliveEntities (entities w') = aliveEntities (entities w) ++ [id]
  ∧ (∀ z t, z ≠ id → wGet w' z t = wGet w z t)
  ∧ (∀ t, wGet w' id t = cs t).

Definition pacmanComps (gx gy : Z) : Components :=
  withComp (withComp (withComp (withComp noComps
    position (createPosition gx gy))
    velocity (mkVelocity None 2 None))
    playerControlled PlayerTag)
    collider (mkCollider TILE_SIZE TILE_SIZE).

Definition ghostComps (t : GhostType) (gx gy : Z) : Components :=
  withComp (withComp (withComp (withComp (withComp noComps
    position (createPosition gx gy))
    velocity (mkVelocity None (18 # 10) None))
    ghostAI (mkGhostAI t Scatter (SCATTER_TARGETS t)))
    collider (mkCollider TILE_SIZE TILE_SIZE))
    respawnable (mkRespawnable gx gy 3000 0).

Definition pelletComps (gx gy : Z) : Components :=
  withComp (withComp (withComp noComps
    position (createPosition gx gy))
    edible (mkEdible 10))
    collider (mkCollider TILE_SIZE TILE_SIZE).

Definition powerPelletComps (gx gy : Z) : Components :=
  withComp (withComp (withComp (withComp noComps
    position (createPosition gx gy))
    edible (mkEdible 50))
    powerUp (mkPowerUp 6000))
    collider (mkCollider TILE_SIZE TILE_SIZE).

(** A controller on which a restart has been requested: [needsReinit] is
    set, nothing else has happened yet. *)
Definition restartRequested : Controller :=
  let c := createGameController (fun _ => 0%nat) in
  setGame c (setCtrlSt (game c) (mkCtrl true 0)).

(** The controller after [init], started, with the player just killed and
    1500 ms of respawn delay to wait; the player has moved to cell (6, 5)
    and blinky, frightened, to cell (6, 6). *)
Definition dyingController : Controller :=
  let c := init (createGameController (fun _ => 0%nat)) in
  let w1 := wAdd (world (game c)) 0%nat position (createPosition 6 5) in
  let w2 := wAdd w1 1%nat position (createPosition 6 6) in
  let w3 := wAdd w2 1%nat vulnerable (createVulnerable 3000) in
  let g := setWorld (game c) (setGameState (setPowerUpTime w3 3000) Dying) in
  setGame c (setCtrlSt g (mkCtrl false 1500)).

(** One step of the ghost loop of [init], and the components it gives. *)
Definition ghostStep (w : World) (t : GhostType) : World :=
  (createGhostEntity w t (GHOST_START_POSITIONS t).1 (GHOST_START_POSITIONS t).2).2.

Definition ghostStartComps (t : GhostType) : Components :=
  ghostComps t (GHOST_START_POSITIONS t).1 (GHOST_START_POSITIONS t).2.

(** The component types [resetPositions] writes, and the ghostAI it leaves. *)
Definition resetTouched (t : ComponentType) : Prop :=
  t = position ∨ t = velocity ∨ t = ghostAI ∨ t = vulnerable.

Definition scatterOf (ai : option GhostAI) : option GhostAI :=
  match ai with
  | Some ai => Some (mkGhostAI (type ai) Scatter (scatterTarget ai))
  | None => None
  end.


(* ================================================================== *)
(** * Properties of the entity registry *)
(* ================================================================== *)

Section Registry.

Implicit Types (em : EntityManager) (id : EntityId) (t : ComponentType).

Lemma set_has_true id (s : list EntityId) : set_has id s = true ↔ id ∈ s.
Proof. unfold set_has. apply bool_decide_eq_true. Qed.

Lemma set_has_false id (s : list EntityId) : set_has id s = false ↔ id ∉ s.
Proof. unfold set_has. apply bool_decide_eq_false. Qed.

Lemma elem_of_set_delete id x (s : list EntityId) :
  x ∈ set_delete id s ↔ x ≠ id ∧ x ∈ s.
Proof. unfold set_delete. by rewrite list_elem_of_filter. Qed.

Lemma NoDup_set_add id (s : list EntityId) : NoDup s → NoDup (set_add id s).
Proof.
  intros Hs. unfold set_add. case_decide as Hin; [done|].
  apply NoDup_app. split_and!; [done| |apply NoDup_singleton].
  intros x Hx Hx'. apply list_elem_of_singleton in Hx'. by subst.
Qed.

Lemma NoDup_set_delete id (s : list EntityId) : NoDup s → NoDup (set_delete id s).
Proof. apply NoDup_filter. Qed.

Lemma hasComponent_true em id t :
  hasComponent em id t = true ↔ is_Some (getComponent em id t).
Proof.
  unfold hasComponent, getComponent.
  destruct (getStore _ t !! id); split; intros H; try done; by destruct H.
Qed.

Lemma getStore_setStore_eq cs t (m : gmap nat (ComponentMap t)) :
  getStore (setStore cs t m) t = m.
Proof. by destruct t. Qed.

Lemma getStore_setStore_ne cs t t' (m : gmap nat (ComponentMap t)) :
  t ≠ t' → getStore (setStore cs t m) t' = getStore cs t'.
Proof. by destruct t, t'. Qed.

Lemma getStore_deleteFromAll cs id t :
  getStore (deleteFromAll id cs) t = delete id (getStore cs t).
Proof. by destruct t. Qed.

Lemma getComponent_destroy_same em id t :
  isAlive em id = true → getComponent (destroyEntity em id) id t = None.
Proof.
  unfold isAlive, destroyEntity, getComponent. intros ->. simpl.
  rewrite getStore_deleteFromAll. apply lookup_delete_eq.
Qed.

Lemma getComponent_destroy_other em id id' t :
  id' ≠ id → getComponent (destroyEntity em id) id' t = getComponent em id' t.
Proof.
  intros Hne. unfold destroyEntity, getComponent.
  destruct (set_has id (aliveEntities em)); simpl; [|done].
  rewrite getStore_deleteFromAll. by apply lookup_delete_ne.
Qed.

Lemma isAlive_destroy_same em id : isAlive (destroyEntity em id) id = false.
Proof.
  unfold isAlive, destroyEntity.
  destruct (set_has id (aliveEntities em)) eqn:E; simpl; [|done].
  apply set_has_false. rewrite elem_of_set_delete. intros [Hne _]. by apply Hne.
Qed.

Lemma isAlive_destroy_other em id id' :
  id' ≠ id → isAlive (destroyEntity em id) id' = isAlive em id'.
Proof.
  intros Hne. unfold isAlive, destroyEntity.
  destruct (set_has id (aliveEntities em)) eqn:E; simpl; [|done].
  unfold set_has. apply bool_decide_ext. rewrite elem_of_set_delete.
  split; [by intros [_ ?]|by split].
Qed.

Lemma alive_addComponent em id t (c : ComponentMap t) :
  aliveEntities (addComponent em id t c) = aliveEntities em.
Proof. unfold addComponent. by destruct (negb _). Qed.

Lemma getComponent_add_same em id t (c : ComponentMap t) :
  isAlive em id = true → getComponent (addComponent em id t c) id t = Some c.
Proof.
  unfold isAlive, addComponent, getComponent. intros ->. simpl.
  rewrite getStore_setStore_eq. apply lookup_insert_eq.
Qed.

Lemma getComponent_add_other_id em id id' t t' (c : ComponentMap t) :
  id' ≠ id → getComponent (addComponent em id t c) id' t' = getComponent em id' t'.
Proof.
  intros Hne. unfold addComponent, getComponent.
  destruct (set_has id (aliveEntities em)); simpl; [|done].
  destruct (decide (t = t')) as [<-|Ht].
  - rewrite getStore_setStore_eq. by apply lookup_insert_ne.
  - by rewrite getStore_setStore_ne.
Qed.

Lemma getComponent_add_other_type em id id' t t' (c : ComponentMap t) :
  t ≠ t' → getComponent (addComponent em id t c) id' t' = getComponent em id' t'.
Proof.
  intros Hne. unfold addComponent, getComponent.
  destruct (set_has id (aliveEntities em)); simpl; [|done].
  by rewrite getStore_setStore_ne.
Qed.

Lemma getComponent_remove_same em id t :
  getComponent (removeComponent em id t) id t = None.
Proof.
  unfold removeComponent, getComponent. simpl.
  rewrite getStore_setStore_eq. apply lookup_delete_eq.
Qed.

Lemma getComponent_remove_other_id em id id' t t' :
  id' ≠ id → getComponent (removeComponent em id t) id' t' = getComponent em id' t'.
Proof.
  intros Hne. unfold removeComponent, getComponent. simpl.
  destruct (decide (t = t')) as [<-|Ht].
  - rewrite getStore_setStore_eq. by apply lookup_delete_ne.
  - by rewrite getStore_setStore_ne.
Qed.

Lemma getComponent_remove_other_type em id id' t t' :
  t ≠ t' → getComponent (removeComponent em id t) id' t' = getComponent em id' t'.
Proof.
  intros Hne. unfold removeComponent, getComponent. simpl.
  by rewrite getStore_setStore_ne.
Qed.

Lemma elem_of_query em id (types : list ComponentType) :
  id ∈ getEntitiesWithComponents em types
  ↔ id ∈ aliveEntities em ∧ ∀ t, t ∈ types → hasComponent em id t = true.
Proof.
  unfold getEntitiesWithComponents. rewrite list_elem_of_filter.
  rewrite forallb_forall. split; intros [H1 H2]; split; try done.
  - intros t Ht. apply H1. by apply list_elem_of_In.
  - intros t Ht. apply H2. by apply list_elem_of_In.
Qed.

Lemma NoDup_query em (types : list ComponentType) :
  NoDup (aliveEntities em) → NoDup (getEntitiesWithComponents em types).
Proof. apply NoDup_filter. Qed.

End Registry.

(** [C6] Query correctness.  For every entity [E] and every list [S] of
    component types, [getEntitiesWithComponents S] contains [E] exactly when
    [E] is alive and [hasComponent E t] holds for every [t] of [S].  Nothing
    is claimed about the order of the result. *)
Theorem query_correct (em : EntityManager) (E : EntityId) (S : list ComponentType) :
  E ∈ getEntitiesWithComponents em S
  ↔ isAlive em E = true ∧ ∀ t, t ∈ S → hasComponent em E t = true.
Proof.
  rewrite elem_of_query. unfold isAlive. by rewrite set_has_true.
Qed.

(** An instance: entity 1 of [twoEntities] answers the query for position
    and ghostAI. *)
Lemma query_correct_witness :
  1%nat ∈ getEntitiesWithComponents twoEntities [position; ghostAI].
Proof.
  apply (query_correct twoEntities 1%nat [position; ghostAI]).
  split; [reflexivity|].
  intros t Ht.
  apply elem_of_cons in Ht as [->|Ht]; [reflexivity|].
  apply list_elem_of_singleton in Ht as ->. reflexivity.
Defined.

(** [C7] Idempotent destroy.  [destroyEntity] is a total function (it cannot
    throw).  On an id that is not alive (destroyed earlier or never created)
    it returns the registry unchanged: same live set, same stores, same
    [nextId]; in particular destroying twice is destroying once.  On a live
    id it removes the id from the live set and purges its entry from every
    component store, leaving [nextId] and all other entities alone. *)
Theorem destroyEntity_idempotent (em : EntityManager) (id : EntityId) :
  (isAlive em id = false → destroyEntity em id = em)
  ∧ destroyEntity (destroyEntity em id) id = destroyEntity em id
  ∧ (isAlive em id = true →
       isAlive (destroyEntity em id) id = false
       ∧ (∀ t, getComponent (destroyEntity em id) id t = None)
       ∧ (∀ t, hasComponent (destroyEntity em id) id t = false)
       ∧ nextId (destroyEntity em id) = nextId em
       ∧ ∀ id', id' ≠ id →
           isAlive (destroyEntity em id) id' = isAlive em id'
           ∧ ∀ t, getComponent (destroyEntity em id) id' t = getComponent em id' t).
Proof.
  assert (Hnot : ∀ em', isAlive em' id = false → destroyEntity em' id = em').
  { intros em' H. unfold isAlive in H. unfold destroyEntity. by rewrite H. }
  split_and!.
  - apply Hnot.
  - apply Hnot, isAlive_destroy_same.
  - intros Halive. split_and!.
    + apply isAlive_destroy_same.
    + intros t. by apply getComponent_destroy_same.
    + intros t. unfold hasComponent.
      pose proof (getComponent_destroy_same em id t Halive) as H.
      unfold getComponent in H. by rewrite H.
    + unfold destroyEntity. by destruct (set_has id (aliveEntities em)).
    + intros id' Hne. split.
      * by apply isAlive_destroy_other.
      * intros t. by apply getComponent_destroy_other.
Qed.

(** An instance on [twoEntities]: id 7 was never created, id 1 is alive. *)
Lemma destroyEntity_idempotent_witness :
  destroyEntity twoEntities 7%nat = twoEntities
  ∧ isAlive (destroyEntity twoEntities 1%nat) 1%nat = false
  ∧ getComponent (destroyEntity twoEntities 1%nat) 1%nat ghostAI = None.
Proof.
  split.
  - apply (proj1 (destroyEntity_idempotent twoEntities 7%nat)). reflexivity.
  - destruct (proj2 (proj2 (destroyEntity_idempotent twoEntities 1%nat)) eq_refl)
      as (H1 & H2 & _).
    split; [exact H1|exact (H2 ghostAI)].
Defined.

Section Sessions.

Lemma nextId_call w c :
  (nextId (entities w) ≤ nextId (entities (call w c).1))%nat
  ∧ ∀ id, (call w c).2 = Some id →
      id = nextId (entities w)
      ∧ nextId (entities (call w c).1) = S (nextId (entities w)).
Proof.
  destruct c; simpl; try (split; [lia|done]).
  - split; [lia|]. by intros id [= <-].
  - split; [|done]. unfold destroyEntity.
    destruct (negb _); simpl; lia.
  - split; [|done]. unfold addComponent.
    destruct (negb _); simpl; lia.
Qed.

Lemma session_ids_bounded calls : ∀ w,
  Forall (fun id => nextId (entities w) ≤ id)%nat (session w calls).2.
Proof.
  induction calls as [|c rest IH]; intros w; simpl; [constructor|].
  destruct (call w c) as [w1 r] eqn:Ec.
  destruct (session w1 rest) as [w2 ids] eqn:Es.
  pose proof (nextId_call w c) as [Hle Hid]. rewrite Ec in Hle, Hid. simpl in *.
  specialize (IH w1). rewrite Es in IH. simpl in IH.
  assert (Forall (fun id => nextId (entities w) ≤ id)%nat ids) as Hids.
  { eapply Forall_impl; [exact IH|]. simpl. intros; lia. }
  destruct r as [id|]; simpl; [|done].
  constructor; [|done]. destruct (Hid id eq_refl); lia.
Qed.

End Sessions.

(** [C9] Entity ids are never reused.  In any sequence of calls on one world
    (creating and destroying entities, adding and removing components,
    [clear] on the registry, [reset] on the world, which clears the same
    registry instance), every id returned by [createEntity] is strictly
    greater than every id returned before it, and [clear] and [reset] leave
    the id counter alone. *)
Theorem createEntity_ids_strictly_increasing (w : World) (calls : list RegistryCall) :
  StronglySorted lt (session w calls).2
  ∧ nextId (clear (entities w)) = nextId (entities w)
  ∧ nextId (entities (reset w)) = nextId (entities w)
  ∧ aliveEntities (clear (entities w)) = []
  ∧ ∀ id t, getComponent (clear (entities w)) id t = None.
Proof.
  split_and!; try done.
  - revert w. induction calls as [|c rest IH]; intros w; simpl; [constructor|].
    destruct (call w c) as [w1 r] eqn:Ec.
    destruct (session w1 rest) as [w2 ids] eqn:Es.
    specialize (IH w1). rewrite Es in IH. simpl in IH.
    destruct r as [id|]; simpl; [|done].
    constructor; [done|].
    pose proof (nextId_call w c) as [_ Hid]. rewrite Ec in Hid. simpl in Hid.
    destruct (Hid id eq_refl) as [-> Hnext].
    pose proof (session_ids_bounded rest w1) as Hb. rewrite Es in Hb. simpl in Hb.
    eapply Forall_impl; [exact Hb|]. simpl. intros x Hx. lia.
  - intros id t. unfold getComponent, clear. simpl. by destruct t.
Qed.

(* ================================================================== *)
(** * Properties of the event bus *)
(* ================================================================== *)

Section Bus.

Implicit Types (g : Game) (e : GameEvent) (h : Handler).

(** An invariant of every subscriber is an invariant of [dispatch]. *)
Lemma dispatch_ind (P : Game → Prop) e g :
  (∀ h g', P g' → P (deliver h e g')) →
  P (logEvent g e) → P (dispatch e g).
Proof.
  intros Hstep. unfold dispatch.
  generalize (logEvent g e). generalize (subscribers g).
  induction l as [|h l IH]; intros acc Hacc; simpl; [done|].
  apply IH. by apply Hstep.
Qed.

Lemma dispatch_preserves {A} (f : Game → A) e g :
  (∀ h g', f (deliver h e g') = f g') → f (dispatch e g) = f (logEvent g e).
Proof.
  intros Hf. apply (dispatch_ind (fun g' => f g' = f (logEvent g e))); [|done].
  intros h g' <-. apply Hf.
Qed.

Lemma dispatch_trace e g : trace (dispatch e g) = trace g ++ [e].
Proof.
  rewrite (dispatch_preserves trace); [done|].
  intros h g'. destruct h, e; simpl; try done. by destruct (0 <? _).
Qed.

Lemma dispatch_subscribers e g : subscribers (dispatch e g) = subscribers g.
Proof.
  rewrite (dispatch_preserves subscribers); [done|].
  intros h g'. destruct h, e; simpl; try done. by destruct (0 <? _).
Qed.

Lemma dispatch_powerUpSt e g : powerUpSt (dispatch e g) = powerUpSt g.
Proof.
  rewrite (dispatch_preserves powerUpSt); [done|].
  intros h g'. destruct h, e; simpl; try done. by destruct (0 <? _).
Qed.

Lemma dispatch_random e g :
  random (dispatch e g) = random g ∧ randomCalls (dispatch e g) = randomCalls g.
Proof.
  split.
  - rewrite (dispatch_preserves random); [done|].
    intros h g'. destruct h, e; simpl; try done. by destruct (0 <? _).
  - rewrite (dispatch_preserves randomCalls); [done|].
    intros h g'. destruct h, e; simpl; try done. by destruct (0 <? _).
Qed.

(** Only the controller's [player:died] subscription writes the world. *)
Lemma dispatch_world e g :
  (∀ n, e ≠ PLAYER_DIED n) → world (dispatch e g) = world g.
Proof.
  intros He. rewrite (dispatch_preserves world); [done|].
  intros h g'. destruct h, e; simpl; try done. by destruct (He livesRemaining).
Qed.

(** Whatever is dispatched, the world changes at most in [gameState]. *)
Lemma dispatch_world_modulo_state e g :
  world (dispatch e g) = setGameState (world g) (gameState (world (dispatch e g))).
Proof.
  apply (dispatch_ind
           (fun g' => world g' = setGameState (world g) (gameState (world g')))).
  - intros h g' Hg'. destruct h, e; simpl; try done.
    destruct (0 <? _); simpl; [|done]. by rewrite Hg'.
  - simpl. by destruct (world g).
Qed.

Lemma dispatch_player_died n g :
  world (dispatch (PLAYER_DIED n) g)
  = if (0 <? n) && bool_decide (onPlayerDied ∈ subscribers g)
    then setGameState (world g) Dying else world g.
Proof.
  unfold dispatch.
  change (world g) with (world (logEvent g (PLAYER_DIED n))).
  generalize (logEvent g (PLAYER_DIED n)). generalize (subscribers g).
  induction l as [|h l IH]; intros acc; simpl.
  - by rewrite andb_false_r.
  - rewrite IH. destruct (0 <? n) eqn:Hn; cbn [andb].
    + destruct (decide (h = onPlayerDied)) as [->|Hne].
      * rewrite (bool_decide_eq_true_2 (onPlayerDied ∈ onPlayerDied :: l));
          [|by left].
        assert (world (deliver onPlayerDied (PLAYER_DIED n) acc)
                = setGameState (world acc) Dying) as ->.
        { simpl. by rewrite Hn. }
        by destruct (bool_decide _).
      * assert (world (deliver h (PLAYER_DIED n) acc) = world acc) as ->.
        { by destruct h. }
        apply (f_equal (fun b : bool => if b then _ else _)).
        apply bool_decide_ext. rewrite elem_of_cons.
        split; [by right|by intros [?|?]].
    + assert (world (deliver h (PLAYER_DIED n) acc) = world acc) as ->; [|done].
      destruct h; simpl; try done. by rewrite Hn.
Qed.

Lemma dispatch_inputSt e g :
  isInputEvent e = false → inputSt (dispatch e g) = inputSt g.
Proof.
  intros He. rewrite (dispatch_preserves inputSt); [done|].
  intros h g'. destruct h, e; simpl; try done. by destruct (0 <? _).
Qed.

Lemma dispatch_input_event_world e g :
  isInputEvent e = true → world (dispatch e g) = world g.
Proof. intros He. apply dispatch_world. intros n ->. done. Qed.

Lemma dispatch_keeps_pendingRestart e g :
  pendingRestart (inputSt g) = true →
  pendingRestart (inputSt (dispatch e g)) = true.
Proof.
  intros Hp. apply (dispatch_ind (fun g' => pendingRestart (inputSt g') = true));
    [|done].
  intros h g' Hg'. destruct h, e; simpl; try done. by destruct (0 <? _).
Qed.

Lemma dispatch_restart_received g :
  onInputRestart ∈ subscribers g →
  pendingRestart (inputSt (dispatch INPUT_RESTART g)) = true.
Proof.
  unfold dispatch. generalize (logEvent g INPUT_RESTART).
  induction (subscribers g) as [|h l IH]; intros acc Hin; simpl.
  - by apply elem_of_nil in Hin.
  - apply elem_of_cons in Hin as [<-|Hin]; [|by apply IH].
    simpl. clear IH.
    assert (pendingRestart (inputSt
              (setInputSt acc
                 (mkInput (pendingDirection (inputSt acc))
                    (pendingStart (inputSt acc)) (pendingPause (inputSt acc))
                    true))) = true) as Hacc by done.
    revert Hacc. generalize (setInputSt acc
                 (mkInput (pendingDirection (inputSt acc))
                    (pendingStart (inputSt acc)) (pendingPause (inputSt acc))
                    true)).
    induction l as [|h l IH]; intros acc' Hacc; simpl; [done|].
    apply IH. destruct h; simpl; done.
Qed.

Lemma dispatchAll_input_events evs : ∀ g,
  Forall (fun e => isInputEvent e = true) evs →
  world (dispatchAll evs g) = world g
  ∧ subscribers (dispatchAll evs g) = subscribers g
  ∧ (pendingRestart (inputSt g) = true →
     pendingRestart (inputSt (dispatchAll evs g)) = true)
  ∧ (onInputRestart ∈ subscribers g → INPUT_RESTART ∈ evs →
     pendingRestart (inputSt (dispatchAll evs g)) = true).
Proof.
  induction evs as [|e evs IH]; intros g Hall; simpl.
  - split_and!; try done. intros _ Hin. by apply elem_of_nil in Hin.
  - apply Forall_cons in Hall as [He Hall].
    destruct (IH (dispatch e g) Hall) as (Hw & Hs & Hkeep & Hset).
    rewrite dispatch_subscribers in Hs, Hset.
    rewrite dispatch_input_event_world in Hw by done.
    split_and!; try done.
    + intros Hp. by apply Hkeep, dispatch_keeps_pendingRestart.
    + intros Hsub Hin. apply elem_of_cons in Hin as [<-|Hin].
      * by apply Hkeep, dispatch_restart_received.
      * by apply Hset.
Qed.

End Bus.

(* ================================================================== *)
(** * InputSystem *)
(* ================================================================== *)

(** [C10] Restart pre-empts every other pending input.  Let any input events
    be delivered to a game whose input system is subscribed, a restart among
    them.  The next [InputSystem.update] dispatches exactly one
    [game:restart] event and nothing else, forgets the pending
    direction/start/pause inputs, and leaves the world exactly as it was
    (hence neither the game state nor the player's velocity changes). *)
Theorem restart_preempts_pending_inputs (g : Game) (received : list GameEvent) :
  onInputRestart ∈ subscribers g →
  Forall (fun e => isInputEvent e = true) received →
  INPUT_RESTART ∈ received →
  let g1 := dispatchAll received g in
  let g2 := inputUpdate g1 in
  trace g2 = trace g1 ++ [GAME_RESTART]
  ∧ inputSt g2 = mkInput None false false false
  ∧ world g2 = world g1
  ∧ world g2 = world g.
Proof.
  intros Hsub Hall Hin g1 g2.
  destruct (dispatchAll_input_events received g Hall) as (Hw & _ & _ & Hset).
  specialize (Hset Hsub Hin). fold g1 in Hw, Hset.
  assert (g2 = dispatch GAME_RESTART (setInputSt g1 (mkInput None false false false)))
    as ->.
  { unfold g2, inputUpdate. by rewrite Hset. }
  rewrite dispatch_trace, dispatch_inputSt, dispatch_world by done.
  by rewrite <- Hw.
Qed.

(** An instance: [pendingInputs] arriving in the power-pellet scenario. *)
Lemma restart_preempts_pending_inputs_witness :
  trace (inputUpdate (dispatchAll pendingInputs powerPelletOnGhost))
  = trace (dispatchAll pendingInputs powerPelletOnGhost) ++ [GAME_RESTART]
  ∧ inputSt (inputUpdate (dispatchAll pendingInputs powerPelletOnGhost))
    = mkInput None false false false
  ∧ world (inputUpdate (dispatchAll pendingInputs powerPelletOnGhost))
    = world (dispatchAll pendingInputs powerPelletOnGhost)
  ∧ world (inputUpdate (dispatchAll pendingInputs powerPelletOnGhost))
    = world powerPelletOnGhost.
Proof.
  apply (restart_preempts_pending_inputs powerPelletOnGhost pendingInputs).
  - apply (bool_decide_unpack _). by vm_compute.
  - repeat constructor.
  - do 2 right. left.
Defined.

(* ================================================================== *)
(** * CollisionSystem *)
(* ================================================================== *)

Section Collision.

Implicit Types (g : Game) (w : World) (x z : EntityId).

Lemma dispatch_entities e g : entities (world (dispatch e g)) = entities (world g).
Proof. by rewrite dispatch_world_modulo_state. Qed.

Lemma dispatch_lives e g : lives (world (dispatch e g)) = lives (world g).
Proof. by rewrite dispatch_world_modulo_state. Qed.

Lemma dispatch_score e g : score (world (dispatch e g)) = score (world g).
Proof. by rewrite dispatch_world_modulo_state. Qed.

Lemma dispatch_level e g : level (world (dispatch e g)) = level (world g).
Proof. by rewrite dispatch_world_modulo_state. Qed.

Lemma dispatch_streak e g :
  ghostEatenStreak (world (dispatch e g)) = ghostEatenStreak (world g).
Proof. by rewrite dispatch_world_modulo_state. Qed.

Lemma dispatch_powerUpTime e g :
  powerUpTime (world (dispatch e g)) = powerUpTime (world g).
Proof. by rewrite dispatch_world_modulo_state. Qed.

Lemma dispatch_deltaTime e g :
  deltaTime (world (dispatch e g)) = deltaTime (world g).
Proof. by rewrite dispatch_world_modulo_state. Qed.

Lemma ghostPoints_schedule k :
  ghostPoints (S k) = nth k [200; 400; 800; 1600] 1600.
Proof.
  do 4 (destruct k as [|k]; [reflexivity|]).
  unfold ghostPoints. simpl. by destruct k.
Qed.

Lemma ghostPoints_pos k : 0 < ghostPoints (S k).
Proof.
  rewrite ghostPoints_schedule.
  do 4 (destruct k as [|k]; [reflexivity|]). simpl. by destruct k.
Qed.

Lemma ghostPoints_capped k : (4 ≤ k)%nat → ghostPoints k = 1600.
Proof.
  intros Hk. destruct k as [|k]; [lia|]. rewrite ghostPoints_schedule.
  do 3 (destruct k as [|k]; [lia|]). destruct k as [|k]; [done|]. simpl. by destruct k.
Qed.

(** What eating one ghost does. *)
Lemma eatGhost_spec g x :
  let g' := eatGhost g x in
  let s := ghostEatenStreak (world g) in
  trace g' = trace g ++ [ghostEatenEvent (world g) s 0 x]
  ∧ ghostEatenStreak (world g') = S s
  ∧ score (world g') = score (world g) + ghostPoints (S s)
  ∧ lives (world g') = lives (world g)
  ∧ level (world g') = level (world g)
  ∧ gameState (world g') = gameState (world g)
  ∧ subscribers g' = subscribers g
  ∧ aliveEntities (entities (world g')) = aliveEntities (entities (world g))
  ∧ wGet (world g') x vulnerable = None
  ∧ (∀ z t, z ≠ x → wGet (world g') z t = wGet (world g) z t)
  ∧ (∀ z t, t ≠ vulnerable → t ≠ ghostAI →
       wGet (world g') z t = wGet (world g) z t)
  ∧ (∀ z, getGhostType (world g') z = getGhostType (world g) z).
Proof.
  intros g' s. unfold g', eatGhost.
  set (g1 := updWorld incrementGhostEatenStreak g).
  set (pts := ghostPoints (getGhostEatenStreak (world g1))).
  set (g2 := updWorld (fun w => addScore w pts) g1).
  set (g3 := updWorld (fun w => wRemove w x vulnerable) g2).
  set (g4 := match wGet (world g3) x ghostAI with
             | Some ai => updWorld (fun w => wAdd w x ghostAI
                            (mkGhostAI (type ai) Eaten (scatterTarget ai))) g3
             | None => g3 end).
  assert (Hpts : pts = ghostPoints (S s)) by done.
  assert (Hw2 : world g2 = mkWorld (entities (world g)) (initialLives (world g))
            (gameState (world g)) (score (world g) + ghostPoints (S s))
            (lives (world g)) (level (world g)) (powerUpTime (world g))
            (deltaTime (world g)) (S s)).
  { unfold g2, g1, updWorld, addScore. simpl. rewrite Hpts.
    pose proof (ghostPoints_pos s) as Hpos.
    apply Z.ltb_lt in Hpos. by rewrite Hpos. }
  assert (Hw3 : world g3 = setEntities (world g2)
            (removeComponent (entities (world g)) x vulnerable)).
  { change (world g3) with (wRemove (world g2) x vulnerable).
    unfold wRemove. by rewrite Hw2. }
  assert (Hsubs4 : subscribers g4 = subscribers g ∧ trace g4 = trace g).
  { unfold g4. by destruct (wGet (world g3) x ghostAI). }
  assert (Hw4 : ∃ em4, world g4 = setEntities (world g2) em4
            ∧ aliveEntities em4 = aliveEntities (entities (world g))
            ∧ getComponent em4 x vulnerable = None
            ∧ (∀ z t, z ≠ x → getComponent em4 z t = getComponent (entities (world g)) z t)
            ∧ (∀ z t, t ≠ vulnerable → t ≠ ghostAI →
                 getComponent em4 z t = getComponent (entities (world g)) z t)
            ∧ (∀ z, (type <$> getComponent em4 z ghostAI)
                    = (type <$> getComponent (entities (world g)) z ghostAI))).
  { unfold g4. destruct (wGet (world g3) x ghostAI) as [ai|] eqn:Hai.
    - eexists. split.
      { unfold updWorld, setWorld. cbn [world]. rewrite Hw3.
        unfold wAdd, setEntities. simpl. reflexivity. }
      rewrite Hw3 in Hai. unfold wGet in Hai. simpl in Hai.
      rewrite getComponent_remove_other_type in Hai by done.
      split_and!.
      + unfold addComponent. by destruct (negb _).
      + rewrite getComponent_add_other_type by done.
        apply getComponent_remove_same.
      + intros z t Hz. rewrite getComponent_add_other_id by done.
        by rewrite getComponent_remove_other_id.
      + intros z t Ht1 Ht2. rewrite getComponent_add_other_type by done.
        by rewrite getComponent_remove_other_type.
      + intros z. destruct (decide (z = x)) as [->|Hz].
        * unfold addComponent. destruct (negb _) eqn:Halive.
          -- by rewrite getComponent_remove_other_type.
          -- unfold getComponent at 1. simpl.
             rewrite lookup_insert_eq. simpl. by rewrite Hai.
        * rewrite getComponent_add_other_id by done.
          by rewrite getComponent_remove_other_type.
    - eexists. split; [exact Hw3|]. split_and!.
      + done.
      + apply getComponent_remove_same.
      + intros z t Hz. by rewrite getComponent_remove_other_id.
      + intros z t Ht1 Ht2. by rewrite getComponent_remove_other_type.
      + intros z. by rewrite getComponent_remove_other_type. }
  destruct Hw4 as (em4 & Hw4 & Halive & Hvul & Hother & Htypes & Htype).
  destruct Hsubs4 as [Hsubs4 Htrace4].
  assert (Hpos : wGet (world g4) x position = wGet (world g) x position).
  { unfold wGet. rewrite Hw4. by apply (Htypes x position). }
  assert (Hty : ∀ z, getGhostType (world g4) z = getGhostType (world g) z).
  { intros z. unfold getGhostType, wGet. rewrite Hw4. simpl.
    specialize (Htype z).
    destruct (getComponent em4 z ghostAI), (getComponent _ z ghostAI);
      simpl in Htype; congruence. }
  assert (Hgt : getGhostType (world g1) x = getGhostType (world g) x) by done.
  rewrite dispatch_trace, dispatch_streak, dispatch_score, dispatch_lives,
    dispatch_level, dispatch_subscribers, dispatch_world by done.
  rewrite Hpos, Htrace4, Hsubs4, Hw4, Hw2, Hgt. simpl.
  split_and!; try done.
  unfold ghostEatenEvent. rewrite Hpts.
  by replace (s + 1)%nat with (S s) by lia.
Qed.

Lemma eatGhost_vulnerable_other g x z :
  z ≠ x →
  isGhostVulnerable (world (eatGhost g x)) z = isGhostVulnerable (world g) z.
Proof.
  intros Hz. destruct (eatGhost_spec g x) as (_&_&_&_&_&_&_&_&_&Ho&_).
  unfold isGhostVulnerable. by rewrite Ho.
Qed.

(** Eating a duplicate-free run of ghosts, one after the other. *)
Lemma eatGhosts_spec pre : ∀ g,
  NoDup pre →
  let g' := fold_left eatGhost pre g in
  let s := ghostEatenStreak (world g) in
  trace g' = trace g ++ imap (ghostEatenEvent (world g) s) pre
  ∧ ghostEatenStreak (world g') = (s + length pre)%nat
  ∧ score (world g')
    = score (world g)
      + foldr Z.add 0 (ghostEatenPoints (imap (ghostEatenEvent (world g) s) pre))
  ∧ lives (world g') = lives (world g)
  ∧ level (world g') = level (world g)
  ∧ gameState (world g') = gameState (world g)
  ∧ subscribers g' = subscribers g
  ∧ aliveEntities (entities (world g')) = aliveEntities (entities (world g))
  ∧ (∀ z t, z ∉ pre → wGet (world g') z t = wGet (world g) z t)
  ∧ (∀ z t, t ≠ vulnerable → t ≠ ghostAI →
       wGet (world g') z t = wGet (world g) z t).
Proof.
  induction pre as [|x pre IH]; intros g Hnd g' s.
  - unfold g'. simpl. rewrite app_nil_r, Nat.add_0_r, Z.add_0_r. done.
  - apply NoDup_cons in Hnd as [Hx Hnd].
    destruct (eatGhost_spec g x)
      as (Ht & Hs & Hsc & Hl & Hlv & Hgs & Hsub & Hal & Hv & Ho & Hty & Hgt).
    destruct (IH (eatGhost g x) Hnd)
      as (IHt & IHs & IHsc & IHl & IHlv & IHgs & IHsub & IHal & IHo & IHty).
    assert (Hev : imap (ghostEatenEvent (world (eatGhost g x))
                          (ghostEatenStreak (world (eatGhost g x)))) pre
                  = imap (ghostEatenEvent (world g) s ∘ S) pre).
    { apply imap_ext. intros i z Hz. unfold ghostEatenEvent. simpl.
      assert (z ≠ x) as Hne.
      { intros ->. apply Hx. by eapply list_elem_of_lookup_2. }
      rewrite Hs, Hgt. rewrite (Ho z position) by done.
      fold s. by rewrite Nat.add_succ_comm. }
    unfold g'. simpl fold_left. rewrite imap_cons.
    rewrite IHt, IHs, IHsc, IHl, IHlv, IHgs, IHsub, IHal, Hev.
    rewrite Ht, Hs, Hsc, Hl, Hlv, Hgs, Hsub, Hal. fold s.
    split_and!; try done.
    + by rewrite <- app_assoc.
    + simpl. lia.
    + unfold ghostEatenPoints. simpl.
      replace (s + 1)%nat with (S s) by lia. by rewrite Z.add_assoc.
    + intros z t Hz. apply not_elem_of_cons in Hz as [Hz1 Hz2].
      rewrite IHo by done. by apply Ho.
    + intros z t Ht1 Ht2. rewrite IHty by done. by apply Hty.
Qed.

Lemma processCollisions_eat_prefix pre : ∀ g rest,
  NoDup pre →
  Forall (fun x => isGhostVulnerable (world g) x = true) pre →
  processCollisions (pre ++ rest) g
  = processCollisions rest (fold_left eatGhost pre g).
Proof.
  induction pre as [|x pre IH]; intros g rest Hnd Hv; [done|].
  apply NoDup_cons in Hnd as [Hx Hnd].
  apply Forall_cons in Hv as [Hvx Hv].
  simpl. rewrite Hvx. apply IH; [done|].
  apply Forall_forall. intros z Hz.
  rewrite eatGhost_vulnerable_other.
  - rewrite Forall_forall in Hv. by apply Hv.
  - intros ->. done.
Qed.

(** What a death does. *)
Lemma killPlayer_spec g :
  let g' := killPlayer g in
  let remaining := lives (loseLife (world g)) in
  trace g' = trace g ++ PLAYER_DIED remaining
               :: (if remaining =? 0
                   then [GAME_OVER (score (world g)) (level (world g))] else [])
  ∧ lives (world g') = remaining
  ∧ score (world g') = score (world g)
  ∧ level (world g') = level (world g)
  ∧ ghostEatenStreak (world g') = ghostEatenStreak (world g)
  ∧ entities (world g') = entities (world g)
  ∧ gameState (world g')
    = (if remaining =? 0 then Lost
       else if (0 <? remaining) && bool_decide (onPlayerDied ∈ subscribers g)
            then Dying else gameState (world g)).
Proof.
  intros g' remaining. unfold g', killPlayer.
  set (g1 := updWorld loseLife g).
  assert (Hrem : getLives (world g1) = remaining) by done.
  assert (Hfields : score (world g1) = score (world g)
                    ∧ level (world g1) = level (world g)
                    ∧ ghostEatenStreak (world g1) = ghostEatenStreak (world g)
                    ∧ entities (world g1) = entities (world g)
                    ∧ gameState (world g1) = gameState (world g)
                    ∧ trace g1 = trace g ∧ subscribers g1 = subscribers g).
  { unfold g1, updWorld, loseLife. simpl. by destruct (0 <? lives (world g)). }
  destruct Hfields as (Hsc & Hlv & Hst & Hen & Hgs & Htr & Hsub).
  rewrite Hrem. destruct (remaining =? 0) eqn:Hz.
  - rewrite dispatch_trace, dispatch_lives, dispatch_score, dispatch_level,
      dispatch_streak, dispatch_entities.
    rewrite (dispatch_world (GAME_OVER _ _)) by done.
    unfold updWorld, getScore, getLevel. simpl.
    rewrite dispatch_trace, dispatch_lives, dispatch_score, dispatch_level,
      dispatch_streak, dispatch_entities.
    rewrite Htr, Hsc, Hlv, Hst, Hen. split_and!; try done.
    by rewrite <- app_assoc.
  - rewrite dispatch_trace, dispatch_lives, dispatch_score, dispatch_level,
      dispatch_streak, dispatch_entities, dispatch_player_died.
    rewrite Htr, Hsc, Hlv, Hst, Hen, Hsub. split_and!; try done.
    destruct (_ && _); [done|exact Hgs].
Qed.

(** A tick of the collision loop dispatches at most one [player:died]. *)
Lemma processCollisions_deaths ghosts : ∀ g,
  ∃ evs, trace (processCollisions ghosts g) = trace g ++ evs
         ∧ (deaths evs ≤ 1)%nat
         ∧ lives (world g) - 1 ≤ lives (world (processCollisions ghosts g))
           ≤ lives (world g).
Proof.
  induction ghosts as [|x ghosts IH]; intros g; simpl.
  - exists []. rewrite app_nil_r. split_and!; [done|unfold deaths; simpl; lia|lia|lia].
  - destruct (isGhostVulnerable (world g) x).
    + destruct (IH (eatGhost g x)) as (evs & Ht & Hd & Hl).
      destruct (eatGhost_spec g x) as (Ht' & _ & _ & Hl' & _).
      exists (ghostEatenEvent (world g) (ghostEatenStreak (world g)) 0 x :: evs).
      rewrite Ht, Ht', <- app_assoc. rewrite Hl' in Hl. split_and!; try done; lia.
    + destruct (killPlayer_spec g) as (Ht & Hl & _).
      eexists. split; [exact Ht|]. rewrite Hl. split.
      * destruct (_ =? 0); unfold deaths; simpl; lia.
      * unfold loseLife. destruct (0 <? lives (world g)) eqn:E; simpl; lia.
Qed.

End Collision.

Section CollisionTick.

Implicit Types (g : Game) (w : World).

Lemma newEvents_app g g' evs : trace g' = trace g ++ evs → newEvents g g' = evs.
Proof. intros H. unfold newEvents. rewrite H. apply drop_app_length. Qed.

Lemma ghostEatenPoints_imap {A} (l : list A) :
  ∀ (ev : nat → A → GameEvent) (pt : nat → Z),
    (∀ i x, ∃ a b c d, ev i x = GHOST_EATEN a b (pt i) c d) →
    ghostEatenPoints (imap ev l) = imap (fun i _ => pt i) l.
Proof.
  induction l as [|x l IH]; intros ev pt Hev; [done|].
  rewrite !imap_cons. unfold ghostEatenPoints. simpl.
  destruct (Hev 0%nat x) as (a & b & c & d & ->). f_equal.
  apply (IH (ev ∘ S) (pt ∘ S)). intros i y. apply Hev.
Qed.

Lemma deaths_imap {A} (l : list A) :
  ∀ ev : nat → A → GameEvent,
    (∀ i x, isPlayerDied (ev i x) = false) → deaths (imap ev l) = 0%nat.
Proof.
  unfold deaths.
  induction l as [|x l IH]; intros ev Hev; [done|].
  rewrite imap_cons, filter_cons_False by (by rewrite Hev).
  apply IH. intros i y. apply Hev.
Qed.

Lemma NoDup_collidingGhosts w playerId :
  NoDup (aliveEntities (entities w)) → NoDup (collidingGhosts w playerId).
Proof. intros H. unfold collidingGhosts. by apply NoDup_filter, NoDup_query. Qed.

Lemma collisionUpdate_playing g playerId :
  getGameState (world g) = Playing →
  getPlayerEntity (world g) = Some playerId →
  collisionUpdate g = processCollisions (collidingGhosts (world g) playerId) g.
Proof. intros Hs Hp. unfold collisionUpdate. rewrite Hp. by rewrite decide_True. Qed.

Lemma collisionUpdate_deaths g :
  ∃ evs, trace (collisionUpdate g) = trace g ++ evs
         ∧ (deaths evs ≤ 1)%nat
         ∧ lives (world g) - 1 ≤ lives (world (collisionUpdate g)) ≤ lives (world g).
Proof.
  unfold collisionUpdate.
  destruct (decide _); [destruct (getPlayerEntity _)|].
  - apply processCollisions_deaths.
  - exists []. rewrite app_nil_r. split_and!; [done|unfold deaths; simpl; lia|lia|lia].
  - exists []. rewrite app_nil_r. split_and!; [done|unfold deaths; simpl; lia|lia|lia].
Qed.

End CollisionTick.

(** [C3] Streak doubling.  When every ghost that collides with the player in
    a tick is vulnerable, the collision system eats them all, in processing
    order, without a death; the streak grows by one per ghost and the [i]-th
    ghost eaten (from 0) is awarded the points of streak position
    [s + i + 1], [s] being the streak on entry.  On a fresh streak four
    ghosts are awarded 200, 400, 800, 1600, and every ghost from the fifth on
    is awarded 1600: the schedule is capped. *)
Theorem streak_doubling (g : Game) (playerId : EntityId) :
  getGameState (world g) = Playing →
  getPlayerEntity (world g) = Some playerId →
  NoDup (aliveEntities (entities (world g))) →
  let ghosts := collidingGhosts (world g) playerId in
  Forall (fun x => isGhostVulnerable (world g) x = true) ghosts →
  let g' := collisionUpdate g in
  let s := getGhostEatenStreak (world g) in
  newEvents g g' = imap (ghostEatenEvent (world g) s) ghosts
  ∧ ghostEatenPoints (newEvents g g') = imap (fun i _ => ghostPoints (s + S i)) ghosts
  ∧ getGhostEatenStreak (world g') = (s + length ghosts)%nat
  ∧ getScore (world g')
    = getScore (world g) + foldr Z.add 0 (ghostEatenPoints (newEvents g g'))
  ∧ getLives (world g') = getLives (world g)
  ∧ (s = 0%nat → length ghosts = 4%nat →
       ghostEatenPoints (newEvents g g') = [200; 400; 800; 1600])
  ∧ (s = 0%nat → ∀ i pts, (4 ≤ i)%nat →
       ghostEatenPoints (newEvents g g') !! i = Some pts → pts = 1600)
  ∧ ∀ k, ghostPoints (S k) = nth k [200; 400; 800; 1600] 1600.
Proof.
  intros Hst Hp Hnd ghosts Hv g' s.
  assert (Hg' : g' = fold_left eatGhost ghosts g).
  { unfold g'. rewrite (collisionUpdate_playing g playerId) by done.
    fold ghosts. rewrite <- (app_nil_r ghosts) at 1.
    rewrite processCollisions_eat_prefix; [done| |done].
    by apply NoDup_collidingGhosts. }
  destruct (eatGhosts_spec ghosts g (NoDup_collidingGhosts _ _ Hnd))
    as (Ht & Hs & Hsc & Hl & _).
  rewrite <- Hg' in Ht, Hs, Hsc, Hl. fold s in Ht, Hs, Hsc.
  assert (Hne : newEvents g g' = imap (ghostEatenEvent (world g) s) ghosts)
    by (by apply newEvents_app).
  assert (Hpts : ghostEatenPoints (newEvents g g')
                 = imap (fun i _ => ghostPoints (s + S i)) ghosts).
  { rewrite Hne. apply ghostEatenPoints_imap. intros i x.
    unfold ghostEatenEvent. by repeat eexists. }
  split_and!; try done.
  - unfold getScore. by rewrite Hne.
  - intros Hs0 Hlen. rewrite Hpts, Hs0.
    destruct ghosts as [|a [|b [|c [|d [|e l]]]]]; try done.
  - intros Hs0 i pts Hi. rewrite Hpts, Hs0, list_lookup_imap.
    destruct (ghosts !! i); [|done]. simpl. intros [= <-].
    apply ghostPoints_capped. lia.
  - apply ghostPoints_schedule.
Qed.

(** An instance: four vulnerable ghosts on the player, fresh streak. *)
Lemma streak_doubling_witness :
  ghostEatenPoints (newEvents fourVulnerableGhostsOnPlayer
                      (collisionUpdate fourVulnerableGhostsOnPlayer))
  = [200; 400; 800; 1600].
Proof.
  destruct (streak_doubling fourVulnerableGhostsOnPlayer 0%nat)
    as (_ & _ & _ & _ & _ & H & _).
  - reflexivity.
  - reflexivity.
  - apply (bool_decide_unpack _). by vm_compute.
  - apply (bool_decide_unpack _). by vm_compute.
  - apply H; reflexivity.
Defined.

(** [C2] At most one death per tick.  A tick of the collision system
    dispatches at most one [game:player:died] and takes at most one life.
    When the first colliding ghost that is not vulnerable is reached (the
    ghosts before it, all vulnerable, having been eaten), one life is taken
    ([loseLife], which stops at zero), [game:player:died] is dispatched with
    the remaining lives, the game state becomes [Lost] and [game:over] is
    dispatched with the final score and level exactly when no life remains,
    and the ghosts after it in the colliding list are not processed. *)
Theorem one_death_per_tick (g : Game) :
  (deaths (newEvents g (collisionUpdate g)) ≤ 1)%nat
  ∧ getLives (world g) - 1 ≤ getLives (world (collisionUpdate g)) ≤ getLives (world g)
  ∧ ∀ playerId pre ghostId rest,
      getGameState (world g) = Playing →
      getPlayerEntity (world g) = Some playerId →
      NoDup (aliveEntities (entities (world g))) →
      collidingGhosts (world g) playerId = pre ++ ghostId :: rest →
      Forall (fun x => isGhostVulnerable (world g) x = true) pre →
      isGhostVulnerable (world g) ghostId = false →
      let g' := collisionUpdate g in
      let remaining := getLives (world g') in
      (0 < getLives (world g) → remaining = getLives (world g) - 1)
      ∧ (0 ≤ getLives (world g) → remaining = Z.max 0 (getLives (world g) - 1))
      ∧ newEvents g g'
        = imap (ghostEatenEvent (world g) (getGhostEatenStreak (world g))) pre
          ++ PLAYER_DIED remaining
             :: (if remaining =? 0
                 then [GAME_OVER (getScore (world g')) (getLevel (world g'))]
                 else [])
      ∧ deaths (newEvents g g') = 1%nat
      ∧ (getGameState (world g') = Lost ↔ remaining = 0)
      ∧ (∀ z t, z ∈ rest → wGet (world g') z t = wGet (world g) z t)
      ∧ (∀ z a b c d, z ∈ rest → GHOST_EATEN z a b c d ∉ newEvents g g').
Proof.
  destruct (collisionUpdate_deaths g) as (evs & Ht & Hd & Hl).
  split_and!.
  - by rewrite (newEvents_app _ _ _ Ht).
  - unfold getLives. lia.
  - unfold getLives. lia.
  - clear evs Ht Hd Hl.
    intros playerId pre ghostId rest Hst Hp Hnd Hcol Hv Hnv g' remaining.
    pose proof (NoDup_collidingGhosts _ playerId Hnd) as Hnd'.
    rewrite Hcol in Hnd'. apply NoDup_app in Hnd' as (Hndpre & Hdisj & Hndrest).
    apply NoDup_cons in Hndrest as [Hnotin Hndrest].
    set (gp := fold_left eatGhost pre g).
    destruct (eatGhosts_spec pre g Hndpre)
      as (Ht & Hs & Hsc & Hl & Hlv & Hgs & Hsub & Hal & Ho & Hty).
    fold gp in Ht, Hs, Hsc, Hl, Hlv, Hgs, Hsub, Hal, Ho, Hty.
    assert (Hpre_not : ∀ z, z = ghostId ∨ z ∈ rest → z ∉ pre).
    { intros z Hz Hzpre. apply (Hdisj z Hzpre). apply elem_of_cons.
      destruct Hz; [by left|by right]. }
    assert (Hg' : g' = killPlayer gp).
    { unfold g'. rewrite (collisionUpdate_playing g playerId) by done.
      rewrite Hcol, processCollisions_eat_prefix by done. fold gp. simpl.
      assert (isGhostVulnerable (world gp) ghostId = false) as ->; [|done].
      unfold isGhostVulnerable. rewrite Ho; [exact Hnv|].
      apply Hpre_not. by left. }
    destruct (killPlayer_spec gp) as (Kt & Kl & Ksc & Klv & Ks & Ke & Kgs).
    rewrite <- Hg' in Kt, Kl, Ksc, Klv, Ks, Ke, Kgs.
    assert (Hrem : remaining = lives (loseLife (world gp))) by exact Kl.
    rewrite <- Hrem in Kt, Kgs.
    assert (Hnew : newEvents g g'
                   = imap (ghostEatenEvent (world g) (getGhostEatenStreak (world g))) pre
                     ++ PLAYER_DIED remaining
                        :: (if remaining =? 0
                            then [GAME_OVER (getScore (world g')) (getLevel (world g'))]
                            else [])).
    { apply newEvents_app. rewrite Kt, Ht, <- app_assoc.
      unfold getScore, getLevel. by rewrite Ksc, Klv. }
    assert (Hlose : remaining = if 0 <? lives (world g) then lives (world g) - 1
                                else lives (world g)).
    { rewrite Hrem. unfold loseLife. rewrite Hl.
      by destruct (0 <? lives (world g)). }
    split_and!.
    + unfold getLives. intros Hpos. rewrite Hlose.
      apply Z.ltb_lt in Hpos. by rewrite Hpos.
    + unfold getLives. intros Hpos. rewrite Hlose.
      destruct (0 <? lives (world g)) eqn:E; [apply Z.ltb_lt in E|apply Z.ltb_ge in E]; lia.
    + exact Hnew.
    + rewrite Hnew.
      pose proof (deaths_imap pre
                    (ghostEatenEvent (world g) (getGhostEatenStreak (world g)))
                    (fun _ _ => eq_refl)) as Hz.
      unfold deaths in *. rewrite filter_app, length_app, Hz.
      destruct (remaining =? 0); by simpl.
    + unfold getGameState. rewrite Kgs. rewrite Hgs.
      unfold getGameState in Hst. rewrite Hst.
      destruct (remaining =? 0) eqn:E.
      * apply Z.eqb_eq in E. done.
      * apply Z.eqb_neq in E. destruct (_ && _); split; done.
    + intros z t Hz. unfold wGet. rewrite Ke. apply Ho. apply Hpre_not. by right.
    + intros z a b c d Hz Hin. rewrite Hnew in Hin.
      apply elem_of_app in Hin as [Hin|Hin].
      * apply list_elem_of_lookup in Hin as [i Hi].
        rewrite list_lookup_imap in Hi.
        destruct (pre !! i) as [y|] eqn:Hy; [|done]. simpl in Hi.
        unfold ghostEatenEvent in Hi. injection Hi as -> _ _ _ _.
        apply (Hpre_not z); [by right|]. by eapply list_elem_of_lookup_2.
      * apply elem_of_cons in Hin as [Hin|Hin]; [done|].
        destruct (remaining =? 0); [|by apply elem_of_nil in Hin].
        apply list_elem_of_singleton in Hin. done.
Qed.

(** An instance: blinky is eaten, pinky kills the player, inky is left
    alone. *)
Lemma one_death_per_tick_witness :
  collidingGhosts (world threeGhostsOnPlayer) 0%nat = [1; 2; 3]%nat
  ∧ getLives (world (collisionUpdate threeGhostsOnPlayer))
    = getLives (world threeGhostsOnPlayer) - 1
  ∧ deaths (newEvents threeGhostsOnPlayer (collisionUpdate threeGhostsOnPlayer)) = 1%nat
  ∧ wGet (world (collisionUpdate threeGhostsOnPlayer)) 3%nat ghostAI
    = wGet (world threeGhostsOnPlayer) 3%nat ghostAI.
Proof.
  split; [reflexivity|].
  destruct (proj2 (proj2 (one_death_per_tick threeGhostsOnPlayer))
              0%nat [1%nat] 2%nat [3%nat])
    as (H1 & _ & _ & H4 & _ & H6 & _).
  - reflexivity.
  - reflexivity.
  - apply (bool_decide_unpack _). by vm_compute.
  - reflexivity.
  - apply (bool_decide_unpack _). by vm_compute.
  - reflexivity.
  - split_and!.
    + apply H1. by vm_compute.
    + exact H4.
    + apply (H6 3%nat ghostAI). left.
Defined.

(* ================================================================== *)
(** * GhostAISystem *)
(* ================================================================== *)

Section WorldAccess.

Implicit Types (w : World) (id : EntityId) (t : ComponentType).

Lemma wGet_wAdd_same w id t (c : ComponentMap t) :
  isAlive (entities w) id = true → wGet (wAdd w id t c) id t = Some c.
Proof. apply getComponent_add_same. Qed.

Lemma wGet_wAdd_other_id w id id' t t' (c : ComponentMap t) :
  id' ≠ id → wGet (wAdd w id t c) id' t' = wGet w id' t'.
Proof. apply getComponent_add_other_id. Qed.

Lemma wGet_wAdd_other_type w id id' t t' (c : ComponentMap t) :
  t ≠ t' → wGet (wAdd w id t c) id' t' = wGet w id' t'.
Proof. apply getComponent_add_other_type. Qed.

Lemma alive_wAdd w id t (c : ComponentMap t) :
  aliveEntities (entities (wAdd w id t c)) = aliveEntities (entities w).
Proof. unfold wAdd, addComponent. simpl. by destruct (negb _). Qed.

Lemma gameState_wAdd w id t (c : ComponentMap t) :
  gameState (wAdd w id t c) = gameState w.
Proof. done. Qed.

Lemma elem_of_getGhostEntities w id :
  id ∈ getGhostEntities w
  ↔ isAlive (entities w) id = true ∧ is_Some (wGet w id ghostAI).
Proof.
  unfold getGhostEntities, wQuery, isAlive. rewrite elem_of_query, set_has_true.
  split; intros [Ha Hc]; split; try done.
  - apply hasComponent_true, Hc. by left.
  - intros t Ht. apply list_elem_of_singleton in Ht as ->.
    by apply hasComponent_true.
Qed.

End WorldAccess.

Section GhostAI.

Implicit Types (g : Game) (x z : EntityId).

Lemma chooseRandomDirection_frame g gx gy d :
  world (chooseRandomDirection g gx gy d).2 = world g
  ∧ aiSt (chooseRandomDirection g gx gy d).2 = aiSt g.
Proof. unfold chooseRandomDirection. by destruct (getAvailableDirections _ _ _). Qed.

(** Choosing a direction writes at most the ghost's own velocity. *)
Lemma pickDirection_frame g z vel pos m sp :
  let g' := pickDirection g z vel pos m sp in
  aiSt g' = aiSt g
  ∧ aliveEntities (entities (world g')) = aliveEntities (entities (world g))
  ∧ gameState (world g') = gameState (world g)
  ∧ (∀ x t, t ≠ velocity → wGet (world g') x t = wGet (world g) x t)
  ∧ (∀ x t, x ≠ z → wGet (world g') x t = wGet (world g) x t).
Proof.
  unfold pickDirection.
  destruct (bool_decide (direction vel = None) || _).
  - set (r := if bool_decide (m = Frightened) then _ else _).
    assert (Hr : world r.2 = world g ∧ aiSt r.2 = aiSt g).
    { unfold r. destruct (bool_decide (m = Frightened));
        [apply chooseRandomDirection_frame|].
      destruct (getGhostTarget (world g) z); [done|].
      apply chooseRandomDirection_frame. }
    destruct r as [nd g1]. simpl in Hr. destruct Hr as [Hw Ha].
    destruct (_ && _); [|destruct (Qneqb _ _)]; simpl;
      rewrite ?alive_addComponent, ?Hw, ?Ha; split_and!; try done;
      try (intros x t Hxt;
           first [by rewrite wGet_wAdd_other_type by done
                 |by rewrite wGet_wAdd_other_id by done]).
  - destruct (Qneqb _ _); simpl; rewrite ?alive_addComponent; split_and!; try done;
      try (intros x t Hxt;
           first [by rewrite wGet_wAdd_other_type by done
                 |by rewrite wGet_wAdd_other_id by done]).
Qed.

(** Updating ghost [z] leaves every other entity alone, and keeps the
    membership of the others in the pending-eaten set. *)
Lemma updateGhost_frame g z :
  let g' := updateGhost g z in
  aliveEntities (entities (world g')) = aliveEntities (entities (world g))
  ∧ gameState (world g') = gameState (world g)
  ∧ currentGlobalMode (aiSt g') = currentGlobalMode (aiSt g)
  ∧ frightenedActive (aiSt g') = frightenedActive (aiSt g)
  ∧ (∀ x t, x ≠ z → wGet (world g') x t = wGet (world g) x t)
  ∧ (∀ x t, t ≠ velocity → t ≠ ghostAI → wGet (world g') x t = wGet (world g) x t)
  ∧ (∀ x, x ≠ z → x ∈ eatenGhosts (aiSt g') ↔ x ∈ eatenGhosts (aiSt g)).
Proof.
  unfold updateGhost.
  destruct (wGet (world g) z ghostAI) as [ai|]; [|done].
  destruct (wGet (world g) z velocity) as [vel|]; [|done].
  destruct (wGet (world g) z position) as [pos|]; [|done].
  destruct (resolveMode _ _ _ _) as [newMode pending] eqn:Hres.
  set (g1 := setAiSt g _).
  set (g2 := if bool_decide (newMode ≠ mode ai) then _ else g1).
  assert (Hpending : ∀ x, x ≠ z → x ∈ pending ↔ x ∈ eatenGhosts (aiSt g)).
  { intros x Hx. unfold resolveMode in Hres.
    repeat match type of Hres with
           | (if ?b then _ else _) = _ => destruct b
           end; injection Hres as <- <-; try done.
    rewrite elem_of_set_delete. split; [by intros [_ ?]|by split]. }
  assert (H2 : aiSt g2 = aiSt g1
               ∧ aliveEntities (entities (world g2)) = aliveEntities (entities (world g))
               ∧ gameState (world g2) = gameState (world g)
               ∧ (∀ x t, x ≠ z → wGet (world g2) x t = wGet (world g) x t)
               ∧ (∀ x t, t ≠ ghostAI → wGet (world g2) x t = wGet (world g) x t)).
  { unfold g2. destruct (bool_decide _); [|done]. simpl.
    rewrite ?alive_wAdd, ?alive_addComponent. split_and!; try done; intros x t Hxt.
    - by rewrite wGet_wAdd_other_id.
    - by rewrite wGet_wAdd_other_type. }
  destruct H2 as (Ha2 & Hal2 & Hgs2 & Hid2 & Hty2).
  destruct (modeJustChanged (aiSt g2) && _).
  - simpl. rewrite ?alive_wAdd, ?alive_addComponent, Hal2, Hgs2, Ha2.
    split_and!; try done.
    + intros x t Hx. rewrite wGet_wAdd_other_id by done. by apply Hid2.
    + intros x t Ht1 Ht2. rewrite wGet_wAdd_other_type by done. by apply Hty2.
  - destruct (pickDirection_frame g2 z vel pos newMode
                (if isGhostVulnerable (world g) z
                 then GHOST_FRIGHTENED_SPEED else GHOST_SPEED))
      as (Ha & Hal & Hgs & Hty & Hid).
    rewrite Ha, Hal, Hgs, Ha2, Hal2, Hgs2. split_and!; try done.
    + intros x t Hx. rewrite Hid by done. by apply Hid2.
    + intros x t Ht1 Ht2. rewrite Hty by done. by apply Hty2.
Qed.

(** Updating ghost [x] itself: its mode and the pending-eaten set are
    those of [resolveMode]. *)
Lemma updateGhost_self g x (ai : GhostAI) (vel : Velocity) (pos : Position) :
  isAlive (entities (world g)) x = true →
  wGet (world g) x ghostAI = Some ai →
  wGet (world g) x velocity = Some vel →
  wGet (world g) x position = Some pos →
  let g' := updateGhost g x in
  let r := resolveMode (aiSt g) (isGhostVulnerable (world g) x) x pos in
  wGet (world g') x ghostAI = Some (mkGhostAI (type ai) r.1 (scatterTarget ai))
  ∧ eatenGhosts (aiSt g') = r.2.
Proof.
  intros Halive Hai Hvel Hpos. unfold updateGhost.
  rewrite Hai, Hvel, Hpos.
  destruct (resolveMode _ _ _ _) as [newMode pending] eqn:Hres. simpl.
  set (g1 := setAiSt g _).
  set (g2 := if bool_decide (newMode ≠ mode ai) then _ else g1).
  assert (H2 : aiSt g2 = aiSt g1
               ∧ wGet (world g2) x ghostAI
                 = Some (mkGhostAI (type ai) newMode (scatterTarget ai))).
  { unfold g2. case_bool_decide as Hm.
    - split; [done|]. simpl. by apply (wGet_wAdd_same _ x ghostAI).
    - split; [done|]. simpl. rewrite Hai. f_equal.
      rewrite Hm. by destruct ai. }
  destruct H2 as [Ha2 Hg2].
  destruct (modeJustChanged (aiSt g2) && _).
  - simpl. rewrite wGet_wAdd_other_type by done. by rewrite Ha2.
  - destruct (pickDirection_frame g2 x vel pos newMode
                (if isGhostVulnerable (world g) x
                 then GHOST_FRIGHTENED_SPEED else GHOST_SPEED))
      as (Ha & _ & _ & Hty & _).
    rewrite Ha, Ha2, Hty by done. done.
Qed.

End GhostAI.

Section GhostAITick.

Implicit Types (g : Game) (x z : EntityId).

Lemma fold_updateGhost_frame l : ∀ g,
  let g' := fold_left updateGhost l g in
  aliveEntities (entities (world g')) = aliveEntities (entities (world g))
  ∧ currentGlobalMode (aiSt g') = currentGlobalMode (aiSt g)
  ∧ frightenedActive (aiSt g') = frightenedActive (aiSt g)
  ∧ (∀ x t, x ∉ l → wGet (world g') x t = wGet (world g) x t)
  ∧ (∀ x, x ∉ l → x ∈ eatenGhosts (aiSt g') ↔ x ∈ eatenGhosts (aiSt g)).
Proof.
  induction l as [|z l IH]; intros g; [done|]. simpl.
  destruct (IH (updateGhost g z)) as (Hal & Hgm & Hfa & Hw & He).
  destruct (updateGhost_frame g z) as (Hal' & _ & Hgm' & Hfa' & Hw' & _ & He').
  rewrite Hal, Hgm, Hfa, Hal', Hgm', Hfa'. split_and!; try done.
  - intros x t Hx. apply not_elem_of_cons in Hx as [Hxz Hxl].
    rewrite Hw by done. by apply Hw'.
  - intros x Hx. apply not_elem_of_cons in Hx as [Hxz Hxl].
    rewrite He by done. by apply He'.
Qed.

Lemma resolveMode_ext (s s' : GhostAIState) v x pos :
  currentGlobalMode s = currentGlobalMode s' →
  frightenedActive s = frightenedActive s' →
  (x ∈ eatenGhosts s ↔ x ∈ eatenGhosts s') →
  (resolveMode s v x pos).1 = (resolveMode s' v x pos).1
  ∧ (x ∈ (resolveMode s v x pos).2 ↔ x ∈ (resolveMode s' v x pos).2).
Proof.
  intros Hgm Hfa He. unfold resolveMode.
  assert (set_has x (eatenGhosts s) = set_has x (eatenGhosts s')) as ->
    by (by apply bool_decide_ext).
  rewrite Hgm, Hfa.
  destruct (set_has x (eatenGhosts s')); [destruct (_ && _)|destruct v];
    simpl; try done.
  - split; [done|]. rewrite !elem_of_set_delete.
    split; intros [Hne _]; by destruct Hne.
  - by destruct (frightenedActive s').
Qed.

(** The mode and pending-eaten membership a tick of the ghost AI leaves
    for a ghost that has its three components. *)
Lemma ghostAIUpdate_mode g x (ai : GhostAI) (vel : Velocity) (pos : Position) :
  getGameState (world g) = Playing →
  NoDup (aliveEntities (entities (world g))) →
  isAlive (entities (world g)) x = true →
  wGet (world g) x ghostAI = Some ai →
  wGet (world g) x velocity = Some vel →
  wGet (world g) x position = Some pos →
  let g' := ghostAIUpdate g in
  let r := resolveMode (aiSt g) (isGhostVulnerable (world g) x) x pos in
  wGet (world g') x ghostAI = Some (mkGhostAI (type ai) r.1 (scatterTarget ai))
  ∧ (x ∈ eatenGhosts (aiSt g') ↔ x ∈ r.2).
Proof.
  intros Hst Hnd Halive Hai Hvel Hpos g' r.
  assert (Hin : x ∈ getGhostEntities (world g)).
  { apply elem_of_getGhostEntities. split; [done|]. rewrite Hai. by eexists. }
  assert (Hnd' : NoDup (getGhostEntities (world g))) by by apply NoDup_query.
  apply list_elem_of_split in Hin as (l1 & l2 & Hl).
  rewrite Hl in Hnd'. apply NoDup_app in Hnd' as (_ & Hdisj & Hnd2).
  apply NoDup_cons in Hnd2 as [Hx2 _].
  assert (Hx1 : x ∉ l1).
  { intros H1. apply (Hdisj x H1). by left. }
  set (ga := fold_left updateGhost l1 g).
  destruct (fold_updateGhost_frame l1 g) as (Hal & Hgm & Hfa & Hw & He).
  fold ga in Hal, Hgm, Hfa, Hw, He.
  destruct (resolveMode_ext (aiSt ga) (aiSt g) (isGhostVulnerable (world g) x)
              x pos Hgm Hfa (He x Hx1)) as [Hr1 Hr2].
  fold r in Hr1, Hr2.
  assert (Hvul : isGhostVulnerable (world ga) x = isGhostVulnerable (world g) x).
  { unfold isGhostVulnerable. by rewrite Hw. }
  destruct (updateGhost_self ga x ai vel pos) as [Hself Hpend].
  { unfold isAlive. by rewrite Hal. }
  { by rewrite Hw. } { by rewrite Hw. } { by rewrite Hw. }
  rewrite Hvul in Hself, Hpend. rewrite Hr1 in Hself.
  destruct (fold_updateGhost_frame l2 (updateGhost ga x)) as (_ & _ & _ & Hw2 & He2).
  assert (Hg' : world g' = world (fold_left updateGhost l2 (updateGhost ga x))
                ∧ eatenGhosts (aiSt g')
                  = eatenGhosts (aiSt (fold_left updateGhost l2 (updateGhost ga x)))).
  { unfold g', ghostAIUpdate. rewrite decide_True by done.
    rewrite Hl, fold_left_app. done. }
  destruct Hg' as [-> ->].
  rewrite Hw2, He2, Hpend by done. done.
Qed.

End GhostAITick.

(** [C4], amended.  A ghost in the pending-eaten set that has its ghostAI,
    velocity and position components is put in [Eaten] mode, with the
    ghost-house coordinate (13, 14) as its target, by every tick of the ghost
    AI that finds it outside the two arrival cells (13, 14) and (14, 14);
    the tick that finds it on either arrival cell removes it from the
    pending set and gives it the current global mode. *)
Theorem eaten_until_ghost_house (g : Game) (ghostId : EntityId)
    (ai : GhostAI) (vel : Velocity) (pos : Position) :
  getGameState (world g) = Playing →
  NoDup (aliveEntities (entities (world g))) →
  isAlive (entities (world g)) ghostId = true →
  wGet (world g) ghostId ghostAI = Some ai →
  wGet (world g) ghostId velocity = Some vel →
  wGet (world g) ghostId position = Some pos →
  ghostId ∈ eatenGhosts (aiSt g) →
  let g' := ghostAIUpdate g in
  let arrived := 13 ≤ gridX pos ≤ 14 ∧ gridY pos = 14 in
  (¬ arrived →
     getGhostMode (world g') ghostId = Some Eaten
     ∧ getGhostTarget (world g') ghostId = Some GHOST_HOUSE_TARGET
     ∧ ghostId ∈ eatenGhosts (aiSt g'))
  ∧ (arrived →
     getGhostMode (world g') ghostId = Some (modeOfGlobal (currentGlobalMode (aiSt g)))
     ∧ ghostId ∉ eatenGhosts (aiSt g'))
  ∧ ((gridX pos, gridY pos) = GHOST_HOUSE_TARGET → arrived).
Proof.
  intros Hst Hnd Halive Hai Hvel Hpos Hin g' arrived.
  destruct (ghostAIUpdate_mode g ghostId ai vel pos Hst Hnd Halive Hai Hvel Hpos)
    as [Hmode Hpend].
  fold g' in Hmode, Hpend.
  unfold resolveMode in Hmode, Hpend.
  rewrite (proj2 (set_has_true ghostId _) Hin) in Hmode, Hpend.
  destruct ((13 <=? gridX pos) && (gridX pos <=? 14) && (gridY pos =? 14)) eqn:Harr.
  - assert (arrived) as Ha.
    { unfold arrived. apply andb_prop in Harr as [Harr H3].
      apply andb_prop in Harr as [H1 H2]. lia. }
    simpl in Hmode, Hpend. split_and!.
    + intros Hn. by destruct Hn.
    + intros _. split.
      * unfold getGhostMode. by rewrite Hmode.
      * rewrite Hpend, elem_of_set_delete. intros [Hne _]. by apply Hne.
    + done.
  - assert (¬ arrived) as Hn.
    { unfold arrived. intros [[H1 H2] H3].
      apply Z.leb_le in H1, H2. apply Z.eqb_eq in H3.
      by rewrite H1, H2, H3 in Harr. }
    simpl in Hmode, Hpend. split_and!.
    + intros _. split_and!.
      * unfold getGhostMode. by rewrite Hmode.
      * unfold getGhostTarget. by rewrite Hmode.
      * by apply Hpend.
    + intros Ha. by destruct Hn.
    + intros [= Hx Hy]. destruct Hn. unfold arrived. lia.
Qed.

(** An instance: the arrival case, on the second arrival cell. *)
Lemma eaten_until_ghost_house_witness :
  getGhostMode (world (ghostAIUpdate ghostBesideTarget)) 0%nat = Some Scatter
  ∧ (0%nat ∉ eatenGhosts (aiSt (ghostAIUpdate ghostBesideTarget))).
Proof.
  destruct (eaten_until_ghost_house ghostBesideTarget 0%nat
              (mkGhostAI blinky Scatter (SCATTER_TARGETS blinky))
              (mkVelocity None (18 # 10) None) (createPosition 14 14))
    as (_ & H & _).
  - reflexivity.
  - apply (bool_decide_unpack _). by vm_compute.
  - reflexivity.
  - reflexivity.
  - reflexivity.
  - reflexivity.
  - left.
  - apply H. simpl. lia.
Defined.

(** [C4] as stated fails: a pending-eaten ghost standing on cell (14, 14),
    which is not the ghost-house target cell (13, 14), is already taken out
    of the pending set and given the global mode. *)
Lemma eaten_mode_ends_beside_target :
  eatenGhosts (aiSt ghostBesideTarget) = [0%nat]
  ∧ (gridX <$> wGet (world ghostBesideTarget) 0%nat position) = Some 14
  ∧ (gridY <$> wGet (world ghostBesideTarget) 0%nat position) = Some 14
  ∧ GHOST_HOUSE_TARGET = (13, 14)
  ∧ getGhostMode (world (ghostAIUpdate ghostBesideTarget)) 0%nat = Some Scatter
  ∧ eatenGhosts (aiSt (ghostAIUpdate ghostBesideTarget)) = [].
Proof. by vm_compute. Qed.

(** [C5], amended.  The ambusher's chase target.  For a pinky in chase mode
    that is not vulnerable, with the player at grid cell (px, py): the target is
    (px - 4, py - 4) when the player moves up (both offsets), (px, py + 4)
    when it moves down, (px - 4, py) when it moves left and (px + 4, py) when
    it moves right. *)
Theorem pinky_targets_four_tiles_ahead (w : World) (ghostId playerId : EntityId)
    (ai : GhostAI) (playerPos : Position) :
  wGet w ghostId ghostAI = Some ai →
  type ai = pinky →
  mode ai = Chase →
  isGhostVulnerable w ghostId = false →
  getPlayerEntity w = Some playerId →
  wGet w playerId position = Some playerPos →
  let px := gridX playerPos in
  let py := gridY playerPos in
  (getPlayerDirection w = Some Up →
     getGhostTarget w ghostId = Some (px - 4, py - 4))
  ∧ (getPlayerDirection w = Some Down →
     getGhostTarget w ghostId = Some (px, py + 4))
  ∧ (getPlayerDirection w = Some Left →
     getGhostTarget w ghostId = Some (px - 4, py))
  ∧ (getPlayerDirection w = Some Right →
     getGhostTarget w ghostId = Some (px + 4, py)).
Proof.
  intros Hai Hty Hmode Hvul Hp Hpos px py.
  assert (Hpp : getPlayerPosition w = Some playerPos).
  { unfold getPlayerPosition. by rewrite Hp. }
  split_and!; intros Hdir; unfold getGhostTarget;
    rewrite Hai, Hmode, Hvul, Hp, Hpp, Hty, Hdir; done.
Qed.

(** An instance: the player on (10, 10) heading up is ambushed at (6, 6). *)
Lemma pinky_targets_four_tiles_ahead_witness :
  getPlayerDirection pinkyChasingUp = Some Up
  ∧ getGhostTarget pinkyChasingUp 1%nat = Some (6, 6).
Proof.
  split; [reflexivity|].
  refine (proj1 (pinky_targets_four_tiles_ahead pinkyChasingUp 1%nat 0%nat
            (mkGhostAI pinky Chase (SCATTER_TARGETS pinky)) (createPosition 10 10)
            _ _ _ _ _ _) _); reflexivity.
Defined.

(** [C5] as stated fails: one update of the ghost-AI system puts the pinky of
    [pinkyArrivingVulnerable], which has reached the ghost house, into the
    global mode, chase, and leaves it vulnerable; with the player on
    (10, 10) heading up the claim promises the target (6, 6), but a
    vulnerable ghost has no target at all. *)
Lemma vulnerable_pinky_has_no_target :
  wGet (world (ghostAIUpdate pinkyArrivingVulnerable)) 1%nat ghostAI
  = Some (mkGhostAI pinky Chase (SCATTER_TARGETS pinky))
  ∧ getPlayerPosition (world (ghostAIUpdate pinkyArrivingVulnerable))
    = Some (createPosition 10 10)
  ∧ getPlayerDirection (world (ghostAIUpdate pinkyArrivingVulnerable)) = Some Up
  ∧ isGhostVulnerable (world (ghostAIUpdate pinkyArrivingVulnerable)) 1%nat = true
  ∧ getGhostTarget (world (ghostAIUpdate pinkyArrivingVulnerable)) 1%nat = None.
Proof. by vm_compute. Qed.

(* ================================================================== *)
(** * MovementSystem *)
(* ================================================================== *)

Section Movement.

Lemma Qltb_lt (x y : Q) : Qltb x y = true ↔ (x < y)%Q.
Proof.
  unfold Qltb. rewrite negb_true_iff. split.
  - intros H. apply Qnot_le_lt. intros Hle.
    apply Qle_bool_iff in Hle. congruence.
  - intros H. destruct (Qle_bool y x) eqn:E; [|done].
    apply Qle_bool_iff in E. by apply Qlt_not_le in H.
Qed.

Lemma Qltb_ge (x y : Q) : Qltb x y = false ↔ (y <= x)%Q.
Proof.
  unfold Qltb. rewrite negb_false_iff. apply Qle_bool_iff.
Qed.





End Movement.

Section MovementTick.

Implicit Types (g : Game) (w : World) (id z : EntityId).

Lemma Qle_bool_false (x y : Q) : Qle_bool x y = false ↔ (y < x)%Q.
Proof.
  rewrite <- not_true_iff_false, Qle_bool_iff. split; intros H.
  - by apply Qnot_le_lt.
  - by apply Qlt_not_le.
Qed.


Lemma moveOne_other maze dt w id z t :
  z ≠ id → wGet (moveOne maze dt w id) z t = wGet w z t.
Proof.
  intros Hne. unfold moveOne.
  destruct (wGet w id position) as [pos|]; [|done].
  destruct (wGet w id velocity) as [vel|]; [|done].
  destruct (moveEntity _ _ _ _ _) as [[pos' vel']|]; [|done].
  by rewrite !wGet_wAdd_other_id.
Qed.

Lemma moveOne_alive maze dt w id :
  aliveEntities (entities (moveOne maze dt w id)) = aliveEntities (entities w).
Proof.
  unfold moveOne.
  destruct (wGet w id position) as [pos|]; [|done].
  destruct (wGet w id velocity) as [vel|]; [|done].
  destruct (moveEntity _ _ _ _ _) as [[pos' vel']|]; [|done].
  by rewrite !alive_wAdd.
Qed.

Lemma wHas_ext w w' id t :
  wGet w' id t = wGet w id t → wHas w' id t = wHas w id t.
Proof.
  unfold wHas, hasComponent, wGet, getComponent. by intros ->.
Qed.

(** One iteration of the loop, seen from the entity it handles. *)
Lemma moveOne_self maze dt w id (pos : Position) (vel : Velocity) :
  isAlive (entities w) id = true →
  wGet w id position = Some pos →
  wGet w id velocity = Some vel →
  let r := moveEntity maze (wHas w id playerControlled) dt pos vel in
  wGet (moveOne maze dt w id) id position
  = Some (match r with Some (pos', _) => pos' | None => pos end)
  ∧ wGet (moveOne maze dt w id) id velocity
    = Some (match r with Some (_, vel') => vel' | None => vel end)
  ∧ ∀ t, t ≠ position → t ≠ velocity →
         wGet (moveOne maze dt w id) id t = wGet w id t.
Proof.
  intros Ha Hp Hv r. unfold moveOne. rewrite Hp, Hv. fold r.
  destruct r as [[pos' vel']|]; [|by split_and!].
  assert (Ha' : isAlive (entities (wAdd w id position pos')) id = true).
  { unfold isAlive. by rewrite alive_wAdd. }
  split_and!.
  - rewrite wGet_wAdd_other_type by done. by apply (wGet_wAdd_same w id position).
  - by apply (wGet_wAdd_same _ id velocity).
  - intros t H1 H2. by rewrite !wGet_wAdd_other_type.
Qed.

(** The loop, seen from one entity of the list it runs over. *)
Lemma fold_moveOne_self maze dt (l : list EntityId) : ∀ w id (pos : Position)
    (vel : Velocity),
  NoDup l → id ∈ l →
  isAlive (entities w) id = true →
  wGet w id position = Some pos →
  wGet w id velocity = Some vel →
  let r := moveEntity maze (wHas w id playerControlled) dt pos vel in
  let w' := fold_left (moveOne maze dt) l w in
  wGet w' id position = Some (match r with Some (pos', _) => pos' | None => pos end)
  ∧ wGet w' id velocity = Some (match r with Some (_, vel') => vel' | None => vel end)
  ∧ ∀ t, t ≠ position → t ≠ velocity → wGet w' id t = wGet w id t.
Proof.
  induction l as [|x l IH]; intros w id pos vel Hnd Hin Ha Hp Hv r w'.
  - by apply elem_of_nil in Hin.
  - apply NoDup_cons in Hnd as [Hx Hnd]. unfold w'. simpl fold_left.
    destruct (decide (id = x)) as [->|Hne].
    + assert (Hrest : ∀ t, wGet (fold_left (moveOne maze dt) l (moveOne maze dt w x)) x t
                           = wGet (moveOne maze dt w x) x t).
      { intros t. generalize (moveOne maze dt w x). clear -Hx.
        induction l as [|y l IHl]; intros w0; [done|]. simpl.
        apply not_elem_of_cons in Hx as [Hxy Hxl].
        rewrite IHl by done. by apply moveOne_other. }
      rewrite !Hrest. destruct (moveOne_self maze dt w x pos vel Ha Hp Hv) as (M1 & M2 & M3).
      split_and!; [done|done|]. intros t H1 H2. rewrite Hrest. by apply M3.
    + apply elem_of_cons in Hin as [->|Hin]; [done|].
      assert (Hsame : ∀ t, wGet (moveOne maze dt w x) id t = wGet w id t).
      { intros t. by apply moveOne_other. }
      destruct (IH (moveOne maze dt w x) id pos vel Hnd Hin) as (I1 & I2 & I3).
      * unfold isAlive. by rewrite moveOne_alive.
      * by rewrite Hsame.
      * by rewrite Hsame.
      * rewrite (wHas_ext w _ id playerControlled (Hsame _)) in I1, I2.
        split_and!; [done|done|]. intros t H1 H2. rewrite I3 by done. apply Hsame.
Qed.

(** A tick of the movement system, seen from one entity that has a position
    and a velocity: it is moved as [moveEntity] says, whatever else is on
    the board. *)
Lemma movementUpdate_entity maze g id (pos : Position) (vel : Velocity) :
  getGameState (world g) = Playing →
  ¬ (getDeltaTime (world g) == 0)%Q →
  NoDup (aliveEntities (entities (world g))) →
  isAlive (entities (world g)) id = true →
  wGet (world g) id position = Some pos →
  wGet (world g) id velocity = Some vel →
  let r := moveEntity maze (wHas (world g) id playerControlled)
             (getDeltaTime (world g)) pos vel in
  let w' := world (movementUpdate maze g) in
  wGet w' id position = Some (match r with Some (pos', _) => pos' | None => pos end)
  ∧ wGet w' id velocity = Some (match r with Some (_, vel') => vel' | None => vel end)
  ∧ ∀ t, t ≠ position → t ≠ velocity → wGet w' id t = wGet (world g) id t.
Proof.
  intros Hst Hdt Hnd Ha Hp Hv r w'. unfold w', movementUpdate.
  rewrite decide_True by done.
  assert (Qeq_bool (getDeltaTime (world g)) 0 = false) as ->.
  { destruct (Qeq_bool _ 0) eqn:E; [|done]. by apply Qeq_bool_iff in E. }
  apply fold_moveOne_self; try done.
  - by apply NoDup_query.
  - apply elem_of_query. split; [by apply set_has_true|].
    intros t Ht. apply hasComponent_true.
    unfold wGet in Hp, Hv.
    apply elem_of_cons in Ht as [->|Ht]; [by rewrite Hp|].
    apply list_elem_of_singleton in Ht as ->. by rewrite Hv.
Qed.

End MovementTick.



(* ================================================================== *)
(** * The pipeline: what the first three systems leave alone *)
(* ================================================================== *)

Section Scalars.

Implicit Types (g : Game) (w : World).

Lemma sameScalars_refl w : sameScalars w w.
Proof. unfold sameScalars. by destruct w. Qed.

Lemma sameScalars_trans w1 w2 w3 :
  sameScalars w1 w2 → sameScalars w2 w3 → sameScalars w1 w3.
Proof. unfold sameScalars. intros H12 H23. rewrite H23, H12. done. Qed.

Lemma sameScalars_wAdd w id t (c : ComponentMap t) : sameScalars w (wAdd w id t c).
Proof. unfold sameScalars, wAdd. by destruct w. Qed.

Lemma sameScalars_wRemove w id t : sameScalars w (wRemove w id t).
Proof. unfold sameScalars, wRemove. by destruct w. Qed.

Lemma sameScalars_wDestroy w id : sameScalars w (wDestroy w id).
Proof. unfold sameScalars, wDestroy. by destruct w. Qed.

Lemma sameScalars_setGameState w st : sameScalars w (setGameState w st).
Proof. unfold sameScalars. by destruct w. Qed.

Lemma sameScalars_dispatch e g : sameScalars (world g) (world (dispatch e g)).
Proof.
  unfold sameScalars. rewrite dispatch_world_modulo_state at 1.
  rewrite dispatch_entities. by destruct (world g).
Qed.

Lemma sameScalars_fields w w' :
  sameScalars w w' →
  lives w' = lives w ∧ score w' = score w ∧ level w' = level w
  ∧ deltaTime w' = deltaTime w ∧ powerUpTime w' = powerUpTime w
  ∧ ghostEatenStreak w' = ghostEatenStreak w.
Proof. unfold sameScalars. intros ->. done. Qed.

Lemma sameScalars_fold {A} (f : World → A → World) (l : list A) :
  (∀ w a, sameScalars w (f w a)) → ∀ w, sameScalars w (fold_left f l w).
Proof.
  intros Hf. induction l as [|a l IH]; intros w; simpl; [apply sameScalars_refl|].
  eapply sameScalars_trans; [apply Hf|apply IH].
Qed.

Lemma sameShell_refl g : sameShell g g.
Proof. unfold sameShell. split_and!; try done. apply sameScalars_refl. Qed.

Lemma sameShell_trans g1 g2 g3 : sameShell g1 g2 → sameShell g2 g3 → sameShell g1 g3.
Proof.
  intros (A1 & A2 & A3 & A4 & A5) (B1 & B2 & B3 & B4 & B5).
  unfold sameShell. rewrite B2, B3, B4, B5. split_and!; try done.
  by eapply sameScalars_trans.
Qed.

Lemma sameShell_updWorld (f : World → World) g :
  sameScalars (world g) (f (world g)) →
  aliveEntities (entities (f (world g))) = aliveEntities (entities (world g)) →
  sameShell g (updWorld f g).
Proof. intros H1 H2. unfold sameShell. by split_and!. Qed.

Lemma sameShell_wAdd g id t (c : ComponentMap t) :
  sameShell g (updWorld (fun w => wAdd w id t c) g).
Proof. apply sameShell_updWorld; [apply sameScalars_wAdd|apply alive_wAdd]. Qed.

Lemma sameShell_setGameState g st :
  sameShell g (updWorld (fun w => setGameState w st) g).
Proof. apply sameShell_updWorld; [apply sameScalars_setGameState|done]. Qed.

Lemma sameShell_setInputSt g s : sameShell g (setInputSt g s).
Proof. unfold sameShell. split_and!; try done. apply sameScalars_refl. Qed.

Lemma sameShell_setAiSt g s : sameShell g (setAiSt g s).
Proof. unfold sameShell. split_and!; try done. apply sameScalars_refl. Qed.

Lemma sameShell_tickRandom g : sameShell g (tickRandom g).
Proof. unfold sameShell. split_and!; try done. apply sameScalars_refl. Qed.

Lemma sameShell_fold {A} (f : Game → A → Game) (l : list A) :
  (∀ g a, sameShell g (f g a)) → ∀ g, sameShell g (fold_left f l g).
Proof.
  intros Hf. induction l as [|a l IH]; intros g; simpl; [apply sameShell_refl|].
  eapply sameShell_trans; [apply Hf|apply IH].
Qed.

(** While no restart is pending the input system dispatches nothing. *)
Lemma inputUpdate_frame g :
  let g' := inputUpdate g in
  sameScalars (world g) (world g')
  ∧ aliveEntities (entities (world g')) = aliveEntities (entities (world g))
  ∧ powerUpSt g' = powerUpSt g
  ∧ subscribers g' = subscribers g
  ∧ ∃ evs, trace g' = trace g ++ evs ∧ Forall (fun e => isQuietEvent e = true) evs.
Proof.
  unfold inputUpdate. destruct (pendingRestart (inputSt g)).
  - rewrite dispatch_trace, dispatch_powerUpSt, dispatch_subscribers,
      dispatch_entities. split_and!; try done.
    + apply (sameScalars_dispatch GAME_RESTART
               (setInputSt g (mkInput None false false false))).
    + exists [GAME_RESTART]. split; [done|]. by repeat constructor.
  - assert (Hs : ∀ g0, sameShell g0 (inputHandleStart g0)).
    { intros g0. unfold inputHandleStart.
      destruct (pendingStart _); [|apply sameShell_refl].
      eapply sameShell_trans; [|apply sameShell_setInputSt].
      destruct (decide _); [apply sameShell_setGameState|apply sameShell_refl]. }
    assert (Hp : ∀ g0, sameShell g0 (inputHandlePause g0)).
    { intros g0. unfold inputHandlePause.
      destruct (pendingPause _); [|apply sameShell_refl].
      eapply sameShell_trans; [|apply sameShell_setInputSt].
      repeat destruct (decide _);
        first [apply sameShell_setGameState|apply sameShell_refl]. }
    assert (Hd : ∀ g0, sameShell g0 (inputHandleDirection g0)).
    { intros g0. unfold inputHandleDirection.
      destruct (pendingDirection _); [|apply sameShell_refl].
      eapply sameShell_trans; [|apply sameShell_setInputSt].
      destruct (getPlayerEntity _); [destruct (wGet _ _ _)|];
        first [apply sameShell_wAdd|apply sameShell_refl]. }
    destruct (sameShell_trans _ _ _ (Hs g)
                (sameShell_trans _ _ _ (Hp _) (Hd _)))
      as (H1 & H2 & H3 & H4 & H5).
    split_and!; try done. exists []. by rewrite app_nil_r.
Qed.

Lemma updateGhost_shell g z : sameShell g (updateGhost g z).
Proof.
  unfold updateGhost.
  destruct (wGet (world g) z ghostAI) as [ai|]; [|apply sameShell_refl].
  destruct (wGet (world g) z velocity) as [vel|]; [|apply sameShell_refl].
  destruct (wGet (world g) z position) as [pos|]; [|apply sameShell_refl].
  destruct (resolveMode _ _ _ _) as [newMode pending].
  set (g1 := setAiSt g _).
  set (g2 := if bool_decide (newMode ≠ mode ai) then _ else g1).
  assert (H2 : sameShell g g2).
  { eapply (sameShell_trans _ g1); [apply sameShell_setAiSt|].
    unfold g2. destruct (bool_decide _); [apply sameShell_wAdd|apply sameShell_refl]. }
  eapply sameShell_trans; [exact H2|]. clearbody g2. clear H2.
  destruct (modeJustChanged (aiSt g2) && _); [apply sameShell_wAdd|].
  unfold pickDirection.
  destruct (bool_decide (direction vel = None) || _).
  - set (r := if bool_decide (newMode = Frightened) then _ else _).
    assert (Hr : sameShell g2 r.2).
    { unfold r, chooseRandomDirection.
      destruct (bool_decide (newMode = Frightened));
        [|destruct (getGhostTarget (world g2) z); [apply sameShell_refl|]];
        destruct (getAvailableDirections _ _ _); simpl;
        first [apply sameShell_refl|apply sameShell_tickRandom]. }
    destruct r as [nd gr]. simpl in Hr.
    eapply sameShell_trans; [exact Hr|].
    destruct (_ && _); [|destruct (Qneqb _ _)];
      first [apply sameShell_wAdd|apply sameShell_refl].
  - destruct (Qneqb _ _); first [apply sameShell_wAdd|apply sameShell_refl].
Qed.

Lemma ghostAIUpdate_frame g : sameShell g (ghostAIUpdate g).
Proof.
  unfold ghostAIUpdate. destruct (decide _); [|apply sameShell_refl].
  eapply sameShell_trans; [|apply sameShell_setAiSt].
  apply sameShell_fold. apply updateGhost_shell.
Qed.

Lemma moveOne_frame maze dt w z :
  sameScalars w (moveOne maze dt w z)
  ∧ aliveEntities (entities (moveOne maze dt w z)) = aliveEntities (entities w).
Proof.
  unfold moveOne.
  destruct (wGet w z position); [|split; [apply sameScalars_refl|done]].
  destruct (wGet w z velocity); [|split; [apply sameScalars_refl|done]].
  destruct (moveEntity _ _ _ _ _) as [[pos' vel']|];
    [|split; [apply sameScalars_refl|done]].
  rewrite !alive_wAdd. split; [|done].
  eapply sameScalars_trans;
    [apply (sameScalars_wAdd _ z position)|apply (sameScalars_wAdd _ z velocity)].
Qed.

Lemma movementUpdate_frame maze g : sameShell g (movementUpdate maze g).
Proof.
  unfold movementUpdate. destruct (decide _); [|apply sameShell_refl].
  destruct (Qeq_bool _ _); [apply sameShell_refl|].
  apply sameShell_updWorld.
  - apply sameScalars_fold. intros w' a. apply moveOne_frame.
  - generalize (wQuery (world g) [position; velocity]). intros l.
    generalize (getDeltaTime (world g)). intros dt.
    generalize (world g). induction l as [|z l IH]; intros w; simpl; [done|].
    rewrite IH. apply moveOne_frame.
Qed.

End Scalars.

(* ================================================================== *)
(** * EatingSystem *)
(* ================================================================== *)

Section Eating.

Implicit Types (g : Game) (w : World) (x z : EntityId).

Lemma set_delete_not_elem x (s : list EntityId) : x ∉ s → set_delete x s = s.
Proof.
  unfold set_delete. induction s as [|y s IH]; intros Hx; [done|].
  apply not_elem_of_cons in Hx as [Hxy Hxs].
  rewrite filter_cons_True by done. by rewrite IH.
Qed.

Lemma aliveEntities_destroy em x :
  aliveEntities (destroyEntity em x) = set_delete x (aliveEntities em).
Proof.
  unfold destroyEntity. destruct (set_has x (aliveEntities em)) eqn:E; simpl; [done|].
  symmetry. apply set_delete_not_elem. by apply set_has_false.
Qed.

Lemma wGet_wDestroy_other w x z t :
  z ≠ x → wGet (wDestroy w x) z t = wGet w z t.
Proof. apply getComponent_destroy_other. Qed.

Lemma forallb_ext_elem {A} (f h : A → bool) (l : list A) :
  (∀ a, a ∈ l → f a = h a) → forallb f l = forallb h l.
Proof.
  induction l as [|a l IH]; intros H; [done|]. simpl.
  rewrite (H a) by (by left). rewrite IH; [done|].
  intros b Hb. apply H. by right.
Qed.

(** Queries over a registry from which the entities of [D] were destroyed. *)
Lemma query_after_destroy em em' (D : list EntityId) (ts : list ComponentType) :
  aliveEntities em' = filter (fun z => z ∉ D) (aliveEntities em) →
  (∀ z t, z ∉ D → getComponent em' z t = getComponent em z t) →
  getEntitiesWithComponents em' ts
  = filter (fun z => z ∉ D) (getEntitiesWithComponents em ts).
Proof.
  intros Hal Hc. unfold getEntitiesWithComponents. rewrite Hal.
  rewrite !list_filter_filter. apply list_filter_iff. intros z.
  split; intros [H1 H2]; split; try done.
  - rewrite <- H1. apply forallb_ext_elem.
    intros t _. unfold hasComponent. pose proof (Hc z t H2) as H.
    unfold getComponent in H. by rewrite H.
  - rewrite <- H2. apply forallb_ext_elem.
    intros t _. unfold hasComponent. pose proof (Hc z t H1) as H.
    unfold getComponent in H. by rewrite H.
Qed.

(** Queries over a registry whose live set is the same and whose stores
    for the queried types are the same. *)
Lemma query_ext em em' (ts : list ComponentType) :
  aliveEntities em' = aliveEntities em →
  (∀ z t, t ∈ ts → getComponent em' z t = getComponent em z t) →
  getEntitiesWithComponents em' ts = getEntitiesWithComponents em ts.
Proof.
  intros Hal Hc. unfold getEntitiesWithComponents. rewrite Hal.
  apply list_filter_iff. intros z.
  assert (forallb (hasComponent em' z) ts = forallb (hasComponent em z) ts) as ->;
    [|done].
  apply forallb_ext_elem. intros t Ht. unfold hasComponent.
  pose proof (Hc z t Ht) as H.
  unfold getComponent in H. by rewrite H.
Qed.

(** Eating one pellet. *)
Lemma eatPellet_spec g x :
  let g' := eatPellet g x in
  lives (world g') = lives (world g)
  ∧ gameState (world g') = gameState (world g)
  ∧ deltaTime (world g') = deltaTime (world g)
  ∧ aliveEntities (entities (world g')) = set_delete x (aliveEntities (entities (world g)))
  ∧ (∀ z t, z ≠ x → wGet (world g') z t = wGet (world g) z t)
  ∧ powerUpSt g' = powerUpSt g
  ∧ subscribers g' = subscribers g
  ∧ (∃ evs, trace g' = trace g ++ evs ∧ Forall (fun e => isQuietEvent e = true) evs)
  ∧ powerUpTime (world g')
    = match wGet (world g) x powerUp with
      | Some pu => duration pu
      | None => powerUpTime (world g)
      end.
Proof.
  intros g'. unfold g', eatPellet.
  set (pts := match wGet (world g) x edible with Some e => points e | None => 10 end).
  destruct (wGet (world g) x powerUp) as [pu|].
  - set (w2 := resetGhostEatenStreak
                 (setPowerUpTime (addScore (world g) pts) (duration pu))).
    assert (Hw : world (eatPellet g x) = wDestroy w2 x
                 ∨ True) by (by right).
    clear Hw. simpl.
    rewrite !dispatch_world by done.
    rewrite !dispatch_powerUpSt, !dispatch_subscribers, !dispatch_trace. simpl.
    split_and!; try done.
    + unfold addScore. by destruct (0 <? pts).
    + unfold addScore. by destruct (0 <? pts).
    + unfold addScore. by destruct (0 <? pts).
    + unfold wDestroy. simpl. rewrite aliveEntities_destroy.
      unfold addScore. by destruct (0 <? pts).
    + intros z t Hz. rewrite wGet_wDestroy_other by done.
      unfold addScore. by destruct (0 <? pts).
    + eexists. rewrite <- app_assoc. split; [reflexivity|].
      by repeat constructor.
  - simpl. rewrite !dispatch_world by done.
    rewrite !dispatch_powerUpSt, !dispatch_subscribers, !dispatch_trace. simpl.
    split_and!; try done.
    + unfold addScore. by destruct (0 <? pts).
    + unfold addScore. by destruct (0 <? pts).
    + unfold addScore. by destruct (0 <? pts).
    + unfold wDestroy. simpl. rewrite aliveEntities_destroy.
      unfold addScore. by destruct (0 <? pts).
    + intros z t Hz. rewrite wGet_wDestroy_other by done.
      unfold addScore. by destruct (0 <? pts).
    + eexists. split; [reflexivity|]. by repeat constructor.
    + unfold addScore. by destruct (0 <? pts).
Qed.

Lemma filter_set_delete x (l s : list EntityId) :
  filter (fun z => z ∉ l) (set_delete x s) = filter (fun z => z ∉ x :: l) s.
Proof.
  unfold set_delete. rewrite list_filter_filter. apply list_filter_iff.
  intros z. rewrite not_elem_of_cons. tauto.
Qed.

(** Eating a run of pellets; [dt] is any bound the durations of the power
    pellets among them exceed. *)
Lemma eatPellets_spec (dt : Q) l : ∀ g,
  NoDup l →
  (∀ z pu, z ∈ l → wGet (world g) z powerUp = Some pu → (dt < duration pu)%Q) →
  let g' := fold_left eatPellet l g in
  lives (world g') = lives (world g)
  ∧ gameState (world g') = gameState (world g)
  ∧ deltaTime (world g') = deltaTime (world g)
  ∧ aliveEntities (entities (world g'))
    = filter (fun z => z ∉ l) (aliveEntities (entities (world g)))
  ∧ (∀ z t, z ∉ l → wGet (world g') z t = wGet (world g) z t)
  ∧ powerUpSt g' = powerUpSt g
  ∧ subscribers g' = subscribers g
  ∧ (∃ evs, trace g' = trace g ++ evs ∧ Forall (fun e => isQuietEvent e = true) evs)
  ∧ ((dt < powerUpTime (world g))%Q
     ∨ (∃ z, z ∈ l ∧ is_Some (wGet (world g) z powerUp)) →
     (dt < powerUpTime (world g'))%Q).
Proof.
  induction l as [|x l IH]; intros g Hnd Hdur g'.
  - unfold g'. simpl. split_and!; try done.
    + induction (aliveEntities _) as [|y s IHs]; [done|].
      rewrite filter_cons_True by apply not_elem_of_nil. by rewrite <- IHs.
    + exists []. by rewrite app_nil_r.
    + intros [H|(z & Hz & _)]; [done|]. by apply elem_of_nil in Hz.
  - apply NoDup_cons in Hnd as [Hx Hnd].
    destruct (eatPellet_spec g x)
      as (E1 & E2 & E3 & E4 & E5 & E6 & E7 & (evs1 & E8 & E8') & E9).
    assert (Hdur' : ∀ z pu, z ∈ l →
              wGet (world (eatPellet g x)) z powerUp = Some pu →
              (dt < duration pu)%Q).
    { intros z pu Hz Hpu. apply (Hdur z pu); [by right|].
      rewrite <- Hpu. symmetry. apply E5. intros ->. done. }
    destruct (IH (eatPellet g x) Hnd Hdur')
      as (I1 & I2 & I3 & I4 & I5 & I6 & I7 & (evs2 & I8 & I8') & I9).
    unfold g'. simpl fold_left.
    rewrite I1, I2, I3, I4, I6, I7, E1, E2, E3, E4, E6, E7.
    split_and!; try done.
    + apply filter_set_delete.
    + intros z t Hz. apply not_elem_of_cons in Hz as [Hzx Hzl].
      rewrite I5 by done. by apply E5.
    + exists (evs1 ++ evs2). rewrite I8, E8, <- app_assoc. split; [done|].
      by apply Forall_app.
    + intros Hor. apply I9. rewrite E9.
      destruct (wGet (world g) x powerUp) as [pu|] eqn:Hpu.
      * left. apply (Hdur x pu); [by left|done].
      * destruct Hor as [H|(z & Hz & Hsome)]; [by left|].
        apply elem_of_cons in Hz as [->|Hz].
        -- rewrite Hpu in Hsome. by destruct Hsome.
        -- right. exists z. split; [done|].
           rewrite E5; [done|]. intros ->. done.
Qed.

End Eating.

(* ================================================================== *)
(** * PowerUpSystem *)
(* ================================================================== *)

Section PowerUp.

Implicit Types (g : Game) (w : World) (x z : EntityId).

Lemma wHas_true w z t : wHas w z t = true ↔ is_Some (wGet w z t).
Proof. apply hasComponent_true. Qed.

(** "Power-up just started": only the vulnerable store grows, and every
    listed live entity ends up with a [vulnerable] component. *)
Lemma addVulnerable_fold (t : Q) (L : list EntityId) : ∀ w,
  (∀ z, z ∈ L → isAlive (entities w) z = true) →
  let w' := fold_left (fun acc ghostId =>
                         if negb (wHas acc ghostId vulnerable)
                         then wAdd acc ghostId vulnerable (createVulnerable t)
                         else acc) L w in
  sameScalars w w'
  ∧ gameState w' = gameState w
  ∧ aliveEntities (entities w') = aliveEntities (entities w)
  ∧ (∀ z t', t' ≠ vulnerable → wGet w' z t' = wGet w z t')
  ∧ (∀ z, is_Some (wGet w z vulnerable) → is_Some (wGet w' z vulnerable))
  ∧ (∀ z, z ∈ L → is_Some (wGet w' z vulnerable)).
Proof.
  induction L as [|x L IH]; intros w Halive; simpl.
  - split_and!; try done; [apply sameScalars_refl|].
    intros z Hz. by apply elem_of_nil in Hz.
  - set (w1 := if negb (wHas w x vulnerable) then _ else w).
    assert (H1 : sameScalars w w1 ∧ gameState w1 = gameState w
                 ∧ aliveEntities (entities w1) = aliveEntities (entities w)
                 ∧ (∀ z t', t' ≠ vulnerable → wGet w1 z t' = wGet w z t')
                 ∧ (∀ z, is_Some (wGet w z vulnerable) → is_Some (wGet w1 z vulnerable))
                 ∧ is_Some (wGet w1 x vulnerable)).
    { unfold w1. destruct (wHas w x vulnerable) eqn:Hhas; simpl.
      - split_and!; try done; [apply sameScalars_refl|].
        exact (proj1 (wHas_true w x vulnerable) Hhas).
      - split_and!.
        + apply sameScalars_wAdd.
        + done.
        + apply alive_addComponent.
        + intros z t' Ht'. by rewrite wGet_wAdd_other_type.
        + intros z Hz. destruct (decide (z = x)) as [->|Hne].
          * rewrite (wGet_wAdd_same _ x vulnerable); [by eexists|].
            apply Halive. by left.
          * by rewrite wGet_wAdd_other_id.
        + rewrite (wGet_wAdd_same _ x vulnerable); [by eexists|].
          apply Halive. by left. }
    destruct H1 as (A1 & A2 & A3 & A4 & A5 & A6).
    destruct (IH w1) as (B1 & B2 & B3 & B4 & B5 & B6).
    { intros z Hz. unfold isAlive. rewrite A3. apply Halive. by right. }
    rewrite B2, B3, A2, A3. split_and!; try done.
    + by eapply sameScalars_trans.
    + intros z t' Ht'. rewrite B4 by done. by apply A4.
    + intros z Hz. by apply B5, A5.
    + intros z Hz. apply elem_of_cons in Hz as [->|Hz]; [by apply B5|by apply B6].
Qed.

(** "Update ghost vulnerable timers": every listed entity that has a
    [vulnerable] component gets the new one. *)
Lemma refreshVulnerable_spec (L : list EntityId) (nt : Q) (fl : bool) : ∀ w,
  (∀ z, z ∈ L → isAlive (entities w) z = true) →
  let w' := refreshVulnerable L nt fl w in
  sameScalars w w'
  ∧ gameState w' = gameState w
  ∧ aliveEntities (entities w') = aliveEntities (entities w)
  ∧ (∀ z t', t' ≠ vulnerable → wGet w' z t' = wGet w z t')
  ∧ (∀ z, is_Some (wGet w z vulnerable) → is_Some (wGet w' z vulnerable))
  ∧ (∀ z, wGet w z vulnerable = Some (mkVulnerable nt fl) →
          wGet w' z vulnerable = Some (mkVulnerable nt fl))
  ∧ (∀ z, z ∈ L → is_Some (wGet w z vulnerable) →
          wGet w' z vulnerable = Some (mkVulnerable nt fl)).
Proof.
  unfold refreshVulnerable.
  induction L as [|x L IH]; intros w Halive; simpl.
  - split_and!; try done; [apply sameScalars_refl|].
    intros z Hz. by apply elem_of_nil in Hz.
  - match goal with |- context [fold_left _ L ?w0] => set (w1 := w0) end.
    assert (H1 : sameScalars w w1 ∧ gameState w1 = gameState w
                 ∧ aliveEntities (entities w1) = aliveEntities (entities w)
                 ∧ (∀ z t', t' ≠ vulnerable → wGet w1 z t' = wGet w z t')
                 ∧ (∀ z, is_Some (wGet w z vulnerable) → is_Some (wGet w1 z vulnerable))
                 ∧ (∀ z, wGet w z vulnerable = Some (mkVulnerable nt fl) →
                         wGet w1 z vulnerable = Some (mkVulnerable nt fl))
                 ∧ (is_Some (wGet w x vulnerable) →
                    wGet w1 x vulnerable = Some (mkVulnerable nt fl))).
    { assert (Hx : isAlive (entities w) x = true) by (apply Halive; by left).
      unfold w1. destruct (wGet w x vulnerable) as [v|] eqn:Hv.
      - split_and!.
        + apply sameScalars_wAdd.
        + done.
        + apply alive_wAdd.
        + intros z t' Ht'. by rewrite wGet_wAdd_other_type.
        + intros z Hz. destruct (decide (z = x)) as [->|Hne].
          * rewrite (wGet_wAdd_same _ x vulnerable); [by eexists|done].
          * by rewrite wGet_wAdd_other_id.
        + intros z Hz. destruct (decide (z = x)) as [->|Hne].
          * by rewrite (wGet_wAdd_same _ x vulnerable).
          * by rewrite wGet_wAdd_other_id.
        + intros _. by rewrite (wGet_wAdd_same _ x vulnerable).
      - split_and!; try done; try apply sameScalars_refl. }
    destruct H1 as (A1 & A2 & A3 & A4 & A5 & A6 & A7).
    destruct (IH w1) as (B1 & B2 & B3 & B4 & B5 & B6 & B7).
    { intros z Hz. unfold isAlive. rewrite A3. apply Halive. by right. }
    split_and!.
    + by eapply sameScalars_trans.
    + etrans; [exact B2|exact A2].
    + etrans; [exact B3|exact A3].
    + intros z t' Ht'. etrans; [by apply B4|by apply A4].
    + intros z Hz. by apply B5, A5.
    + intros z Hz. by apply B6, A6.
    + intros z Hz Hs. apply elem_of_cons in Hz as [->|Hz].
      * by apply B6, A7.
      * apply B7; [done|]. by apply A5.
Qed.

Lemma Qmax_pos (b : Q) : (0 < b)%Q → (0 < Qmax 0 b)%Q.
Proof.
  intros Hb. unfold Qmax. destruct (Qle_bool 0 b) eqn:E; [done|].
  assert (0 <= b)%Q as Hle by lra. apply Qle_bool_iff in Hle. congruence.
Qed.

Lemma ghosts_alive w z : z ∈ getGhostEntities w → isAlive (entities w) z = true.
Proof. intros H. by apply elem_of_getGhostEntities in H as [? _]. Qed.

(** The countdown step while time remains after it. *)
Lemma powerUpTick_spec (dt : Q) g :
  (dt < powerUpTime (world g))%Q →
  let g' := powerUpTick dt g in
  lives (world g') = lives (world g)
  ∧ gameState (world g') = gameState (world g)
  ∧ aliveEntities (entities (world g')) = aliveEntities (entities (world g))
  ∧ (∀ z t, t ≠ vulnerable → wGet (world g') z t = wGet (world g) z t)
  ∧ (∀ z, z ∈ getGhostEntities (world g) →
          is_Some (wGet (world g) z vulnerable) →
          isGhostVulnerable (world g') z = true)
  ∧ subscribers g' = subscribers g
  ∧ (∃ evs, trace g' = trace g ++ evs ∧ Forall (fun e => isQuietEvent e = true) evs).
Proof.
  intros Hdt. unfold powerUpTick.
  set (g1 := updWorld (fun w => decreasePowerUpTime w dt) g).
  set (newTime := getPowerUpTimeRemaining (world g1)).
  set (flash := Qle_bool newTime POWER_WARNING_TIME).
  assert (Hnt : (0 < newTime)%Q).
  { unfold newTime, g1. simpl. apply Qmax_pos. lra. }
  assert (Hghosts : getGhostEntities (world g1) = getGhostEntities (world g)) by done.
  rewrite Hghosts.
  set (g2 := updWorld (refreshVulnerable (getGhostEntities (world g)) newTime flash) g1).
  destruct (refreshVulnerable_spec (getGhostEntities (world g)) newTime flash (world g1))
    as (R1 & R2 & R3 & R4 & R5 & R6 & R7).
  { intros z Hz. by apply ghosts_alive in Hz. }
  change (refreshVulnerable (getGhostEntities (world g)) newTime flash (world g1))
    with (world g2) in R1, R2, R3, R4, R5, R6, R7.
  destruct (sameScalars_fields _ _ R1) as (F1 & _).
  assert (Hne : Qeq_bool newTime 0 = false).
  { destruct (Qeq_bool newTime 0) eqn:E; [|done].
    apply Qeq_bool_iff in E. lra. }
  rewrite Hne.
  assert (Hvul : ∀ w', (∀ z, wGet w' z vulnerable = wGet (world g2) z vulnerable) →
             ∀ z, z ∈ getGhostEntities (world g) →
                  is_Some (wGet (world g) z vulnerable) →
                  isGhostVulnerable w' z = true).
  { intros w' Hw' z Hz Hs. unfold isGhostVulnerable. rewrite Hw', R7; [|done|done].
    simpl. by apply Qltb_lt. }
  destruct (flash && negb (warningDispatched (powerUpSt g2))).
  - simpl. rewrite dispatch_lives, dispatch_entities, dispatch_subscribers,
      dispatch_trace.
    rewrite (dispatch_world (POWER_UP_WARNING newTime)) by done.
    split_and!; try done.
    + apply Hvul. done.
    + exists [POWER_UP_WARNING newTime]. split; [done|]. by repeat constructor.
  - split_and!; try done.
    + apply Hvul. done.
    + exists []. by rewrite app_nil_r.
Qed.

(** A tick of the power-up system on the start edge, with time left after
    the countdown: every ghost is vulnerable afterwards. *)
Lemma powerUpUpdate_start g :
  getGameState (world g) = Playing →
  wasActive (powerUpSt g) = false →
  (0 <= deltaTime (world g))%Q →
  (deltaTime (world g) < powerUpTime (world g))%Q →
  let g' := powerUpUpdate g in
  lives (world g') = lives (world g)
  ∧ gameState (world g') = Playing
  ∧ aliveEntities (entities (world g')) = aliveEntities (entities (world g))
  ∧ (∀ z t, t ≠ vulnerable → wGet (world g') z t = wGet (world g) z t)
  ∧ (∀ z, z ∈ getGhostEntities (world g) → isGhostVulnerable (world g') z = true)
  ∧ subscribers g' = subscribers g
  ∧ (∃ evs, trace g' = trace g ++ evs ∧ Forall (fun e => isQuietEvent e = true) evs).
Proof.
  intros Hst Hwas Hdt0 Hdt. unfold powerUpUpdate.
  rewrite decide_True by done.
  unfold getDeltaTime, getPowerUpTimeRemaining.
  assert (Hact : Qltb 0 (powerUpTime (world g)) = true) by (apply Qltb_lt; lra).
  rewrite Hact. unfold powerUpStart. rewrite Hwas. cbn [andb negb].
  set (g1 := setPowerUpSt (updWorld (makeGhostsVulnerable (powerUpTime (world g))) g) _).
  destruct (addVulnerable_fold (powerUpTime (world g)) (getGhostEntities (world g))
              (world g)) as (A1 & A2 & A3 & A4 & A5 & A6).
  { intros z Hz. by apply ghosts_alive in Hz. }
  change (fold_left _ (getGhostEntities (world g)) (world g)) with (world g1)
    in A1, A2, A3, A4, A5, A6.
  destruct (sameScalars_fields _ _ A1) as (F1 & _ & _ & F4 & F5 & _).
  assert (Hghosts : getGhostEntities (world g1) = getGhostEntities (world g)).
  { unfold getGhostEntities. apply query_ext; [done|].
    intros z t Ht. apply list_elem_of_singleton in Ht as ->. by apply (A4 z ghostAI). }
  destruct (powerUpTick_spec (deltaTime (world g)) g1)
    as (T1 & T2 & T3 & T4 & T5 & T6 & (evs & T7 & T8)).
  { by rewrite F5. }
  simpl. rewrite T1, T2, T3, T6, T7, A2, A3, F1.
  unfold getGameState in Hst. split_and!; try done.
  - intros z t Ht. rewrite T4 by done. by apply A4.
  - intros z Hz. apply T5; [by rewrite Hghosts|by apply A6].
  - by exists evs.
Qed.

End PowerUp.

(* ================================================================== *)
(** * The pipeline: eating before collision *)
(* ================================================================== *)

Section Pipeline.

Implicit Types (g : Game) (w : World).

Lemma deaths_app (l1 l2 : list GameEvent) : deaths (l1 ++ l2) = (deaths l1 + deaths l2)%nat.
Proof. unfold deaths. by rewrite filter_app, length_app. Qed.

Lemma deaths_quiet (l : list GameEvent) :
  Forall (fun e => isQuietEvent e = true) l → deaths l = 0%nat.
Proof.
  unfold deaths. induction 1 as [|e l He Hl IH]; [done|].
  rewrite filter_cons_False; [done|]. by destruct e.
Qed.

Lemma elem_of_getAllPellets w z :
  z ∈ getAllPellets w →
  is_Some (wGet w z edible) ∧ is_Some (wGet w z position)
  ∧ isAlive (entities w) z = true.
Proof.
  unfold getAllPellets, wQuery, isAlive. rewrite elem_of_query, set_has_true.
  intros [Ha Hc].
  split_and!; [| |done]; apply hasComponent_true, Hc.
  - by left.
  - right. by left.
Qed.

Lemma first_three_frame g :
  let g3 := movementUpdate ORIGINAL_MAZE (ghostAIUpdate (inputUpdate g)) in
  lives (world g3) = lives (world g)
  ∧ deltaTime (world g3) = deltaTime (world g)
  ∧ aliveEntities (entities (world g3)) = aliveEntities (entities (world g))
  ∧ powerUpSt g3 = powerUpSt g
  ∧ ∃ evs, trace g3 = trace g ++ evs ∧ Forall (fun e => isQuietEvent e = true) evs.
Proof.
  intros g3.
  destruct (inputUpdate_frame g) as (I1 & I2 & I3 & _ & (evs & I5 & I6)).
  destruct (sameShell_trans _ _ _ (ghostAIUpdate_frame (inputUpdate g))
              (movementUpdate_frame ORIGINAL_MAZE _)) as (S1 & S2 & S3 & _ & S5).
  fold g3 in S1, S2, S3, S5.
  destruct (sameScalars_fields _ _ (sameScalars_trans _ _ _ I1 S1))
    as (F1 & _ & _ & F4 & _).
  rewrite S2, S3, S5, I2, I3, I5. split_and!; try done. by exists evs.
Qed.

(** Eating a run of pellets, whatever their durations. *)
Lemma eatPellets_frame l : ∀ g,
  NoDup l →
  let g' := fold_left eatPellet l g in
  lives (world g') = lives (world g)
  ∧ gameState (world g') = gameState (world g)
  ∧ aliveEntities (entities (world g'))
    = filter (fun z => z ∉ l) (aliveEntities (entities (world g)))
  ∧ (∀ z t, z ∉ l → wGet (world g') z t = wGet (world g) z t)
  ∧ (∃ evs, trace g' = trace g ++ evs ∧ Forall (fun e => isQuietEvent e = true) evs).
Proof.
  induction l as [|x l IH]; intros g Hnd g'.
  - unfold g'. simpl. split_and!; try done.
    + induction (aliveEntities _) as [|y s IHs]; [done|].
      rewrite filter_cons_True by apply not_elem_of_nil. by rewrite <- IHs.
    + exists []. by rewrite app_nil_r.
  - apply NoDup_cons in Hnd as [Hx Hnd].
    destruct (eatPellet_spec g x)
      as (E1 & E2 & _ & E4 & E5 & _ & _ & (evs1 & E8 & E8') & _).
    destruct (IH (eatPellet g x) Hnd) as (I1 & I2 & I4 & I5 & (evs2 & I8 & I8')).
    unfold g'. simpl fold_left. rewrite I1, I2, I4, E1, E2, E4.
    split_and!; try done.
    + apply filter_set_delete.
    + intros z t Hz. apply not_elem_of_cons in Hz as [Hzx Hzl].
      rewrite I5 by done. by apply E5.
    + exists (evs1 ++ evs2). rewrite I8, E8, <- app_assoc. split; [done|].
      by apply Forall_app.
Qed.

Lemma ghostEatenIds_app (l1 l2 : list GameEvent) :
  ghostEatenIds (l1 ++ l2) = ghostEatenIds l1 ++ ghostEatenIds l2.
Proof. unfold ghostEatenIds. apply omap_app. Qed.

Lemma ghostEatenIds_quiet (l : list GameEvent) :
  Forall (fun e => isQuietEvent e = true) l → ghostEatenIds l = [].
Proof.
  induction 1 as [|e l He Hl IH]; [done|].
  unfold ghostEatenIds in *. by destruct e.
Qed.

End Pipeline.

(** [C1], amended.  Once Input, GhostAI and Movement have run, let the game
    be still in play, with the player within the collision distance of a
    ghost that is not in eaten mode and within the eating distance of a
    power pellet.  Then one run of the whole pipeline (Input, GhostAI,
    Movement, Eating, PowerUp, Collision) ends in one of two ways.

    If some edible stays out of the player's eating distance, the run takes
    no life, dispatches no [game:player:died] and dispatches
    [game:ghost:eaten] for that ghost, provided that the power-up system did
    not see the timer running at its previous update, that the frame time is
    not negative and shorter than the duration of every power pellet within
    the eating distance, and that neither the player nor the ghost is itself
    edible.

    If every edible is within the eating distance, so that the power pellet
    is among the last ones, the eating system ends the level: the game is
    won, no life is taken, and neither [game:player:died] nor
    [game:ghost:eaten] is dispatched, for any ghost. *)
Theorem power_pellet_protects_player (g : Game)
    (playerId ghostId pelletId : EntityId)
    (playerPos ghostPos pelletPos : Position) (pu : PowerUp) :
  let g3 := movementUpdate ORIGINAL_MAZE (ghostAIUpdate (inputUpdate g)) in
  let w3 := world g3 in
  let eaten := eatenPellets w3 playerPos in
  let g' := runSystems g in
  NoDup (aliveEntities (entities (world g))) →
  getGameState w3 = Playing →
  getPlayerEntity w3 = Some playerId →
  wGet w3 playerId position = Some playerPos →
  ghostId ∈ getGhostEntities w3 →
  getGhostMode w3 ghostId ≠ Some Eaten →
  wGet w3 ghostId position = Some ghostPos →
  closerThan playerPos ghostPos COLLISION_THRESHOLD = true →
  pelletId ∈ getAllPellets w3 →
  wGet w3 pelletId position = Some pelletPos →
  wGet w3 pelletId powerUp = Some pu →
  closerThan playerPos pelletPos EATING_THRESHOLD = true →
  ((∃ otherId, otherId ∈ getAllPellets w3 ∧ otherId ∉ eaten) →
   wasActive (powerUpSt g) = false →
   (0 <= getDeltaTime (world g))%Q →
   (∀ z pu', z ∈ eaten → wGet w3 z powerUp = Some pu' →
             (getDeltaTime (world g) < duration pu')%Q) →
   wGet w3 playerId edible = None →
   wGet w3 ghostId edible = None →
   getLives (world g') = getLives (world g)
   ∧ deaths (newEvents g g') = 0%nat
   ∧ ∃ ty pts streak pos, GHOST_EATEN ghostId ty pts streak pos ∈ newEvents g g')
  ∧ ((∀ z, z ∈ getAllPellets w3 → z ∈ eaten) →
     getGameState (world g') = Won
     ∧ getLives (world g') = getLives (world g)
     ∧ deaths (newEvents g g') = 0%nat
     ∧ ghostEatenIds (newEvents g g') = []).
Proof.
  intros g3 w3 eaten g' Hnd Hst Hp Hppos Hghost Hmode Hgpos Hgclose
    Hpel Hpelpos Hpelpu Hpelclose.
  unfold getLives.
  destruct (first_three_frame g) as (A1 & A2 & A3 & A4 & (evs1 & A5 & A6)).
  fold g3 in A1, A2, A3, A4, A5. fold w3 in A1, A2, A3.
  (* Eating *)
  set (l := eatenPellets w3 playerPos).
  assert (Hndl : NoDup l).
  { unfold l, eatenPellets. apply NoDup_filter, NoDup_query.
    fold w3. by rewrite A3. }
  assert (Hpell : pelletId ∈ l).
  { unfold l, eatenPellets. apply list_elem_of_filter. split; [|done].
    by rewrite Hpelpos. }
  assert (Hlen : (0 <? length l)%nat = true).
  { apply Nat.ltb_lt. destruct l; [by apply elem_of_nil in Hpell|simpl; lia]. }
  set (g4 := fold_left eatPellet l g3).
  destruct (eatPellets_frame l g3 Hndl) as (F1 & F2 & F4 & F5 & (evs4 & F8 & F8')).
  fold g4 in F1, F2, F4, F5, F8. fold w3 in F1, F2, F4, F5.
  assert (Hpel4 : getAllPellets (world g4)
                  = filter (fun z => z ∉ l) (getAllPellets w3)).
  { unfold getAllPellets, wQuery. by apply query_after_destroy. }
  assert (Heat : eatingUpdate g3
                 = if (getRemainingPelletCount (world g4) =? 0)%nat
                   then dispatch (LEVEL_COMPLETE (getLevel (setGameState (world g4) Won))
                                    (getScore (setGameState (world g4) Won)))
                          (updWorld (fun w => setGameState w Won) g4)
                   else g4).
  { unfold eatingUpdate. fold w3. rewrite decide_True by done. rewrite Hp.
    unfold getPlayerPosition. rewrite Hp, Hppos. fold l g4. cbv zeta.
    by rewrite Hlen. }
  split.
  - (* an edible stays: the ghost is eaten *)
    intros (otherId & Hoth & Hothl) Hwas Hdt0 Hdur Hped Hged.
    unfold getDeltaTime in Hdt0, Hdur.
    assert (Hl_edible : ∀ z, z ∈ l → is_Some (wGet w3 z edible)).
    { intros z Hz. unfold l, eatenPellets in Hz.
      apply list_elem_of_filter in Hz as [_ Hz].
      by apply elem_of_getAllPellets in Hz as [? _]. }
    assert (Hpl : playerId ∉ l).
    { intros Hin. apply Hl_edible in Hin. rewrite Hped in Hin. by destruct Hin. }
    assert (Hgl : ghostId ∉ l).
    { intros Hin. apply Hl_edible in Hin. rewrite Hged in Hin. by destruct Hin. }
    destruct (eatPellets_spec (deltaTime (world g)) l g3 Hndl)
      as (E1 & E2 & E3 & E4 & E5 & E6 & E7 & (evs4' & E8 & E8') & E9).
    { intros z pu' Hz. by apply Hdur. }
    fold g4 in E1, E2, E3, E4, E5, E6, E7, E8, E9. fold w3 in E1, E2, E3, E4, E5, E9.
    assert (Hg4 : eatingUpdate g3 = g4).
    { rewrite Heat.
      assert ((getRemainingPelletCount (world g4) =? 0)%nat = false) as ->; [|done].
      apply Nat.eqb_neq. unfold getRemainingPelletCount. rewrite Hpel4.
      assert (otherId ∈ filter (fun z => z ∉ l) (getAllPellets w3)) as Hin
        by (by apply list_elem_of_filter).
      intros Hlen'. apply length_zero_iff_nil in Hlen'. rewrite Hlen' in Hin.
      by apply elem_of_nil in Hin. }
    assert (Htime : (deltaTime (world g4) < powerUpTime (world g4))%Q).
    { rewrite E3, A2. apply E9. right. exists pelletId. split; [done|].
      rewrite Hpelpu. by eexists. }
    (* PowerUp *)
    set (g5 := powerUpUpdate g4).
    destruct (powerUpUpdate_start g4)
      as (P1 & P2 & P3 & P4 & P5 & P6 & (evs5 & P7 & P8)); try done.
    { unfold getGameState. by rewrite E2. }
    { by rewrite E6, A4. }
    { by rewrite E3, A2. }
    fold g5 in P1, P2, P3, P4, P5, P6, P7.
    assert (Hquery5 : ∀ ts, vulnerable ∉ ts →
              wQuery (world g5) ts = filter (fun z => z ∉ l) (wQuery w3 ts)).
    { intros ts Hts. unfold wQuery.
      rewrite (query_ext (entities (world g4)) (entities (world g5))).
      - by apply query_after_destroy.
      - done.
      - intros z t Ht. apply P4. intros ->. done. }
    assert (Hp5 : getPlayerEntity (world g5) = Some playerId).
    { unfold getPlayerEntity. rewrite Hquery5.
      - unfold getPlayerEntity in Hp.
        destruct (wQuery w3 [playerControlled]) as [|p rest]; [done|].
        simpl in Hp. injection Hp as ->. by rewrite filter_cons_True.
      - intros Hin. apply list_elem_of_singleton in Hin. done. }
    assert (Hghosts5 : getGhostEntities (world g5) = getGhostEntities (world g4)).
    { unfold getGhostEntities, wQuery. apply query_ext; [done|].
      intros z t Ht. apply list_elem_of_singleton in Ht as ->. by apply (P4 z ghostAI). }
    assert (Hghost5 : ghostId ∈ getGhostEntities (world g5)).
    { unfold getGhostEntities. rewrite Hquery5.
      - by apply list_elem_of_filter.
      - intros Hin. apply list_elem_of_singleton in Hin. done. }
    assert (Hsame : ∀ z t, z ∉ l → t ≠ vulnerable → wGet (world g5) z t = wGet w3 z t).
    { intros z t Hz Ht. rewrite P4 by done. by apply E5. }
    (* Collision *)
    set (ghosts := collidingGhosts (world g5) playerId).
    assert (Hndg : NoDup ghosts).
    { apply NoDup_collidingGhosts. by rewrite P3, E4, A3; apply NoDup_filter. }
    assert (Hvul : Forall (fun z => isGhostVulnerable (world g5) z = true) ghosts).
    { apply Forall_forall. intros z Hz. unfold ghosts, collidingGhosts in Hz.
      apply list_elem_of_filter in Hz as [_ Hz]. apply P5. by rewrite <- Hghosts5. }
    assert (Hin : ghostId ∈ ghosts).
    { unfold ghosts, collidingGhosts. apply list_elem_of_filter. split; [|done].
      unfold getGhostMode. rewrite (Hsame ghostId ghostAI) by done.
      fold (getGhostMode w3 ghostId). rewrite decide_False by done.
      unfold areColliding.
      rewrite (Hsame playerId position), (Hsame ghostId position) by done.
      by rewrite Hppos, Hgpos. }
    assert (Hg' : g' = fold_left eatGhost ghosts g5).
    { unfold g', runSystems. fold g3. rewrite Hg4. fold g5.
      rewrite (collisionUpdate_playing g5 playerId) by done. fold ghosts.
      rewrite <- (app_nil_r ghosts) at 1.
      by rewrite processCollisions_eat_prefix. }
    destruct (eatGhosts_spec ghosts g5 Hndg) as (C1 & _ & _ & C4 & _).
    rewrite <- Hg' in C1, C4.
    assert (Hnew : newEvents g g'
                   = evs1 ++ evs4' ++ evs5
                     ++ imap (ghostEatenEvent (world g5) (ghostEatenStreak (world g5)))
                          ghosts).
    { apply newEvents_app. rewrite C1, P7, E8, A5. by rewrite <- !app_assoc. }
    split_and!.
    + by rewrite C4, P1, E1, A1.
    + rewrite Hnew, !deaths_app, !deaths_quiet by done.
      by rewrite deaths_imap.
    + apply list_elem_of_lookup in Hin as [i Hi].
      eexists _, _, _, _. rewrite Hnew, !elem_of_app. do 3 right.
      apply list_elem_of_lookup. exists i.
      rewrite list_lookup_imap, Hi. reflexivity.
  - (* every edible is eaten: the level ends *)
    intros Hall.
    set (g4' := dispatch (LEVEL_COMPLETE (getLevel (setGameState (world g4) Won))
                            (getScore (setGameState (world g4) Won)))
                  (updWorld (fun w => setGameState w Won) g4)).
    assert (Hg4 : eatingUpdate g3 = g4').
    { rewrite Heat.
      assert ((getRemainingPelletCount (world g4) =? 0)%nat = true) as ->; [|done].
      apply Nat.eqb_eq. unfold getRemainingPelletCount. rewrite Hpel4.
      apply length_zero_iff_nil. apply elem_of_nil_inv. intros z Hz.
      apply list_elem_of_filter in Hz as [Hn Hz]. by apply Hn, Hall. }
    assert (Hw4 : world g4' = setGameState (world g4) Won).
    { unfold g4'. by rewrite dispatch_world. }
    assert (Hwon : getGameState (world g4') ≠ Playing).
    { rewrite Hw4. done. }
    assert (Hg' : g' = g4').
    { unfold g', runSystems. fold g3. rewrite Hg4.
      unfold powerUpUpdate. rewrite decide_False by done.
      unfold collisionUpdate. by rewrite decide_False. }
    assert (Hnew : newEvents g g'
                   = evs1 ++ evs4
                     ++ [LEVEL_COMPLETE (getLevel (setGameState (world g4) Won))
                           (getScore (setGameState (world g4) Won))]).
    { apply newEvents_app. rewrite Hg'. unfold g4'. rewrite dispatch_trace. simpl.
      rewrite F8, A5. by rewrite <- !app_assoc. }
    rewrite Hg', Hw4. split_and!.
    + done.
    + simpl. by rewrite F1, A1.
    + rewrite <- Hg', Hnew, !deaths_app, !deaths_quiet by done. done.
    + rewrite <- Hg', Hnew, !ghostEatenIds_app, !ghostEatenIds_quiet by done. done.
Qed.

(** An instance: the integration-test scenario, one more pellet on the
    board. *)
Lemma power_pellet_protects_player_witness :
  getLives (world (runSystems powerPelletOnGhost)) = getLives (world powerPelletOnGhost)
  ∧ deaths (newEvents powerPelletOnGhost (runSystems powerPelletOnGhost)) = 0%nat
  ∧ ∃ ty pts streak pos,
      GHOST_EATEN 1%nat ty pts streak pos
      ∈ newEvents powerPelletOnGhost (runSystems powerPelletOnGhost).
Proof.
  destruct (power_pellet_protects_player powerPelletOnGhost 0%nat 1%nat 2%nat
              (createPosition 14 5) (mkPosition 14 5 (97166000 # 333400) (220 # 2))
              (createPosition 14 5) (mkPowerUp 6000))
    as [Heaten _].
  - apply (bool_decide_unpack _). by vm_compute.
  - by vm_compute.
  - by vm_compute.
  - by vm_compute.
  - vm_compute. left.
  - vm_compute. discriminate.
  - by vm_compute.
  - by vm_compute.
  - vm_compute. left.
  - by vm_compute.
  - by vm_compute.
  - by vm_compute.
  - apply Heaten.
    + exists 3%nat. split.
      * vm_compute. right. left.
      * vm_compute. intros Hin. apply list_elem_of_singleton in Hin. discriminate.
    + reflexivity.
    + by vm_compute.
    + intros z pu' Hz.
      assert (z = 2%nat) as ->.
      { vm_compute in Hz. by apply list_elem_of_singleton in Hz. }
      vm_compute. by intros [= <-].
    + by vm_compute.
    + by vm_compute.
Defined.

(** [C1] as stated fails, in three ways, each shown on the integration-test
    scenario (the player, a blinky that is not vulnerable and a power pellet
    on cell (14, 5) of a world in play).  When that power pellet is the last
    edible of the level, the eating system ends the level ([Won]), the
    power-up and collision systems then return at once, and the tick
    dispatches three events none of which is a [game:ghost:eaten].  When a
    power-up is already running, or when the frame lasts as long as the
    power-up, the ghost is not vulnerable when the collision system looks at
    it, although another pellet is left on the board: a life is taken,
    [game:player:died] is dispatched and no ghost is eaten. *)
Lemma power_pellet_does_not_always_protect :
  (getGameState (world lastPowerPelletOnGhost) = Playing
   ∧ getPlayerEntity (world lastPowerPelletOnGhost) = Some 0%nat
   ∧ getGhostEntities (world lastPowerPelletOnGhost) = [1%nat]
   ∧ isGhostVulnerable (world lastPowerPelletOnGhost) 1%nat = false
   ∧ wGet (world lastPowerPelletOnGhost) 2%nat powerUp = Some (mkPowerUp 6000)
   ∧ wGet (world lastPowerPelletOnGhost) 0%nat position = Some (createPosition 14 5)
   ∧ wGet (world lastPowerPelletOnGhost) 1%nat position = Some (createPosition 14 5)
   ∧ wGet (world lastPowerPelletOnGhost) 2%nat position = Some (createPosition 14 5)
   ∧ ghostEatenIds (newEvents lastPowerPelletOnGhost (runSystems lastPowerPelletOnGhost))
     = []
   ∧ length (newEvents lastPowerPelletOnGhost (runSystems lastPowerPelletOnGhost))
     = 3%nat
   ∧ getGameState (world (runSystems lastPowerPelletOnGhost)) = Won)
  ∧ (getGameState (world secondPowerPelletOnGhost) = Playing
     ∧ getPlayerEntity (world secondPowerPelletOnGhost) = Some 0%nat
     ∧ getGhostEntities (world secondPowerPelletOnGhost) = [1%nat]
     ∧ isGhostVulnerable (world secondPowerPelletOnGhost) 1%nat = false
     ∧ wGet (world secondPowerPelletOnGhost) 2%nat powerUp = Some (mkPowerUp 6000)
     ∧ wGet (world secondPowerPelletOnGhost) 0%nat position = Some (createPosition 14 5)
     ∧ wGet (world secondPowerPelletOnGhost) 1%nat position = Some (createPosition 14 5)
     ∧ wGet (world secondPowerPelletOnGhost) 2%nat position = Some (createPosition 14 5)
     ∧ wasActive (powerUpSt secondPowerPelletOnGhost) = true
     ∧ getLives (world secondPowerPelletOnGhost) = 3
     ∧ getLives (world (runSystems secondPowerPelletOnGhost)) = 2
     ∧ deaths (newEvents secondPowerPelletOnGhost (runSystems secondPowerPelletOnGhost))
       = 1%nat
     ∧ ghostEatenIds
         (newEvents secondPowerPelletOnGhost (runSystems secondPowerPelletOnGhost))
       = [])
  ∧ (getGameState (world longFrameOnGhost) = Playing
     ∧ getPlayerEntity (world longFrameOnGhost) = Some 0%nat
     ∧ getGhostEntities (world longFrameOnGhost) = [1%nat]
     ∧ isGhostVulnerable (world longFrameOnGhost) 1%nat = false
     ∧ wGet (world longFrameOnGhost) 2%nat powerUp = Some (mkPowerUp 6000)
     ∧ wGet (world longFrameOnGhost) 0%nat position = Some (createPosition 14 5)
     ∧ wGet (world longFrameOnGhost) 1%nat position = Some (createPosition 14 5)
     ∧ wGet (world longFrameOnGhost) 2%nat position = Some (createPosition 14 5)
     ∧ wasActive (powerUpSt longFrameOnGhost) = false
     ∧ getDeltaTime (world longFrameOnGhost) = 6000%Q
     ∧ getLives (world longFrameOnGhost) = 3
     ∧ getLives (world (runSystems longFrameOnGhost)) = 2
     ∧ deaths (newEvents longFrameOnGhost (runSystems longFrameOnGhost)) = 1%nat
     ∧ ghostEatenIds (newEvents longFrameOnGhost (runSystems longFrameOnGhost)) = []).
Proof. by vm_compute. Qed.

(* ================================================================== *)
(** * Further properties of the entity registry *)
(* ================================================================== *)

Section RegistryMore.

Implicit Types (em : EntityManager) (id : EntityId) (t : ComponentType).

Lemma setStore_setStore cs t (m1 m2 : gmap nat (ComponentMap t)) :
  setStore (setStore cs t m1) t m2 = setStore cs t m2.
Proof. by destruct t. Qed.

Lemma setStore_getStore cs t : setStore cs t (getStore cs t) = cs.
Proof. by destruct cs, t. Qed.

Lemma hasComponent_add_other em id id' t t' (c : ComponentMap t) :
  id' ≠ id ∨ t' ≠ t →
  getComponent (addComponent em id t c) id' t' = getComponent em id' t'.
Proof.
  intros [H|H].
  - by apply getComponent_add_other_id.
  - apply getComponent_add_other_type. congruence.
Qed.

Lemma wellFormed_createEntityManager : wellFormed createEntityManager.
Proof.
  split_and!.
  - constructor.
  - intros id H. by apply elem_of_nil in H.
  - intros id t H. by destruct t.
Qed.

Lemma wellFormed_createEntity em : wellFormed em → wellFormed (createEntity em).2.
Proof.
  intros (Hnd & Hlt & Hc). split_and!; simpl.
  - by apply NoDup_set_add.
  - intros id. unfold set_add. destruct (decide _).
    + intros H. apply Hlt in H. lia.
    + intros [H| ->%list_elem_of_singleton]%elem_of_app; [apply Hlt in H|]; lia.
  - intros id t H. specialize (Hc id t H).
    unfold isAlive in *. simpl. apply set_has_true. apply set_has_true in Hc.
    unfold set_add. destruct (decide _); [done|]. apply elem_of_app. by left.
Qed.

Lemma wellFormed_destroyEntity em id : wellFormed em → wellFormed (destroyEntity em id).
Proof.
  intros (Hnd & Hlt & Hc).
  destruct (isAlive em id) eqn:Ha.
  - split_and!.
    + rewrite aliveEntities_destroy. by apply NoDup_set_delete.
    + intros x. rewrite aliveEntities_destroy, elem_of_set_delete.
      intros [_ H]. unfold destroyEntity.
      destruct (negb _); simpl; by apply Hlt.
    + intros x t H. destruct (decide (x = id)) as [->|Hne].
      * apply hasComponent_true in H.
        rewrite getComponent_destroy_same in H by done. by destruct H.
      * rewrite isAlive_destroy_other by done. apply (Hc x t).
        apply hasComponent_true. apply hasComponent_true in H.
        by rewrite getComponent_destroy_other in H.
  - unfold destroyEntity. unfold isAlive in Ha. by rewrite Ha.
Qed.

Lemma wellFormed_addComponent em id t (c : ComponentMap t) :
  wellFormed em → wellFormed (addComponent em id t c).
Proof.
  intros (Hnd & Hlt & Hc).
  destruct (isAlive em id) eqn:Ha.
  - split_and!.
    + by rewrite alive_addComponent.
    + intros x. rewrite alive_addComponent. intros H.
      unfold addComponent. destruct (negb _); simpl; by apply Hlt.
    + intros x t' H. unfold isAlive. rewrite alive_addComponent.
      destruct (decide (x = id)) as [->|Hne]; [done|].
      apply (Hc x t'). apply hasComponent_true. apply hasComponent_true in H.
      by rewrite getComponent_add_other_id in H.
  - unfold addComponent. unfold isAlive in Ha. by rewrite Ha.
Qed.

Lemma wellFormed_removeComponent em id t :
  wellFormed em → wellFormed (removeComponent em id t).
Proof.
  intros (Hnd & Hlt & Hc). split_and!; try done.
  intros x t' H. apply (Hc x t'). apply hasComponent_true.
  apply hasComponent_true in H.
  destruct (decide (x = id)) as [->|Hne].
  - destruct (decide (t = t')) as [<-|Hnt].
    + rewrite getComponent_remove_same in H. by destruct H.
    + by rewrite getComponent_remove_other_type in H.
  - by rewrite getComponent_remove_other_id in H.
Qed.

Lemma wellFormed_clear em : wellFormed em → wellFormed (clear em).
Proof.
  intros _. split_and!; simpl.
  - constructor.
  - intros id H. by apply elem_of_nil in H.
  - intros id t H. by destruct t.
Qed.

Lemma wellFormed_call (w : World) (c : RegistryCall) :
  wellFormed (entities w) → wellFormed (entities (call w c).1).
Proof.
  intros H. destruct c; simpl.
  - by apply wellFormed_createEntity.
  - by apply wellFormed_destroyEntity.
  - by apply wellFormed_addComponent.
  - by apply wellFormed_removeComponent.
  - by apply wellFormed_clear.
  - by apply wellFormed_clear.
Qed.

Lemma wellFormed_session (calls : list RegistryCall) : ∀ w : World,
  wellFormed (entities w) → wellFormed (entities (session w calls).1).
Proof.
  induction calls as [|c rest IH]; intros w H; simpl; [done|].
  pose proof (wellFormed_call w c H) as Hc.
  destruct (call w c) as [w1 r]. simpl in Hc.
  specialize (IH w1 Hc).
  by destruct (session w1 rest) as [w2 ids].
Qed.

End RegistryMore.

(** [X1] Adding a component.  On a live entity [addComponent] stores the
    component, so that [getComponent] returns it and [hasComponent] holds,
    and a second [addComponent] of the same type replaces the first.  On an
    id that is not alive it does nothing.  It never changes the live set,
    the id counter or any other (entity, type) slot. *)
Theorem addComponent_getComponent (em : EntityManager) (id : EntityId)
    (t : ComponentType) (c c' : ComponentMap t) :
  (isAlive em id = true →
     getComponent (addComponent em id t c) id t = Some c
     ∧ hasComponent (addComponent em id t c) id t = true
     ∧ addComponent (addComponent em id t c') id t c = addComponent em id t c)
  ∧ (isAlive em id = false → addComponent em id t c = em)
  ∧ getAllEntities (addComponent em id t c) = getAllEntities em
  ∧ nextId (addComponent em id t c) = nextId em
  ∧ (∀ id' t', id' ≠ id ∨ t' ≠ t →
       getComponent (addComponent em id t c) id' t' = getComponent em id' t').
Proof.
  split_and!.
  - intros Ha. split_and!.
    + by apply getComponent_add_same.
    + apply hasComponent_true. rewrite getComponent_add_same by done. by eexists.
    + unfold isAlive in Ha. unfold addComponent. simpl. rewrite Ha. simpl.
      rewrite Ha. simpl.
      by rewrite setStore_setStore, getStore_setStore_eq, insert_insert_eq.
  - intros Ha. unfold isAlive in Ha. unfold addComponent. by rewrite Ha.
  - apply alive_addComponent.
  - unfold addComponent. by destruct (negb _).
  - intros id' t'. apply hasComponent_add_other.
Qed.

(** An instance on [twoEntities]: the position of entity 0 is replaced; id 9
    is not alive. *)
Lemma addComponent_getComponent_witness :
  getComponent (addComponent twoEntities 0%nat position (createPosition 3 3))
    0%nat position = Some (createPosition 3 3)
  ∧ addComponent twoEntities 9%nat position (createPosition 3 3) = twoEntities.
Proof.
  split.
  - apply (proj1 (addComponent_getComponent twoEntities 0%nat position
                    (createPosition 3 3) (createPosition 3 3))).
    reflexivity.
  - apply (proj1 (proj2 (addComponent_getComponent twoEntities 9%nat position
                           (createPosition 3 3) (createPosition 3 3)))).
    reflexivity.
Defined.

(** [X2] Removing a component.  After [removeComponent] the entity no longer
    has a component of that type; the live set, the id counter and every
    other (entity, type) slot are as before; no liveness check is made.
    Removing a component that is absent changes nothing, and removing a
    component just added to a live entity that lacked it restores the
    registry. *)
Theorem removeComponent_spec (em : EntityManager) (id : EntityId)
    (t : ComponentType) (c : ComponentMap t) :
  getComponent (removeComponent em id t) id t = None
  ∧ hasComponent (removeComponent em id t) id t = false
  ∧ getAllEntities (removeComponent em id t) = getAllEntities em
  ∧ nextId (removeComponent em id t) = nextId em
  ∧ (∀ id' t', id' ≠ id ∨ t' ≠ t →
       getComponent (removeComponent em id t) id' t' = getComponent em id' t')
  ∧ (getComponent em id t = None → removeComponent em id t = em)
  ∧ (isAlive em id = true → getComponent em id t = None →
       removeComponent (addComponent em id t c) id t = em).
Proof.
  split_and!.
  - apply getComponent_remove_same.
  - unfold hasComponent.
    pose proof (getComponent_remove_same em id t) as H.
    unfold getComponent in H. by rewrite H.
  - done.
  - done.
  - intros id' t' [H|H].
    + by apply getComponent_remove_other_id.
    + apply getComponent_remove_other_type. congruence.
  - intros H. unfold getComponent in H. unfold removeComponent.
    rewrite delete_id by done. rewrite setStore_getStore. by destruct em.
  - intros Ha H. unfold getComponent in H. unfold isAlive in Ha.
    unfold removeComponent, addComponent. rewrite Ha. simpl.
    rewrite getStore_setStore_eq, setStore_setStore, delete_insert_id by done.
    rewrite setStore_getStore. by destruct em.
Qed.

(** An instance on [twoEntities]: entity 0 has no ghostAI; entity 1 loses
    its own. *)
Lemma removeComponent_spec_witness :
  removeComponent twoEntities 0%nat ghostAI = twoEntities
  ∧ removeComponent
      (addComponent twoEntities 0%nat ghostAI
         (mkGhostAI inky Chase (SCATTER_TARGETS inky))) 0%nat ghostAI
    = twoEntities.
Proof.
  destruct (removeComponent_spec twoEntities 0%nat ghostAI
              (mkGhostAI inky Chase (SCATTER_TARGETS inky)))
    as (_ & _ & _ & _ & _ & Habsent & Hundo).
  split.
  - apply Habsent. reflexivity.
  - apply Hundo; reflexivity.
Defined.

(** [X3] The registry invariant.  Whatever sequence of calls is made on a
    fresh world (create, destroy, add, remove, clear, reset), the live set
    never holds an id twice, every live id is below the id counter, and
    only live entities hold components. *)
Theorem registry_invariant (initial : option Z) (calls : list RegistryCall) :
  wellFormed (entities (session (createWorld initial) calls).1).
Proof.
  apply wellFormed_session. apply wellFormed_createEntityManager.
Qed.

(** [X4] A created entity is fresh.  In a registry reached by any sequence
    of calls on a fresh world, [createEntity] returns the current counter
    value; that id was not alive, is alive afterwards, comes last in
    [getAllEntities], and holds no component, not even one left over from an
    earlier entity; no component of any entity changes. *)
Theorem createEntity_fresh (initial : option Z) (calls : list RegistryCall) :
  let em := entities (session (createWorld initial) calls).1 in
  let id := (createEntity em).1 in
  let em' := (createEntity em).2 in
  id = nextId em
  ∧ isAlive em id = false
  ∧ isAlive em' id = true
  ∧ getAllEntities em' = getAllEntities em ++ [id]
  ∧ (∀ t, getComponent em' id t = None ∧ hasComponent em' id t = false)
  ∧ (∀ id' t, getComponent em' id' t = getComponent em id' t)
  ∧ nextId em' = S (nextId em).
Proof.
  intros em id em'.
  pose proof (wellFormed_session calls (createWorld initial)
                wellFormed_createEntityManager) as (Hnd & Hlt & Hc).
  fold em in Hnd, Hlt, Hc.
  assert (Hnot : id ∉ aliveEntities em).
  { intros H. apply Hlt in H. unfold id in H. simpl in H. lia. }
  assert (Hdead : isAlive em id = false) by (by apply set_has_false).
  split_and!; try done.
  - unfold em', isAlive. simpl. apply set_has_true. unfold set_add.
    destruct (decide _); [done|]. apply elem_of_app. right. by left.
  - unfold em', getAllEntities. simpl. unfold set_add. fold id.
    by destruct (decide _).
  - intros t.
    assert (hasComponent em id t = false) as H.
    { destruct (hasComponent em id t) eqn:E; [|done].
      apply Hc in E. congruence. }
    split; [|done].
    unfold hasComponent in H. unfold em', getComponent. simpl.
    by destruct (getStore (componentStores em) t !! id).
Qed.

(** [X5] The shape of a query result.  With no component type listed the
    query returns every live entity.  A query result lists live entities in
    the order of [getAllEntities], each at most once when the live set has
    no duplicates, and asking for more component types can only drop
    entities. *)
Theorem query_order_and_monotonicity (em : EntityManager) (S S' : list ComponentType) :
  getEntitiesWithComponents em [] = getAllEntities em
  ∧ sublist (getEntitiesWithComponents em S) (getAllEntities em)
  ∧ (S ⊆ S' →
     sublist (getEntitiesWithComponents em S') (getEntitiesWithComponents em S))
  ∧ (NoDup (getAllEntities em) → NoDup (getEntitiesWithComponents em S)).
Proof.
  split_and!.
  - unfold getEntitiesWithComponents, getAllEntities. simpl.
    induction (aliveEntities em) as [|x l IH]; [done|].
    rewrite filter_cons_True by done. by rewrite IH.
  - apply sublist_filter.
  - intros Hsub. unfold getEntitiesWithComponents.
    assert (filter (fun id => forallb (hasComponent em id) S' = true) (aliveEntities em)
            = filter (fun id => forallb (hasComponent em id) S' = true)
                (filter (fun id => forallb (hasComponent em id) S = true)
                   (aliveEntities em))) as ->.
    { rewrite list_filter_filter. apply list_filter_iff. intros x. split.
      - intros H. split; [done|]. apply forallb_forall. intros t Ht.
        apply (proj1 (forallb_forall _ _) H). apply list_elem_of_In.
        apply Hsub. by apply list_elem_of_In.
      - by intros [H _]. }
    apply sublist_filter.
  - apply NoDup_query.
Qed.

(** An instance on [twoEntities]: requiring a ghostAI besides a position
    drops entity 0. *)
Lemma query_order_and_monotonicity_witness :
  sublist (getEntitiesWithComponents twoEntities [position; ghostAI])
          (getEntitiesWithComponents twoEntities [position])
  ∧ NoDup (getEntitiesWithComponents twoEntities [position]).
Proof.
  split.
  - apply (query_order_and_monotonicity twoEntities [position] [position; ghostAI]).
    apply (bool_decide_unpack _). by vm_compute.
  - apply (query_order_and_monotonicity twoEntities [position] [position; ghostAI]).
    apply (bool_decide_unpack _). by vm_compute.
Defined.

(* ================================================================== *)
(** * Further properties of the world container *)
(* ================================================================== *)

Section WorldMore.

Implicit Types (w : World).

Lemma Qle_bool_true (x y : Q) : Qle_bool x y = true ↔ (x <= y)%Q.
Proof. apply Qle_bool_iff. Qed.

Lemma Qmax_spec (x y : Q) :
  ((x <= y)%Q ∧ Qmax x y = y) ∨ ((y < x)%Q ∧ Qmax x y = x).
Proof.
  unfold Qmax. destruct (Qle_bool x y) eqn:E.
  - left. split; [by apply Qle_bool_true|done].
  - right. split; [by apply Qle_bool_false|done].
Qed.

Lemma loseLife_lives w : 0 ≤ lives w → lives (loseLife w) = Z.max 0 (lives w - 1).
Proof.
  intros H. unfold loseLife. destruct (0 <? lives w) eqn:E; simpl.
  - apply Z.ltb_lt in E. lia.
  - apply Z.ltb_ge in E. lia.
Qed.

End WorldMore.



(** [X7] Lives and score.  Starting from a number of lives that is not
    negative, [n] calls of [loseLife] leave [max 0 (lives - n)] lives, so the
    count never goes below zero; [loseLife] undoes [addLife].  [addScore]
    adds its argument when it is positive and nothing otherwise, so the
    score never decreases. *)
Theorem lives_and_score_bounds (w : World) (n : nat) (pts : Z) :
  (0 ≤ getLives w →
     getLives (Nat.iter n loseLife w) = Z.max 0 (getLives w - Z.of_nat n)
     ∧ loseLife (addLife w) = w)
  ∧ getScore (addScore w pts) = getScore w + Z.max 0 pts
  ∧ getScore w ≤ getScore (addScore w pts)
  ∧ getLives (addScore w pts) = getLives w.
Proof.
  unfold getLives, getScore. split_and!.
  - intros H. split.
    + induction n as [|n IH]; simpl; [lia|].
      rewrite loseLife_lives by lia. lia.
    + unfold loseLife, addLife. simpl.
      assert ((0 <? lives w + 1) = true) as -> by (apply Z.ltb_lt; lia).
      destruct w; simpl. f_equal. lia.
  - unfold addScore. destruct (0 <? pts) eqn:E; simpl.
    + apply Z.ltb_lt in E. lia.
    + apply Z.ltb_ge in E. lia.
  - unfold addScore. destruct (0 <? pts) eqn:E; simpl; [|lia].
    apply Z.ltb_lt in E. lia.
  - unfold addScore. by destruct (0 <? pts).
Qed.

(** An instance: three lives, five deaths. *)
Lemma lives_and_score_bounds_witness :
  getLives (Nat.iter 5 loseLife (createWorld None)) = 0
  ∧ loseLife (addLife (createWorld None)) = createWorld None.
Proof.
  destruct (proj1 (lives_and_score_bounds (createWorld None) 5 0)) as [H1 H2].
  - by vm_compute.
  - split; [exact H1|exact H2].
Defined.

(* ================================================================== *)
(** * Selectors *)
(* ================================================================== *)

Section SelectorsMore.

Implicit Types (w : World) (id : EntityId).

Lemma elem_of_wQuery w id (ts : list ComponentType) :
  id ∈ wQuery w ts
  ↔ isAlive (entities w) id = true ∧ ∀ t, t ∈ ts → wHas w id t = true.
Proof.
  unfold wQuery, wHas, isAlive. rewrite elem_of_query. by rewrite set_has_true.
Qed.

Lemma getPlayerEntity_Some w id :
  getPlayerEntity w = Some id →
  isAlive (entities w) id = true ∧ wHas w id playerControlled = true.
Proof.
  intros H. apply head_Some_elem_of in H. apply elem_of_wQuery in H as [Ha Hc].
  split; [done|]. apply Hc. by left.
Qed.

End SelectorsMore.

(** [X8] Looking a pellet up by cell.  [getPelletAt] returns the first
    pellet, in query order, whose position is on the cell: a live entity
    with an edible and a position component; it returns nothing exactly when
    no pellet is on the cell.  [isPowerPelletAt] looks at that first pellet
    only: when it holds, the pellet found is a power pellet on the cell. *)
Theorem getPelletAt_spec (w : World) (gx gy : Z) :
  (∀ id, getPelletAt w gx gy = Some id →
     id ∈ getAllPellets w
     ∧ isAlive (entities w) id = true
     ∧ is_Some (wGet w id edible)
     ∧ (∃ p, wGet w id position = Some p ∧ gridX p = gx ∧ gridY p = gy)
     ∧ ∃ before after,
         getAllPellets w = before ++ id :: after
         ∧ ∀ z p, z ∈ before → wGet w z position = Some p →
                  ¬ (gridX p = gx ∧ gridY p = gy))
  ∧ (getPelletAt w gx gy = None
     ↔ ∀ z p, z ∈ getAllPellets w → wGet w z position = Some p →
              ¬ (gridX p = gx ∧ gridY p = gy))
  ∧ (isPelletAt w gx gy = true
     ↔ ∃ z p, z ∈ getAllPellets w ∧ wGet w z position = Some p
              ∧ gridX p = gx ∧ gridY p = gy)
  ∧ (isPowerPelletAt w gx gy = true →
     ∃ id, getPelletAt w gx gy = Some id ∧ id ∈ getPowerPellets w).
Proof.
  set (P := fun id => match wGet w id position with
                      | Some p => (gridX p =? gx) && (gridY p =? gy)
                      | None => false
                      end = true).
  assert (HP : ∀ z, P z ↔ ∃ p, wGet w z position = Some p
                               ∧ gridX p = gx ∧ gridY p = gy).
  { intros z. unfold P. destruct (wGet w z position) as [p|]; split.
    - intros [H1 H2]%andb_prop. exists p. split; [done|]. lia.
    - intros (p' & [= <-] & H1 & H2). apply andb_true_intro. lia.
    - done.
    - by intros (p' & H & _). }
  assert (Hsome : ∀ id, getPelletAt w gx gy = Some id →
            id ∈ getAllPellets w ∧ P id
            ∧ ∃ before after, getAllPellets w = before ++ id :: after
                              ∧ Forall (fun z => ¬ P z) before).
  { intros id H. unfold getPelletAt in H. fold P in H.
    pose proof (head_Some_elem_of _ _ H) as Hin.
    apply list_elem_of_filter in Hin as [HPid Hin].
    apply head_filter_Some in H as (l1 & l2 & Hl & Hall).
    split_and!; try done. by exists l1, l2. }
  assert (Hnone : getPelletAt w gx gy = None
                  ↔ ∀ z, z ∈ getAllPellets w → ¬ P z).
  { unfold getPelletAt. fold P. rewrite head_None. split.
    - intros H z Hz HPz.
      assert (z ∈ filter P (getAllPellets w)) as Hin
        by (by apply list_elem_of_filter).
      rewrite H in Hin. by apply elem_of_nil in Hin.
    - intros H. destruct (filter P (getAllPellets w)) as [|z l] eqn:E; [done|].
      assert (z ∈ filter P (getAllPellets w)) as Hin by (rewrite E; left).
      apply list_elem_of_filter in Hin as [HPz Hz]. by destruct (H z Hz). }
  split_and!.
  - intros id H. destruct (Hsome id H) as (Hin & HPid & l1 & l2 & Hl & Hall).
    destruct (elem_of_getAllPellets w id Hin) as (He & _ & Ha).
    split_and!; try done.
    + by apply HP.
    + exists l1, l2. split; [done|]. intros z p Hz Hp Hxy.
      rewrite Forall_forall in Hall. apply (Hall z Hz).
      apply HP. by exists p.
  - rewrite Hnone. split.
    + intros H z p Hz Hp Hxy. apply (H z Hz). apply HP. by exists p.
    + intros H z Hz HPz. apply HP in HPz as (p & Hp & Hxy). by apply (H z p).
  - unfold isPelletAt. destruct (getPelletAt w gx gy) as [id|] eqn:E.
    + split; [|done]. intros _. destruct (Hsome id eq_refl) as (Hin & HPid & _).
      apply HP in HPid as (p & Hp & Hx & Hy). by exists id, p.
    + split; [done|]. intros (z & p & Hz & Hp & Hx & Hy).
      destruct (proj1 Hnone eq_refl z Hz). apply HP. by exists p.
  - unfold isPowerPelletAt. destruct (getPelletAt w gx gy) as [id|] eqn:E; [|done].
    intros Hpow. exists id. split; [done|].
    destruct (Hsome id eq_refl) as (Hin & _).
    apply elem_of_wQuery in Hin as [Ha Hc].
    apply elem_of_wQuery. split; [done|]. intros t Ht.
    apply elem_of_cons in Ht as [->|Ht]; [apply Hc; by left|].
    apply elem_of_cons in Ht as [->|Ht]; [done|].
    apply Hc. by right.
Qed.

(** An instance in the power-pellet scenario: the power pellet on (14, 5)
    and the pellet on (1, 1). *)
Lemma getPelletAt_spec_witness :
  (∃ id, getPelletAt (world powerPelletOnGhost) 14 5 = Some id
         ∧ id ∈ getPowerPellets (world powerPelletOnGhost))
  ∧ is_Some (wGet (world powerPelletOnGhost) 3%nat edible).
Proof.
  destruct (getPelletAt_spec (world powerPelletOnGhost) 14 5) as (_ & _ & _ & Hpow).
  destruct (getPelletAt_spec (world powerPelletOnGhost) 1 1) as (Hat & _).
  split.
  - apply Hpow. by vm_compute.
  - apply (Hat 3%nat). by vm_compute.
Defined.

(** [X9] The player is alive whenever there is one.  [isPlayerAlive] holds
    exactly when [getPlayerEntity] finds a player, that is, when some live
    entity has the playerControlled component: the liveness test it makes
    on the entity found can never fail.  The entity found is the first such
    entity of the live set. *)
Theorem isPlayerAlive_iff (w : World) :
  (isPlayerAlive w = true ↔ is_Some (getPlayerEntity w))
  ∧ (isPlayerAlive w = true
     ↔ ∃ id, isAlive (entities w) id = true ∧ wHas w id playerControlled = true)
  ∧ (∀ id, getPlayerEntity w = Some id →
       ∃ before after,
         getAllEntities (entities w) = before ++ id :: after
         ∧ ∀ z, z ∈ before → wHas w z playerControlled = false).
Proof.
  assert (H1 : isPlayerAlive w = true ↔ is_Some (getPlayerEntity w)).
  { unfold isPlayerAlive. destruct (getPlayerEntity w) as [id|] eqn:E.
    - destruct (getPlayerEntity_Some w id E) as [-> _]. split; [by eexists|done].
    - split; [done|]. by intros [x Hx]. }
  split_and!.
  - done.
  - rewrite H1. split.
    + intros [id H]. exists id. by apply getPlayerEntity_Some.
    + intros (id & Ha & Hc). apply head_is_Some.
      assert (id ∈ wQuery w [playerControlled]) as Hin.
      { apply elem_of_wQuery. split; [done|].
        intros t ->%list_elem_of_singleton. done. }
      intros Hnil. rewrite Hnil in Hin. by apply elem_of_nil in Hin.
  - intros id H. unfold getPlayerEntity, wQuery, getEntitiesWithComponents in H.
    apply head_filter_Some in H as (l1 & l2 & Hl & Hall).
    exists l1, l2. split; [done|]. intros z Hz.
    rewrite Forall_forall in Hall.
    specialize (Hall z Hz). simpl in Hall. rewrite andb_true_r in Hall.
    unfold wHas. by destruct (hasComponent (entities w) z playerControlled).
Qed.

(** An instance: the integration-test scenario has a live player. *)
Lemma isPlayerAlive_iff_witness :
  isPlayerAlive (world powerPelletOnGhost) = true.
Proof.
  apply (proj1 (isPlayerAlive_iff (world powerPelletOnGhost))).
  exists 0%nat. by vm_compute.
Defined.



(* ================================================================== *)
(** * Further properties of the input system *)
(* ================================================================== *)

Section InputMore.

Implicit Types (g : Game) (e : GameEvent) (h : Handler).

Lemma deliver_inputSt h e g :
  inputSt (deliver h e g)
  = if bool_decide (inputHandlerOf e = Some h)
    then recordInput e (inputSt g) else inputSt g.
Proof.
  destruct h, e; simpl; try done; try (by destruct (inputSt g)).
  by destruct (0 <? _).
Qed.

Lemma recordInput_idemp e (s : InputState) :
  recordInput e (recordInput e s) = recordInput e s.
Proof. by destruct e. Qed.

Lemma fold_deliver_recorded e (s : InputState) (l : list Handler) : ∀ acc,
  inputSt acc = recordInput e s →
  inputSt (fold_left (fun a h => deliver h e a) l acc) = recordInput e s.
Proof.
  induction l as [|h l IH]; intros acc Hacc; simpl; [done|].
  apply IH. rewrite deliver_inputSt, Hacc, recordInput_idemp.
  by destruct (bool_decide _).
Qed.

Lemma dispatch_input_recorded e h g :
  inputHandlerOf e = Some h → h ∈ subscribers g →
  inputSt (dispatch e g) = recordInput e (inputSt g).
Proof.
  intros He. unfold dispatch.
  change (inputSt g) with (inputSt (logEvent g e)).
  generalize (logEvent g e).
  induction (subscribers g) as [|h' l IH]; intros acc Hin; simpl.
  - by apply elem_of_nil in Hin.
  - destruct (decide (h' = h)) as [->|Hne].
    + apply fold_deliver_recorded. rewrite deliver_inputSt.
      by rewrite bool_decide_eq_true_2.
    + apply elem_of_cons in Hin as [->|Hin]; [done|].
      rewrite IH by done. rewrite deliver_inputSt.
      rewrite bool_decide_eq_false_2; [done|]. rewrite He. by intros [= ->].
Qed.

(** One pause input followed by an update of the input system. *)
Lemma pause_step g :
  onInputPause ∈ subscribers g →
  inputSt g = noInput →
  let g1 := inputUpdate (dispatch INPUT_PAUSE g) in
  world g1 = setGameState (world g) (togglePause (getGameState (world g)))
  ∧ inputSt g1 = noInput
  ∧ subscribers g1 = subscribers g
  ∧ trace g1 = trace g ++ [INPUT_PAUSE].
Proof.
  intros Hsub Hin g1.
  pose proof (dispatch_input_recorded INPUT_PAUSE onInputPause g eq_refl Hsub) as Hi.
  pose proof (dispatch_input_event_world INPUT_PAUSE g eq_refl) as Hw.
  pose proof (dispatch_subscribers INPUT_PAUSE g) as Hs.
  pose proof (dispatch_trace INPUT_PAUSE g) as Ht.
  rewrite Hin in Hi. simpl in Hi.
  unfold g1. clear g1. revert Hi Hw Hs Ht.
  generalize (dispatch INPUT_PAUSE g). intros g' Hi Hw Hs Ht.
  unfold inputUpdate, inputHandleDirection, inputHandlePause, inputHandleStart.
  rewrite Hi. cbn [pendingRestart pendingStart pendingPause].
  unfold getGameState. rewrite Hw.
  destruct (gameState (world g)) eqn:Est; simpl;
    rewrite ?Hi, ?Hw; simpl; rewrite ?Hw;
    (split_and!; try done; destruct (world g); simpl in *; by subst).
Qed.

End InputMore.

(** [X11] The pause key toggles.  With the input system subscribed and
    nothing else pending, a pause input followed by an update of the input
    system turns [Playing] into [Paused] and [Paused] into [Playing], leaves
    any other game state alone, changes nothing else in the world and
    dispatches nothing; the pending flag is consumed.  Two pause inputs, an
    update after each, give the world back as it was. *)
Theorem pause_input_toggles (g : Game) :
  onInputPause ∈ subscribers g →
  inputSt g = noInput →
  let g1 := inputUpdate (dispatch INPUT_PAUSE g) in
  let g2 := inputUpdate (dispatch INPUT_PAUSE g1) in
  world g1 = setGameState (world g) (togglePause (getGameState (world g)))
  ∧ inputSt g1 = noInput
  ∧ trace g1 = trace g ++ [INPUT_PAUSE]
  ∧ world g2 = world g.
Proof.
  intros Hsub Hin g1 g2.
  destruct (pause_step g Hsub Hin) as (Hw1 & Hi1 & Hs1 & Ht1). fold g1 in Hw1, Hi1, Hs1, Ht1.
  assert (Hsub1 : onInputPause ∈ subscribers g1) by (by rewrite Hs1).
  destruct (pause_step g1 Hsub1 Hi1) as (Hw2 & _). fold g2 in Hw2.
  split_and!; try done.
  rewrite Hw2, Hw1. unfold getGameState. simpl.
  destruct (world g) as [? ? st ? ? ? ? ? ?]. simpl. by destruct st.
Qed.

(** An instance: pausing and resuming the power-pellet scenario. *)
Lemma pause_input_toggles_witness :
  getGameState (world (inputUpdate (dispatch INPUT_PAUSE powerPelletOnGhost))) = Paused
  ∧ world (inputUpdate (dispatch INPUT_PAUSE
             (inputUpdate (dispatch INPUT_PAUSE powerPelletOnGhost))))
    = world powerPelletOnGhost.
Proof.
  destruct (pause_input_toggles powerPelletOnGhost) as (H1 & _ & _ & H2).
  - apply (bool_decide_unpack _). by vm_compute.
  - reflexivity.
  - split; [by rewrite H1|exact H2].
Defined.

Section InputDirections.

Implicit Types (g : Game).

Lemma dispatchAll_directions (dirs : list Direction) : ∀ g,
  onInputDirection ∈ subscribers g →
  inputSt (dispatchAll (map INPUT_DIRECTION dirs) g)
  = fold_left (fun s d => recordInput (INPUT_DIRECTION d) s) dirs (inputSt g)
  ∧ world (dispatchAll (map INPUT_DIRECTION dirs) g) = world g
  ∧ subscribers (dispatchAll (map INPUT_DIRECTION dirs) g) = subscribers g
  ∧ trace (dispatchAll (map INPUT_DIRECTION dirs) g)
    = trace g ++ map INPUT_DIRECTION dirs.
Proof.
  induction dirs as [|d dirs IH]; intros g Hsub; simpl.
  - by rewrite app_nil_r.
  - assert (Hsub' : onInputDirection ∈ subscribers (dispatch (INPUT_DIRECTION d) g))
      by (by rewrite dispatch_subscribers).
    destruct (IH _ Hsub') as (Hi & Hw & Hs & Ht).
    unfold dispatchAll in *. simpl.
    rewrite Hi, Hw, Hs, Ht.
    rewrite (dispatch_input_recorded _ onInputDirection) by done.
    rewrite dispatch_input_event_world by done.
    rewrite dispatch_subscribers, dispatch_trace, <- app_assoc. done.
Qed.

Lemma fold_recordInput_directions (dirs : list Direction) : ∀ s : InputState,
  let s' := fold_left (fun s d => recordInput (INPUT_DIRECTION d) s) dirs s in
  pendingStart s' = pendingStart s
  ∧ pendingPause s' = pendingPause s
  ∧ pendingRestart s' = pendingRestart s.
Proof.
  induction dirs as [|d dirs IH]; intros s; simpl; [done|].
  destruct (IH (recordInput (INPUT_DIRECTION d) s)) as (H1 & H2 & H3).
  simpl in H1, H2, H3. by rewrite H1, H2, H3.
Qed.

Lemma fold_recordInput_last (dirs : list Direction) (d : Direction) (s : InputState) :
  fold_left (fun s d => recordInput (INPUT_DIRECTION d) s) (dirs ++ [d]) s
  = mkInput (Some d) (pendingStart s) (pendingPause s) (pendingRestart s).
Proof.
  rewrite fold_left_app.
  destruct (fold_recordInput_directions dirs s) as (F1 & F2 & F3).
  simpl in *. by rewrite F1, F2, F3.
Qed.

Lemma setGameState_same (w : World) : setGameState w (gameState w) = w.
Proof. by destruct w. Qed.

(** "Handle start". *)
Lemma inputHandleStart_spec g :
  let st := getGameState (world g) in
  world (inputHandleStart g)
  = setGameState (world g)
      (if pendingStart (inputSt g)
       then (if decide (st = Ready) then Playing else st) else st)
  ∧ inputSt (inputHandleStart g)
    = mkInput (pendingDirection (inputSt g)) false
        (pendingPause (inputSt g)) (pendingRestart (inputSt g))
  ∧ trace (inputHandleStart g) = trace g
  ∧ subscribers (inputHandleStart g) = subscribers g.
Proof.
  unfold inputHandleStart, getGameState.
  destruct (pendingStart (inputSt g)) eqn:E.
  - destruct (decide _); simpl; split_and!; try done.
    by rewrite setGameState_same.
  - rewrite setGameState_same. split_and!; try done.
    destruct (inputSt g); simpl in *; by subst.
Qed.

(** "Handle pause/resume". *)
Lemma inputHandlePause_spec g :
  let st := getGameState (world g) in
  world (inputHandlePause g)
  = setGameState (world g) (if pendingPause (inputSt g) then togglePause st else st)
  ∧ inputSt (inputHandlePause g)
    = mkInput (pendingDirection (inputSt g)) (pendingStart (inputSt g)) false
        (pendingRestart (inputSt g))
  ∧ trace (inputHandlePause g) = trace g
  ∧ subscribers (inputHandlePause g) = subscribers g.
Proof.
  unfold inputHandlePause, getGameState.
  destruct (pendingPause (inputSt g)) eqn:E.
  - destruct (gameState (world g)) eqn:Est;
      repeat (first [rewrite decide_True by done | rewrite decide_False by done]);
      simpl; split_and!; try done;
      by rewrite <- Est, setGameState_same.
  - rewrite setGameState_same. split_and!; try done.
    destruct (inputSt g); simpl in *; by subst.
Qed.

(** The input system's update when no restart and no direction is pending. *)
Lemma inputUpdate_no_direction g :
  pendingRestart (inputSt g) = false →
  pendingDirection (inputSt g) = None →
  let st := getGameState (world g) in
  let st1 := if pendingStart (inputSt g)
             then (if decide (st = Ready) then Playing else st) else st in
  let st2 := if pendingPause (inputSt g) then togglePause st1 else st1 in
  world (inputUpdate g) = setGameState (world g) st2
  ∧ inputSt (inputUpdate g) = noInput
  ∧ trace (inputUpdate g) = trace g
  ∧ subscribers (inputUpdate g) = subscribers g.
Proof.
  intros Hr Hd st st1 st2. unfold inputUpdate. rewrite Hr.
  destruct (inputHandleStart_spec g) as (W1 & I1 & T1 & S1).
  destruct (inputHandlePause_spec (inputHandleStart g)) as (W2 & I2 & T2 & S2).
  unfold inputHandleDirection. rewrite I2, I1. simpl. rewrite Hd.
  rewrite W2, I2, T2, S2, W1, I1, T1, S1, Hr, Hd. simpl.
  split_and!; done.
Qed.

End InputDirections.

(** [X12] The start key.  With the input system subscribed and nothing else
    pending, a start input followed by an update of the input system turns
    [Ready] into [Playing] and is swallowed in every other game state; the
    update dispatches nothing (no [game:started]).  A start and a pause
    input arriving before the same update of a ready game leave it
    [Paused]: start is handled first, pause second. *)
Theorem start_input_only_from_ready (g : Game) :
  onInputStart ∈ subscribers g →
  onInputPause ∈ subscribers g →
  inputSt g = noInput →
  let g1 := inputUpdate (dispatch INPUT_START g) in
  let g2 := inputUpdate (dispatch INPUT_PAUSE (dispatch INPUT_START g)) in
  world g1 = (if decide (getGameState (world g) = Ready)
              then setGameState (world g) Playing else world g)
  ∧ inputSt g1 = noInput
  ∧ trace g1 = trace g ++ [INPUT_START]
  ∧ (getGameState (world g) = Ready → world g2 = setGameState (world g) Paused)
  ∧ inputSt g2 = noInput.
Proof.
  intros Hstart Hpause Hin g1 g2.
  pose proof (dispatch_input_recorded INPUT_START onInputStart g eq_refl Hstart) as Hi.
  pose proof (dispatch_input_event_world INPUT_START g eq_refl) as Hw.
  pose proof (dispatch_subscribers INPUT_START g) as Hs.
  pose proof (dispatch_trace INPUT_START g) as Ht.
  rewrite Hin in Hi. simpl in Hi.
  assert (Hpause' : onInputPause ∈ subscribers (dispatch INPUT_START g))
    by (by rewrite Hs).
  pose proof (dispatch_input_recorded INPUT_PAUSE onInputPause _ eq_refl Hpause') as Hi2.
  pose proof (dispatch_input_event_world INPUT_PAUSE (dispatch INPUT_START g) eq_refl)
    as Hw2.
  rewrite Hi in Hi2. simpl in Hi2. rewrite Hw in Hw2.
  destruct (inputUpdate_no_direction (dispatch INPUT_START g))
    as (W1 & I1 & T1 & _); [by rewrite Hi..|].
  destruct (inputUpdate_no_direction (dispatch INPUT_PAUSE (dispatch INPUT_START g)))
    as (W2 & I2 & _); [by rewrite Hi2..|].
  rewrite Hi, Hw in W1. rewrite Hi2, Hw2 in W2. simpl in W1, W2.
  fold g1 in W1, I1, T1. fold g2 in W2, I2.
  split_and!; try done.
  - rewrite W1. destruct (decide _); [done|].
    unfold getGameState. by destruct (world g).
  - by rewrite T1.
  - intros Hready. rewrite W2, Hready. by rewrite decide_True.
Qed.

(** An instance: a fresh world with the four entities of the power-pellet
    scenario is started. *)
Lemma start_input_only_from_ready_witness :
  getGameState
    (world (inputUpdate
              (dispatch INPUT_START
                 (updWorld (fun w => setGameState w Ready) powerPelletOnGhost))))
  = Playing.
Proof.
  destruct (start_input_only_from_ready
              (updWorld (fun w => setGameState w Ready) powerPelletOnGhost))
    as (H & _).
  - apply (bool_decide_unpack _). by vm_compute.
  - apply (bool_decide_unpack _). by vm_compute.
  - reflexivity.
  - by rewrite H.
Defined.

(** [X13] Direction inputs are queued on the player.  With the input system
    subscribed and nothing else pending, after any number of direction
    inputs the next update of the input system writes the last of them into
    [nextDirection] of the player's velocity, keeping its direction and
    speed, in every game state (the input system does not look at the game
    state here); no other component, no scalar of the world and not the
    game state changes, nothing is dispatched, and the pending direction is
    consumed. *)
Theorem direction_input_queued (g : Game) (dirs : list Direction) (d : Direction)
    (playerId : EntityId) (v : Velocity) :
  onInputDirection ∈ subscribers g →
  inputSt g = noInput →
  getPlayerEntity (world g) = Some playerId →
  wGet (world g) playerId velocity = Some v →
  let received := map INPUT_DIRECTION (dirs ++ [d]) in
  let g1 := inputUpdate (dispatchAll received g) in
  wGet (world g1) playerId velocity
  = Some (mkVelocity (direction v) (speed v) (Some d))
  ∧ (∀ id t, id ≠ playerId ∨ t ≠ velocity →
       wGet (world g1) id t = wGet (world g) id t)
  ∧ sameScalars (world g) (world g1)
  ∧ getGameState (world g1) = getGameState (world g)
  ∧ getAllEntities (entities (world g1)) = getAllEntities (entities (world g))
  ∧ inputSt g1 = noInput
  ∧ newEvents g g1 = received.
Proof.
  intros Hsub Hin Hp Hv received g1.
  destruct (dispatchAll_directions (dirs ++ [d]) g Hsub) as (Hi & Hw & Hs & Ht).
  rewrite fold_recordInput_last, Hin in Hi. simpl in Hi.
  destruct (getPlayerEntity_Some _ _ Hp) as [Halive _].
  fold received in Hi, Hw, Hs, Ht.
  unfold g1. clear g1. revert Hi Hw Hs Ht.
  generalize (dispatchAll received g). intros g' Hi Hw Hs Ht.
  destruct g' as [w' i' a' p' c' s' t' r' n'].
  simpl in Hi, Hw, Hs, Ht. subst.
  unfold inputUpdate, inputHandleDirection, inputHandlePause, inputHandleStart.
  cbn. rewrite Hp, Hv. cbn.
  split_and!; try done.
  - by apply (wGet_wAdd_same _ playerId velocity).
  - intros id t [H|H].
    + by apply (wGet_wAdd_other_id _ playerId id velocity).
    + apply (wGet_wAdd_other_type _ playerId id velocity). congruence.
  - apply (alive_wAdd _ playerId velocity).
  - by apply newEvents_app.
Qed.

(** An instance: left, then up, in the paused power-pellet scenario. *)
Lemma direction_input_queued_witness :
  wGet (world (inputUpdate
                 (dispatchAll (map INPUT_DIRECTION ([Left] ++ [Up]))
                    (updWorld (fun w => setGameState w Paused) powerPelletOnGhost))))
       0%nat velocity
  = Some (mkVelocity None 2 (Some Up)).
Proof.
  apply (direction_input_queued
           (updWorld (fun w => setGameState w Paused) powerPelletOnGhost)
           [Left] Up 0%nat (mkVelocity None 2 None)).
  - apply (bool_decide_unpack _). by vm_compute.
  - reflexivity.
  - reflexivity.
  - reflexivity.
Defined.

(* ================================================================== *)
(** * Ghost steering *)
(* ================================================================== *)

Section Steering.

Variables (x y targetX targetY : Z).

Lemma elem_of_ALL_DIRECTIONS (d : Direction) : d ∈ ALL_DIRECTIONS.
Proof. destruct d; unfold ALL_DIRECTIONS; repeat constructor. Qed.

Lemma elem_of_getAvailableDirections (cur : option Direction) (d : Direction) :
  d ∈ getAvailableDirections x y cur
  ↔ Some d ≠ getOppositeDirection cur ∧ walkableNeighbour x y d = true.
Proof.
  unfold getAvailableDirections. rewrite list_elem_of_filter. split.
  - intros [H _]. by destruct (decide (Some d = getOppositeDirection cur)).
  - intros [H1 H2]. split; [|apply elem_of_ALL_DIRECTIONS].
    by destruct (decide (Some d = getOppositeDirection cur)).
Qed.

Lemma pickBest_eq (available : list Direction) (acc : Direction * option Z)
    (dir : Direction) :
  pickBest x y targetX targetY available acc dir
  = if bool_decide (dir ∈ available) then
      match acc.2 with
      | Some bestDist =>
          if distanceVia x y targetX targetY dir <? bestDist
          then (dir, Some (distanceVia x y targetX targetY dir)) else acc
      | None => (dir, Some (distanceVia x y targetX targetY dir))
      end
    else acc.
Proof. done. Qed.

(** The loop over [priorityOrder] returns a closest available direction,
    the first in priority order among the closest. *)
Lemma pickBest_loop (available : list Direction) (first : Direction) :
  first ∈ available →
  let best := (fold_left (pickBest x y targetX targetY available)
                 [Up; Left; Down; Right] (first, None)).1 in
  best ∈ available
  ∧ ∀ d, d ∈ available →
      distanceVia x y targetX targetY best ≤ distanceVia x y targetX targetY d
      ∧ (distanceVia x y targetX targetY d = distanceVia x y targetX targetY best →
         (directionPriority best ≤ directionPriority d)%nat).
Proof.
  intros Hfirst best. unfold best. clear best.
  cbn [fold_left]. rewrite !pickBest_eq.
  remember (distanceVia x y targetX targetY Up) as dU eqn:EU.
  remember (distanceVia x y targetX targetY Left) as dL eqn:EL.
  remember (distanceVia x y targetX targetY Down) as dD eqn:ED.
  remember (distanceVia x y targetX targetY Right) as dR eqn:ER.
  repeat case_bool_decide; cbn [fst snd];
    repeat (match goal with
            | |- context [?a <? ?b] => destruct (Z.ltb_spec a b)
            end; cbn [fst snd]);
    (split;
     [ first [ assumption | destruct first; first [assumption | contradiction] ]
     | intros d Hd; destruct d;
       first [ contradiction
             | rewrite <- ?EU, <- ?EL, <- ?ED, <- ?ER;
               split; [lia | intros; simpl; lia] ] ]).
Qed.

End Steering.

(** [X14] Steering towards a target.  The directions a ghost may take are
    those that do not reverse its course and lead to a cell of the maze that
    is not a wall.  [chooseDirectionTowardTarget] never sends a ghost into a
    wall or off the maze, reverses its course only in a dead end, and gives
    no direction only when no neighbouring cell is walkable.  When at least
    one direction is available, the one chosen is available and is nearest
    to the target (squared distance from the next cell); among the nearest
    it is the first in the order up, left, down, right. *)
Theorem ghost_direction_toward_target (x y targetX targetY : Z)
    (cur : option Direction) :
  let available := getAvailableDirections x y cur in
  let choice := chooseDirectionTowardTarget x y targetX targetY cur in
  (∀ d, d ∈ available ↔ Some d ≠ getOppositeDirection cur ∧ walkableNeighbour x y d = true)
  ∧ (∀ d, choice = Some d → walkableNeighbour x y d = true)
  ∧ (∀ d, choice = Some d → Some d = getOppositeDirection cur → available = [])
  ∧ (choice = None ↔ ∀ d, walkableNeighbour x y d = false)
  ∧ (available ≠ [] →
     ∃ d, choice = Some d ∧ d ∈ available
          ∧ ∀ d', d' ∈ available →
              distanceVia x y targetX targetY d ≤ distanceVia x y targetX targetY d'
              ∧ (distanceVia x y targetX targetY d' = distanceVia x y targetX targetY d →
                 (directionPriority d ≤ directionPriority d')%nat)).
Proof.
  intros available choice.
  pose proof (elem_of_getAvailableDirections x y cur) as Hav.
  fold available in Hav.
  assert (Hin : available ≠ [] →
            ∃ d, choice = Some d ∧ d ∈ available
                 ∧ ∀ d', d' ∈ available →
                     distanceVia x y targetX targetY d ≤ distanceVia x y targetX targetY d'
                     ∧ (distanceVia x y targetX targetY d' = distanceVia x y targetX targetY d →
                        (directionPriority d ≤ directionPriority d')%nat)).
  { intros Hne. unfold choice, chooseDirectionTowardTarget. fold available.
    destruct available as [|a [|b l]] eqn:E; [done| |].
    - exists a. split; [done|]. split; [left|].
      intros d' ->%list_elem_of_singleton. split; [lia|done].
    - rewrite <- E.
      assert (a ∈ available) as Ha by (rewrite E; left).
      destruct (pickBest_loop x y targetX targetY available a Ha) as [H1 H2].
      eexists. split; [reflexivity|]. split; [exact H1|exact H2]. }
  assert (Hdead : available = [] →
            choice = match getOppositeDirection cur with
                     | Some o => if walkableNeighbour x y o then Some o else None
                     | None => None
                     end).
  { intros E. unfold choice, chooseDirectionTowardTarget. fold available.
    by rewrite E. }
  split_and!.
  - exact Hav.
  - intros d Hd. destruct available as [|a l] eqn:E.
    + rewrite Hdead in Hd by done.
      destruct (getOppositeDirection cur) as [o|]; [|done].
      destruct (walkableNeighbour x y o) eqn:Ho; [|done]. by injection Hd as <-.
    + destruct Hin as (d0 & Hc & Hd0 & _); [done|].
      rewrite Hc in Hd. injection Hd as <-. by apply Hav in Hd0 as [_ ?].
  - intros d Hd Hopp. destruct available as [|a l] eqn:E; [done|].
    destruct Hin as (d0 & Hc & Hd0 & _); [done|].
    rewrite Hc in Hd. injection Hd as <-. by apply Hav in Hd0 as [? _].
  - split.
    + intros Hnone d. destruct available as [|a l] eqn:E.
      * rewrite Hdead in Hnone by done.
        destruct (walkableNeighbour x y d) eqn:Hw; [|done].
        destruct (decide (Some d = getOppositeDirection cur)) as [Ho|Ho].
        -- rewrite <- Ho, Hw in Hnone. done.
        -- assert (d ∈ []) as Hbad by (by apply Hav). by apply elem_of_nil in Hbad.
      * destruct Hin as (d0 & Hc & _); [done|]. congruence.
    + intros Hall. destruct available as [|a l] eqn:E.
      * rewrite Hdead by done.
        destruct (getOppositeDirection cur) as [o|]; [|done]. by rewrite Hall.
      * assert (a ∈ a :: l) as Ha by left.
        apply Hav in Ha as [_ Ha]. by rewrite Hall in Ha.
  - exact Hin.
Qed.

(** An instance: on the junction (6, 5) of the original maze, heading right
    with the target in the top right corner, the ghost goes up. *)
Lemma ghost_direction_toward_target_witness :
  getAvailableDirections junctionX junctionY (Some Right) = [Up; Down; Right]
  ∧ ∃ d, chooseDirectionTowardTarget junctionX junctionY 25 0 (Some Right) = Some d
         ∧ d ∈ getAvailableDirections junctionX junctionY (Some Right)
         ∧ ∀ d', d' ∈ getAvailableDirections junctionX junctionY (Some Right) →
             distanceVia junctionX junctionY 25 0 d ≤ distanceVia junctionX junctionY 25 0 d'
             ∧ (distanceVia junctionX junctionY 25 0 d' = distanceVia junctionX junctionY 25 0 d →
                (directionPriority d ≤ directionPriority d')%nat).
Proof.
  split; [by vm_compute|].
  destruct (ghost_direction_toward_target junctionX junctionY 25 0 (Some Right))
    as (_ & _ & _ & _ & H).
  apply H. by vm_compute.
Defined.

(** [X15] A random direction.  Whatever the random source returns, a ghost
    with at least one available direction gets one of them (the one at the
    drawn index modulo their number): a direction that does not reverse its
    course and leads to a walkable cell; exactly one random number is
    drawn.  With no direction available it is simply turned around, whether
    or not the cell behind it is walkable, and no random number is drawn.
    Choosing changes neither the world nor the trace. *)
Theorem ghost_random_direction (g : Game) (x y : Z) (cur : option Direction) :
  let available := getAvailableDirections x y cur in
  let r := chooseRandomDirection g x y cur in
  (available ≠ [] →
     ∃ d, r.1 = Some d
          ∧ available !! (random g (randomCalls g) mod length available)%nat = Some d
          ∧ d ∈ available
          ∧ walkableNeighbour x y d = true
          ∧ Some d ≠ getOppositeDirection cur
          ∧ randomCalls r.2 = S (randomCalls g))
  ∧ (available = [] → r.1 = getOppositeDirection cur ∧ r.2 = g)
  ∧ world r.2 = world g
  ∧ trace r.2 = trace g
  ∧ random r.2 = random g.
Proof.
  intros available r. unfold r, chooseRandomDirection. fold available.
  split_and!.
  - intros Hne. destruct available as [|a l] eqn:E; [done|]. rewrite <- E.
    assert (Hlen : (random g (randomCalls g) mod length available < length available)%nat).
    { apply Nat.mod_upper_bound. rewrite E. simpl. lia. }
    apply lookup_lt_is_Some in Hlen as [d Hd].
    exists d. simpl. split_and!; try done.
    + by apply list_elem_of_lookup_2 in Hd.
    + apply list_elem_of_lookup_2 in Hd.
      by apply elem_of_getAvailableDirections in Hd as [_ ?].
    + apply list_elem_of_lookup_2 in Hd.
      by apply elem_of_getAvailableDirections in Hd as [? _].
  - by intros ->.
  - by destruct available.
  - by destruct available.
  - by destruct available.
Qed.

(** An instance: on the junction (6, 5) heading right, a source that always
    draws 4 picks the direction at index 4 mod 3. *)
Lemma ghost_random_direction_witness :
  (chooseRandomDirection (newGame (createWorld None) [] (fun _ => 4%nat))
     junctionX junctionY (Some Right)).1 = Some Down.
Proof.
  destruct (ghost_random_direction (newGame (createWorld None) [] (fun _ => 4%nat))
              junctionX junctionY (Some Right)) as (H & _).
  destruct H as (d & Hr & Hd & _); [by vm_compute|].
  rewrite Hr. vm_compute in Hd. by rewrite Hd.
Defined.

(** [X17] Chase targets of the other three ghosts.  For a ghost in chase
    mode that is not vulnerable, with a player that has a position: blinky
    targets the player's cell; clyde targets the player's cell when the
    player is more than 8 tiles away (Euclidean distance between the grid
    cells) and its own corner (0, 30) otherwise; inky targets the mirror
    image of blinky's cell through the cell two tiles ahead of the player
    (no leftward offset when the player heads up), and the player's cell
    when there is no blinky or blinky has no position. *)
Theorem chase_targets (w : World) (ghostId playerId : EntityId)
    (ai : GhostAI) (playerPos : Position) :
  wGet w ghostId ghostAI = Some ai →
  mode ai = Chase →
  isGhostVulnerable w ghostId = false →
  getPlayerEntity w = Some playerId →
  wGet w playerId position = Some playerPos →
  let player := (gridX playerPos, gridY playerPos) in
  (type ai = blinky → getGhostTarget w ghostId = Some player)
  ∧ (type ai = clyde →
     ∀ ghostPos : Position, wGet w ghostId position = Some ghostPos →
       let d2 := distanceSquared (gridX ghostPos) (gridY ghostPos)
                   (gridX playerPos) (gridY playerPos) in
       (8 * 8 < d2 → getGhostTarget w ghostId = Some player)
       ∧ (d2 ≤ 8 * 8 → getGhostTarget w ghostId = Some (0, 30)))
  ∧ (type ai = inky →
     (∀ (blinkyId : EntityId) (blinkyPos : Position),
        getGhostByType w blinky = Some blinkyId →
        wGet w blinkyId position = Some blinkyPos →
        let ahead := aheadOf playerPos (getPlayerDirection w) 2 in
        ∃ tx ty, getGhostTarget w ghostId = Some (tx, ty)
                 ∧ tx + gridX blinkyPos = 2 * ahead.1
                 ∧ ty + gridY blinkyPos = 2 * ahead.2)
     ∧ (getGhostByType w blinky = None → getGhostTarget w ghostId = Some player)
     ∧ (∀ blinkyId, getGhostByType w blinky = Some blinkyId →
          wGet w blinkyId position = None → getGhostTarget w ghostId = Some player)).
Proof.
  intros Hai Hmode Hvul Hp Hpos player.
  assert (Hpp : getPlayerPosition w = Some playerPos).
  { unfold getPlayerPosition. by rewrite Hp. }
  unfold getGhostTarget. rewrite Hai, Hmode, Hvul, Hp, Hpp. simpl.
  change (getGhostByTypeInternal w blinky) with (getGhostByType w blinky).
  split_and!.
  - by intros ->.
  - intros -> ghostPos ->. unfold CLYDE_DISTANCE_THRESHOLD. split.
    + intros H. apply Z.ltb_lt in H. by rewrite H.
    + intros H. apply Z.ltb_ge in H. by rewrite H.
  - intros ->. split_and!.
    + intros blinkyId blinkyPos -> ->. eexists _, _.
      split; [reflexivity|]. lia.
    + by intros ->.
    + by intros blinkyId -> ->.
Qed.

(** An instance in [allChasing]: blinky is on (14, 11), the player on
    (10, 10) heading up; clyde on (16, 14) is within 8 tiles. *)
Lemma chase_targets_witness :
  getGhostTarget allChasing 1%nat = Some (10, 10)
  ∧ getGhostTarget allChasing 4%nat = Some (0, 30)
  ∧ getGhostTarget allChasing 3%nat = Some (6, 5).
Proof.
  split_and!.
  - destruct (chase_targets allChasing 1%nat 0%nat
                (mkGhostAI blinky Chase (SCATTER_TARGETS blinky)) (createPosition 10 10))
      as (H & _); [reflexivity..|].
    exact (H eq_refl).
  - destruct (chase_targets allChasing 4%nat 0%nat
                (mkGhostAI clyde Chase (SCATTER_TARGETS clyde)) (createPosition 10 10))
      as (_ & H & _); [reflexivity..|].
    destruct (H eq_refl (createPosition 16 14)) as [_ Hnear]; [reflexivity|].
    apply Hnear. by vm_compute.
  - destruct (chase_targets allChasing 3%nat 0%nat
                (mkGhostAI inky Chase (SCATTER_TARGETS inky)) (createPosition 10 10))
      as (_ & _ & H); [reflexivity..|].
    destruct (H eq_refl) as (Hmirror & _).
    destruct (Hmirror 1%nat (createPosition 14 11)) as (tx & ty & Ht & Hx & Hy);
      [reflexivity..|].
    assert (E : aheadOf (createPosition 10 10) (getPlayerDirection allChasing) 2
                = (10, 8)) by (by vm_compute).
    cbv zeta in Hx, Hy. rewrite E in Hx, Hy. simpl in Hx, Hy.
    rewrite Ht. f_equal. f_equal; lia.
Defined.

(* ================================================================== *)
(** * Further properties of the ghost AI system *)
(* ================================================================== *)

Section GhostAIMore.

Implicit Types (g : Game) (e : GameEvent) (h : Handler) (x z : EntityId).

Lemma set_add_idemp x (s : list EntityId) : set_add x (set_add x s) = set_add x s.
Proof.
  unfold set_add. destruct (decide (x ∈ s)) as [H|H].
  - by rewrite decide_True.
  - rewrite decide_True; [done|]. apply elem_of_app. right. by left.
Qed.

Lemma deliver_aiSt h e g :
  aiSt (deliver h e g)
  = if bool_decide (aiHandlerOf e = Some h)
    then recordGhostEvent e (aiSt g) else aiSt g.
Proof.
  destruct h, e; simpl; try done; try (by destruct (aiSt g)).
  by destruct (0 <? _).
Qed.

Lemma recordGhostEvent_idemp e (s : GhostAIState) :
  recordGhostEvent e (recordGhostEvent e s) = recordGhostEvent e s.
Proof. destruct e; simpl; try done. by rewrite set_add_idemp. Qed.

Lemma fold_deliver_ai_recorded e (s : GhostAIState) (l : list Handler) : ∀ acc,
  aiSt acc = recordGhostEvent e s →
  aiSt (fold_left (fun a h => deliver h e a) l acc) = recordGhostEvent e s.
Proof.
  induction l as [|h l IH]; intros acc Hacc; simpl; [done|].
  apply IH. rewrite deliver_aiSt, Hacc, recordGhostEvent_idemp.
  by destruct (bool_decide _).
Qed.

Lemma dispatch_ai_recorded e h g :
  aiHandlerOf e = Some h → h ∈ subscribers g →
  aiSt (dispatch e g) = recordGhostEvent e (aiSt g).
Proof.
  intros He. unfold dispatch.
  change (aiSt g) with (aiSt (logEvent g e)).
  generalize (logEvent g e).
  induction (subscribers g) as [|h' l IH]; intros acc Hin; simpl.
  - by apply elem_of_nil in Hin.
  - destruct (decide (h' = h)) as [->|Hne].
    + apply fold_deliver_ai_recorded. rewrite deliver_aiSt.
      by rewrite bool_decide_eq_true_2.
    + apply elem_of_cons in Hin as [->|Hin]; [done|].
      rewrite IH by done. rewrite deliver_aiSt.
      rewrite bool_decide_eq_false_2; [done|]. rewrite He. by intros [= ->].
Qed.

Lemma Qneqb_false (a b : Q) : Qneqb a b = false → (a == b)%Q.
Proof.
  unfold Qneqb. intros H. apply negb_false_iff in H. by apply Qeq_bool_iff.
Qed.

(** The velocity [pickDirection] leaves for the ghost it steers. *)
Lemma pickDirection_velocity g z (vel : Velocity) (pos : Position) m (sp : Q) :
  isAlive (entities (world g)) z = true →
  wGet (world g) z velocity = Some vel →
  ∃ vel' : Velocity,
    wGet (world (pickDirection g z vel pos m sp)) z velocity = Some vel'
    ∧ nextDirection vel' = nextDirection vel
    ∧ (speed vel' == sp)%Q.
Proof.
  intros Halive Hvel. unfold pickDirection.
  destruct (bool_decide (direction vel = None) || _).
  - set (r := if bool_decide (m = Frightened) then _ else _).
    assert (Hr : world r.2 = world g).
    { unfold r. destruct (bool_decide (m = Frightened));
        [apply chooseRandomDirection_frame|].
      destruct (getGhostTarget (world g) z); [done|].
      apply chooseRandomDirection_frame. }
    destruct r as [nd g1]. simpl in Hr.
    destruct (_ && _); [|destruct (Qneqb _ _) eqn:Hq]; simpl; rewrite ?Hr.
    + eexists. split; [by apply (wGet_wAdd_same _ z velocity)|]. done.
    + eexists. split; [by apply (wGet_wAdd_same _ z velocity)|]. done.
    + exists vel. split_and!; [done|done|by apply Qneqb_false].
  - destruct (Qneqb _ _) eqn:Hq; simpl.
    + eexists. split; [by apply (wGet_wAdd_same _ z velocity)|]. done.
    + exists vel. split_and!; [done|done|by apply Qneqb_false].
Qed.

Lemma pickDirection_modeJustChanged g z (vel : Velocity) (pos : Position) m (sp : Q) :
  modeJustChanged (aiSt (pickDirection g z vel pos m sp)) = modeJustChanged (aiSt g).
Proof.
  destruct (pickDirection_frame g z vel pos m sp) as [H _]. simpl in H. by rewrite H.
Qed.

(** Updating ghost [x] itself: the velocity it is left with. *)
Lemma updateGhost_velocity g x (ai : GhostAI) (vel : Velocity) (pos : Position) :
  isAlive (entities (world g)) x = true →
  wGet (world g) x ghostAI = Some ai →
  wGet (world g) x velocity = Some vel →
  wGet (world g) x position = Some pos →
  let sp := ghostSpeedFor (isGhostVulnerable (world g) x) in
  (∃ vel' : Velocity,
     wGet (world (updateGhost g x)) x velocity = Some vel'
     ∧ nextDirection vel' = nextDirection vel
     ∧ (speed vel' == sp)%Q)
  ∧ (modeJustChanged (aiSt g) = true → direction vel ≠ None →
     wGet (world (updateGhost g x)) x velocity
     = Some (mkVelocity (getOppositeDirection (direction vel)) sp (nextDirection vel)))
  ∧ modeJustChanged (aiSt (updateGhost g x)) = modeJustChanged (aiSt g).
Proof.
  intros Halive Hai Hvel Hpos sp. unfold updateGhost.
  rewrite Hai, Hvel, Hpos.
  destruct (resolveMode _ _ _ _) as [newMode pending] eqn:Hres. simpl.
  set (g1 := setAiSt g _).
  set (g2 := if bool_decide (newMode ≠ mode ai) then _ else g1).
  assert (H2 : modeJustChanged (aiSt g2) = modeJustChanged (aiSt g)
               ∧ isAlive (entities (world g2)) x = true
               ∧ wGet (world g2) x velocity = Some vel).
  { unfold g2. case_bool_decide as Hm; [|done]. simpl. split_and!; [done| |].
    - unfold isAlive in *. by rewrite ?alive_wAdd, ?alive_addComponent.
    - by rewrite wGet_wAdd_other_type. }
  destruct H2 as (Hmj & Hal2 & Hv2).
  fold (ghostSpeedFor (isGhostVulnerable (world g) x)). fold sp.
  rewrite Hmj.
  destruct (modeJustChanged (aiSt g)) eqn:Emj; simpl.
  - case_bool_decide as Hdir; simpl.
    + split_and!.
      * eexists. split; [by apply (wGet_wAdd_same _ x velocity)|]. done.
      * intros _ _. by apply (wGet_wAdd_same _ x velocity).
      * by rewrite Hmj.
    + split_and!.
      * by apply pickDirection_velocity.
      * intros _ Hd. by destruct Hdir.
      * by rewrite pickDirection_modeJustChanged, Hmj.
  - split_and!.
    + by apply pickDirection_velocity.
    + done.
    + by rewrite pickDirection_modeJustChanged.
Qed.

Lemma updateGhost_modeJustChanged g z :
  modeJustChanged (aiSt (updateGhost g z)) = modeJustChanged (aiSt g).
Proof.
  unfold updateGhost.
  destruct (wGet (world g) z ghostAI) as [ai|]; [|done].
  destruct (wGet (world g) z velocity) as [vel|]; [|done].
  destruct (wGet (world g) z position) as [pos|]; [|done].
  destruct (resolveMode _ _ _ _) as [newMode pending]. simpl.
  set (g1 := setAiSt g _).
  set (g2 := if bool_decide (newMode ≠ mode ai) then _ else g1).
  assert (Hmj : modeJustChanged (aiSt g2) = modeJustChanged (aiSt g)).
  { unfold g2. by destruct (bool_decide _). }
  destruct (modeJustChanged (aiSt g2) && _); simpl; [done|].
  by rewrite pickDirection_modeJustChanged.
Qed.

Lemma fold_updateGhost_modeJustChanged l : ∀ g,
  modeJustChanged (aiSt (fold_left updateGhost l g)) = modeJustChanged (aiSt g).
Proof.
  induction l as [|z l IH]; intros g; simpl; [done|].
  by rewrite IH, updateGhost_modeJustChanged.
Qed.

(** The velocity a tick of the ghost AI leaves for a ghost that has its
    three components. *)
Lemma ghostAIUpdate_velocity g x (ai : GhostAI) (vel : Velocity) (pos : Position) :
  getGameState (world g) = Playing →
  NoDup (aliveEntities (entities (world g))) →
  isAlive (entities (world g)) x = true →
  wGet (world g) x ghostAI = Some ai →
  wGet (world g) x velocity = Some vel →
  wGet (world g) x position = Some pos →
  let g' := ghostAIUpdate g in
  let sp := ghostSpeedFor (isGhostVulnerable (world g) x) in
  (∃ vel' : Velocity,
     wGet (world g') x velocity = Some vel'
     ∧ nextDirection vel' = nextDirection vel
     ∧ (speed vel' == sp)%Q)
  ∧ (modeJustChanged (aiSt g) = true → direction vel ≠ None →
     wGet (world g') x velocity
     = Some (mkVelocity (getOppositeDirection (direction vel)) sp (nextDirection vel)))
  ∧ modeJustChanged (aiSt g') = false.
Proof.
  intros Hst Hnd Halive Hai Hvel Hpos g' sp.
  assert (Hin : x ∈ getGhostEntities (world g)).
  { apply elem_of_getGhostEntities. split; [done|]. rewrite Hai. by eexists. }
  assert (Hnd' : NoDup (getGhostEntities (world g))) by by apply NoDup_query.
  apply list_elem_of_split in Hin as (l1 & l2 & Hl).
  rewrite Hl in Hnd'. apply NoDup_app in Hnd' as (_ & Hdisj & Hnd2).
  apply NoDup_cons in Hnd2 as [Hx2 _].
  assert (Hx1 : x ∉ l1).
  { intros H1. apply (Hdisj x H1). by left. }
  set (ga := fold_left updateGhost l1 g).
  destruct (fold_updateGhost_frame l1 g) as (Hal & _ & _ & Hw & _).
  fold ga in Hal, Hw.
  pose proof (fold_updateGhost_modeJustChanged l1 g) as Hmj. fold ga in Hmj.
  assert (Hvul : isGhostVulnerable (world ga) x = isGhostVulnerable (world g) x).
  { unfold isGhostVulnerable. by rewrite Hw. }
  destruct (updateGhost_velocity ga x ai vel pos) as (Hv & Hrev & _).
  { unfold isAlive. by rewrite Hal. }
  { by rewrite Hw. } { by rewrite Hw. } { by rewrite Hw. }
  rewrite Hvul in Hv, Hrev. fold sp in Hv, Hrev. rewrite Hmj in Hrev.
  destruct (fold_updateGhost_frame l2 (updateGhost ga x)) as (_ & _ & _ & Hw2 & _).
  assert (Hg' : world g' = world (fold_left updateGhost l2 (updateGhost ga x))).
  { unfold g', ghostAIUpdate. rewrite decide_True by done.
    rewrite Hl, fold_left_app. done. }
  rewrite Hg', Hw2 by done.
  split_and!; try done.
  unfold g', ghostAIUpdate. by rewrite decide_True.
Qed.

End GhostAIMore.

(** [X18] A mode change turns the ghosts around.  Once [game:ghost:mode] has
    been dispatched to a subscribed ghost AI, the next tick of the ghost AI
    in play reverses the direction of every ghost that holds its three
    components and is moving, giving it the speed of its vulnerability and
    keeping its queued direction; the new global mode is recorded, and the
    tick clears the mode-change flag, so the reversal happens once. *)
Theorem mode_change_reverses_ghosts (g0 : Game) (m : GlobalMode) (x : EntityId)
    (ai : GhostAI) (vel : Velocity) (pos : Position) (d : Direction) :
  onGhostModeChange ∈ subscribers g0 →
  getGameState (world g0) = Playing →
  NoDup (aliveEntities (entities (world g0))) →
  isAlive (entities (world g0)) x = true →
  wGet (world g0) x ghostAI = Some ai →
  wGet (world g0) x velocity = Some vel →
  wGet (world g0) x position = Some pos →
  direction vel = Some d →
  let g := dispatch (GHOST_MODE_CHANGE m) g0 in
  let g' := ghostAIUpdate g in
  wGet (world g') x velocity
  = Some (mkVelocity (getOppositeDirection (Some d))
            (ghostSpeedFor (isGhostVulnerable (world g0) x)) (nextDirection vel))
  ∧ currentGlobalMode (aiSt g) = m
  ∧ modeJustChanged (aiSt g) = true
  ∧ modeJustChanged (aiSt g') = false.
Proof.
  intros Hsub Hst Hnd Halive Hai Hvel Hpos Hd g g'.
  assert (Hw : world g = world g0) by (by apply dispatch_world).
  assert (Ha : aiSt g = recordGhostEvent (GHOST_MODE_CHANGE m) (aiSt g0))
    by (by apply (dispatch_ai_recorded _ onGhostModeChange)).
  destruct (ghostAIUpdate_velocity g x ai vel pos) as (_ & Hrev & Hclr);
    try (by rewrite Hw).
  fold g' in Hrev, Hclr. rewrite Hw, Hd in Hrev. rewrite Ha in Hrev. simpl in Hrev.
  split_and!; [by apply Hrev|by rewrite Ha|by rewrite Ha|done].
Qed.

(** An instance: blinky heading right is turned left when chase begins. *)
Lemma mode_change_reverses_ghosts_witness :
  wGet (world (ghostAIUpdate (dispatch (GHOST_MODE_CHANGE GChase) blinkyHeadingRight)))
       0%nat velocity
  = Some (mkVelocity (Some Left) GHOST_SPEED None).
Proof.
  apply (mode_change_reverses_ghosts blinkyHeadingRight GChase 0%nat
           (mkGhostAI blinky Scatter (SCATTER_TARGETS blinky))
           (mkVelocity (Some Right) (18 # 10) None) (createPosition 6 5) Right).
  - apply (bool_decide_unpack _). by vm_compute.
  - reflexivity.
  - apply (bool_decide_unpack _). by vm_compute.
  - reflexivity.
  - reflexivity.
  - reflexivity.
  - reflexivity.
  - reflexivity.
Defined.

(** [X19] Ghost speed.  After a tick of the ghost AI in play, every ghost
    that holds its three components has the frightened speed (1) if it was
    vulnerable when the tick began and the normal ghost speed (1.5)
    otherwise, whatever speed it had (the factory gives 1.8); its queued
    direction is untouched. *)
Theorem ghost_speed_after_tick (g : Game) (x : EntityId)
    (ai : GhostAI) (vel : Velocity) (pos : Position) :
  getGameState (world g) = Playing →
  NoDup (aliveEntities (entities (world g))) →
  isAlive (entities (world g)) x = true →
  wGet (world g) x ghostAI = Some ai →
  wGet (world g) x velocity = Some vel →
  wGet (world g) x position = Some pos →
  ∃ vel' : Velocity,
    wGet (world (ghostAIUpdate g)) x velocity = Some vel'
    ∧ nextDirection vel' = nextDirection vel
    ∧ (isGhostVulnerable (world g) x = true → speed vel' == 1)%Q
    ∧ (isGhostVulnerable (world g) x = false → speed vel' == 3 # 2)%Q.
Proof.
  intros Hst Hnd Halive Hai Hvel Hpos.
  destruct (ghostAIUpdate_velocity g x ai vel pos Hst Hnd Halive Hai Hvel Hpos)
    as ((vel' & Hv & Hn & Hs) & _).
  exists vel'. split_and!; try done.
  - intros Hvul. rewrite Hvul in Hs. by rewrite Hs.
  - intros Hvul. rewrite Hvul in Hs. by rewrite Hs.
Qed.

(** An instance: the factory speed of blinky does not survive the tick. *)
Lemma ghost_speed_after_tick_witness :
  ∃ vel' : Velocity,
    wGet (world (ghostAIUpdate blinkyHeadingRight)) 0%nat velocity = Some vel'
    ∧ (speed vel' == 3 # 2)%Q.
Proof.
  destruct (ghost_speed_after_tick blinkyHeadingRight 0%nat
              (mkGhostAI blinky Scatter (SCATTER_TARGETS blinky))
              (mkVelocity (Some Right) (18 # 10) None) (createPosition 6 5))
    as (vel' & Hv & _ & _ & Hs).
  - reflexivity.
  - apply (bool_decide_unpack _). by vm_compute.
  - reflexivity.
  - reflexivity.
  - reflexivity.
  - reflexivity.
  - exists vel'. split; [exact Hv|]. apply Hs. reflexivity.
Defined.

(** [X20] Mode of a ghost that is not returning home.  After a tick of the
    ghost AI in play, a ghost that holds its three components and is not in
    the pending-eaten set is in frightened mode if it was vulnerable or a
    power-up is running for the ghost AI, and in the current global mode
    (chase or scatter) otherwise; its type and scatter target never change,
    and it is still not pending. *)
Theorem ghost_mode_follows_power_up (g : Game) (x : EntityId)
    (ai : GhostAI) (vel : Velocity) (pos : Position) :
  getGameState (world g) = Playing →
  NoDup (aliveEntities (entities (world g))) →
  isAlive (entities (world g)) x = true →
  wGet (world g) x ghostAI = Some ai →
  wGet (world g) x velocity = Some vel →
  wGet (world g) x position = Some pos →
  x ∉ eatenGhosts (aiSt g) →
  let g' := ghostAIUpdate g in
  let frightened := isGhostVulnerable (world g) x || frightenedActive (aiSt g) in
  wGet (world g') x ghostAI
  = Some (mkGhostAI (type ai)
            (if frightened then Frightened
             else modeOfGlobal (currentGlobalMode (aiSt g)))
            (scatterTarget ai))
  ∧ x ∉ eatenGhosts (aiSt g').
Proof.
  intros Hst Hnd Halive Hai Hvel Hpos Hnot g' frightened.
  destruct (ghostAIUpdate_mode g x ai vel pos Hst Hnd Halive Hai Hvel Hpos)
    as [Hmode Hpend].
  fold g' in Hmode, Hpend. unfold resolveMode in Hmode, Hpend.
  rewrite (proj2 (set_has_false x _) Hnot) in Hmode, Hpend.
  unfold frightened.
  destruct (isGhostVulnerable (world g) x); simpl in *.
  - split; [done|]. by rewrite Hpend.
  - destruct (frightenedActive (aiSt g)); simpl in *;
      (split; [done|]; by rewrite Hpend).
Qed.

(** An instance: blinky, fresh from the factory, keeps scattering. *)
Lemma ghost_mode_follows_power_up_witness :
  getGhostMode (world (ghostAIUpdate blinkyHeadingRight)) 0%nat = Some Scatter.
Proof.
  destruct (ghost_mode_follows_power_up blinkyHeadingRight 0%nat
              (mkGhostAI blinky Scatter (SCATTER_TARGETS blinky))
              (mkVelocity (Some Right) (18 # 10) None) (createPosition 6 5))
    as [H _].
  - reflexivity.
  - apply (bool_decide_unpack _). by vm_compute.
  - reflexivity.
  - reflexivity.
  - reflexivity.
  - reflexivity.
  - apply (bool_decide_unpack _). by vm_compute.
  - unfold getGhostMode. by rewrite H.
Defined.

(* ================================================================== *)
(** * Further properties of the movement system *)
(* ================================================================== *)

Section MovementMore.

Lemma snapToWall_center (dir : Direction) (gx gy : Z) (px py : Q) :
  let s := snapToWall dir gx gy px py in
  ((dir = Left ∨ dir = Right) → (s.1 == cellCenter gx)%Q ∧ s.2 = py)
  ∧ ((dir = Up ∨ dir = Down) → (s.2 == cellCenter gy)%Q ∧ s.1 = px).
Proof.
  cbv zeta. unfold cellCenter.
  destruct dir; cbn [snapToWall fst snd];
    (split; [intros [?|?]|intros [?|?]]); try done;
    (split; [|done]); rewrite ?inject_Z_plus;
    change (inject_Z 1) with 1%Q; unfold TILE_SIZE; field.
Qed.

Lemma applyNextDirection_cases maze isPlayer (pos : Position) (vel : Velocity)
    (nd : Direction) :
  nextDirection vel = Some nd →
  let t := applyNextDirection maze isPlayer pos vel in
  let gx := floorDiv (pixelX pos) TILE_SIZE in
  let gy := floorDiv (pixelY pos) TILE_SIZE in
  (isReverse (direction vel) nd = true →
     t = mkTurned (pixelX pos) (pixelY pos) (Some nd) None)
  ∧ (isReverse (direction vel) nd = false → canTurn maze isPlayer pos nd = true →
     t = mkTurned (cellCenter gx) (cellCenter gy) (Some nd) None)
  ∧ (isReverse (direction vel) nd = false → canTurn maze isPlayer pos nd = false →
     t = mkTurned (pixelX pos) (pixelY pos) (direction vel) (Some nd)).
Proof.
  intros Hn. unfold applyNextDirection, canTurn. rewrite Hn. simpl.
  split_and!.
  - by intros ->.
  - intros -> [H1 H2]%andb_prop. by rewrite H1, H2.
  - intros -> H. destruct (isAlignedToGrid _ _ _); [|done].
    simpl in H. by rewrite H.
Qed.

Lemma moveEntity_Some maze isPlayer dt (pos : Position) (vel : Velocity) :
  ¬ (direction vel = None ∧ nextDirection vel = None) →
  let gx := floorDiv (pixelX pos) TILE_SIZE in
  let gy := floorDiv (pixelY pos) TILE_SIZE in
  let t := applyNextDirection maze isPlayer pos vel in
  moveEntity maze isPlayer dt pos vel
  = Some
      (match t_current t with
       | None => mkPosition gx gy (t_pixelX t) (t_pixelY t)
       | Some dir =>
           let raw := tentativeMove dir (t_pixelX t) (t_pixelY t)
                        (speed vel * (dt / (1667 # 100)))%Q in
           let newPixelX := tunnelWrap gy raw.1 in
           let edge := leadingCell dir gx gy newPixelX raw.2 in
           if isWalkable maze edge.1 edge.2 isPlayer then
             mkPosition (clampZ 0 (MAZE_WIDTH - 1) (floorDiv newPixelX TILE_SIZE))
               (clampZ 0 (mazeHeight maze - 1) (floorDiv raw.2 TILE_SIZE))
               newPixelX raw.2
           else
             let s := snapToWall dir gx gy (t_pixelX t) (t_pixelY t) in
             mkPosition gx gy s.1 s.2
       end,
       mkVelocity (t_current t) (speed vel) (t_next t)).
Proof.
  intros Hnot. unfold moveEntity.
  destruct (direction vel) as [d|] eqn:Hd, (nextDirection vel) as [n|] eqn:Hn;
    try (by destruct Hnot);
    (destruct (t_current _); [destruct (isWalkable _ _ _ _)|]; done).
Qed.

End MovementMore.

(** [X21] A blocked move.  Take a tick of the movement system on a game in
    play (frame time not 0) and an entity with a position and a velocity
    that moves in direction [dir] once its queued turn has been looked at.
    When the cell the leading edge would enter is not walkable, the entity
    is not moved forward: the position written back keeps its grid cell and
    puts it on the centre of that cell along the axis of travel, its other
    pixel coordinate being the one after the turn check.  It keeps its
    direction (it is not stopped), its speed and what is left of the queued
    direction. *)
Theorem blocked_move_snaps (maze : list (list MazeCellType)) (g : Game)
    (id : EntityId) (pos : Position) (vel : Velocity) (dir : Direction) :
  let isPlayer := wHas (world g) id playerControlled in
  let dt := getDeltaTime (world g) in
  let t := applyNextDirection maze isPlayer pos vel in
  let gx := floorDiv (pixelX pos) TILE_SIZE in
  let gy := floorDiv (pixelY pos) TILE_SIZE in
  let raw := tentativeMove dir (t_pixelX t) (t_pixelY t)
               (speed vel * (dt / (1667 # 100)))%Q in
  let edge := leadingCell dir gx gy (tunnelWrap gy raw.1) raw.2 in
  let w' := world (movementUpdate maze g) in
  getGameState (world g) = Playing →
  ¬ (dt == 0)%Q →
  NoDup (aliveEntities (entities (world g))) →
  isAlive (entities (world g)) id = true →
  wGet (world g) id position = Some pos →
  wGet (world g) id velocity = Some vel →
  t_current t = Some dir →
  isWalkable maze edge.1 edge.2 isPlayer = false →
  ∃ pos',
    wGet w' id position = Some pos'
    ∧ wGet w' id velocity = Some (mkVelocity (Some dir) (speed vel) (t_next t))
    ∧ gridX pos' = gx ∧ gridY pos' = gy
    ∧ ((dir = Left ∨ dir = Right) →
       (pixelX pos' == cellCenter gx)%Q ∧ pixelY pos' = t_pixelY t)
    ∧ ((dir = Up ∨ dir = Down) →
       (pixelY pos' == cellCenter gy)%Q ∧ pixelX pos' = t_pixelX t).
Proof.
  intros isPlayer dt t gx gy raw edge w' Hst Hdt Hnd Ha Hp Hv Hcur Hwall.
  assert (Hnot : ¬ (direction vel = None ∧ nextDirection vel = None)).
  { intros [Hd Hn]. unfold t, applyNextDirection in Hcur.
    rewrite Hn in Hcur. simpl in Hcur. congruence. }
  destruct (movementUpdate_entity maze g id pos vel Hst Hdt Hnd Ha Hp Hv)
    as (M1 & M2 & _).
  fold isPlayer dt w' in M1, M2.
  rewrite (moveEntity_Some maze isPlayer dt pos vel Hnot) in M1, M2.
  fold gx gy t in M1, M2. rewrite Hcur in M1, M2. cbv zeta in M1, M2.
  fold raw in M1. fold edge in M1. rewrite Hwall in M1.
  eexists. split; [exact M1|]. split; [exact M2|]. simpl.
  destruct (snapToWall_center dir gx gy (t_pixelX t) (t_pixelY t)) as [Hh Hv'].
  split_and!; done.
Qed.

(** An instance: the player in the centre of cell (1, 1) heading left stays
    there. *)
Lemma blocked_move_snaps_witness :
  ∃ pos',
    wGet (world (movementUpdate ORIGINAL_MAZE (playerAlone playerAtWall))) 0%nat position
    = Some pos'
    ∧ gridX pos' = 1 ∧ gridY pos' = 1 ∧ (pixelX pos' == 30)%Q.
Proof.
  destruct (blocked_move_snaps ORIGINAL_MAZE (playerAlone playerAtWall) 0%nat
              playerAtWall.1 playerAtWall.2 Left)
    as (pos' & Hm & _ & Hx & Hy & Hc & _).
  - by vm_compute.
  - by vm_compute.
  - apply (bool_decide_unpack _). by vm_compute.
  - by vm_compute.
  - by vm_compute.
  - by vm_compute.
  - by vm_compute.
  - by vm_compute.
  - exists pos'. split_and!; [exact Hm|by rewrite Hx|by rewrite Hy|].
    destruct Hc as [Hc _]; [by left|]. rewrite Hc. by vm_compute.
Defined.

(** [X22] A queued turn.  In a tick of the movement system on a game in play
    (frame time not 0), an entity with a position, a velocity and a queued
    direction is always written back, with its speed unchanged.  A queued
    direction opposite to the current one is taken at once, wherever the
    entity is.  Any other queued direction is taken only when the entity is
    within a quarter tile of the centre of its cell on both axes and the
    neighbouring cell in that direction is walkable; the entity then moves
    off from the centre line of its cell.  Otherwise the entity keeps its
    direction and the turn stays queued. *)
Theorem queued_turn (maze : list (list MazeCellType)) (g : Game)
    (id : EntityId) (pos : Position) (vel : Velocity) (nd : Direction) :
  let isPlayer := wHas (world g) id playerControlled in
  let gx := floorDiv (pixelX pos) TILE_SIZE in
  let gy := floorDiv (pixelY pos) TILE_SIZE in
  let w' := world (movementUpdate maze g) in
  getGameState (world g) = Playing →
  ¬ (getDeltaTime (world g) == 0)%Q →
  NoDup (aliveEntities (entities (world g))) →
  isAlive (entities (world g)) id = true →
  wGet (world g) id position = Some pos →
  wGet (world g) id velocity = Some vel →
  nextDirection vel = Some nd →
  ∃ pos' vel',
    wGet w' id position = Some pos'
    ∧ wGet w' id velocity = Some vel'
    ∧ speed vel' = speed vel
    ∧ (isReverse (direction vel) nd = true →
       direction vel' = Some nd ∧ nextDirection vel' = None)
    ∧ (isReverse (direction vel) nd = false →
       canTurn maze isPlayer pos nd = false →
       direction vel' = direction vel ∧ nextDirection vel' = Some nd)
    ∧ (isReverse (direction vel) nd = false →
       canTurn maze isPlayer pos nd = true →
       direction vel' = Some nd ∧ nextDirection vel' = None
       ∧ ((nd = Left ∨ nd = Right) → pixelY pos' = cellCenter gy)
       ∧ ((nd = Up ∨ nd = Down) → 0 ≤ gx < MAZE_WIDTH →
          pixelX pos' = cellCenter gx)).
Proof.
  intros isPlayer gx gy w' Hst Hdt Hnd Ha Hp Hv Hn.
  assert (Hnot : ¬ (direction vel = None ∧ nextDirection vel = None)).
  { intros [_ H]. congruence. }
  destruct (movementUpdate_entity maze g id pos vel Hst Hdt Hnd Ha Hp Hv)
    as (M1 & M2 & _).
  fold isPlayer w' in M1, M2.
  rewrite (moveEntity_Some maze isPlayer _ pos vel Hnot) in M1, M2.
  destruct (applyNextDirection_cases maze isPlayer pos vel nd Hn) as (Hrev & Hturn & Hkeep).
  fold gx gy in Hturn, M1, M2.
  eexists _, _. split; [exact M1|]. split; [exact M2|].
  cbn [speed direction nextDirection].
  split_and!; [done| | |].
  - intros H. by rewrite (Hrev H).
  - intros H1 H2. by rewrite (Hkeep H1 H2).
  - intros H1 H2. rewrite (Hturn H1 H2). cbn [t_current t_next t_pixelX t_pixelY].
    split_and!; [done|done| |].
    + intros Hh. cbv zeta.
      destruct (isWalkable _ _ _ _); cbn [pixelY];
        by destruct Hh as [-> | ->].
    + intros Hv' Hgx. cbv zeta.
      assert (Hwrap : tunnelWrap gy (cellCenter gx) = cellCenter gx).
      { unfold tunnelWrap. destruct (gy =? TUNNEL_ROW); [|done].
        assert (inject_Z 0 <= inject_Z gx)%Q as Hlo by (rewrite <- Zle_Qle; lia).
        assert (inject_Z gx <= inject_Z 27)%Q as Hhi
          by (rewrite <- Zle_Qle; unfold MAZE_WIDTH in Hgx; lia).
        change (inject_Z 0) with 0%Q in Hlo. change (inject_Z 27) with 27%Q in Hhi.
        assert (cellCenter gx == inject_Z gx * 20 + 10)%Q as Ec
          by (unfold cellCenter, TILE_SIZE; field).
        assert (MAZE_PIXEL_WIDTH == 560)%Q as Ew by done.
        assert (0 <= cellCenter gx)%Q as H0 by (rewrite Ec; lra).
        assert (cellCenter gx < MAZE_PIXEL_WIDTH)%Q as H3 by (rewrite Ec, Ew; lra).
        rewrite (proj2 (Qltb_ge _ _) H0).
        by rewrite (proj2 (Qle_bool_false _ _) H3). }
      destruct Hv' as [-> | ->]; cbn [tentativeMove fst snd];
        rewrite Hwrap; by destruct (isWalkable _ _ _ _).
Qed.

(** An instance: three pixels right of the centre of the junction (6, 5),
    the queued turn up is made from the centre line. *)
Lemma queued_turn_witness :
  ∃ pos' vel',
    wGet (world (movementUpdate ORIGINAL_MAZE (playerAlone turningPlayer))) 0%nat position
    = Some pos'
    ∧ wGet (world (movementUpdate ORIGINAL_MAZE (playerAlone turningPlayer))) 0%nat velocity
      = Some vel'
    ∧ direction vel' = Some Up ∧ nextDirection vel' = None
    ∧ pixelX pos' = cellCenter 6.
Proof.
  destruct (queued_turn ORIGINAL_MAZE (playerAlone turningPlayer) 0%nat
              turningPlayer.1 turningPlayer.2 Up)
    as (pos' & vel' & Hm & Hm' & _ & _ & _ & Hturn).
  - by vm_compute.
  - by vm_compute.
  - apply (bool_decide_unpack _). by vm_compute.
  - by vm_compute.
  - by vm_compute.
  - by vm_compute.
  - by vm_compute.
  - destruct Hturn as (Hd & Hn & _ & Hx); [by vm_compute|by vm_compute|].
    exists pos', vel'. split_and!; [exact Hm|exact Hm'|exact Hd|exact Hn|].
    apply Hx; [by left|by vm_compute].
Defined.

(** [X23] Walkability.  For the movement system: a row outside the maze is
    never walkable; a column outside the maze is walkable exactly on the
    tunnel row; inside the maze a wall is never walkable, the ghost house
    and its door are walkable for ghosts only, and every other cell is
    walkable.  Whatever the player may enter a ghost may enter.  On the
    original maze, every cell the ghost AI considers walkable is walkable
    for the movement system, which in addition lets a ghost off the two
    ends of the tunnel row. *)
Theorem walkability_rules (maze : list (list MazeCellType)) (x y : Z)
    (isPlayer : bool) :
  ((y < 0 ∨ mazeHeight maze ≤ y) → isWalkable maze x y isPlayer = false)
  ∧ (0 ≤ y < mazeHeight maze → (x < 0 ∨ mazeRowWidth maze ≤ x) →
     isWalkable maze x y isPlayer = bool_decide (y = TUNNEL_ROW))
  ∧ (0 ≤ y < mazeHeight maze → 0 ≤ x < mazeRowWidth maze →
     ∀ cell, cellAt maze x y = Some cell →
       isWalkable maze x y false = bool_decide (cell ≠ Wall)
       ∧ isWalkable maze x y true
         = bool_decide (cell ≠ Wall ∧ cell ≠ GhostHouse ∧ cell ≠ GhostDoor))
  ∧ (isWalkable maze x y true = true → isWalkable maze x y false = true)
  ∧ (isWalkableForGhost x y = true → isWalkable ORIGINAL_MAZE x y false = true)
  ∧ (isWalkable ORIGINAL_MAZE x y false = true →
     isWalkableForGhost x y = true
     ∨ (y = TUNNEL_ROW ∧ (x < 0 ∨ MAZE_WIDTH ≤ x))).
Proof.
  split_and!.
  - intros H. unfold isWalkable.
    assert ((y <? 0) || (mazeHeight maze <=? y) = true) as ->; [|done].
    apply orb_true_iff. destruct H; [left; lia|right; lia].
  - intros Hy Hx. unfold isWalkable.
    assert ((y <? 0) || (mazeHeight maze <=? y) = false) as ->.
    { apply orb_false_iff. split; lia. }
    assert ((x <? 0) || (mazeRowWidth maze <=? x) = true) as ->.
    { apply orb_true_iff. destruct Hx; [left; lia|right; lia]. }
    destruct (Z.eqb_spec y TUNNEL_ROW).
    + by rewrite bool_decide_eq_true_2.
    + by rewrite bool_decide_eq_false_2.
  - intros Hy Hx cell Hcell. unfold isWalkable.
    assert ((y <? 0) || (mazeHeight maze <=? y) = false) as ->.
    { apply orb_false_iff. split; lia. }
    assert ((x <? 0) || (mazeRowWidth maze <=? x) = false) as ->.
    { apply orb_false_iff. split; lia. }
    rewrite Hcell. by destruct cell.
  - unfold isWalkable.
    destruct ((y <? 0) || (mazeHeight maze <=? y)); [done|].
    destruct ((x <? 0) || (mazeRowWidth maze <=? x)); [done|].
    destruct (cellAt maze x y) as [cell|]; [|done]. by destruct cell.
  - unfold isWalkableForGhost, isWalkable.
    destruct ((y <? 0) || (mazeHeight ORIGINAL_MAZE <=? y)) eqn:Ey; [done|].
    destruct ((x <? 0) || (mazeRowWidth ORIGINAL_MAZE <=? x)) eqn:Ex.
    + rewrite orb_false_l. by rewrite Ex.
    + rewrite !orb_false_l, Ex.
      destruct (cellAt ORIGINAL_MAZE x y) as [cell|]; [|done]. by destruct cell.
  - unfold isWalkableForGhost, isWalkable.
    destruct ((y <? 0) || (mazeHeight ORIGINAL_MAZE <=? y)) eqn:Ey; [done|].
    destruct ((x <? 0) || (mazeRowWidth ORIGINAL_MAZE <=? x)) eqn:Ex.
    + intros H. right. split; [lia|].
      apply orb_true_iff in Ex as [Ex|Ex]; [left; lia|right].
      apply Z.leb_le in Ex. exact Ex.
    + rewrite !orb_false_l, Ex. intros H. left.
      destruct (cellAt ORIGINAL_MAZE x y) as [cell|]; [|done]. by destruct cell.
Qed.

(** An instance: the ghost door (13, 12) of the original maze, and the cell
    left of the tunnel. *)
Lemma walkability_rules_witness :
  isWalkable ORIGINAL_MAZE 13 12 true = false
  ∧ isWalkable ORIGINAL_MAZE 13 12 false = true
  ∧ isWalkable ORIGINAL_MAZE (-1) 14 true = true.
Proof.
  destruct (walkability_rules ORIGINAL_MAZE 13 12 true) as (_ & _ & Hin & _).
  destruct (walkability_rules ORIGINAL_MAZE (-1) 14 true) as (_ & Hout & _).
  destruct (Hin ltac:(by vm_compute) ltac:(by vm_compute) GhostDoor eq_refl)
    as [Hghost Hplayer].
  split_and!.
  - by rewrite Hplayer.
  - by rewrite Hghost.
  - rewrite Hout; [done|by vm_compute|left; lia].
Defined.

(* ================================================================== *)
(** * Further properties of the eating system *)
(* ================================================================== *)

Section EatingMore.

Implicit Types (g : Game) (w : World) (x z : EntityId).

Lemma addScore_frame w (pts : Z) :
  entities (addScore w pts) = entities w
  ∧ score (addScore w pts) = score w + Z.max 0 pts
  ∧ lives (addScore w pts) = lives w
  ∧ level (addScore w pts) = level w
  ∧ gameState (addScore w pts) = gameState w
  ∧ powerUpTime (addScore w pts) = powerUpTime w
  ∧ ghostEatenStreak (addScore w pts) = ghostEatenStreak w.
Proof.
  unfold addScore. destruct (0 <? pts) eqn:E; simpl; split_and!; try done.
  - apply Z.ltb_lt in E. lia.
  - apply Z.ltb_ge in E. lia.
Qed.

(** The world and the trace after one pellet. *)
Lemma eatPellet_exact g x :
  let pts := pelletPoints (world g) x in
  world (eatPellet g x)
  = wDestroy (match wGet (world g) x powerUp with
              | Some pu => resetGhostEatenStreak
                             (setPowerUpTime (addScore (world g) pts) (duration pu))
              | None => addScore (world g) pts
              end) x
  ∧ trace (eatPellet g x) = trace g ++ pelletEvents (world g) x.
Proof.
  unfold eatPellet, pelletEvents, pelletPoints.
  destruct (wGet (world g) x powerUp) as [pu|]; simpl.
  - rewrite !dispatch_world by done. rewrite !dispatch_trace. simpl.
    by rewrite <- app_assoc.
  - rewrite !dispatch_world by done. by rewrite !dispatch_trace.
Qed.

Lemma eatPellet_scalars g x :
  let g' := eatPellet g x in
  score (world g') = score (world g) + Z.max 0 (pelletPoints (world g) x)
  ∧ level (world g') = level (world g)
  ∧ (wGet (world g) x powerUp = None →
     powerUpTime (world g') = powerUpTime (world g)
     ∧ ghostEatenStreak (world g') = ghostEatenStreak (world g))
  ∧ (∀ pu, wGet (world g) x powerUp = Some pu →
     powerUpTime (world g') = duration pu ∧ ghostEatenStreak (world g') = 0%nat)
  ∧ (∀ t, isAlive (entities (world g)) x = true → wGet (world g') x t = None).
Proof.
  intros g'. destruct (eatPellet_exact g x) as [Hw _]. fold g' in Hw.
  destruct (addScore_frame (world g) (pelletPoints (world g) x))
    as (A1 & A2 & A3 & A4 & A5 & A6 & A7).
  rewrite Hw. destruct (wGet (world g) x powerUp) as [pu|]; simpl;
    rewrite ?A2, ?A4, ?A6, ?A7; split_and!; try done.
  - by intros pu' [= <-].
  - intros t Ha. unfold wGet. simpl. apply getComponent_destroy_same.
    by rewrite A1.
  - intros t Ha. unfold wGet. simpl. apply getComponent_destroy_same.
    by rewrite A1.
Qed.

Lemma pelletPoints_ext w w' z :
  (∀ t, wGet w' z t = wGet w z t) → pelletPoints w' z = pelletPoints w z.
Proof. intros H. unfold pelletPoints. by rewrite H. Qed.

Lemma pelletEvents_ext w w' z :
  (∀ t, wGet w' z t = wGet w z t) → pelletEvents w' z = pelletEvents w z.
Proof. intros H. unfold pelletEvents, pelletPoints. by rewrite !H. Qed.

Lemma flat_map_ext_elem {A B} (f f' : A → list B) (l : list A) :
  (∀ a, a ∈ l → f a = f' a) → flat_map f l = flat_map f' l.
Proof.
  induction l as [|a l IH]; intros H; [done|]. simpl.
  rewrite (H a) by (by left). rewrite IH; [done|].
  intros b Hb. apply H. by right.
Qed.

(** Eating a run of distinct live pellets. *)
Lemma eatPellets_exact l : ∀ g,
  NoDup l →
  (∀ z, z ∈ l → isAlive (entities (world g)) z = true) →
  let g' := fold_left eatPellet l g in
  score (world g')
  = score (world g) + sumZ (map (fun z => Z.max 0 (pelletPoints (world g) z)) l)
  ∧ trace g' = trace g ++ flat_map (pelletEvents (world g)) l
  ∧ level (world g') = level (world g)
  ∧ lives (world g') = lives (world g)
  ∧ gameState (world g') = gameState (world g)
  ∧ aliveEntities (entities (world g'))
    = filter (fun z => z ∉ l) (aliveEntities (entities (world g)))
  ∧ (∀ z t, z ∉ l → wGet (world g') z t = wGet (world g) z t)
  ∧ (∀ z t, z ∈ l → wGet (world g') z t = None)
  ∧ (Forall (fun z => wGet (world g) z powerUp = None) l →
     powerUpTime (world g') = powerUpTime (world g)
     ∧ ghostEatenStreak (world g') = ghostEatenStreak (world g))
  ∧ (∀ l1 z l2 pu,
       l = l1 ++ z :: l2 → wGet (world g) z powerUp = Some pu →
       Forall (fun z' => wGet (world g) z' powerUp = None) l2 →
       powerUpTime (world g') = duration pu
       ∧ ghostEatenStreak (world g') = 0%nat).
Proof.
  induction l as [|x l IH]; intros g Hnd Halive g'.
  - unfold g'. simpl. rewrite app_nil_r. split_and!; try done.
    + unfold sumZ. simpl. lia.
    + induction (aliveEntities _) as [|y s IHs]; [done|].
      rewrite filter_cons_True by apply not_elem_of_nil. by rewrite <- IHs.
    + intros z t Hz. by apply elem_of_nil in Hz.
    + intros l1 z l2 pu Hl. by destruct l1.
  - apply NoDup_cons in Hnd as [Hx Hnd].
    destruct (eatPellet_spec g x) as (E1 & E2 & _ & E4 & E5 & _).
    destruct (eatPellet_exact g x) as [_ Ht].
    destruct (eatPellet_scalars g x) as (S1 & S2 & S3 & S4 & S5).
    assert (Hother : ∀ z, z ∈ l → ∀ t, wGet (world (eatPellet g x)) z t
                                       = wGet (world g) z t).
    { intros z Hz t. apply E5. intros ->. done. }
    assert (Halive' : ∀ z, z ∈ l → isAlive (entities (world (eatPellet g x))) z = true).
    { intros z Hz. unfold isAlive. rewrite E4. apply set_has_true.
      apply elem_of_set_delete. split; [by intros ->|].
      apply set_has_true. apply Halive. by right. }
    destruct (IH (eatPellet g x) Hnd Halive')
      as (I1 & I2 & I3 & I4 & I5 & I6 & I7 & I8 & I9 & I10).
    unfold g'. simpl fold_left.
    assert (Hpow : ∀ l', l' ⊆ l →
              Forall (fun z => wGet (world g) z powerUp = None) l' →
              Forall (fun z => wGet (world (eatPellet g x)) z powerUp = None) l').
    { intros l' Hsub Hall. rewrite Forall_forall in Hall |- *.
      intros z Hz. rewrite Hother by (by apply Hsub). by apply Hall. }
    split_and!.
    + rewrite I1, S1.
      rewrite (map_ext_in _ (fun z => Z.max 0 (pelletPoints (world g) z)) l).
      * unfold sumZ. simpl. lia.
      * intros z Hz. apply list_elem_of_In in Hz. f_equal.
        apply pelletPoints_ext. by apply Hother.
    + rewrite I2, Ht, <- app_assoc. f_equal.
      change (flat_map (pelletEvents (world g)) (x :: l))
        with (pelletEvents (world g) x ++ flat_map (pelletEvents (world g)) l).
      f_equal.
      apply flat_map_ext_elem. intros z Hz.
      apply pelletEvents_ext. by apply Hother.
    + by rewrite I3.
    + by rewrite I4.
    + by rewrite I5.
    + rewrite I6, E4. apply filter_set_delete.
    + intros z t Hz. apply not_elem_of_cons in Hz as [Hzx Hzl].
      rewrite I7 by done. by apply E5.
    + intros z t Hz. apply elem_of_cons in Hz as [->|Hz]; [|by apply I8].
      rewrite I7 by done. apply S5. apply Halive. by left.
    + intros Hall. apply Forall_cons in Hall as [Hxp Hall].
      destruct (S3 Hxp) as [P1 P2].
      destruct (I9 (Hpow l (reflexivity _) Hall)) as [Q1 Q2].
      by rewrite Q1, Q2, P1, P2.
    + intros l1 z l2 pu Hl Hz Hall.
      destruct l1 as [|y l1]; simpl in Hl; injection Hl as <- ->.
      * destruct (S4 pu Hz) as [P1 P2].
        destruct (I9 (Hpow l2 (reflexivity _) Hall)) as [Q1 Q2].
        by rewrite Q1, Q2, P1, P2.
      * apply (I10 l1 z l2 pu eq_refl).
        -- rewrite Hother; [done|]. apply elem_of_app. right. by left.
        -- apply Hpow; [|done]. intros z' Hz'. apply elem_of_app. right. by right.
Qed.

Lemma length_filter_split {A} (P : A → Prop) `{∀ a, Decision (P a)} (l : list A) :
  (length (filter P l) + length (filter (fun a => ¬ P a) l))%nat = length l.
Proof.
  induction l as [|a l IH]; [done|].
  destruct (decide (P a)).
  - rewrite filter_cons_True by done.
    rewrite (filter_cons_False (fun a => ¬ P a)) by (by intros ?). simpl. lia.
  - rewrite filter_cons_False by done.
    rewrite (filter_cons_True (fun a => ¬ P a)) by done. simpl. lia.
Qed.

Lemma filter_ext_elem {A} (P Q : A → Prop) `{∀ a, Decision (P a)}
    `{∀ a, Decision (Q a)} (l : list A) :
  (∀ a, a ∈ l → P a ↔ Q a) → filter P l = filter Q l.
Proof.
  induction l as [|a l IH]; intros HPQ; [done|].
  assert (filter P l = filter Q l) as E.
  { apply IH. intros b Hb. apply HPQ. by right. }
  destruct (decide (P a)) as [Hp|Hp].
  - rewrite !filter_cons_True; [by rewrite E| |done]. apply HPQ; [by left|done].
  - rewrite !filter_cons_False; [done| |done]. intros Hq. apply Hp, HPQ; [by left|done].
Qed.

(** The eating system's update once the game is in play and the player has
    a position. *)
Lemma eatingUpdate_playing g (playerPos : Position) :
  getGameState (world g) = Playing →
  getPlayerPosition (world g) = Some playerPos →
  let eaten := eatenPellets (world g) playerPos in
  let g1 := fold_left eatPellet eaten g in
  eatingUpdate g
  = if (0 <? length eaten)%nat && (getRemainingPelletCount (world g1) =? 0)%nat
    then dispatch (LEVEL_COMPLETE (getLevel (world g1)) (getScore (world g1)))
           (updWorld (fun w => setGameState w Won) g1)
    else g1.
Proof.
  intros Hst Hpos. unfold eatingUpdate. rewrite decide_True by done.
  assert (is_Some (getPlayerEntity (world g))) as [p Hp].
  { unfold getPlayerPosition in Hpos. destruct (getPlayerEntity (world g)); [by eexists|done]. }
  rewrite Hp, Hpos. cbv zeta.
  destruct (0 <? length _)%nat; [|done].
  by destruct (_ =? 0)%nat.
Qed.

End EatingMore.

(** [X24] What an eating tick awards.  In play, with [eaten] the pellets
    within the eating distance of the player (in query order): the score
    grows by the points of each eaten pellet that are positive; every eaten
    pellet is destroyed with all its components; the remaining pellets are
    the former ones without the eaten, in the same order; no other entity
    and no life is touched.  The events dispatched are, pellet by pellet,
    [pellet:eaten], or [power:pellet:eaten] followed by [power:up:started],
    and a final [level:complete] when the last pellet went.  When no power
    pellet is eaten the power-up timer and the streak stay; otherwise the
    timer is set to the duration of the last power pellet eaten and the
    streak is reset.  With nothing in reach the game is left as it was. *)
Theorem eating_awards_points (g : Game) (playerPos : Position) :
  getGameState (world g) = Playing →
  getPlayerPosition (world g) = Some playerPos →
  NoDup (aliveEntities (entities (world g))) →
  let eaten := eatenPellets (world g) playerPos in
  let g' := eatingUpdate g in
  getScore (world g')
  = getScore (world g)
    + sumZ (map (fun z => Z.max 0 (pelletPoints (world g) z)) eaten)
  ∧ getAllPellets (world g')
    = filter (fun z => z ∉ eaten) (getAllPellets (world g))
  ∧ (getRemainingPelletCount (world g') + length eaten)%nat
    = getRemainingPelletCount (world g)
  ∧ (∀ z, z ∈ eaten →
       isAlive (entities (world g')) z = false ∧ ∀ t, wGet (world g') z t = None)
  ∧ (∀ z t, z ∉ eaten → wGet (world g') z t = wGet (world g) z t)
  ∧ getLives (world g') = getLives (world g)
  ∧ newEvents g g'
    = flat_map (pelletEvents (world g)) eaten
      ++ (if bool_decide (eaten ≠ [] ∧ getRemainingPelletCount (world g') = 0%nat)
          then [LEVEL_COMPLETE (getLevel (world g)) (getScore (world g'))] else [])
  ∧ (Forall (fun z => wGet (world g) z powerUp = None) eaten →
     getPowerUpTimeRemaining (world g') = getPowerUpTimeRemaining (world g)
     ∧ getGhostEatenStreak (world g') = getGhostEatenStreak (world g))
  ∧ (∀ l1 z l2 pu,
       eaten = l1 ++ z :: l2 → wGet (world g) z powerUp = Some pu →
       Forall (fun z' => wGet (world g) z' powerUp = None) l2 →
       getPowerUpTimeRemaining (world g') = duration pu
       ∧ getGhostEatenStreak (world g') = 0%nat)
  ∧ (eaten = [] → g' = g).
Proof.
  intros Hst Hpos Hnd eaten g'.
  assert (Hsub : ∀ z, z ∈ eaten → z ∈ getAllPellets (world g)).
  { intros z Hz. unfold eaten, eatenPellets in Hz.
    by apply list_elem_of_filter in Hz as [_ ?]. }
  assert (Hnde : NoDup eaten).
  { unfold eaten, eatenPellets. apply NoDup_filter. by apply NoDup_query. }
  assert (Halive : ∀ z, z ∈ eaten → isAlive (entities (world g)) z = true).
  { intros z Hz. by apply Hsub, elem_of_getAllPellets in Hz as (_ & _ & ?). }
  set (g1 := fold_left eatPellet eaten g).
  destruct (eatPellets_exact eaten g Hnde Halive)
    as (I1 & I2 & I3 & I4 & I5 & I6 & I7 & I8 & I9 & I10).
  fold g1 in I1, I2, I3, I4, I5, I6, I7, I8, I9, I10.
  assert (Hpel1 : getAllPellets (world g1)
                  = filter (fun z => z ∉ eaten) (getAllPellets (world g))).
  { unfold getAllPellets, wQuery. by apply query_after_destroy. }
  assert (Hw : world g' = world g1
               ∨ (world g' = setGameState (world g1) Won)).
  { unfold g'. rewrite (eatingUpdate_playing g playerPos) by done.
    fold eaten g1. destruct (_ && _); [right|by left].
    by rewrite dispatch_world. }
  assert (Hent : entities (world g') = entities (world g1)
                 ∧ score (world g') = score (world g1)
                 ∧ lives (world g') = lives (world g1)
                 ∧ level (world g') = level (world g1)
                 ∧ powerUpTime (world g') = powerUpTime (world g1)
                 ∧ ghostEatenStreak (world g') = ghostEatenStreak (world g1)).
  { by destruct Hw as [-> | ->]. }
  destruct Hent as (H1 & H2 & H3 & H4 & H5 & H6).
  assert (Hget : ∀ z t, wGet (world g') z t = wGet (world g1) z t).
  { intros z t. unfold wGet. by rewrite H1. }
  assert (Hpel : getAllPellets (world g') = getAllPellets (world g1)).
  { unfold getAllPellets, wQuery. by rewrite H1. }
  assert (Hcount : getRemainingPelletCount (world g') = getRemainingPelletCount (world g1)).
  { unfold getRemainingPelletCount. by rewrite Hpel. }
  unfold getScore, getLives, getPowerUpTimeRemaining, getGhostEatenStreak.
  split_and!.
  - by rewrite H2, I1.
  - by rewrite Hpel.
  - unfold getRemainingPelletCount. rewrite Hpel, Hpel1.
    rewrite <- (length_filter_split
                  (fun z => match wGet (world g) z position with
                            | Some pelletPos => closerThan playerPos pelletPos EATING_THRESHOLD
                            | None => false
                            end = true) (getAllPellets (world g))).
    rewrite Nat.add_comm. f_equal. f_equal.
    apply filter_ext_elem. intros z Hz.
    unfold eaten, eatenPellets. rewrite list_elem_of_filter.
    split; [|by intros H [? _]]. intros H ?. by apply H.
  - intros z Hz. split.
    + unfold isAlive. rewrite H1, I6. apply set_has_false.
      rewrite list_elem_of_filter. by intros [? _].
    + intros t. rewrite Hget. by apply I8.
  - intros z t Hz. rewrite Hget. by apply I7.
  - by rewrite H3, I4.
  - apply newEvents_app.
    assert (Hb : bool_decide (eaten ≠ [] ∧ getRemainingPelletCount (world g') = 0%nat)
                 = (0 <? length eaten)%nat
                   && (getRemainingPelletCount (world g1) =? 0)%nat).
    { rewrite Hcount, bool_decide_and. f_equal.
      - destruct eaten; [done|]. by rewrite bool_decide_eq_true_2.
      - destruct (Nat.eqb_spec (getRemainingPelletCount (world g1)) 0).
        + by rewrite bool_decide_eq_true_2.
        + by rewrite bool_decide_eq_false_2. }
    rewrite Hb, H2. unfold getLevel. rewrite <- I3.
    unfold g'. rewrite (eatingUpdate_playing g playerPos) by done. fold eaten g1.
    destruct (_ && _).
    + rewrite dispatch_trace. simpl. by rewrite I2, <- app_assoc.
    + by rewrite I2, app_nil_r.
  - intros Hall. destruct (I9 Hall) as [P1 P2]. by rewrite H5, H6, P1, P2.
  - intros l1 z l2 pu Hl Hz Hall.
    destruct (I10 l1 z l2 pu Hl Hz Hall) as [P1 P2]. by rewrite H5, H6, P1, P2.
  - intros Hnil. unfold g'. rewrite (eatingUpdate_playing g playerPos) by done.
    fold eaten. by rewrite Hnil.
Qed.

(** An instance: the player eats the last two pellets of a level. *)
Lemma eating_awards_points_witness :
  getScore (world (eatingUpdate lastTwoPellets)) = 20
  ∧ getRemainingPelletCount (world (eatingUpdate lastTwoPellets)) = 0%nat
  ∧ length (newEvents lastTwoPellets (eatingUpdate lastTwoPellets)) = 3%nat.
Proof.
  destruct (eating_awards_points lastTwoPellets (createPosition 1 1))
    as (Hscore & Hpel & _ & _ & _ & _ & Hev & _).
  - reflexivity.
  - reflexivity.
  - apply (bool_decide_unpack _). by vm_compute.
  - split_and!.
    + rewrite Hscore. by vm_compute.
    + unfold getRemainingPelletCount. rewrite Hpel. by vm_compute.
    + rewrite Hev. by vm_compute.
Defined.

(** [X25] When eating completes the level.  Outside play, or when the player
    has no position, the eating system changes nothing.  In play the tick
    ends with the game won exactly when it eats at least one pellet and
    every pellet of the level is within reach; a level that has no pellet
    to begin with is therefore never completed by this system.  Otherwise
    the game stays in play. *)
Theorem level_complete_iff (g : Game) :
  let g' := eatingUpdate g in
  (getGameState (world g) ≠ Playing ∨ getPlayerPosition (world g) = None → g' = g)
  ∧ (∀ playerPos,
       getGameState (world g) = Playing →
       getPlayerPosition (world g) = Some playerPos →
       NoDup (aliveEntities (entities (world g))) →
       let eaten := eatenPellets (world g) playerPos in
       (getGameState (world g') = Won
        ↔ eaten ≠ [] ∧ ∀ z, z ∈ getAllPellets (world g) → z ∈ eaten)
       ∧ (getGameState (world g') ≠ Won → getGameState (world g') = Playing)
       ∧ (getAllPellets (world g) = [] → g' = g)).
Proof.
  intros g'. split.
  - intros [Hst|Hpos]; unfold g', eatingUpdate.
    + by rewrite decide_False.
    + destruct (decide _); [|done]. destruct (getPlayerEntity _); [|done].
      by rewrite Hpos.
  - intros playerPos Hst Hpos Hnd eaten.
    assert (Hnde : NoDup eaten).
    { unfold eaten, eatenPellets. apply NoDup_filter. by apply NoDup_query. }
    assert (Halive : ∀ z, z ∈ eaten → isAlive (entities (world g)) z = true).
    { intros z Hz. unfold eaten, eatenPellets in Hz.
      apply list_elem_of_filter in Hz as [_ Hz].
      by apply elem_of_getAllPellets in Hz as (_ & _ & ?). }
    set (g1 := fold_left eatPellet eaten g).
    destruct (eatPellets_exact eaten g Hnde Halive)
      as (_ & _ & _ & _ & I5 & I6 & I7 & _). fold g1 in I5, I6, I7.
    assert (Hpel1 : getAllPellets (world g1)
                    = filter (fun z => z ∉ eaten) (getAllPellets (world g))).
    { unfold getAllPellets, wQuery. by apply query_after_destroy. }
    assert (Hrem : (getRemainingPelletCount (world g1) =? 0)%nat = true
                   ↔ ∀ z, z ∈ getAllPellets (world g) → z ∈ eaten).
    { rewrite Nat.eqb_eq. unfold getRemainingPelletCount. rewrite Hpel1.
      rewrite length_zero_iff_nil. split.
      - intros Hnil z Hz. destruct (decide (z ∈ eaten)) as [|Hn]; [done|].
        assert (z ∈ filter (fun z => z ∉ eaten) (getAllPellets (world g))) as Hin
          by (by apply list_elem_of_filter).
        rewrite Hnil in Hin. by apply elem_of_nil in Hin.
      - intros Hall. apply elem_of_nil_inv. intros z Hz.
        apply list_elem_of_filter in Hz as [Hn Hz]. by apply Hn, Hall. }
    assert (Hlen : (0 <? length eaten)%nat = true ↔ eaten ≠ []).
    { destruct eaten; simpl; split; done. }
    assert (Hg1 : gameState (world g1) = Playing) by (by rewrite I5).
    unfold g', getGameState.
    rewrite (eatingUpdate_playing g playerPos) by done. fold eaten g1.
    destruct (0 <? length eaten)%nat eqn:E1;
      destruct (getRemainingPelletCount (world g1) =? 0)%nat eqn:E2; simpl.
    + rewrite dispatch_world by done. simpl. split_and!; [|done|].
      * split; [|done]. intros _. split; [by apply Hlen|by apply Hrem].
      * intros Hnil. assert (eaten = []) as Hnone; [|by apply Hlen in Hnone].
        unfold eaten, eatenPellets. by rewrite Hnil.
    + rewrite Hg1. split_and!; [|done|].
      * split; [done|]. intros [_ Hall]. apply Hrem in Hall. congruence.
      * intros Hnil. assert (eaten = []) as Hnone; [|by apply Hlen in Hnone].
        unfold eaten, eatenPellets. by rewrite Hnil.
    + rewrite Hg1. split_and!; [|done|].
      * split; [done|]. intros [Hne _]. apply Hlen in Hne. congruence.
      * intros _. unfold g1. destruct eaten; [done|discriminate].
    + rewrite Hg1. split_and!; [|done|].
      * split; [done|]. intros [Hne _]. apply Hlen in Hne. congruence.
      * intros _. unfold g1. destruct eaten; [done|discriminate].
Qed.

(** An instance: with both remaining pellets in reach the level is won. *)
Lemma level_complete_iff_witness :
  getGameState (world (eatingUpdate lastTwoPellets)) = Won.
Proof.
  pose proof (level_complete_iff lastTwoPellets) as H0. cbv zeta in H0.
  destruct H0 as [_ H].
  assert (Hnd : NoDup (aliveEntities (entities (world lastTwoPellets)))).
  { apply (bool_decide_unpack _). by vm_compute. }
  destruct (H (createPosition 1 1) eq_refl eq_refl Hnd) as (Hwon & _).
  assert (E : eatenPellets (world lastTwoPellets) (createPosition 1 1)
              = getAllPellets (world lastTwoPellets)) by (by vm_compute).
  apply Hwon. split.
  - by vm_compute.
  - intros z Hz. by rewrite E.
Defined.

(* ================================================================== *)
(** * Further properties of the power-up system *)
(* ================================================================== *)

Section PowerUpMore.

Implicit Types (g : Game) (w : World) (z : EntityId).

Lemma refreshVulnerable_none (L : list EntityId) (nt : Q) (fl : bool) : ∀ w z,
  wGet w z vulnerable = None →
  wGet (refreshVulnerable L nt fl w) z vulnerable = None.
Proof.
  unfold refreshVulnerable.
  induction L as [|x L IH]; intros w z Hz; simpl; [done|].
  apply IH. destruct (wGet w x vulnerable) eqn:E; [|done].
  rewrite wGet_wAdd_other_id; [done|]. intros ->. congruence.
Qed.

Lemma clearVulnerable_spec (L : list EntityId) : ∀ w,
  let w' := clearVulnerable L w in
  sameScalars w w'
  ∧ gameState w' = gameState w
  ∧ aliveEntities (entities w') = aliveEntities (entities w)
  ∧ (∀ z t, t ≠ vulnerable → wGet w' z t = wGet w z t)
  ∧ (∀ z, z ∈ L → wGet w' z vulnerable = None)
  ∧ (∀ z, wGet w z vulnerable = None → wGet w' z vulnerable = None).
Proof.
  unfold clearVulnerable.
  induction L as [|x L IH]; intros w; simpl.
  - split_and!; try done; [apply sameScalars_refl|].
    intros z Hz. by apply elem_of_nil in Hz.
  - destruct (IH (wRemove w x vulnerable)) as (I1 & I2 & I3 & I4 & I5 & I6).
    assert (Hx : ∀ z, wGet w z vulnerable = None ∨ z = x →
                      wGet (wRemove w x vulnerable) z vulnerable = None).
    { intros z [Hz| ->]; [|apply getComponent_remove_same].
      destruct (decide (z = x)) as [->|Hne]; [apply getComponent_remove_same|].
      unfold wGet, wRemove. simpl. by rewrite getComponent_remove_other_id. }
    split_and!.
    + eapply sameScalars_trans; [apply sameScalars_wRemove|done].
    + by rewrite I2.
    + by rewrite I3.
    + intros z t Ht. rewrite I4 by done. unfold wGet, wRemove. simpl.
      by rewrite getComponent_remove_other_type.
    + intros z Hz. apply elem_of_cons in Hz as [->|Hz]; [|by apply I5].
      apply I6, Hx. by right.
    + intros z Hz. apply I6, Hx. by left.
Qed.

(** What one timer tick of an active power-up does, step by step. *)
Lemma powerUpTick_exact (dt : Q) g :
  let newTime := Qmax 0 (powerUpTime (world g) - dt) in
  let flash := Qle_bool newTime POWER_WARNING_TIME in
  let ghosts := getGhostEntities (world g) in
  let warn := flash && negb (warningDispatched (powerUpSt g)) in
  let w2 := refreshVulnerable ghosts newTime flash (decreasePowerUpTime (world g) dt) in
  let g' := powerUpTick dt g in
  world g' = (if Qeq_bool newTime 0
              then resetGhostEatenStreak (clearVulnerable ghosts w2) else w2)
  ∧ trace g' = trace g ++ (if warn then [POWER_UP_WARNING newTime] else [])
                       ++ (if Qeq_bool newTime 0 then [POWER_UP_ENDED] else [])
  ∧ powerUpSt g' = (if warn then mkPU (wasActive (powerUpSt g)) true else powerUpSt g)
  ∧ subscribers g' = subscribers g.
Proof.
  intros newTime flash ghosts warn w2 g'. unfold g', powerUpTick.
  change (getPowerUpTimeRemaining (world (updWorld (fun w => decreasePowerUpTime w dt) g)))
    with newTime.
  change (getGhostEntities (world (updWorld (fun w => decreasePowerUpTime w dt) g)))
    with ghosts.
  cbv zeta. fold flash.
  change (warningDispatched (powerUpSt (updWorld _ (updWorld _ g))))
    with (warningDispatched (powerUpSt g)).
  fold warn.
  destruct warn; destruct (Qeq_bool newTime 0);
    rewrite ?dispatch_world by done; rewrite ?dispatch_trace, ?dispatch_powerUpSt,
      ?dispatch_subscribers; simpl;
    rewrite ?dispatch_world by done; rewrite ?dispatch_trace, ?dispatch_powerUpSt,
      ?dispatch_subscribers; simpl; rewrite <- ?app_assoc, ?app_nil_r; done.
Qed.

Lemma makeGhostsVulnerable_spec (t : Q) w :
  let w' := makeGhostsVulnerable t w in
  sameScalars w w'
  ∧ gameState w' = gameState w
  ∧ aliveEntities (entities w') = aliveEntities (entities w)
  ∧ (∀ z t', t' ≠ vulnerable → wGet w' z t' = wGet w z t')
  ∧ (∀ z, z ∈ getGhostEntities w → is_Some (wGet w' z vulnerable))
  ∧ getGhostEntities w' = getGhostEntities w.
Proof.
  intros w'.
  destruct (addVulnerable_fold t (getGhostEntities w) w)
    as (A1 & A2 & A3 & A4 & A5 & A6).
  { intros z Hz. by apply ghosts_alive in Hz. }
  fold (makeGhostsVulnerable t w) in A1, A2, A3, A4, A5, A6. fold w' in A1, A2, A3, A4, A5, A6.
  split_and!; try done.
  unfold getGhostEntities, wQuery. apply query_ext; [done|].
  intros z t' Ht'. apply list_elem_of_singleton in Ht' as ->. by apply A4.
Qed.

(** The game entering the timer tick, and what [update] makes of it. *)
Lemma powerUpUpdate_active g :
  getGameState (world g) = Playing →
  (0 < powerUpTime (world g))%Q →
  let g1 := powerUpStart (powerUpTime (world g)) true g in
  let g2 := powerUpTick (deltaTime (world g)) g1 in
  powerUpUpdate g
  = setPowerUpSt g2 (mkPU (Qltb 0 (powerUpTime (world g2)))
                       (warningDispatched (powerUpSt g2)))
  ∧ sameScalars (world g) (world g1)
  ∧ gameState (world g1) = gameState (world g)
  ∧ aliveEntities (entities (world g1)) = aliveEntities (entities (world g))
  ∧ (∀ z t', t' ≠ vulnerable → wGet (world g1) z t' = wGet (world g) z t')
  ∧ (∀ z, z ∈ getGhostEntities (world g) →
          wasActive (powerUpSt g) = false ∨ is_Some (wGet (world g) z vulnerable) →
          is_Some (wGet (world g1) z vulnerable))
  ∧ (wasActive (powerUpSt g) = true → world g1 = world g)
  ∧ getGhostEntities (world g1) = getGhostEntities (world g)
  ∧ trace g1 = trace g
  ∧ subscribers g1 = subscribers g
  ∧ wasActive (powerUpSt g1) = wasActive (powerUpSt g)
  ∧ warningDispatched (powerUpSt g1)
    = wasActive (powerUpSt g) && warningDispatched (powerUpSt g).
Proof.
  intros Hst Hpos g1 g2. split.
  - unfold powerUpUpdate. rewrite decide_True by done.
    unfold getDeltaTime, getPowerUpTimeRemaining.
    assert (Qltb 0 (powerUpTime (world g)) = true) as -> by (by apply Qltb_lt).
    done.
  - unfold g1, powerUpStart. cbn [andb].
    destruct (wasActive (powerUpSt g)) eqn:Hwas; cbn [negb].
    + split_and!; try done; [apply sameScalars_refl|].
      intros z _ [?|?]; done.
    + destruct (makeGhostsVulnerable_spec (powerUpTime (world g)) (world g))
        as (A1 & A2 & A3 & A4 & A5 & A6).
      simpl. split_and!; try done.
      intros z Hz _. by apply A5.
Qed.

End PowerUpMore.

(** [X26] The tick on which a power-up runs out.  In play, when the time
    left is positive but not more than the frame time: the timer ends at
    zero and the power-up is no longer active; no ghost is vulnerable any
    more; the ghost-eaten streak is reset; [power:up:ended] is dispatched
    last, preceded by [power:up:warning] when the warning of this power-up
    had not been given; the system no longer regards the power-up as
    active.  Lives, score, level, game state, the set of entities and every
    component other than [vulnerable] are untouched. *)
Theorem power_up_expires (g : Game) :
  getGameState (world g) = Playing →
  (0 < getPowerUpTimeRemaining (world g))%Q →
  (getPowerUpTimeRemaining (world g) <= getDeltaTime (world g))%Q →
  let g' := powerUpUpdate g in
  (getPowerUpTimeRemaining (world g') == 0)%Q
  ∧ isPowerUpActive (world g') = false
  ∧ (∀ z, z ∈ getGhostEntities (world g) →
          wGet (world g') z vulnerable = None ∧ isGhostVulnerable (world g') z = false)
  ∧ getGhostEatenStreak (world g') = 0%nat
  ∧ wasActive (powerUpSt g') = false
  ∧ newEvents g g'
    = (if wasActive (powerUpSt g) && warningDispatched (powerUpSt g) then []
       else [POWER_UP_WARNING (getPowerUpTimeRemaining (world g'))])
      ++ [POWER_UP_ENDED]
  ∧ getLives (world g') = getLives (world g)
  ∧ getScore (world g') = getScore (world g)
  ∧ getLevel (world g') = getLevel (world g)
  ∧ getGameState (world g') = Playing
  ∧ aliveEntities (entities (world g')) = aliveEntities (entities (world g))
  ∧ (∀ z t, t ≠ vulnerable → wGet (world g') z t = wGet (world g) z t).
Proof.
  intros Hst Hpos Hdt g'.
  unfold getPowerUpTimeRemaining, getDeltaTime, getLives, getScore, getLevel,
    getGameState, getGhostEatenStreak, isPowerUpActive in *.
  destruct (powerUpUpdate_active g Hst Hpos)
    as (Hupd & B1 & B2 & B3 & B4 & B5 & B6 & B7 & B8 & B9 & B10 & B11).
  set (g1 := powerUpStart (powerUpTime (world g)) true g) in *.
  set (g2 := powerUpTick (deltaTime (world g)) g1) in *.
  destruct (sameScalars_fields _ _ B1) as (F1 & F2 & F3 & F4 & F5 & F6).
  destruct (powerUpTick_exact (deltaTime (world g)) g1) as (T1 & T2 & T3 & T4).
  fold g2 in T1, T2, T3, T4. rewrite B7, F5 in T1. rewrite F5 in T2, T3.
  set (newTime := Qmax 0 (powerUpTime (world g) - deltaTime (world g))) in *.
  assert (Hnt : (newTime == 0)%Q).
  { unfold newTime.
    destruct (Qmax_spec 0 (powerUpTime (world g) - deltaTime (world g)))
      as [[H ->]|[H ->]]; lra. }
  assert (Heq : Qeq_bool newTime 0 = true) by (by apply Qeq_bool_iff).
  assert (Hfl : Qle_bool newTime POWER_WARNING_TIME = true).
  { apply Qle_bool_iff. unfold POWER_WARNING_TIME. lra. }
  rewrite Heq, Hfl in T1. rewrite Heq, Hfl in T2. rewrite Hfl in T3.
  cbn [andb] in T2, T3.
  set (w1 := decreasePowerUpTime (world g1) (deltaTime (world g))) in *.
  destruct (refreshVulnerable_spec (getGhostEntities (world g)) newTime true w1)
    as (R1 & R2 & R3 & R4 & _).
  { intros z Hz. apply ghosts_alive in Hz. unfold isAlive. simpl.
    unfold isAlive in Hz. by rewrite B3. }
  set (w2 := refreshVulnerable (getGhostEntities (world g)) newTime true w1) in *.
  destruct (clearVulnerable_spec (getGhostEntities (world g)) w2)
    as (C1 & C2 & C3 & C4 & C5 & _).
  set (w3 := clearVulnerable (getGhostEntities (world g)) w2) in *.
  destruct (sameScalars_fields _ _ R1) as (G1 & G2 & G3 & G4 & G5 & G6).
  destruct (sameScalars_fields _ _ C1) as (K1 & K2 & K3 & K4 & K5 & K6).
  assert (Hw : world g' = resetGhostEatenStreak w3).
  { unfold g'. rewrite Hupd. simpl. exact T1. }
  assert (Htime : powerUpTime (world g') = newTime).
  { rewrite Hw. simpl. rewrite K5, G5. unfold w1. simpl. by rewrite F5. }
  assert (Hget : ∀ z t, wGet (world g') z t = wGet w3 z t) by (by rewrite Hw).
  rewrite Htime.
  split_and!.
  - done.
  - apply Qltb_ge. lra.
  - intros z Hz. assert (wGet (world g') z vulnerable = None) as E.
    { rewrite Hget. by apply C5. }
    split; [done|]. unfold isGhostVulnerable. by rewrite E.
  - by rewrite Hw.
  - unfold g'. rewrite Hupd. simpl. rewrite T1. simpl. rewrite K5, G5. unfold w1. simpl.
    rewrite F5. fold newTime. apply Qltb_ge. lra.
  - apply newEvents_app. unfold g'. rewrite Hupd. simpl. rewrite T2, B8, B11.
    by destruct (wasActive (powerUpSt g) && warningDispatched (powerUpSt g)).
  - rewrite Hw. simpl. rewrite K1, G1. unfold w1. simpl. done.
  - rewrite Hw. simpl. rewrite K2, G2. unfold w1. simpl. done.
  - rewrite Hw. simpl. rewrite K3, G3. unfold w1. simpl. done.
  - rewrite Hw. simpl. rewrite C2, R2. unfold w1. simpl. by rewrite B2.
  - rewrite Hw. simpl. rewrite C3, R3. unfold w1. simpl. done.
  - intros z t Ht. rewrite Hget, C4, R4 by done. unfold w1.
    change (wGet (decreasePowerUpTime (world g1) (deltaTime (world g))) z t)
      with (wGet (world g1) z t). by apply B4.
Qed.

(** An instance: 10 ms of power-up left at the start of a 16 ms frame, the
    warning already given. *)
Lemma power_up_expires_witness :
  newEvents (poweredUp 10 (mkPU true true))
    (powerUpUpdate (poweredUp 10 (mkPU true true))) = [POWER_UP_ENDED]
  ∧ isGhostVulnerable (world (powerUpUpdate (poweredUp 10 (mkPU true true)))) 0%nat
    = false.
Proof.
  destruct (power_up_expires (poweredUp 10 (mkPU true true)))
    as (_ & _ & Hv & _ & _ & Hev & _).
  - reflexivity.
  - by vm_compute.
  - by vm_compute.
  - split; [exact Hev|]. apply Hv. apply (bool_decide_unpack _). by vm_compute.
Defined.

(** [X27] The tick of a power-up that keeps running.  In play, when more
    time is left than the frame takes: the timer drops by the frame time;
    every ghost that was vulnerable, and, on the first tick of a power-up,
    every ghost, is vulnerable with the new time and flashes exactly when
    that time is within the warning time; on later ticks a ghost that had
    lost its vulnerability does not get it back.  The only event is
    [power:up:warning], dispatched when the new time is within the warning
    time and this power-up has not been warned about yet, so once per
    power-up.  The streak, lives, score, level, game state, the entities
    and all other components stay. *)
Theorem power_up_countdown (g : Game) :
  getGameState (world g) = Playing →
  (0 < getPowerUpTimeRemaining (world g))%Q →
  (getDeltaTime (world g) < getPowerUpTimeRemaining (world g))%Q →
  let g' := powerUpUpdate g in
  let newTime := (getPowerUpTimeRemaining (world g) - getDeltaTime (world g))%Q in
  let flash := Qle_bool newTime POWER_WARNING_TIME in
  let warned := wasActive (powerUpSt g) && warningDispatched (powerUpSt g) in
  getPowerUpTimeRemaining (world g') = newTime
  ∧ isPowerUpActive (world g') = true
  ∧ (∀ z, z ∈ getGhostEntities (world g) →
          wasActive (powerUpSt g) = false ∨ is_Some (wGet (world g) z vulnerable) →
          wGet (world g') z vulnerable = Some (mkVulnerable newTime flash)
          ∧ isGhostVulnerable (world g') z = true)
  ∧ (∀ z, wasActive (powerUpSt g) = true → wGet (world g) z vulnerable = None →
          wGet (world g') z vulnerable = None)
  ∧ newEvents g g' = (if flash && negb warned then [POWER_UP_WARNING newTime] else [])
  ∧ powerUpSt g' = mkPU true (flash || warned)
  ∧ getGhostEatenStreak (world g') = getGhostEatenStreak (world g)
  ∧ getLives (world g') = getLives (world g)
  ∧ getScore (world g') = getScore (world g)
  ∧ getLevel (world g') = getLevel (world g)
  ∧ getGameState (world g') = Playing
  ∧ aliveEntities (entities (world g')) = aliveEntities (entities (world g))
  ∧ (∀ z t, t ≠ vulnerable → wGet (world g') z t = wGet (world g) z t).
Proof.
  intros Hst Hpos Hdt g' newTime flash warned.
  unfold getPowerUpTimeRemaining, getDeltaTime, getLives, getScore, getLevel,
    getGameState, getGhostEatenStreak, isPowerUpActive in *.
  destruct (powerUpUpdate_active g Hst Hpos)
    as (Hupd & B1 & B2 & B3 & B4 & B5 & B6 & B7 & B8 & B9 & B10 & B11).
  set (g1 := powerUpStart (powerUpTime (world g)) true g) in *.
  set (g2 := powerUpTick (deltaTime (world g)) g1) in *.
  destruct (sameScalars_fields _ _ B1) as (F1 & F2 & F3 & F4 & F5 & F6).
  destruct (powerUpTick_exact (deltaTime (world g)) g1) as (T1 & T2 & T3 & T4).
  fold g2 in T1, T2, T3, T4. rewrite B7, F5 in T1. rewrite F5 in T2, T3.
  assert (Hmax : Qmax 0 (powerUpTime (world g) - deltaTime (world g)) = newTime).
  { destruct (Qmax_spec 0 (powerUpTime (world g) - deltaTime (world g)))
      as [[H ->]|[H ->]]; [done|lra]. }
  rewrite Hmax in T1, T2, T3. fold flash in T1, T2, T3.
  assert (Hnt : (0 < newTime)%Q) by (unfold newTime; lra).
  assert (Heq : Qeq_bool newTime 0 = false).
  { destruct (Qeq_bool newTime 0) eqn:E; [|done]. apply Qeq_bool_iff in E. lra. }
  rewrite Heq in T1, T2. rewrite app_nil_r in T2. rewrite B11 in T2, T3.
  fold warned in T2, T3.
  set (w1 := decreasePowerUpTime (world g1) (deltaTime (world g))) in *.
  destruct (refreshVulnerable_spec (getGhostEntities (world g)) newTime flash w1)
    as (R1 & R2 & R3 & R4 & _ & _ & R7).
  { intros z Hz. apply ghosts_alive in Hz. unfold isAlive. simpl.
    unfold isAlive in Hz. by rewrite B3. }
  pose proof (refreshVulnerable_none (getGhostEntities (world g)) newTime flash w1) as R8.
  set (w2 := refreshVulnerable (getGhostEntities (world g)) newTime flash w1) in *.
  destruct (sameScalars_fields _ _ R1) as (G1 & G2 & G3 & G4 & G5 & G6).
  assert (Hw : world g' = w2).
  { unfold g'. rewrite Hupd. simpl. exact T1. }
  assert (Htime : powerUpTime w2 = newTime).
  { rewrite G5. unfold w1. simpl. by rewrite F5. }
  rewrite Hw.
  split_and!.
  - done.
  - rewrite Htime. by apply Qltb_lt.
  - intros z Hz Hsome.
    assert (wGet w2 z vulnerable = Some (mkVulnerable newTime flash)) as E.
    { apply R7; [done|]. by apply B5. }
    split; [done|]. unfold isGhostVulnerable. rewrite E. simpl. by apply Qltb_lt.
  - intros z Hwas Hz. apply R8.
    change (wGet w1 z vulnerable) with (wGet (world g1) z vulnerable).
    by rewrite (B6 Hwas).
  - apply newEvents_app. unfold g'. rewrite Hupd. simpl. by rewrite T2, B8.
  - unfold g'. rewrite Hupd. unfold setPowerUpSt. cbn [powerUpSt].
    rewrite T1, Htime, T3, B10.
    assert (Qltb 0 newTime = true) as -> by (by apply Qltb_lt).
    assert (Hw1 : warningDispatched (powerUpSt g1) = warned) by exact B11.
    clear -Hw1. clearbody warned flash.
    destruct flash, warned; simpl; by rewrite ?Hw1.
  - rewrite G6. unfold w1. simpl. done.
  - rewrite G1. unfold w1. simpl. done.
  - rewrite G2. unfold w1. simpl. done.
  - rewrite G3. unfold w1. simpl. done.
  - rewrite R2. unfold w1. simpl. by rewrite B2.
  - rewrite R3. unfold w1. simpl. done.
  - intros z t Ht. rewrite R4 by done.
    change (wGet w1 z t) with (wGet (world g1) z t). by apply B4.
Qed.

(** An instance: 2010 ms left at the start of a 16 ms frame, no warning
    given so far. *)
Lemma power_up_countdown_witness :
  newEvents (poweredUp 2010 (mkPU true false))
    (powerUpUpdate (poweredUp 2010 (mkPU true false)))
  = [POWER_UP_WARNING (2010 - 16)]
  ∧ wGet (world (powerUpUpdate (poweredUp 2010 (mkPU true false)))) 0%nat vulnerable
    = Some (mkVulnerable (2010 - 16) true).
Proof.
  destruct (power_up_countdown (poweredUp 2010 (mkPU true false)))
    as (_ & _ & Hv & _ & Hev & _).
  - reflexivity.
  - by vm_compute.
  - by vm_compute.
  - split; [exact Hev|]. apply Hv.
    + apply (bool_decide_unpack _). by vm_compute.
    + right. eexists. by vm_compute.
Defined.

(* ================================================================== *)
(** * The game controller *)
(* ================================================================== *)

Section Spawning.

Implicit Types (w : World) (z : EntityId) (cs : Components).

Lemma spawned_start w :
  wellFormed (entities w) →
  spawned w (setEntities w (createEntity (entities w)).2) noComps.
Proof.
  intros Hwf. pose proof (wellFormed_createEntity _ Hwf) as Hwf'.
  destruct Hwf as (Hnd & Hlt & Hc).
  assert (Hfresh : nextId (entities w) ∉ aliveEntities (entities w)).
  { intros Hin. apply Hlt in Hin. lia. }
  unfold spawned. cbv zeta. split_and!; try done.
  - simpl. unfold set_add. by rewrite decide_False.
  - intros t. unfold wGet. simpl. unfold noComps.
    destruct (getComponent (entities w) (nextId (entities w)) t) eqn:E; [|done].
    exfalso. apply Hfresh. apply set_has_true. apply (Hc _ t).
    apply hasComponent_true. unfold getComponent in E |- *. simpl in E.
    by rewrite E.
Qed.

Lemma spawned_add w w' cs t (c : ComponentMap t) :
  spawned w w' cs →
  spawned w (wAdd w' (nextId (entities w)) t c) (withComp cs t c).
Proof.
  intros (Hwf & Hsc & Hgs & Hn & Hal & Hother & Hid).
  assert (Halive : isAlive (entities w') (nextId (entities w)) = true).
  { unfold isAlive. apply set_has_true. rewrite Hal. apply elem_of_app. right. by left. }
  unfold spawned. cbv zeta. split_and!.
  - by apply wellFormed_addComponent.
  - eapply sameScalars_trans; [done|apply sameScalars_wAdd].
  - done.
  - unfold wAdd. simpl. unfold addComponent. by destruct (negb _).
  - by rewrite alive_wAdd.
  - intros z t' Hz. rewrite wGet_wAdd_other_id by done. by apply Hother.
  - intros t'. unfold withComp. destruct (decide (t = t')) as [<-|Hne].
    + simpl. by apply wGet_wAdd_same.
    + rewrite wGet_wAdd_other_type by done. apply Hid.
Qed.

Lemma createPacmanEntity_spawned w gx gy :
  wellFormed (entities w) →
  (createPacmanEntity w gx gy).1 = nextId (entities w)
  ∧ spawned w (createPacmanEntity w gx gy).2 (pacmanComps gx gy).
Proof.
  intros Hwf. split; [done|]. unfold createPacmanEntity, pacmanComps. simpl.
  do 4 apply spawned_add. by apply spawned_start.
Qed.

Lemma createGhostEntity_spawned w (ty : GhostType) gx gy :
  wellFormed (entities w) →
  (createGhostEntity w ty gx gy).1 = nextId (entities w)
  ∧ spawned w (createGhostEntity w ty gx gy).2 (ghostComps ty gx gy).
Proof.
  intros Hwf. split; [done|]. unfold createGhostEntity, ghostComps. simpl.
  do 5 apply spawned_add. by apply spawned_start.
Qed.

Lemma createPelletEntity_spawned w gx gy :
  wellFormed (entities w) →
  (createPelletEntity w gx gy).1 = nextId (entities w)
  ∧ spawned w (createPelletEntity w gx gy).2 (pelletComps gx gy).
Proof.
  intros Hwf. split; [done|]. unfold createPelletEntity, pelletComps. simpl.
  do 3 apply spawned_add. by apply spawned_start.
Qed.

Lemma createPowerPelletEntity_spawned w gx gy :
  wellFormed (entities w) →
  (createPowerPelletEntity w gx gy).1 = nextId (entities w)
  ∧ spawned w (createPowerPelletEntity w gx gy).2 (powerPelletComps gx gy).
Proof.
  intros Hwf. split; [done|]. unfold createPowerPelletEntity, powerPelletComps. simpl.
  do 4 apply spawned_add. by apply spawned_start.
Qed.

Lemma wHas_hasAll w z cs (ts : list ComponentType) :
  (∀ t, wGet w z t = cs t) → forallb (wHas w z) ts = hasAll cs ts.
Proof.
  intros H. unfold hasAll. apply forallb_ext_elem. intros t _.
  destruct (bool_decide (is_Some (cs t))) eqn:E.
  - apply bool_decide_eq_true in E. apply wHas_true. by rewrite H.
  - apply bool_decide_eq_false in E. apply not_true_iff_false.
    intros Ht. apply E. rewrite <- H. by apply wHas_true.
Qed.

(** A query after a spawn: the former answer, followed by the new entity
    when it has the components asked for. *)
Lemma wQuery_spawned w w' cs (ts : list ComponentType) :
  wellFormed (entities w) → spawned w w' cs →
  wQuery w' ts
  = wQuery w ts ++ (if hasAll cs ts then [nextId (entities w)] else []).
Proof.
  intros (Hnd & Hlt & Hc) (Hwf & Hsc & Hgs & Hn & Hal & Hother & Hid).
  unfold wQuery, getEntitiesWithComponents. rewrite Hal, filter_app. f_equal.
  - apply filter_ext_elem. intros z Hz.
    assert (z ≠ nextId (entities w)) as Hne by (apply Hlt in Hz; lia).
    assert (forallb (hasComponent (entities w') z) ts
            = forallb (hasComponent (entities w) z) ts) as ->; [|done].
    apply forallb_ext_elem. intros t _.
    pose proof (Hother z t Hne) as E. unfold wGet, getComponent in E.
    unfold hasComponent. by rewrite E.
  - change (hasComponent (entities w')) with (wHas w').
    rewrite <- (wHas_hasAll w' (nextId (entities w)) cs ts Hid).
    destruct (forallb _ ts) eqn:E.
    + by rewrite filter_cons_True.
    + rewrite filter_cons_False; [done|]. by rewrite E.
Qed.

(** A run of spawns. *)
Lemma spawned_fold {A} (f : World → A → World) (comps : A → Components) :
  (∀ w a, wellFormed (entities w) → spawned w (f w a) (comps a)) →
  ∀ (l : list A) w,
    wellFormed (entities w) →
    let n := nextId (entities w) in
    let w' := fold_left f l w in
    wellFormed (entities w')
    ∧ sameScalars w w'
    ∧ gameState w' = gameState w
    ∧ nextId (entities w') = (n + length l)%nat
    ∧ aliveEntities (entities w') = aliveEntities (entities w) ++ seq n (length l)
    ∧ (∀ z t, (z < n)%nat → wGet w' z t = wGet w z t)
    ∧ (∀ i a, l !! i = Some a → ∀ t, wGet w' (n + i)%nat t = comps a t)
    ∧ (∀ ts b, (∀ a, a ∈ l → hasAll (comps a) ts = b) →
         wQuery w' ts = wQuery w ts ++ (if b then seq n (length l) else [])).
Proof.
  intros Hf. induction l as [|a l IH]; intros w Hwf n w'.
  - unfold w'. simpl. rewrite Nat.add_0_r, app_nil_r. split_and!; try done.
    + apply sameScalars_refl.
    + intros ts b _. destruct b; by rewrite app_nil_r.
  - pose proof (Hf w a Hwf) as Hsp.
    pose proof Hsp as (Hwf1 & Hsc1 & Hgs1 & Hn1 & Hal1 & Hother1 & Hid1).
    destruct (IH (f w a) Hwf1) as (I1 & I2 & I3 & I4 & I5 & I6 & I7 & I8).
    fold n in Hn1, Hal1, Hother1, Hid1. rewrite Hn1 in I4, I5, I6, I7, I8.
    unfold w'. simpl fold_left. split_and!.
    + done.
    + by eapply sameScalars_trans.
    + by rewrite I3.
    + rewrite I4. simpl. lia.
    + rewrite I5, Hal1, <- app_assoc. done.
    + intros z t Hz. rewrite I6 by lia. apply Hother1. lia.
    + intros i a' Hi t. destruct i as [|i]; simpl in Hi.
      * injection Hi as <-. rewrite Nat.add_0_r. rewrite I6 by lia. apply Hid1.
      * replace (n + S i)%nat with (S n + i)%nat by lia. by apply I7.
    + intros ts b Hb. rewrite (I8 ts b).
      * rewrite (wQuery_spawned w (f w a) (comps a) ts Hwf Hsp).
        rewrite (Hb a) by (by left). fold n. rewrite <- app_assoc.
        by destruct b.
      * intros a' Ha'. apply Hb. by right.
Qed.

End Spawning.

Section Init.

Implicit Types (w : World) (c : Controller).

Lemma ghostStep_spawned w t :
  wellFormed (entities w) → spawned w (ghostStep w t) (ghostStartComps t).
Proof. intros H. by apply createGhostEntity_spawned. Qed.

Lemma initGhost_fold (l : list GhostType) : ∀ w ids,
  wellFormed (entities w) →
  (fold_left initGhost l (w, ids)).1 = fold_left ghostStep l w
  ∧ (fold_left initGhost l (w, ids)).2
    = fold_left (fun m p => mapSet m p.1 p.2)
        (zip l (seq (nextId (entities w)) (length l))) ids.
Proof.
  induction l as [|t l IH]; intros w ids Hwf; [done|].
  destruct (ghostStep_spawned w t Hwf) as (Hwf1 & _ & _ & Hn & _).
  destruct (IH (ghostStep w t) (mapSet ids t (nextId (entities w))) Hwf1) as [I1 I2].
  rewrite Hn in I2. split; [exact I1|exact I2].
Qed.

Lemma wellFormed_reset w : wellFormed (entities (reset w)).
Proof.
  split_and!; simpl.
  - constructor.
  - intros id H. by apply elem_of_nil in H.
  - intros id t H. by destruct t.
Qed.

(** What [init] builds, whatever the controller was before; [n] is the
    next free entity id. *)
Lemma initWith_spec (pellets powerPellets : list (Z * Z)) c :
  let n := nextId (entities (world (game c))) in
  let c' := initWith pellets powerPellets c in
  let w' := world (game c') in
  (gameState w' = Ready ∧ score w' = 0 ∧ lives w' = initialLives (world (game c))
   ∧ level w' = 1 ∧ powerUpTime w' = 0%Q ∧ deltaTime w' = 0%Q
   ∧ ghostEatenStreak w' = 0%nat)
  ∧ wellFormed (entities w')
  ∧ aliveEntities (entities w')
    = seq n (5 + length pellets + length powerPellets)
  ∧ wQuery w' [playerControlled] = [n]
  ∧ (∀ t, wGet w' n t = pacmanComps PACMAN_START.1 PACMAN_START.2 t)
  ∧ ghostIds c'
    = [(blinky, S n); (pinky, S (S n)); (inky, S (S (S n))); (clyde, S (S (S (S n))))]
  ∧ getGhostEntities w' = seq (S n) 4
  ∧ (∀ i ty, ALL_GHOST_TYPES !! i = Some ty →
       ∀ t, wGet w' (S n + i)%nat t = ghostStartComps ty t)
  ∧ getAllPellets w'
    = seq (n + 5) (length pellets + length powerPellets)
  ∧ getPowerPellets w'
    = seq (n + 5 + length pellets) (length powerPellets)
  ∧ (∀ i pos, pellets !! i = Some pos →
       ∀ t, wGet w' (n + 5 + i)%nat t = pelletComps pos.1 pos.2 t)
  ∧ (∀ i pos, powerPellets !! i = Some pos →
       ∀ t, wGet w' (n + 5 + length pellets + i)%nat t
            = powerPelletComps pos.1 pos.2 t)
  ∧ (modeTimer c' = 0%Q ∧ isScatterMode c' = true)
  ∧ game c' = setWorld (game c) w'.
Proof.
  intros n c' w'.
  set (w0 := reset (world (game c))).
  pose proof (wellFormed_reset (world (game c))) as Hwf0. fold w0 in Hwf0.
  destruct (createPacmanEntity_spawned w0 PACMAN_START.1 PACMAN_START.2 Hwf0)
    as [_ Hsp1].
  set (w1 := (createPacmanEntity w0 PACMAN_START.1 PACMAN_START.2).2) in *.
  pose proof Hsp1 as (Hwf1 & Hsc1 & Hgs1 & Hn1 & Hal1 & Hother1 & Hid1).
  change (nextId (entities w0)) with n in Hn1, Hal1, Hother1, Hid1.
  destruct (initGhost_fold ALL_GHOST_TYPES w1 [] Hwf1) as [Hg1 Hg2].
  rewrite Hn1 in Hg2.
  destruct (spawned_fold ghostStep ghostStartComps ghostStep_spawned
              ALL_GHOST_TYPES w1 Hwf1)
    as (Hwf2 & Hsc2 & Hgs2 & Hn2 & Hal2 & Hold2 & Hid2 & Hq2).
  set (w2 := fold_left ghostStep ALL_GHOST_TYPES w1) in *.
  rewrite Hn1 in Hn2, Hal2, Hold2, Hid2, Hq2.
  destruct (spawned_fold (fun w pos => (createPelletEntity w pos.1 pos.2).2)
              (fun pos => pelletComps pos.1 pos.2)
              (fun w pos H => proj2 (createPelletEntity_spawned w pos.1 pos.2 H))
              pellets w2 Hwf2)
    as (Hwf3 & Hsc3 & Hgs3 & Hn3 & Hal3 & Hold3 & Hid3 & Hq3).
  set (w3 := fold_left (fun w pos => (createPelletEntity w pos.1 pos.2).2)
               pellets w2) in *.
  rewrite Hn2 in Hn3, Hal3, Hold3, Hid3, Hq3.
  destruct (spawned_fold (fun w pos => (createPowerPelletEntity w pos.1 pos.2).2)
              (fun pos => powerPelletComps pos.1 pos.2)
              (fun w pos H => proj2 (createPowerPelletEntity_spawned w pos.1 pos.2 H))
              powerPellets w3 Hwf3)
    as (Hwf4 & Hsc4 & Hgs4 & Hn4 & Hal4 & Hold4 & Hid4 & Hq4).
  set (w4 := fold_left (fun w pos => (createPowerPelletEntity w pos.1 pos.2).2)
               powerPellets w3) in *.
  rewrite Hn3 in Hn4, Hal4, Hold4, Hid4, Hq4.
  assert (Hinit : c'
                  = mkController (setWorld (game c) (setGameState w4 Ready)) 0 true
                      (fold_left initGhost ALL_GHOST_TYPES (w1, [])).2).
  { unfold c', initWith. fold w0. fold w1.
    destruct (fold_left initGhost ALL_GHOST_TYPES (w1, [])) as [wg ids] eqn:E.
    simpl in Hg1. subst wg. done. }
  assert (Hw' : w' = setGameState w4 Ready).
  { unfold w'. rewrite Hinit. reflexivity. }
  assert (Hlives : initialLives w0 = initialLives (world (game c))
                   ∧ gameState w0 = Ready ∧ score w0 = 0 ∧ lives w0 = initialLives w0
                   ∧ level w0 = 1 ∧ powerUpTime w0 = 0%Q ∧ deltaTime w0 = 0%Q
                   ∧ ghostEatenStreak w0 = 0%nat ∧ (∀ ts, wQuery w0 ts = [])
                   ∧ nextId (entities w0) = n
                   ∧ aliveEntities (entities w0) = [])
    by (split_and!; reflexivity).
  destruct Hlives as (L0 & L1 & L2 & L3 & L4 & L5 & L6 & L7 & L8 & L9 & L10).
  clearbody w' c' w4 w3 w2 w1 w0.
  assert (Hget : ∀ z t, wGet w' z t = wGet w4 z t).
  { intros z t. rewrite Hw'. reflexivity. }
  assert (Hqry : ∀ ts, wQuery w' ts = wQuery w4 ts).
  { intros ts. rewrite Hw'. reflexivity. }
  destruct (sameScalars_fields _ _ Hsc1) as (A1 & A2 & A3 & A4 & A5 & A6).
  destruct (sameScalars_fields _ _ Hsc2) as (B1 & B2 & B3 & B4 & B5 & B6).
  destruct (sameScalars_fields _ _ Hsc3) as (C1 & C2 & C3 & C4 & C5 & C6).
  destruct (sameScalars_fields _ _ Hsc4) as (D1 & D2 & D3 & D4 & D5 & D6).
  assert (Hq1 : ∀ ts, wQuery w1 ts
                      = if hasAll (pacmanComps PACMAN_START.1 PACMAN_START.2) ts
                        then [n] else []).
  { intros ts. by rewrite (wQuery_spawned w0 w1 _ ts Hwf0 Hsp1), L8, L9. }
  change (length ALL_GHOST_TYPES) with 4%nat in *.
  remember (length pellets) as lenP eqn:HlenP.
  remember (length powerPellets) as lenQ eqn:HlenQ.
  replace (S n + 4)%nat with (n + 5)%nat in * by lia.
  split; [|split; [|split; [|split; [|split; [|split; [|split; [|split;
    [|split; [|split; [|split; [|split; [|split]]]]]]]]]]]].
  - rewrite Hw'. cbn [setGameState gameState score lives level powerUpTime
                      deltaTime ghostEatenStreak].
    rewrite D1, D2, D3, D4, D5, D6, C1, C2, C3, C4, C5, C6,
      B1, B2, B3, B4, B5, B6, A1, A2, A3, A4, A5, A6, L2, L3, L4, L5, L6, L7, L0.
    split_and!; reflexivity.
  - rewrite Hw'. exact Hwf4.
  - rewrite Hw'.
    change (aliveEntities (entities (setGameState w4 Ready)))
      with (aliveEntities (entities w4)).
    rewrite Hal4, Hal3, Hal2, Hal1, L10.
    replace (5 + lenP + lenQ)%nat with (1 + 4 + lenP + lenQ)%nat by lia.
    rewrite !seq_app.
    replace (n + 1)%nat with (S n) by lia.
    replace (n + (1 + 4))%nat with (n + 5)%nat by lia.
    replace (n + (1 + 4 + lenP))%nat with (n + 5 + lenP)%nat by lia.
    reflexivity.
  - rewrite Hqry, (Hq4 _ false), (Hq3 _ false), (Hq2 _ false), Hq1.
    + rewrite !app_nil_r. reflexivity.
    + intros a _. reflexivity.
    + intros a _. reflexivity.
    + intros a _. reflexivity.
  - intros t. rewrite Hget, Hold4, Hold3, Hold2 by lia. apply Hid1.
  - rewrite Hinit. cbn [ghostIds]. rewrite Hg2. reflexivity.
  - unfold getGhostEntities.
    rewrite Hqry, (Hq4 _ false), (Hq3 _ false), (Hq2 _ true), Hq1.
    + rewrite !app_nil_r. reflexivity.
    + intros a _. by destruct a.
    + intros a _. reflexivity.
    + intros a _. reflexivity.
  - intros i ty Hi t. pose proof (lookup_lt_Some _ _ _ Hi) as Hlt.
    change (length ALL_GHOST_TYPES) with 4%nat in Hlt.
    rewrite Hget, Hold4, Hold3 by lia. by apply Hid2.
  - unfold getAllPellets.
    rewrite Hqry, (Hq4 _ true), (Hq3 _ true), (Hq2 _ false), Hq1.
    + rewrite seq_app. reflexivity.
    + intros a _. by destruct a.
    + intros a _. reflexivity.
    + intros a _. reflexivity.
  - unfold getPowerPellets.
    rewrite Hqry, (Hq4 _ true), (Hq3 _ false), (Hq2 _ false), Hq1.
    + rewrite !app_nil_r. reflexivity.
    + intros a _. by destruct a.
    + intros a _. reflexivity.
    + intros a _. reflexivity.
  - intros i pos Hi t. pose proof (lookup_lt_Some _ _ _ Hi) as Hlt.
    rewrite <- HlenP in Hlt.
    rewrite Hget, Hold4 by lia. by apply Hid3.
  - intros i pos Hi t. rewrite Hget. by apply Hid4.
  - by rewrite Hinit.
  - rewrite Hinit. cbn [game]. by rewrite Hw'.
Qed.

End Init.

(** [X28] Restart.  When a restart has been requested, the next update
    rebuilds the level instead of running the systems: the game is ready,
    with score 0, the initial lives, level 1 and no power-up; the entities
    of the previous level are gone and 287 new ones take the next free ids
    [n], [n + 1], ...: the player on its start cell, the four ghosts of
    [ghostIds] in scatter mode on their start cells, then 278 pellets worth
    10 points and 4 power pellets worth 50 points that last 6000 ms, at the
    positions listed for the maze.  Nothing is dispatched, and the closure
    state of the input, ghost-AI and power-up systems is left as it was. *)
Theorem restart_builds_fresh_level (dt : Q) (c : Controller) :
  needsReinit (ctrlSt (game c)) = true →
  let n := nextId (entities (world (game c))) in
  let c' := controllerUpdate dt c in
  let w' := world (game c') in
  (getGameState w' = Ready ∧ getScore w' = 0
   ∧ getLives w' = initialLives (world (game c)) ∧ getLevel w' = 1
   ∧ getPowerUpTimeRemaining w' = 0%Q ∧ getGhostEatenStreak w' = 0%nat)
  ∧ needsReinit (ctrlSt (game c')) = false
  ∧ getAllEntities (entities w') = seq n 287
  ∧ getPlayerEntity w' = Some n
  ∧ getPlayerPosition w' = Some (createPosition 14 22)
  ∧ ghostIds c'
    = [(blinky, S n); (pinky, S (S n)); (inky, S (S (S n))); (clyde, S (S (S (S n))))]
  ∧ getGhostEntities w' = seq (S n) 4
  ∧ (∀ ty z, mapGet (ghostIds c') ty = Some z →
       wGet w' z ghostAI = Some (mkGhostAI ty Scatter (SCATTER_TARGETS ty))
       ∧ wGet w' z position
         = Some (createPosition (GHOST_START_POSITIONS ty).1 (GHOST_START_POSITIONS ty).2)
       ∧ isGhostVulnerable w' z = false)
  ∧ getAllPellets w' = seq (n + 5) 282
  ∧ getPowerPellets w' = seq (n + 283) 4
  ∧ (∀ i pos, PELLET_POSITIONS !! i = Some pos →
       wGet w' (n + 5 + i)%nat position = Some (createPosition pos.1 pos.2)
       ∧ wGet w' (n + 5 + i)%nat edible = Some (mkEdible 10))
  ∧ (∀ i pos, POWER_PELLET_POSITIONS !! i = Some pos →
       wGet w' (n + 283 + i)%nat position = Some (createPosition pos.1 pos.2)
       ∧ wGet w' (n + 283 + i)%nat edible = Some (mkEdible 50)
       ∧ wGet w' (n + 283 + i)%nat powerUp = Some (mkPowerUp 6000))
  ∧ (modeTimer c' = 0%Q ∧ isScatterMode c' = true)
  ∧ (newEvents (game c) (game c') = []
     ∧ inputSt (game c') = inputSt (game c)
     ∧ aiSt (game c') = aiSt (game c)
     ∧ powerUpSt (game c') = powerUpSt (game c)
     ∧ subscribers (game c') = subscribers (game c)).
Proof.
  intros Hre n c' w'.
  set (c0 := setGame c (setCtrlSt (game c) (mkCtrl false (respawnTimer (ctrlSt (game c)))))).
  assert (Hc' : c' = initWith PELLET_POSITIONS POWER_PELLET_POSITIONS c0).
  { unfold c', controllerUpdate. rewrite Hre. reflexivity. }
  assert (HlenP : length PELLET_POSITIONS = 278%nat) by (by vm_compute).
  assert (HlenQ : length POWER_PELLET_POSITIONS = 4%nat) by reflexivity.
  pose proof (initWith_spec PELLET_POSITIONS POWER_PELLET_POSITIONS c0) as Hspec.
  cbv zeta in Hspec. change (world (game c0)) with (world (game c)) in Hspec.
  fold n in Hspec. rewrite <- Hc' in Hspec. fold w' in Hspec.
  rewrite HlenP, HlenQ in Hspec.
  destruct Hspec as ((S1 & S2 & S3 & S4 & S5 & S6 & S7) & Hwf & Hal & Hpl & Hpc & Hids
                     & Hgh & Hgc & Hpe & Hpp & Hpec & Hppc & Hmode & Hgame).
  clearbody w' c'.
  assert (Hplayer : getPlayerEntity w' = Some n).
  { unfold getPlayerEntity. by rewrite Hpl. }
  split; [|split; [|split; [|split; [|split; [|split; [|split; [|split;
    [|split; [|split; [|split; [|split; [|split]]]]]]]]]]]].
  - by split_and!.
  - by rewrite Hgame.
  - exact Hal.
  - exact Hplayer.
  - unfold getPlayerPosition. rewrite Hplayer, Hpc. reflexivity.
  - exact Hids.
  - exact Hgh.
  - intros ty z Hz.
    assert (∃ i, ALL_GHOST_TYPES !! i = Some ty ∧ z = (S n + i)%nat) as (i & Hi & ->).
    { rewrite Hids in Hz. destruct ty; simpl in Hz; injection Hz as <-.
      - exists 0%nat. split; [reflexivity|lia].
      - exists 1%nat. split; [reflexivity|lia].
      - exists 2%nat. split; [reflexivity|lia].
      - exists 3%nat. split; [reflexivity|lia]. }
    pose proof (Hgc i ty Hi) as Hc.
    unfold isGhostVulnerable. rewrite !Hc. by destruct ty.
  - replace (n + 5)%nat with (n + 5)%nat by done. exact Hpe.
  - replace (n + 283)%nat with (n + 5 + 278)%nat by lia. exact Hpp.
  - intros i pos Hi. pose proof (Hpec i pos Hi) as Hc. by rewrite !Hc.
  - intros i pos Hi. pose proof (Hppc i pos Hi) as Hc.
    replace (n + 283 + i)%nat with (n + 5 + 278 + i)%nat by lia. by rewrite !Hc.
  - exact Hmode.
  - rewrite Hgame. unfold newEvents. simpl. rewrite drop_all. by split_and!.
Qed.

(** An instance: a restart requested on a controller just created. *)
Lemma restart_builds_fresh_level_witness :
  getRemainingPelletCount (world (game (controllerUpdate 16 restartRequested)))
  = 282%nat
  ∧ getPlayerEntity (world (game (controllerUpdate 16 restartRequested))) = Some 0%nat.
Proof.
  destruct (restart_builds_fresh_level 16 restartRequested eq_refl)
    as (_ & _ & _ & Hp & _ & _ & _ & _ & Hpe & _).
  split; [|exact Hp].
  unfold getRemainingPelletCount. rewrite Hpe. apply length_seq.
Defined.

Section Respawn.

Implicit Types (w : World) (c : Controller) (z : EntityId)
  (ids : list (GhostType * EntityId)).

Lemma resetGhost_spec ids w (ty : GhostType) :
  let w' := resetGhost ids w ty in
  sameScalars w w'
  ∧ gameState w' = gameState w
  ∧ aliveEntities (entities w') = aliveEntities (entities w)
  ∧ (∀ z t, mapGet ids ty ≠ Some z → wGet w' z t = wGet w z t)
  ∧ (∀ z t, ¬ resetTouched t → wGet w' z t = wGet w z t)
  ∧ (∀ z, mapGet ids ty = Some z → isAlive (entities w) z = true →
       wGet w' z position
       = Some (createPosition (GHOST_START_POSITIONS ty).1 (GHOST_START_POSITIONS ty).2)
       ∧ wGet w' z velocity = Some (mkVelocity None 0 None)
       ∧ wGet w' z ghostAI = scatterOf (wGet w z ghostAI)
       ∧ wGet w' z vulnerable = None).
Proof.
  intros w'. unfold w', resetGhost.
  destruct (mapGet ids ty) as [x|] eqn:Hx.
  2:{ split_and!; try done. apply sameScalars_refl. }
  set (pos := createPosition (GHOST_START_POSITIONS ty).1 (GHOST_START_POSITIONS ty).2).
  set (w1 := wAdd w x position pos).
  set (w2 := wAdd w1 x velocity (mkVelocity None 0 None)).
  assert (Hai : wGet w2 x ghostAI = wGet w x ghostAI).
  { unfold w2, w1. by rewrite !wGet_wAdd_other_type. }
  set (w3 := match wGet w2 x ghostAI with
             | Some ai => wAdd w2 x ghostAI (mkGhostAI (type ai) Scatter (scatterTarget ai))
             | None => w2
             end).
  assert (Hsc2 : sameScalars w w2).
  { exact (sameScalars_trans _ _ _ (sameScalars_wAdd w x position pos)
             (sameScalars_wAdd w1 x velocity (mkVelocity None 0 None))). }
  assert (Hsc3 : sameScalars w w3).
  { unfold w3. destruct (wGet w2 x ghostAI) as [ai|]; [|exact Hsc2].
    exact (sameScalars_trans _ _ _ Hsc2 (sameScalars_wAdd w2 x ghostAI _)). }
  assert (Hal3 : aliveEntities (entities w3) = aliveEntities (entities w)).
  { unfold w3. destruct (wGet w2 x ghostAI); unfold w2, w1; by rewrite !alive_wAdd. }
  assert (Hgs3 : gameState w3 = gameState w).
  { unfold w3. by destruct (wGet w2 x ghostAI). }
  assert (Hother3 : ∀ z t, z ≠ x → wGet w3 z t = wGet w z t).
  { intros z t Hz. unfold w3. destruct (wGet w2 x ghostAI); unfold w2, w1;
      by rewrite !wGet_wAdd_other_id. }
  assert (Htype3 : ∀ z t, ¬ resetTouched t → wGet w3 z t = wGet w z t).
  { intros z t Ht. unfold resetTouched in Ht.
    unfold w3. destruct (wGet w2 x ghostAI); unfold w2, w1;
      rewrite !wGet_wAdd_other_type; try done; intros <-; tauto. }
  split_and!.
  - eapply sameScalars_trans; [done|apply sameScalars_wRemove].
  - done.
  - done.
  - intros z t Hz. assert (z ≠ x) as Hne by congruence.
    unfold wGet, wRemove. simpl. rewrite getComponent_remove_other_id by done.
    by apply Hother3.
  - intros z t Ht. unfold wGet, wRemove. simpl.
    rewrite getComponent_remove_other_type.
    + by apply Htype3.
    + intros <-. apply Ht. unfold resetTouched. tauto.
  - intros z [= <-] Halive.
    assert (Ha1 : isAlive (entities w1) x = true).
    { unfold isAlive, w1. by rewrite alive_wAdd. }
    assert (Ha2 : isAlive (entities w2) x = true).
    { unfold isAlive, w2. by rewrite alive_wAdd. }
    assert (Hrm : ∀ t, t ≠ vulnerable →
              wGet (wRemove w3 x vulnerable) x t = wGet w3 x t).
    { intros t Ht. unfold wGet, wRemove. simpl.
      by rewrite getComponent_remove_other_type. }
    rewrite !Hrm by done. split_and!.
    + unfold w3. destruct (wGet w2 x ghostAI).
      * rewrite wGet_wAdd_other_type by done. unfold w2.
        rewrite wGet_wAdd_other_type by done. by apply (wGet_wAdd_same w x position).
      * unfold w2. rewrite wGet_wAdd_other_type by done. by apply (wGet_wAdd_same w x position).
    + unfold w3. destruct (wGet w2 x ghostAI).
      * rewrite wGet_wAdd_other_type by done. by apply (wGet_wAdd_same w1 x velocity).
      * by apply (wGet_wAdd_same w1 x velocity).
    + unfold w3. rewrite <- Hai. destruct (wGet w2 x ghostAI) eqn:E; simpl.
      * by apply (wGet_wAdd_same w2 x ghostAI).
      * done.
    + apply getComponent_remove_same.
Qed.

Lemma resetGhosts_spec ids (l : list GhostType) : ∀ w,
  NoDup l →
  let w' := fold_left (resetGhost ids) l w in
  sameScalars w w'
  ∧ gameState w' = gameState w
  ∧ aliveEntities (entities w') = aliveEntities (entities w)
  ∧ (∀ z t, (∀ ty, ty ∈ l → mapGet ids ty ≠ Some z) → wGet w' z t = wGet w z t)
  ∧ (∀ z t, ¬ resetTouched t → wGet w' z t = wGet w z t)
  ∧ (∀ ty z, ty ∈ l → mapGet ids ty = Some z → isAlive (entities w) z = true →
       (∀ ty', mapGet ids ty' = Some z → ty' = ty) →
       wGet w' z position
       = Some (createPosition (GHOST_START_POSITIONS ty).1 (GHOST_START_POSITIONS ty).2)
       ∧ wGet w' z velocity = Some (mkVelocity None 0 None)
       ∧ wGet w' z ghostAI = scatterOf (wGet w z ghostAI)
       ∧ wGet w' z vulnerable = None).
Proof.
  induction l as [|t0 l IH]; intros w Hnd w'.
  - unfold w'. simpl. split_and!; try done; [apply sameScalars_refl|].
    intros ty z Hin. by apply elem_of_nil in Hin.
  - apply NoDup_cons in Hnd as [Ht0 Hnd].
    destruct (resetGhost_spec ids w t0) as (R1 & R2 & R3 & R4 & R5 & R6).
    destruct (IH (resetGhost ids w t0) Hnd) as (I1 & I2 & I3 & I4 & I5 & I6).
    unfold w'. simpl fold_left. split_and!.
    + by eapply sameScalars_trans.
    + by rewrite I2.
    + by rewrite I3.
    + intros z t Hz. rewrite I4.
      * apply R4. apply Hz. by left.
      * intros ty Hty. apply Hz. by right.
    + intros z t Ht. rewrite I5 by done. by apply R5.
    + intros ty z Hin Hz Halive Huniq.
      apply elem_of_cons in Hin as [->|Hin].
      * assert (Hrest : ∀ t, wGet (fold_left (resetGhost ids) l (resetGhost ids w t0)) z t
                             = wGet (resetGhost ids w t0) z t).
        { intros t. apply I4. intros ty' Hty' Hz'. apply Huniq in Hz'. by subst. }
        rewrite !Hrest. by apply R6.
      * assert (Hne : mapGet ids t0 ≠ Some z).
        { intros Hz'. apply Huniq in Hz'. by subst. }
        rewrite <- (R4 z ghostAI Hne).
        apply I6; try done. unfold isAlive. by rewrite R3.
Qed.

Lemma dispatch_silent e g :
  (∀ h g', deliver h e g' = g') → dispatch e g = logEvent g e.
Proof.
  intros H. unfold dispatch. generalize (logEvent g e).
  induction (subscribers g) as [|h l IH]; intros acc; simpl; [done|].
  by rewrite H.
Qed.

End Respawn.

(** [X29] Respawn after a death.  While the game is dying and no restart
    is pending, an update runs no system and dispatches nothing: it only
    records the frame time and counts the respawn timer down.  On the
    update that brings the timer to zero or below the game is in play
    again: the player is back on its start cell and every registered ghost
    on its own, all standing still, the ghosts in scatter mode and not
    vulnerable; the power-up timer and the streak are cleared and the mode
    timer restarts in scatter mode.  Score, lives, level, the set of
    entities and every entity other than the player and the registered
    ghosts, the pellets among them, are as they were. *)
Theorem respawn_after_delay (dt : Q) (c : Controller) :
  needsReinit (ctrlSt (game c)) = false →
  getGameState (world (game c)) = Dying →
  let ids := ghostIds c in
  let w := world (game c) in
  let timer := (respawnTimer (ctrlSt (game c)) - dt)%Q in
  let c' := controllerUpdate dt c in
  let w' := world (game c') in
  (newEvents (game c) (game c') = []
   ∧ respawnTimer (ctrlSt (game c')) = timer
   ∧ getDeltaTime w' = dt
   ∧ inputSt (game c') = inputSt (game c) ∧ aiSt (game c') = aiSt (game c)
   ∧ powerUpSt (game c') = powerUpSt (game c)
   ∧ ghostIds c' = ids
   ∧ getScore w' = getScore w ∧ getLives w' = getLives w ∧ getLevel w' = getLevel w
   ∧ aliveEntities (entities w') = aliveEntities (entities w))
  ∧ ((0 < timer)%Q →
       c' = setGame c (setCtrlSt (updWorld (fun w0 => setDeltaTime w0 dt) (game c))
                         (mkCtrl false timer)))
  ∧ ((timer <= 0)%Q →
       getGameState w' = Playing
       ∧ getPowerUpTimeRemaining w' = 0%Q
       ∧ getGhostEatenStreak w' = 0%nat
       ∧ (modeTimer c' = 0%Q ∧ isScatterMode c' = true)
       ∧ (∀ p, getPlayerEntity w = Some p → (∀ ty, mapGet ids ty ≠ Some p) →
            wGet w' p position = Some (createPosition 14 22)
            ∧ wGet w' p velocity = Some (mkVelocity None 0 None))
       ∧ (∀ ty z, mapGet ids ty = Some z → isAlive (entities w) z = true →
            (∀ ty', mapGet ids ty' = Some z → ty' = ty) →
            wGet w' z position
            = Some (createPosition (GHOST_START_POSITIONS ty).1
                      (GHOST_START_POSITIONS ty).2)
            ∧ wGet w' z velocity = Some (mkVelocity None 0 None)
            ∧ getGhostMode w' z
              = (if wHas w z ghostAI then Some Scatter else None)
            ∧ getGhostType w' z = getGhostType w z
            ∧ isGhostVulnerable w' z = false)
       ∧ (∀ z t, getPlayerEntity w ≠ Some z → (∀ ty, mapGet ids ty ≠ Some z) →
            wGet w' z t = wGet w z t)
       ∧ (∀ z t, t ≠ position → t ≠ velocity → t ≠ ghostAI → t ≠ vulnerable →
            wGet w' z t = wGet w z t)).
Proof.
  intros Hre Hdying ids w timer c' w'.
  set (c1 := setGame c (updWorld (fun w0 => setDeltaTime w0 dt) (game c))).
  set (c2 := setGame c1 (setCtrlSt (game c1) (mkCtrl (needsReinit (ctrlSt (game c1))) timer))).
  assert (Hc2 : c2 = setGame c (setCtrlSt (updWorld (fun w0 => setDeltaTime w0 dt) (game c))
                                   (mkCtrl false timer))).
  { unfold c2, c1. simpl. by rewrite Hre. }
  assert (Hc' : c' = if Qle_bool timer 0
                     then setGame (resetPositions c2)
                            (updWorld (fun w0 => setGameState w0 Playing)
                               (game (resetPositions c2)))
                     else c2).
  { unfold c', controllerUpdate. rewrite Hre. cbv zeta. fold c1.
    rewrite decide_True by exact Hdying. reflexivity. }
  set (w1 := match getPlayerEntity (world (game c2)) with
             | Some playerId =>
                 wAdd (wAdd (world (game c2)) playerId position
                         (createPosition PACMAN_START.1 PACMAN_START.2))
                   playerId velocity (mkVelocity None 0 None)
             | None => world (game c2)
             end).
  destruct (resetGhosts_spec ids ALL_GHOST_TYPES w1)
    as (G1 & G2 & G3 & G4 & G5 & G6).
  { unfold ALL_GHOST_TYPES. apply (bool_decide_unpack _). by vm_compute. }
  set (w2 := fold_left (resetGhost ids) ALL_GHOST_TYPES w1) in *.
  assert (Hres : resetPositions c2
                 = mkController
                     (setWorld (game c2) (resetGhostEatenStreak (setPowerUpTime w2 0)))
                     0 true ids) by reflexivity.
  assert (Hw2c : world (game c2) = setDeltaTime w dt) by reflexivity.
  assert (Hpl : getPlayerEntity (world (game c2)) = getPlayerEntity w) by reflexivity.
  assert (Hsc1 : sameScalars (world (game c2)) w1).
  { unfold w1. destruct (getPlayerEntity _) as [p|]; [|apply sameScalars_refl].
    exact (sameScalars_trans _ _ _
             (sameScalars_wAdd _ p position
                (createPosition PACMAN_START.1 PACMAN_START.2))
             (sameScalars_wAdd _ p velocity (mkVelocity None 0 None))). }
  assert (Hal1 : aliveEntities (entities w1) = aliveEntities (entities w)).
  { unfold w1. destruct (getPlayerEntity _); [|done]. by rewrite !alive_wAdd. }
  assert (Hgs1 : gameState w1 = gameState w).
  { unfold w1. by destruct (getPlayerEntity _). }
  assert (Hother1 : ∀ z t, getPlayerEntity w ≠ Some z → wGet w1 z t = wGet w z t).
  { intros z t Hz. unfold w1. rewrite Hpl. destruct (getPlayerEntity w) as [p|]; [|done].
    assert (z ≠ p) by congruence. by rewrite !wGet_wAdd_other_id. }
  assert (Htype1 : ∀ z t, t ≠ position → t ≠ velocity → wGet w1 z t = wGet w z t).
  { intros z t Hp Hv. unfold w1. destruct (getPlayerEntity _) as [p|]; [|done].
    by rewrite !wGet_wAdd_other_type. }
  destruct (sameScalars_fields _ _ Hsc1) as (A1 & A2 & A3 & A4 & A5 & A6).
  destruct (sameScalars_fields _ _ G1) as (B1 & B2 & B3 & B4 & B5 & B6).
  rewrite Hw2c in A1, A2, A3, A4, A5, A6. simpl in A1, A2, A3, A4, A5, A6.
  split; [|split].
  - unfold w'. rewrite Hc'. destruct (Qle_bool timer 0).
    + rewrite Hres. unfold newEvents. simpl. rewrite drop_all.
      rewrite B1, B2, B3, B4, G3, A1, A2, A3, A4, Hal1. by split_and!.
    + rewrite Hc2. unfold newEvents. simpl. rewrite drop_all. by split_and!.
  - intros Hpos. rewrite Hc'.
    assert (Qle_bool timer 0 = false) as -> by (by apply Qle_bool_false).
    exact Hc2.
  - intros Hle. unfold w'. rewrite Hc'.
    assert (Qle_bool timer 0 = true) as -> by (by apply Qle_bool_iff).
    rewrite Hres. cbn [game setGame updWorld setWorld world modeTimer isScatterMode].
    assert (Hget : ∀ z t,
              wGet (setGameState (resetGhostEatenStreak (setPowerUpTime w2 0)) Playing) z t
              = wGet w2 z t) by reflexivity.
    split_and!; try done.
    + intros p Hp Hnog. rewrite !Hget, !G4 by (intros ty _; apply Hnog).
      unfold w1. rewrite Hpl, Hp.
      assert (Hpa : isAlive (entities (world (game c2))) p = true).
      { by apply getPlayerEntity_Some in Hp as [? _]. }
      split.
      * rewrite wGet_wAdd_other_type by done. by apply (wGet_wAdd_same _ p position).
      * apply (wGet_wAdd_same _ p velocity). unfold isAlive. by rewrite alive_wAdd.
    + intros ty z Hz Halive Huniq.
      destruct (G6 ty z) as (P1 & P2 & P3 & P4); try done.
      { destruct ty; unfold ALL_GHOST_TYPES; repeat first [by left | right]. }
      { unfold isAlive. by rewrite Hal1. }
      unfold getGhostMode, getGhostType, isGhostVulnerable.
      rewrite !Hget, P1, P2, P3, P4, Htype1 by done.
      split_and!; try done.
      * unfold wHas, hasComponent. unfold wGet, getComponent.
        by destruct (getStore _ ghostAI !! z).
      * by destruct (wGet w z ghostAI).
    + intros z t Hnp Hnog. rewrite Hget, G4 by (intros ty _; apply Hnog).
      by apply Hother1.
    + intros z t H1 H2 H3 H4. rewrite Hget, G5.
      * by apply Htype1.
      * unfold resetTouched. tauto.
Qed.

(** An instance: the respawn timer at 10 ms when a 16 ms frame starts. *)
Lemma respawn_after_delay_witness :
  getGameState
    (world (game (controllerUpdate 16
       (setGame dyingController
          (setCtrlSt (game dyingController) (mkCtrl false 10)))))) = Playing
  ∧ wGet (world (game (controllerUpdate 16
       (setGame dyingController
          (setCtrlSt (game dyingController) (mkCtrl false 10)))))) 1%nat position
    = Some (createPosition 14 11).
Proof.
  destruct (respawn_after_delay 16
              (setGame dyingController
                 (setCtrlSt (game dyingController) (mkCtrl false 10))))
    as (_ & _ & H).
  - by vm_compute.
  - by vm_compute.
  - destruct H as (Hst & _ & _ & _ & _ & Hgh & _); [by vm_compute|].
    split; [exact Hst|].
    destruct (Hgh blinky 1%nat) as (Hpos & _).
    + by vm_compute.
    + by vm_compute.
    + intros ty' Hty'. vm_compute in Hty'. by destruct ty'.
    + exact Hpos.
Defined.

Section Idle.

Implicit Types (g : Game) (c : Controller).

Lemma inputUpdate_idle g : inputSt g = noInput → inputUpdate g = g.
Proof.
  intros H.
  assert (H1 : inputHandleStart g = g) by (unfold inputHandleStart; by rewrite H).
  assert (H2 : inputHandlePause g = g) by (unfold inputHandlePause; by rewrite H).
  assert (H3 : inputHandleDirection g = g) by (unfold inputHandleDirection; by rewrite H).
  unfold inputUpdate. rewrite H. cbn [pendingRestart noInput]. by rewrite H1, H2, H3.
Qed.

(** Outside play the six systems do nothing when no input is pending. *)
Lemma runSystems_idle g :
  inputSt g = noInput → getGameState (world g) ≠ Playing → runSystems g = g.
Proof.
  intros Hin Hst. unfold runSystems. rewrite (inputUpdate_idle g Hin).
  unfold ghostAIUpdate. rewrite decide_False by done.
  unfold movementUpdate. rewrite decide_False by done.
  unfold eatingUpdate. rewrite decide_False by done.
  unfold powerUpUpdate. rewrite decide_False by done.
  unfold collisionUpdate. by rewrite decide_False.
Qed.

Lemma controllerUpdate_idle (dt : Q) c :
  needsReinit (ctrlSt (game c)) = false →
  inputSt (game c) = noInput →
  getGameState (world (game c)) ≠ Playing →
  getGameState (world (game c)) ≠ Dying →
  controllerUpdate dt c = setGame c (updWorld (fun w => setDeltaTime w dt) (game c)).
Proof.
  intros Hre Hin Hpl Hdy. unfold controllerUpdate. rewrite Hre. cbv zeta.
  set (c1 := setGame c (updWorld (fun w => setDeltaTime w dt) (game c))).
  assert (Hst1 : getGameState (world (game c1)) = getGameState (world (game c)))
    by reflexivity.
  rewrite decide_False by (by rewrite Hst1).
  assert (Hmode : updateModeTimer dt c1 = c1).
  { unfold updateModeTimer. rewrite bool_decide_eq_false_2; [done|]. by rewrite Hst1. }
  rewrite Hmode, runSystems_idle; [by destruct c1| |].
  - exact Hin.
  - by rewrite Hst1.
Qed.

Lemma controllerUpdates_idle (dts : list Q) : ∀ (dt : Q) c,
  needsReinit (ctrlSt (game c)) = false →
  inputSt (game c) = noInput →
  getGameState (world (game c)) ≠ Playing →
  getGameState (world (game c)) ≠ Dying →
  fold_left (fun c' d => controllerUpdate d c') (dts ++ [dt]) c
  = setGame c (updWorld (fun w => setDeltaTime w dt) (game c)).
Proof.
  induction dts as [|d dts IH]; intros dt c Hre Hin Hpl Hdy; simpl.
  - by apply controllerUpdate_idle.
  - rewrite (controllerUpdate_idle d c Hre Hin Hpl Hdy). by rewrite IH.
Qed.

End Idle.

(** [X30] Outside play nothing happens.  With no restart and no input
    pending, updates of a game that is ready, paused, won or lost run no
    system, dispatch nothing and leave the mode timer alone: after any
    number of them the controller is as it was, but for the frame time
    recorded by the last one.  [pause] takes a game in play to [Paused] and
    dispatches [game:paused]; after any number of updates [resume] brings
    back the world that was paused (with the last frame time) and
    dispatches [game:resumed]; the closure state of the systems and the mode
    timer are as before the pause.  [pause], [resume] and [start] do nothing
    in any state but [Playing], [Paused] and [Ready] respectively. *)
Theorem idle_and_paused_games (c : Controller) (dts : list Q) (dt : Q) :
  needsReinit (ctrlSt (game c)) = false →
  inputSt (game c) = noInput →
  let run := fold_left (fun c' d => controllerUpdate d c') (dts ++ [dt]) in
  let st := getGameState (world (game c)) in
  (st ≠ Playing → st ≠ Dying →
     run c = setGame c (updWorld (fun w => setDeltaTime w dt) (game c)))
  ∧ (st = Playing →
     getGameState (world (game (pause c))) = Paused
     ∧ newEvents (game c) (game (pause c)) = [GAME_PAUSED]
     ∧ world (game (resume (run (pause c)))) = setDeltaTime (world (game c)) dt
     ∧ newEvents (game c) (game (resume (run (pause c)))) = [GAME_PAUSED; GAME_RESUMED]
     ∧ inputSt (game (resume (run (pause c)))) = inputSt (game c)
     ∧ aiSt (game (resume (run (pause c)))) = aiSt (game c)
     ∧ powerUpSt (game (resume (run (pause c)))) = powerUpSt (game c)
     ∧ ctrlSt (game (resume (run (pause c)))) = ctrlSt (game c)
     ∧ modeTimer (resume (run (pause c))) = modeTimer c
     ∧ isScatterMode (resume (run (pause c))) = isScatterMode c)
  ∧ (st ≠ Playing → pause c = c)
  ∧ (st ≠ Paused → resume c = c)
  ∧ (st ≠ Ready → start c = c)
  ∧ (st = Ready →
     getGameState (world (game (start c))) = Playing
     ∧ newEvents (game c) (game (start c)) = [GAME_STARTED]).
Proof.
  intros Hre Hin run st.
  assert (Hsilent : ∀ e g, e = GAME_PAUSED ∨ e = GAME_RESUMED ∨ e = GAME_STARTED →
            dispatch e g = logEvent g e).
  { intros e g He. apply dispatch_silent. intros h g'.
    destruct He as [-> | [-> | ->]]; by destruct h. }
  split_and!.
  - intros Hpl Hdy. unfold run. by apply controllerUpdates_idle.
  - intros Hst. unfold st in Hst.
    set (p := pause c).
    assert (Hp : p = setGame c (logEvent (updWorld (fun w => setGameState w Paused) (game c))
                                  GAME_PAUSED)).
    { unfold p, pause. rewrite decide_True by done. rewrite Hsilent; [done|by left]. }
    assert (Hrun : run p = setGame p (updWorld (fun w => setDeltaTime w dt) (game p))).
    { unfold run. apply controllerUpdates_idle; rewrite Hp; try done. }
    assert (Hres : resume (run p)
                   = setGame (run p)
                       (logEvent (updWorld (fun w => setGameState w Playing) (game (run p)))
                          GAME_RESUMED)).
    { unfold resume. rewrite decide_True; [|by rewrite Hrun, Hp].
      rewrite Hsilent; [done|right; by left]. }
    rewrite Hres, Hrun, Hp. unfold newEvents. simpl.
    rewrite !drop_app_length.
    replace (drop (length (trace (game c)))
               ((trace (game c) ++ [GAME_PAUSED]) ++ [GAME_RESUMED]))
      with [GAME_PAUSED; GAME_RESUMED]
      by (rewrite <- app_assoc; by rewrite drop_app_length).
    split_and!; try done.
    unfold getGameState in Hst.
    destruct (world (game c)) as [e il gs sc lv ll pt d gst]. simpl in *. by subst gs.
  - intros H. unfold pause. by rewrite decide_False.
  - intros H. unfold resume. by rewrite decide_False.
  - intros H. unfold start. by rewrite decide_False.
  - intros Hst. unfold st in Hst. unfold start. rewrite decide_True by done.
    rewrite Hsilent by (by right; right). unfold newEvents. simpl.
    by rewrite drop_app_length.
Qed.

(** An instance: the level just built is paused after being started, three
    frames pass, and it is resumed. *)
Lemma idle_and_paused_games_witness :
  world (game (resume
    (fold_left (fun c' d => controllerUpdate d c') [16; 16; 17]%Q
       (pause (start (init (createGameController (fun _ => 0%nat))))))))
  = setDeltaTime (world (game (start (init (createGameController (fun _ => 0%nat))))))
      17.
Proof.
  destruct (idle_and_paused_games
              (start (init (createGameController (fun _ => 0%nat))))
              [16; 16]%Q 17) as (_ & Hpause & _).
  - by vm_compute.
  - by vm_compute.
  - destruct Hpause as (_ & _ & Hw & _); [by vm_compute|]. exact Hw.
Defined.

(* ================================================================== *)
(** * Further properties of the collision system *)
(* ================================================================== *)

Section CollisionMore.

Implicit Types (g : Game) (w : World) (x z : EntityId).

Lemma eatGhost_mode g x (ai : GhostAI) :
  isAlive (entities (world g)) x = true →
  wGet (world g) x ghostAI = Some ai →
  wGet (world (eatGhost g x)) x ghostAI
  = Some (mkGhostAI (type ai) Eaten (scatterTarget ai)).
Proof.
  intros Ha Hai. unfold eatGhost.
  set (g1 := updWorld incrementGhostEatenStreak g).
  set (pts := ghostPoints (getGhostEatenStreak (world g1))).
  set (g2 := updWorld (fun w => addScore w pts) g1).
  set (g3 := updWorld (fun w => wRemove w x vulnerable) g2).
  assert (H2 : entities (world g2) = entities (world g)).
  { unfold g2, g1. simpl. unfold addScore. by destruct (0 <? pts). }
  assert (Hrm : ∀ w, wGet (wRemove w x vulnerable) x ghostAI = wGet w x ghostAI).
  { intros w. unfold wGet, wRemove. simpl.
    by rewrite getComponent_remove_other_type. }
  assert (H3 : wGet (world g3) x ghostAI = Some ai).
  { change (world g3) with (wRemove (world g2) x vulnerable). rewrite Hrm.
    unfold wGet. rewrite H2. exact Hai. }
  assert (Ha3 : isAlive (entities (world g3)) x = true).
  { change (entities (world g3))
      with (removeComponent (entities (world g2)) x vulnerable).
    unfold isAlive.
    change (aliveEntities (removeComponent (entities (world g2)) x vulnerable))
      with (aliveEntities (entities (world g2))).
    by rewrite H2. }
  cbv zeta. fold g1. fold pts. fold g2. fold g3. rewrite H3.
  unfold wGet. rewrite dispatch_entities.
  by apply (getComponent_add_same _ x ghostAI).
Qed.

(** After a run of distinct live ghosts has been eaten, each of them is in
    eaten mode and none is vulnerable. *)
Lemma eatGhosts_mode pre : ∀ g,
  NoDup pre →
  (∀ z, z ∈ pre → isAlive (entities (world g)) z = true
                  ∧ is_Some (wGet (world g) z ghostAI)) →
  ∀ z, z ∈ pre →
    getGhostMode (world (fold_left eatGhost pre g)) z = Some Eaten
    ∧ isGhostVulnerable (world (fold_left eatGhost pre g)) z = false.
Proof.
  induction pre as [|x pre IH]; intros g Hnd Hpre z Hz.
  - by apply elem_of_nil in Hz.
  - apply NoDup_cons in Hnd as [Hx Hnd]. simpl.
    destruct (eatGhost_spec g x)
      as (_ & _ & _ & _ & _ & _ & _ & Hal & Hv & Ho & _).
    destruct (eatGhosts_spec pre (eatGhost g x) Hnd)
      as (_ & _ & _ & _ & _ & _ & _ & _ & Hrest & _).
    apply elem_of_cons in Hz as [->|Hz].
    + destruct (Hpre x) as [Ha [ai Hai]]; [by left|].
      unfold getGhostMode, isGhostVulnerable.
      rewrite !Hrest by done. rewrite (eatGhost_mode g x ai Ha Hai), Hv. done.
    + apply IH; try done. intros y Hy.
      assert (y ≠ x) by (by intros ->).
      destruct (Hpre y) as [Ha Hai]; [by right|].
      unfold isAlive. rewrite Hal. by rewrite Ho.
Qed.

End CollisionMore.

(** [X16] An eaten ghost is harmless.  In play, when every ghost that touches
    the player is in eaten mode, the collision system changes nothing and
    dispatches nothing: such a ghost neither kills the player nor is eaten
    again.  When every ghost that touches the player without being in eaten
    mode is vulnerable, the collision system leaves each of them in eaten
    mode and not vulnerable, keeps every position, and running it once more
    changes nothing. *)
Theorem eaten_ghosts_are_harmless (g : Game) (playerId : EntityId) :
  getGameState (world g) = Playing →
  getPlayerEntity (world g) = Some playerId →
  NoDup (aliveEntities (entities (world g))) →
  let ghosts := collidingGhosts (world g) playerId in
  let g' := collisionUpdate g in
  ((∀ z, z ∈ getGhostEntities (world g) → areColliding (world g) playerId z = true →
          getGhostMode (world g) z = Some Eaten) →
     g' = g)
  ∧ (Forall (fun z => isGhostVulnerable (world g) z = true) ghosts →
     (∀ z, z ∈ ghosts →
        getGhostMode (world g') z = Some Eaten
        ∧ isGhostVulnerable (world g') z = false)
     ∧ (∀ z, wGet (world g') z position = wGet (world g) z position)
     ∧ collidingGhosts (world g') playerId = []
     ∧ collisionUpdate g' = g').
Proof.
  intros Hst Hp Hnd ghosts g'.
  assert (Hupd : g' = processCollisions ghosts g).
  { unfold g'. by rewrite (collisionUpdate_playing g playerId). }
  split.
  - intros Hall. rewrite Hupd.
    assert (ghosts = []) as ->; [|done].
    apply elem_of_nil_inv. intros z Hz. unfold ghosts, collidingGhosts in Hz.
    apply list_elem_of_filter in Hz as [Hc Hz].
    destruct (decide (getGhostMode (world g) z = Some Eaten)) as [|Hne]; [done|].
    apply Hne. by apply Hall.
  - intros Hv.
    assert (Hndg : NoDup ghosts) by (by apply NoDup_collidingGhosts).
    assert (Hg' : g' = fold_left eatGhost ghosts g).
    { rewrite Hupd. rewrite <- (app_nil_r ghosts) at 1.
      by rewrite processCollisions_eat_prefix. }
    destruct (eatGhosts_spec ghosts g Hndg)
      as (_ & _ & _ & _ & _ & Hgs & _ & Hal & Hother & Htype).
    rewrite <- Hg' in Hgs, Hal, Hother, Htype.
    assert (Hmode : ∀ z, z ∈ ghosts →
              getGhostMode (world g') z = Some Eaten
              ∧ isGhostVulnerable (world g') z = false).
    { intros z Hz. rewrite Hg'. apply eatGhosts_mode; try done.
      intros y Hy. unfold ghosts, collidingGhosts in Hy.
      apply list_elem_of_filter in Hy as [_ Hy].
      by apply elem_of_getGhostEntities in Hy. }
    assert (Hpos : ∀ z, wGet (world g') z position = wGet (world g) z position).
    { intros z. by apply Htype. }
    assert (Hghosts : getGhostEntities (world g') = getGhostEntities (world g)).
    { unfold getGhostEntities, wQuery, getEntitiesWithComponents. rewrite Hal.
      apply filter_ext_elem. intros z Hz. simpl. rewrite !andb_true_r.
      change (hasComponent (entities (world g')) z ghostAI)
        with (wHas (world g') z ghostAI).
      change (hasComponent (entities (world g)) z ghostAI)
        with (wHas (world g) z ghostAI).
      rewrite !wHas_true.
      destruct (decide (z ∈ ghosts)) as [Hin|Hnin].
      - split; intros _.
        + unfold ghosts, collidingGhosts in Hin.
          apply list_elem_of_filter in Hin as [_ Hin].
          by apply elem_of_getGhostEntities in Hin as [_ ?].
        + destruct (Hmode z Hin) as [Hm _]. unfold getGhostMode in Hm.
          destruct (wGet (world g') z ghostAI); [by eexists|done].
      - by rewrite Hother. }
    assert (Hnone : collidingGhosts (world g') playerId = []).
    { apply elem_of_nil_inv. intros z Hz. unfold collidingGhosts in Hz.
      apply list_elem_of_filter in Hz as [Hc Hz].
      destruct (decide (getGhostMode (world g') z = Some Eaten)) as [|Hne]; [done|].
      assert (Hnin : z ∉ ghosts).
      { intros Hin. by apply Hne, Hmode. }
      apply Hnin. unfold ghosts, collidingGhosts. apply list_elem_of_filter.
      rewrite Hghosts in Hz. split; [|done].
      unfold getGhostMode in Hne |- *. rewrite Hother in Hne by done.
      rewrite decide_False by done.
      unfold areColliding in Hc |- *. by rewrite !Hpos in Hc. }
    split_and!; try done.
    assert (Hp' : getPlayerEntity (world g') = Some playerId).
    { rewrite <- Hp. unfold getPlayerEntity, wQuery. f_equal.
      apply query_ext; [done|]. intros z t Ht.
      apply list_elem_of_singleton in Ht as ->. by apply (Htype z playerControlled). }
    rewrite (collisionUpdate_playing g' playerId);
      [|unfold getGameState; by rewrite Hgs|done].
    by rewrite Hnone.
Qed.

(** An instance: the four vulnerable ghosts on the player are eaten once. *)
Lemma eaten_ghosts_are_harmless_witness :
  collisionUpdate (collisionUpdate fourVulnerableGhostsOnPlayer)
  = collisionUpdate fourVulnerableGhostsOnPlayer.
Proof.
  destruct (eaten_ghosts_are_harmless fourVulnerableGhostsOnPlayer 0%nat)
    as [_ H].
  - by vm_compute.
  - by vm_compute.
  - apply (bool_decide_unpack _). by vm_compute.
  - destruct H as (_ & _ & _ & Hidem); [|exact Hidem].
    apply (bool_decide_unpack _). by vm_compute.
Defined.

